(* ===== verification/_CoqProject ===== *)
-Q . S2P
Prelude.v
CString.v
Options.v
Pattern.v
UriPath.v
UrlCodec.v
BlockHash.v
Md5.v
Sha1.v
Base64.v
SocketQueue.v
Sockets.v
HttpRequest.v
Scanf.v
Access.v
Conn.v
WebSocket.v
Os.v
Auth.v
Files.v
Connection.v
Put.v
Upload.v
Listing.v
Ssi.v
Cgi.v
Server.v
Frame.v
Progress.v
GetField.v
GetCookie.v
Tinyweb.v
Process.v
Ssl.v
Start.v
Worker.v
CgiProcess.v
Main.v
Twins.v
Isolation.v
Unused.v
Client.v
WinThreads.v
MemFiles.v
WinFiles.v
WinProcess.v
