(* ===== verification/Prelude.v ===== *)
(** * Tinyweb: a verification development

    Tinyweb is a web server in C: the library src/mongoose.c with its interface
    src/mongoose.h, the program src/tinyweb.c that starts it, the websocket handlers of
    src/websocket.c, and two tools for CGI scripts, src/cgi-getfield.c and
    src/cgi-getcookie.c.  It is compiled with [USE_WEBSOCKET] and with assertions.

    ** The program and its model

    tinyweb reads its options from a file and the command line and calls [mg_start],
    which checks them, opens the listening sockets and starts a master and some worker
    threads.  The master accepts connections, checks their addresses and puts them into
    a ring of twenty sockets.  A worker takes a socket and serves its requests one after
    the other: it reads a request into the 16 KB buffer of its connection, parses it,
    checks it and gives it to [handle_request], which maps the URI to a file, asks for
    a login where password files or PUT and DELETE demand one, and sends a file, a
    directory listing, the output of a CGI program or a page with includes, stores a
    body or talks websocket.

    The model is a translation of the functions, one definition for each and one more
    for every loop, with the names of the source.  Bytes are numbers from 0 to 255,
    C strings lists of them up to the NUL, [NULL] is [None]; integers are unbounded
    where they cannot overflow and otherwise wrapped with [int32], [int64], [wrap32].
    Buffers that are written by index are lists of fixed length.  Functions of a
    connection are computations in the monad [Conn.M] over a world that holds the
    connection and the script of its environment: the pieces in which input arrives and
    the errors, how much each [send] takes, the clock, the results of [malloc], the
    reads of the stop flag; and the record of what has been sent and of the effects on
    files and processes.  [None] is a failed assertion.

    ** Files

    - Foundations.  Prelude: bytes, tactics, hints, lemmas on lists and words.  CString:
      the string helpers.  Options: the option table and the option loop of [mg_start],
      [next_option].  Pattern: [match_prefix], [must_hide_file].  UriPath:
      [remove_double_dots_and_double_slashes].  UrlCodec: URL coding, [mg_get_var],
      [mg_get_cookie].  Scanf: [sscanf], [strtoll], decimal printing.
    - Hashes and coding.  BlockHash, Md5, Sha1, Base64: the code of mongoose.c on
      machines of either byte order, against RFC 1321 and FIPS 180.
    - Threads.  SocketQueue: the ring, and master, workers, mutex and condition
      variables as a step relation.  Sockets: a ledger of the accepted sockets.
    - Requests and connections.  HttpRequest: the parser.  Access: access control,
      throttling rules, ports.  Conn: the connection, the world, reading, writing and
      error replies.  Os: the class of system calls, [mg_stat], [mg_fopen], [cry].
      Connection: [read_request], [getreq], [process_new_connection], the access log,
      over the class [RequestHandler].
    - Handlers.  Auth: digest authentication and password files.  Files: MIME types,
      dates, ranges, file replies.  Put: request bodies and PUT.  Upload: [mg_upload].
      Listing: directory listings, PROPFIND, OPTIONS.  Ssi: server side includes.  Cgi:
      CGI programs.  WebSocket: handshake, frames, the handlers of websocket.c.
      Server: URI to file, [handle_request], an instance of [RequestHandler].
    - The whole server.  Frame: what a request may do.  Progress: that connections end
      and what handlers are given, for every handler of the class [CalmHandler], of
      which the dispatcher is an instance.  Twins, Isolation: what a worker does does not
      depend on the connections it has served, for every handler of the class
      [IsolatedHandler], the dispatcher among them.  Client: [mg_connect] and [mg_download], over
      the class [Dialer].
    - Start and stop.  Process: memory, descriptors and the static variables of the SSL
      code, the monad [Process.P] in which a misuse of them is [None], and rules for what
      a computation owns.  Ssl: the SSL code over the class [SslLib].  Start: [mg_start],
      [free_context], [mg_stop], over the class [Net].  Worker: accepting, the poll loop
      and [worker_thread], on the process and a connection together.  CgiProcess:
      [handle_cgi_request] with its pipes and its child, a refinement of [Cgi].
    - Files in memory.  MemFiles: [struct file] and the functions that use it when the
      callback [open_file] is set.  Without it they are those of Os, Files, Auth and Ssi.
    - Windows.  WinThreads: condition variables made of events, and the ring of sockets
      with them.  WinFiles: names, times, [mg_stat], directories, over the class
      [Windows].  WinProcess: handles, [poll], interpreter lines, [spawn_process], over the
      class [WinProc].
    - Programs.  Tinyweb: command line and configuration file.  Main: [main] of
      tinyweb.c.  GetField, GetCookie: the CGI tools.  Unused: the handlers of
      webservice.c and echo.c.

    ** Theorems

    The numbered claims are in the files, each with its statement in words.
    - Security: files change only for those who have logged in for it (C1), guarded
      paths answer with a challenge (C2), a connection sees nothing of those that its
      worker served before (C3, with the exceptions [stale_bytes_forwarded] and
      [stale_headers_in_error]), decoded URIs do not leave the document root
      (C4), who is let in (C5, C6) and from where (C30), password files stay hidden
      (C20), and on Windows files are not found under names that end in garbage
      (C21), but the stream ::$DATA of a script is ([default_stream_passes]).
    - Connections and threads: every connection ends (C7) unless lengths overflow, and
      then it does not ([endless_request]); handlers are given complete, checked requests (C8);
      sockets are not reordered (C9), wake-ups are not lost (C10) and every accepted
      socket is in one place (C12) while the server runs, but a shutdown can deadlock
      ([stop_deadlock]) and lose sockets; on Windows, too, sockets are not reordered and
      the workers do not all sleep (C11), but signals merge ([win_signal_lost]) and the
      end can be missed ([win_stop_hangs]); one request follows the other (C18), but an unread body
      is taken for a request (C40).
    - Resources: a start and a stop balance, on every error path (C13); a worker closes what
      it is given (C14), a CGI request what it opens (C15),
      and on Windows the same holds of the handles of programs (C16) and of directories (C17); the program from the command line to its exit (C32).
    - Data: requests, forms, cookies, options, dates, URLs and uploads are read as they
      are written; bodies, files and replies arrive whole whatever the pieces, up to a
      client that downloads what the server sends (C28).
    - Equivalence: the pattern matcher with its language, the unrolled hash functions
      with the published algorithms, the directory listing with the sorted list of
      visible entries, the password file with a table, a file in memory with one on disk (C27).
    - Errors and bounds: a CGI environment fits its block, server side includes stay in
      their buffer, a websocket upgrade with a body aborts the server
      ([ws_upgrade_with_body_aborts]).

    ** Rounds of loops

    Loops that are not structural take a bound.  Either it is computed from the input
    and shown to be enough: [Put.forward_rest], [Upload.body_rounds] and the loops of
    [Conn] use the bytes that can still arrive, [Connection.read_request] the size of
    the buffer, [Pattern.match_prefix] the length of the pattern, the string scanners
    the length of the string, [Ssi] the ten levels of includes that the source allows;
    or it is an argument, as for [process_new_connection] and [getcookie_loop], with a
    theorem that says which value is enough ([connection_ends],
    [getcookie_loop_ends]).  The frame loop of a websocket takes a bound that only cuts
    the conversation.

    ** What is not modelled

    - The functions of OpenSSL: a class.  Data that goes through SSL is read and written
      like any other.
    - The functions of Windows: classes, with no laws but those of ASCII names.  The rest
      of the server is modelled as it is compiled on Unix.
    - What [poll] and [accept] deliver, signals, and when they arrive: parameters.  The
      strings that tinyweb.c copies for [mg_start] and frees after it.
    - The file system changes while a request is served: a handler sees the files as
      they are when it starts, and its own changes are effects.
    - Stale pointers into the buffer after a failed request are the strings they
      pointed to; the printing of doubles is exact to a tenth; the numbers of the
      throttle option are a class of doubles without laws.
    - busybox, the Android application and the build tools.

    ** State

    The functions of the C sources that compute or change state are modelled.  What is
    left are declarations, functions of one constant or one call of the system
    ([mg_version], [set_close_on_exec], [set_non_blocking_mode], [mg_start_thread] on Unix,
    [gmt_time_string], [sdup]) and debugging output. *)

From Stdlib Require Export ZArith Lia Ascii.
From stdpp Require Export base list numbers strings.

#[global] Open Scope Z_scope.

(** ** Bytes and C strings

    A [char] or [unsigned char] is a [Z] between 0 and 255, a block of memory
    is a list of them, and a C string is its list of bytes up to, and not
    including, the terminating NUL. *)

Abbreviation bytes := (list Z).

Definition is_byte (c : Z) : Prop := 0 <= c < 256.
Definition is_char (c : Z) : Prop := 0 < c < 256.
Abbreviation cstr := (Forall is_char).

#[export] Instance is_byte_dec c : Decision (is_byte c).
Proof. unfold is_byte. apply _. Defined.
#[export] Instance is_char_dec c : Decision (is_char c).
Proof. unfold is_char. apply _. Defined.

(** String literals of the source as byte lists. *)
Definition B (s : string) : bytes :=
  map (fun a => Z.of_N (N_of_ascii a)) (String.list_ascii_of_string s).
Arguments B _%_string.

(** [*s] for a pointer into a C string: 0 at its end. *)
Definition chr (s : bytes) : Z := default 0 (head s).
(** [s[i]] for a pointer into a C string or a buffer. *)
Definition at_ (s : bytes) (i : nat) : Z := default 0 (s !! i).

(** Character constants of the source. *)
Abbreviation c_tab := 9 (only parsing).
Abbreviation c_lf := 10 (only parsing).
Abbreviation c_cr := 13 (only parsing).
Abbreviation c_space := 32 (only parsing).
Abbreviation c_dquote := 34 (only parsing).
Abbreviation c_hash := 35 (only parsing).
Abbreviation c_dollar := 36 (only parsing).
Abbreviation c_percent := 37 (only parsing).
Abbreviation c_amp := 38 (only parsing).
Abbreviation c_squote := 39 (only parsing).
Abbreviation c_star := 42 (only parsing).
Abbreviation c_plus := 43 (only parsing).
Abbreviation c_comma := 44 (only parsing).
Abbreviation c_minus := 45 (only parsing).
Abbreviation c_dot := 46 (only parsing).
Abbreviation c_slash := 47 (only parsing).
Abbreviation c_colon := 58 (only parsing).
Abbreviation c_semi := 59 (only parsing).
Abbreviation c_lt := 60 (only parsing).
Abbreviation c_eq := 61 (only parsing).
Abbreviation c_gt := 62 (only parsing).
Abbreviation c_quest := 63 (only parsing).
Abbreviation c_bslash := 92 (only parsing).
Abbreviation c_bquote := 96 (only parsing).
Abbreviation c_bar := 124 (only parsing).

(** ** <ctype.h> in the "C" locale (the program never calls [setlocale]) *)

Definition isdigit (c : Z) : bool := (48 <=? c) && (c <=? 57).
Definition isupper (c : Z) : bool := (65 <=? c) && (c <=? 90).
Definition islower (c : Z) : bool := (97 <=? c) && (c <=? 122).
Definition isalpha (c : Z) : bool := isupper c || islower c.
Definition isalnum (c : Z) : bool := isalpha c || isdigit c.
Definition isxdigit (c : Z) : bool :=
  isdigit c || ((65 <=? c) && (c <=? 70)) || ((97 <=? c) && (c <=? 102)).
Definition isspace (c : Z) : bool := (c =? 32) || ((9 <=? c) && (c <=? 13)).
Definition isprint (c : Z) : bool := (32 <=? c) && (c <=? 126).
Definition tolower (c : Z) : Z := if isupper c then c + 32 else c.
Definition toupper (c : Z) : Z := if islower c then c - 32 else c.

(** ** Machine integers *)

Definition wrap8 (z : Z) : Z := z mod 2 ^ 8.
Definition wrap16 (z : Z) : Z := z mod 2 ^ 16.
Definition wrap32 (z : Z) : Z := z mod 2 ^ 32.
Definition wrap64 (z : Z) : Z := z mod 2 ^ 64.
(** Conversion to [int] and to [int64_t] (two's complement, as gcc does it). *)
Definition int32 (z : Z) : Z := (z + 2 ^ 31) mod 2 ^ 32 - 2 ^ 31.
Definition int64 (z : Z) : Z := (z + 2 ^ 63) mod 2 ^ 64 - 2 ^ 63.
Definition INT_MAX : Z := 2 ^ 31 - 1.
Definition INT64_MAX : Z := 2 ^ 63 - 1.

(** ** <string.h> on byte lists *)

(** [c] is one of the bytes of the set [set] (a C string of characters). *)
Definition mem (c : Z) (set : bytes) : bool := existsb (Z.eqb c) set.

(** Length of the initial segment with no byte of [reject]. *)
Fixpoint strcspn (s reject : bytes) : nat :=
  match s with
  | [] => 0
  | c :: s' => if mem c reject then 0 else S (strcspn s' reject)
  end%nat.

(** Length of the initial segment made of bytes of [accept]. *)
Fixpoint strspn (s accept : bytes) : nat :=
  match s with
  | [] => 0
  | c :: s' => if mem c accept then S (strspn s' accept) else 0
  end%nat.

(** [strchr] and [memchr]: the offset of the first [c], if any. *)
Fixpoint find_byte (c : Z) (s : bytes) : option nat :=
  match s with
  | [] => None
  | d :: s' => if d =? c then Some 0%nat else S <$> find_byte c s'
  end.

(** [strrchr]: the offset of the last [c], if any. *)
Fixpoint find_last (c : Z) (s : bytes) : option nat :=
  match s with
  | [] => None
  | d :: s' =>
      match find_last c s' with
      | Some i => Some (S i)
      | None => if d =? c then Some 0%nat else None
      end
  end.

(** [!strcmp(a, b)] and the sign-carrying [strcmp(a, b)]. *)
Definition streq (a b : bytes) : bool := bool_decide (a = b).

Fixpoint strcmp (a b : bytes) : Z :=
  match a, b with
  | [], [] => 0
  | [], d :: _ => - d
  | c :: _, [] => c
  | c :: a', d :: b' => if c =? d then strcmp a' b' else c - d
  end.

(** The C string that starts at offset [i] of a buffer. *)
Fixpoint until_nul (s : bytes) : bytes :=
  match s with
  | [] => []
  | c :: s' => if c =? 0 then [] else c :: until_nul s'
  end.
Definition cstr_at (buf : bytes) (i : nat) : bytes := until_nul (drop i buf).

(** [memcmp(a, b, n) == 0] for a literal [b] of length [n]; the bytes of [a]
    past the end of its list are never equal to those of [b]. *)
Definition starts_with (a b : bytes) : bool := bool_decide (take (length b) a = b).

(** [memcpy(mem + off, src, length src)]. *)
Definition splice (mem : bytes) (off : nat) (src : bytes) : bytes :=
  take off mem ++ src ++ drop (off + length src) mem.

(** The fields of [s] between separators [d]: never the empty list. *)
Fixpoint split_on (d : Z) (s : bytes) : list bytes :=
  match s with
  | [] => [[]]
  | c :: s' =>
      if c =? d then [] :: split_on d s'
      else match split_on d s' with
           | f :: fs => (c :: f) :: fs
           | [] => [[c]]
           end
  end.

(** ** Tactics *)

(** Case analysis on the tests of the goal, then the equations cleaned up. *)
Ltac case_tests :=
  repeat (case_match; simplify_eq; try done).

(** Linear arithmetic after unfolding the integer and character predicates. *)
Ltac byte_lia :=
  unfold tolower, toupper, isalnum, isxdigit, isalpha, isdigit, isupper, islower,
    isspace, isprint, is_byte, is_char, wrap8, wrap16, wrap32, wrap64, int32, int64,
    INT_MAX, INT64_MAX in *;
  repeat case_match; lia.

(** Decide a closed goal by evaluation. *)
Ltac by_eval := vm_compute; first [reflexivity | done | lia].

(** Decide a closed goal by running its decision procedure. *)
Ltac by_decide := apply (bool_decide_unpack _); vm_compute; exact I.

(** ** Hints *)

Create HintDb tw.
Create Rewrite HintDb tw_len.

(** ** Lemmas on byte lists *)

Lemma at_0 x (l : bytes) : at_ (x :: l) 0 = x.
Proof. done. Qed.
Lemma at_S x (l : bytes) i : at_ (x :: l) (S i) = at_ l i.
Proof. done. Qed.

Lemma is_char_byte c : is_char c -> is_byte c.
Proof. unfold is_char, is_byte. lia. Qed.

Lemma cstr_bytes s : cstr s -> Forall is_byte s.
Proof. intros H. eapply Forall_impl; [exact H|apply is_char_byte]. Qed.

Lemma cstr_app a b : cstr (a ++ b) <-> cstr a /\ cstr b.
Proof. apply Forall_app. Qed.

Lemma tolower_byte c : is_byte c -> is_byte (tolower c).
Proof. byte_lia. Qed.

Lemma tolower_0 c : tolower c = 0 <-> c = 0.
Proof. byte_lia. Qed.

Lemma tolower_idem c : tolower (tolower c) = tolower c.
Proof. unfold tolower, isupper. repeat case_match; lia. Qed.

Lemma mem_true c s : mem c s = true <-> c ∈ s.
Proof.
  unfold mem. rewrite existsb_exists. setoid_rewrite <- list_elem_of_In. split.
  - intros (x & Hx & E). apply Z.eqb_eq in E. by subst.
  - intros H. exists c. split; [done|apply Z.eqb_refl].
Qed.

Lemma mem_false c s : mem c s = false <-> c ∉ s.
Proof. rewrite <- mem_true. destruct (mem c s); split; congruence. Qed.

Lemma streq_true a b : streq a b = true <-> a = b.
Proof. apply bool_decide_eq_true. Qed.

Lemma streq_refl a : streq a a = true.
Proof. by apply streq_true. Qed.

Lemma strcmp_0 a b : cstr a -> cstr b -> strcmp a b = 0 <-> a = b.
Proof.
  revert b. induction a as [|c a IH]; intros [|d b] Ha Hb; simpl.
  - done.
  - apply Forall_cons in Hb as [Hd _]. unfold is_char in Hd. split; [lia|done].
  - apply Forall_cons in Ha as [Hc _]. unfold is_char in Hc. split; [lia|done].
  - apply Forall_cons in Ha as [_ Ha]. apply Forall_cons in Hb as [_ Hb].
    destruct (Z.eqb_spec c d) as [->|Hne].
    + rewrite IH by done. split; congruence.
    + split; [lia|]. intros [= E _]. done.
Qed.

Lemma strcspn_le s r : (strcspn s r <= length s)%nat.
Proof. induction s as [|c s IH]; simpl; [lia|]. case_match; lia. Qed.

Lemma strspn_le s r : (strspn s r <= length s)%nat.
Proof. induction s as [|c s IH]; simpl; [lia|]. case_match; lia. Qed.

Lemma strcspn_app w d r rest :
  Forall (fun c => mem c r = false) w -> mem d r = true ->
  strcspn (w ++ d :: rest) r = length w.
Proof.
  intros Hw Hd. induction Hw as [|c w Hc _ IH]; simpl; [by rewrite Hd|].
  by rewrite Hc, IH.
Qed.

Lemma strcspn_all w r :
  Forall (fun c => mem c r = false) w -> strcspn w r = length w.
Proof. intros Hw. induction Hw as [|c w Hc _ IH]; simpl; [done|]. by rewrite Hc, IH. Qed.

Lemma strcspn_take s r : Forall (fun c => mem c r = false) (take (strcspn s r) s).
Proof. induction s as [|c s IH]; simpl; [done|]. case_match; simpl; auto. Qed.

Lemma strspn_app w d r rest :
  Forall (fun c => mem c r = true) w -> mem d r = false ->
  strspn (w ++ d :: rest) r = length w.
Proof.
  intros Hw Hd. induction Hw as [|c w Hc _ IH]; simpl; [by rewrite Hd|].
  by rewrite Hc, IH.
Qed.

Lemma find_byte_Some c s i :
  find_byte c s = Some i <-> s !! i = Some c /\ c ∉ take i s.
Proof.
  revert i. induction s as [|d s IH]; intros i; simpl.
  - rewrite lookup_nil. split; [done|by intros []].
  - destruct (Z.eqb_spec d c) as [->|Hne].
    + split.
      * intros [= <-]. split; [done|apply not_elem_of_nil].
      * intros [_ Hn]. destruct i as [|i]; [done|]. simpl in Hn.
        exfalso. apply Hn. by left.
    + destruct i as [|i]; simpl.
      * split; [by destruct (find_byte c s)|]. intros [[= ?] _]. done.
      * rewrite not_elem_of_cons. split.
        -- intros H. apply fmap_Some in H as (j & Hj & [= ->]).
           apply IH in Hj as []. repeat split; auto.
        -- intros (Hs & Hd & Hn). by rewrite (proj2 (IH i)) by done.
Qed.

Lemma find_byte_None c s : find_byte c s = None <-> c ∉ s.
Proof.
  induction s as [|d s IH]; simpl.
  - split; [intros _; apply not_elem_of_nil|done].
  - rewrite not_elem_of_cons. destruct (Z.eqb_spec d c) as [->|Hne]; [split; [done|by intros [? _]]|].
    rewrite fmap_None, IH. split; [|tauto]. intros Hs. split; [congruence|done].
Qed.

Lemma find_byte_app c w rest : c ∉ w -> find_byte c (w ++ c :: rest) = Some (length w).
Proof.
  intros H. apply find_byte_Some. split.
  - by rewrite list_lookup_middle.
  - by rewrite take_app_length.
Qed.

Lemma find_byte_lt c s i : find_byte c s = Some i -> (i < length s)%nat.
Proof. intros H. apply find_byte_Some in H as [H _]. by eapply lookup_lt_Some. Qed.

Lemma find_byte_cut c s :
  c ∉ s \/
  (exists w rest, s = w ++ c :: rest /\ (c ∉ w) /\ find_byte c s = Some (length w)).
Proof.
  destruct (find_byte c s) as [i|] eqn:E; [right|left; by apply find_byte_None].
  pose proof E as E'. apply find_byte_Some in E' as [Hl Hn].
  exists (take i s), (drop (S i) s). split_and!; [|done|].
  - by rewrite take_drop_middle.
  - rewrite length_take. apply lookup_lt_Some in Hl. by rewrite Nat.min_l by lia.
Qed.

(** Induction on the length of a list. *)
Lemma list_len_ind {A} (P : list A -> Prop) :
  (forall l, (forall l', (length l' < length l)%nat -> P l') -> P l) -> forall l, P l.
Proof.
  intros H l. assert (forall n l, (length l < n)%nat -> P l) as Hn.
  { clear l. induction n as [|n IH]; intros l Hl; [lia|]. apply H.
    intros l' Hl'. apply IH. lia. }
  apply (Hn (S (length l))). lia.
Qed.

Lemma split_on_nonempty d s : split_on d s <> [].
Proof. destruct s as [|c s]; simpl; [done|]. case_match; [done|]. by case_match. Qed.

Lemma split_on_none d s : d ∉ s -> split_on d s = [s].
Proof.
  induction s as [|c s IH]; simpl; [done|]. rewrite not_elem_of_cons. intros [Hc Hs].
  destruct (Z.eqb_spec c d); [congruence|]. by rewrite IH.
Qed.

Lemma split_on_app d f s : d ∉ f -> split_on d (f ++ d :: s) = f :: split_on d s.
Proof.
  induction f as [|c f IH]; simpl.
  - by rewrite Z.eqb_refl.
  - rewrite not_elem_of_cons. intros [Hc Hs].
    destruct (Z.eqb_spec c d); [congruence|]. by rewrite IH.
Qed.

Lemma split_on_fields d s : Forall (fun f => d ∉ f) (split_on d s).
Proof.
  induction s as [|c s IH]; simpl.
  - repeat constructor. apply not_elem_of_nil.
  - destruct (Z.eqb_spec c d) as [->|Hne].
    + constructor; [apply not_elem_of_nil|done].
    + destruct (split_on d s) as [|f fs]; simpl.
      * repeat constructor. apply not_elem_of_cons. split; [congruence|apply not_elem_of_nil].
      * apply Forall_cons in IH as [Hf Hfs]. constructor; [|done].
        apply not_elem_of_cons. split; [congruence|done].
Qed.

Lemma until_nul_id s : cstr s -> until_nul s = s.
Proof.
  intros H. induction H as [|c s Hc _ IH]; [done|]. simpl. unfold is_char in Hc.
  rewrite (proj2 (Z.eqb_neq c 0)) by lia. by rewrite IH.
Qed.

Lemma until_nul_cstr s rest : cstr s -> until_nul (s ++ 0 :: rest) = s.
Proof.
  induction s as [|c s IH]; simpl; [done|]. intros H. apply Forall_cons in H as [Hc Hs].
  unfold is_char in Hc. destruct (Z.eqb_spec c 0); [lia|]. by rewrite IH.
Qed.

Lemma starts_with_true a b : starts_with a b = true <-> exists r, a = b ++ r.
Proof.
  unfold starts_with. rewrite bool_decide_eq_true. split.
  - intros H. exists (drop (length b) a). rewrite <- H at 1. symmetry. apply take_drop.
  - intros [r ->]. apply take_app_length.
Qed.

Lemma starts_with_chr a b : b <> [] -> chr a <> chr b -> starts_with a b = false.
Proof.
  intros Hb H. apply bool_decide_eq_false_2. destruct b as [|c b], a as [|d a]; try done. simpl. by intros [= ->].
Qed.

Lemma starts_with_app a r b : (length b <= length a)%nat -> starts_with (a ++ r) b = starts_with a b.
Proof. intros Hl. unfold starts_with. by rewrite take_app_le. Qed.

Lemma wrap32_range z : 0 <= wrap32 z < 2 ^ 32.
Proof. apply Z.mod_pos_bound. lia. Qed.

Lemma wrap32_small z : 0 <= z < 2 ^ 32 -> wrap32 z = z.
Proof. apply Z.mod_small. Qed.

Lemma wrap8_byte z : is_byte (wrap8 z).
Proof. unfold wrap8, is_byte. apply (Z.mod_pos_bound z (2 ^ 8)). lia. Qed.

Lemma int32_range z : - 2 ^ 31 <= int32 z < 2 ^ 31.
Proof. unfold int32. pose proof (Z.mod_pos_bound (z + 2 ^ 31) (2 ^ 32)). lia. Qed.

Lemma int32_small z : - 2 ^ 31 <= z < 2 ^ 31 -> int32 z = z.
Proof. intros H. unfold int32. rewrite Z.mod_small; lia. Qed.

(** The conversion of a number above the smallest [int] does not make it greater. *)
Lemma int32_le z : - 2 ^ 31 <= z -> int32 z <= z.
Proof. intros H. unfold int32. pose proof (Z.mod_le (z + 2 ^ 31) (2 ^ 32)). lia. Qed.

Lemma int64_small z : - 2 ^ 63 <= z < 2 ^ 63 -> int64 z = z.
Proof. intros H. unfold int64. rewrite Z.mod_small; lia. Qed.

(** Concatenation of bit fields is addition. *)
Lemma lor_shiftl a b k : 0 <= k -> 0 <= b < 2 ^ k -> Z.lor (Z.shiftl a k) b = a * 2 ^ k + b.
Proof.
  intros Hk Hb. assert (Z.land (Z.shiftl a k) b = 0) as H0.
  { apply Z.bits_inj'. intros n Hn. rewrite Z.land_spec, Z.bits_0, Z.shiftl_spec by done.
    destruct (Z.lt_ge_cases n k).
    - rewrite Z.testbit_neg_r by lia. done.
    - rewrite <- (Z.mod_small b (2 ^ k)) by done.
      rewrite Z.mod_pow2_bits_high by lia. apply andb_false_r. }
  rewrite <- Z.lxor_lor by done. rewrite <- Z.add_nocarry_lxor by done.
  by rewrite Z.shiftl_mul_pow2.
Qed.

#[export] Hint Resolve is_char_byte cstr_bytes tolower_byte wrap8_byte streq_refl : tw.
#[export] Hint Rewrite @length_app @length_drop @length_take @length_replicate
  @length_map @length_insert : tw_len.

(** ** Copying into a buffer *)

Lemma splice_length mem off src :
  (off + length src <= length mem)%nat -> length (splice mem off src) = length mem.
Proof. intros H. unfold splice. autorewrite with tw_len. lia. Qed.

Lemma splice_take mem off src :
  (off <= length mem)%nat -> take (off + length src) (splice mem off src) = take off mem ++ src.
Proof.
  intros H. unfold splice. rewrite app_assoc, take_app_le, take_ge; [done|..];
    autorewrite with tw_len; lia.
Qed.

Lemma splice_take_eq mem off src n :
  (off <= length mem)%nat -> n = (off + length src)%nat ->
  take n (splice mem off src) = take off mem ++ src.
Proof. intros H ->. by apply splice_take. Qed.

Lemma splice_full mem src : length src = length mem -> splice mem 0 src = src.
Proof. intros H. unfold splice. simpl. rewrite drop_ge by lia. by rewrite app_nil_r. Qed.
