(* ===== verification/CString.v ===== *)
(** * String helpers of mongoose.c

    [mg_strlcpy], the case-insensitive comparisons, the duplicating helpers and
    [mg_strcasestr] (src/mongoose.c, lines 665-723).  A [const char *] argument
    is the C string it points to; [chr] reads its first byte, 0 at the end.
    The theorems relate each loop to what it computes: the comparisons decide
    equality up to case, [mg_strcasestr] finds the first occurrence. *)

From S2P Require Import Prelude.

(** The bytes [mg_strlcpy] stores at [dst] for a buffer of [n] bytes, its
    terminating NUL included. *)
Fixpoint mg_strlcpy (src : bytes) (n : nat) : bytes :=
  match src with
  | c :: src' => if (1 <? n)%nat then c :: mg_strlcpy src' (n - 1) else [0]
  | [] => [0]
  end.

Definition lowercase (s : bytes) : Z := tolower (chr s).

Fixpoint mg_strncasecmp (s1 s2 : bytes) (len : nat) : Z :=
  match len with
  | O => 0
  | S len' =>
      let diff := lowercase s1 - lowercase s2 in
      if (diff =? 0) && negb (chr s1 =? 0) && (0 <? len')%nat
      then mg_strncasecmp (tail s1) (tail s2) len'
      else diff
  end.

Fixpoint mg_strcasecmp (s1 s2 : bytes) : Z :=
  let diff := lowercase s1 - lowercase s2 in
  match s1 with
  | [] => diff
  | c :: s1' =>
      if (diff =? 0) && negb (c =? 0) then mg_strcasecmp s1' (tail s2) else diff
  end.

(** [malloc] is the environment's: it grants a request of a given size or not.
    The result is the C string of the copy. *)
Definition mg_strndup (malloc : nat -> bool) (ptr : bytes) (len : nat) : option bytes :=
  if malloc (len + 1)%nat then Some (until_nul (mg_strlcpy ptr (len + 1))) else None.

Definition mg_strdup (malloc : nat -> bool) (str : bytes) : option bytes :=
  mg_strndup malloc str (length str).

(** The loop of [mg_strcasestr]: [n] iterations are left, [i] is the index. *)
Fixpoint mg_strcasestr_loop (big small : bytes) (i n : nat) : option nat :=
  match n with
  | O => None
  | S n' =>
      if mg_strncasecmp (drop i big) small (length small) =? 0 then Some i
      else mg_strcasestr_loop big small (S i) n'
  end.

(** The offset of the result in [big_str], [None] for NULL: the loop runs for
    [i] from 0 to [big_len - small_len]. *)
Definition mg_strcasestr (big_str small_str : bytes) : option nat :=
  mg_strcasestr_loop big_str small_str 0
    (Z.to_nat (Z.of_nat (length big_str) - Z.of_nat (length small_str) + 1)).

(** ** Lemmas *)

Definition lower (s : bytes) : bytes := map tolower s.

Lemma mg_strlcpy_take src n : mg_strlcpy src n = take (n - 1) src ++ [0].
Proof.
  revert n. induction src as [|c src IH]; intros n; simpl; [by rewrite take_nil|].
  destruct (Nat.ltb_spec 1 n).
  - rewrite IH. replace (n - 1)%nat with (S (n - 1 - 1)) at 2 by lia. done.
  - by replace (n - 1)%nat with 0%nat by lia.
Qed.

Lemma mg_strlcpy_fits src n : (length src < n)%nat -> mg_strlcpy src n = src ++ [0].
Proof. intros H. rewrite mg_strlcpy_take, take_ge by lia. done. Qed.

Lemma mg_strlcpy_length src n : (length (mg_strlcpy src n) <= Nat.max 1 n)%nat.
Proof. rewrite mg_strlcpy_take. autorewrite with tw_len. simpl. lia. Qed.

Lemma mg_strdup_copy malloc s t :
  cstr s -> mg_strdup malloc s = Some t -> t = s.
Proof.
  intros Hs. unfold mg_strdup, mg_strndup. case_match; [|done]. intros [= <-].
  rewrite mg_strlcpy_fits by lia. by apply until_nul_cstr.
Qed.

(** Two leading bytes, with the NUL at an end, agree up to case. *)
Lemma lowercase_diff_nil d s : is_char d -> lowercase [] - lowercase (d :: s) <> 0.
Proof. unfold lowercase, chr; simpl. byte_lia. Qed.

Lemma lowercase_diff_nil_r d s : is_char d -> lowercase (d :: s) - lowercase [] <> 0.
Proof. unfold lowercase, chr; simpl. byte_lia. Qed.

Lemma mg_strncasecmp_0 s1 s2 len :
  cstr s1 -> cstr s2 ->
  mg_strncasecmp s1 s2 len = 0 <-> take len (lower s1) = take len (lower s2).
Proof.
  revert s1 s2. induction len as [|len IH]; intros s1 s2 H1 H2; [done|].
  destruct s1 as [|c s1], s2 as [|d s2].
  - done.
  - apply Forall_cons in H2 as [Hd _]. pose proof (lowercase_diff_nil d s2 Hd).
    cbn [mg_strncasecmp]. rewrite (proj2 (Z.eqb_neq _ _)) by done. split; [done|by intros].
  - apply Forall_cons in H1 as [Hc _]. pose proof (lowercase_diff_nil_r c s1 Hc).
    cbn [mg_strncasecmp]. rewrite (proj2 (Z.eqb_neq _ _)) by done. split; [done|by intros].
  - apply Forall_cons in H1 as [Hc H1]. apply Forall_cons in H2 as [Hd H2].
    specialize (IH s1 s2 H1 H2). unfold is_char in Hc.
    cbn [mg_strncasecmp lower map take tail]. unfold lowercase, chr; simpl.
    rewrite (proj2 (Z.eqb_neq c 0)) by lia.
    destruct (Z.eqb_spec (tolower c - tolower d) 0) as [E|E]; simpl.
    + replace (tolower d) with (tolower c) by lia. destruct (Nat.ltb_spec 0 len).
      * rewrite IH. unfold lower. split; [congruence|by intros [=]].
      * replace len with 0%nat by lia. split; [done|lia].
    + split; [done|]. intros [= E' _]. lia.
Qed.

Lemma mg_strcasecmp_0 s1 s2 :
  cstr s1 -> cstr s2 -> mg_strcasecmp s1 s2 = 0 <-> lower s1 = lower s2.
Proof.
  revert s2. induction s1 as [|c s1 IH]; intros [|d s2] H1 H2.
  - done.
  - apply Forall_cons in H2 as [Hd _]. pose proof (lowercase_diff_nil d s2 Hd).
    split; [done|by intros].
  - apply Forall_cons in H1 as [Hc _]. pose proof (lowercase_diff_nil_r c s1 Hc).
    cbn [mg_strcasecmp]. rewrite (proj2 (Z.eqb_neq _ _)) by done. split; [done|by intros].
  - apply Forall_cons in H1 as [Hc H1]. apply Forall_cons in H2 as [Hd H2].
    unfold is_char in Hc. cbn [mg_strcasecmp tail]. unfold lowercase, chr; simpl.
    rewrite (proj2 (Z.eqb_neq c 0)) by lia.
    destruct (Z.eqb_spec (tolower c - tolower d) 0) as [E|E]; simpl.
    + rewrite IH by done. replace (tolower d) with (tolower c) by lia.
      unfold lower. split; [congruence|by intros [=]].
    + split; [done|]. intros [= E' _]. lia.
Qed.

Lemma mg_strcasecmp_refl s : mg_strcasecmp s s = 0.
Proof.
  induction s as [|c s IH]; simpl; [done|].
  destruct (negb (c =? 0)); rewrite ?Z.sub_diag; simpl; auto.
Qed.

Lemma lower_length s : length (lower s) = length s.
Proof. apply length_map. Qed.

Lemma lower_app a b : lower (a ++ b) = lower a ++ lower b.
Proof. apply map_app. Qed.

Lemma cstr_lower s : cstr s -> cstr (lower s).
Proof. intros H. induction H; constructor; [byte_lia|done]. Qed.

Lemma take_lower n s : take n (lower s) = lower (take n s).
Proof. unfold lower. by rewrite <- fmap_take. Qed.

(** An occurrence of [small] in [big] at offset [i], up to case. *)
Definition occurs_at (big small : bytes) (i : nat) : Prop :=
  (i + length small <= length big)%nat /\
  lower (take (length small) (drop i big)) = lower small.

Lemma occurs_at_cmp big small i :
  cstr big -> cstr small -> (i + length small <= length big)%nat ->
  mg_strncasecmp (drop i big) small (length small) = 0 <-> occurs_at big small i.
Proof.
  intros Hb Hs Hi. rewrite mg_strncasecmp_0 by auto using Forall_drop.
  unfold occurs_at. rewrite !take_lower, (take_ge small) by lia.
  split; [done|by intros []].
Qed.

Lemma mg_strcasestr_loop_spec big small i n :
  cstr big -> cstr small -> (i + n + length small <= S (length big))%nat ->
  match mg_strcasestr_loop big small i n with
  | Some j => (i <= j < i + n)%nat /\ occurs_at big small j /\
      forall k, (i <= k < j)%nat -> ~ occurs_at big small k
  | None => forall k, (i <= k < i + n)%nat -> ~ occurs_at big small k
  end.
Proof.
  intros Hb Hs. revert i. induction n as [|n IH]; intros i Hi; cbn [mg_strcasestr_loop].
  - intros k Hk. lia.
  - pose proof (occurs_at_cmp big small i Hb Hs ltac:(lia)) as Ho.
    destruct (Z.eqb_spec (mg_strncasecmp (drop i big) small (length small)) 0) as [E|E].
    + apply Ho in E. repeat split; [lia..|apply E|apply E|lia].
    + specialize (IH (S i) ltac:(lia)). rewrite Ho in E.
      assert (forall k, (i <= k)%nat -> k = i \/ (S i <= k)%nat) as Hc by lia.
      destruct (mg_strcasestr_loop big small (S i) n) as [j|].
      * destruct IH as (Hj & Hoj & Hn). repeat split; [lia..|apply Hoj|apply Hoj|].
        intros k Hk. destruct (Hc k) as [->|]; [lia|done|]. apply Hn. lia.
      * intros k Hk. destruct (Hc k) as [->|]; [lia|done|]. apply IH. lia.
Qed.

Lemma mg_strcasestr_Some big small i :
  cstr big -> cstr small -> mg_strcasestr big small = Some i ->
  occurs_at big small i /\ forall k, (k < i)%nat -> ~ occurs_at big small k.
Proof.
  intros Hb Hs. unfold mg_strcasestr.
  set (n := Z.to_nat _). destruct (decide (length small <= length big)%nat).
  - pose proof (mg_strcasestr_loop_spec big small 0 n Hb Hs ltac:(lia)) as H.
    intros E. rewrite E in H. destruct H as (? & ? & Hk). split; [done|].
    intros k Hlt. apply Hk. lia.
  - replace n with 0%nat by lia. done.
Qed.

Lemma mg_strcasestr_None big small :
  cstr big -> cstr small ->
  mg_strcasestr big small = None <-> forall i, ~ occurs_at big small i.
Proof.
  intros Hb Hs. unfold mg_strcasestr.
  set (n := Z.to_nat _). destruct (decide (length small <= length big)%nat).
  - pose proof (mg_strcasestr_loop_spec big small 0 n Hb Hs ltac:(lia)) as H.
    destruct (mg_strcasestr_loop big small 0 n) as [j|].
    + split; [done|]. intros Hn. destruct H as (_ & Ho & _). by destruct (Hn j).
    + split; [|done]. intros _ i Ho. apply (H i); [|done]. destruct Ho. lia.
  - replace n with 0%nat by lia. split; [|done]. intros _ i [? _]. lia.
Qed.

#[export] Hint Resolve cstr_lower : tw.
