(* ===== verification/Options.v ===== *)
(** * Configuration options

    The option table of mongoose.c and its lookups, the option-processing part of
    [mg_start], and [next_option], the iterator over comma separated lists that
    every list-valued option is read with (src/mongoose.c, lines 430-471,
    569-589, 834-871 and 5107-5134). *)

From S2P Require Import Prelude CString.

(** ** The table *)

Definition CGI_EXTENSIONS := 0%nat.
Definition CGI_ENVIRONMENT := 1%nat.
Definition PUT_DELETE_PASSWORDS_FILE := 2%nat.
Definition CGI_INTERPRETER := 3%nat.
Definition PROTECT_URI := 4%nat.
Definition AUTHENTICATION_DOMAIN := 5%nat.
Definition SSI_EXTENSIONS := 6%nat.
Definition THROTTLE := 7%nat.
Definition ACCESS_LOG_FILE := 8%nat.
Definition ENABLE_DIRECTORY_LISTING := 9%nat.
Definition ERROR_LOG_FILE := 10%nat.
Definition GLOBAL_PASSWORDS_FILE := 11%nat.
Definition INDEX_FILES := 12%nat.
Definition ENABLE_KEEP_ALIVE := 13%nat.
Definition ACCESS_CONTROL_LIST := 14%nat.
Definition EXTRA_MIME_TYPES := 15%nat.
Definition LISTENING_PORTS := 16%nat.
Definition DOCUMENT_ROOT := 17%nat.
Definition SSL_CERTIFICATE := 18%nat.
Definition NUM_THREADS := 19%nat.
Definition RUN_AS_USER := 20%nat.
Definition REWRITE := 21%nat.
Definition HIDE_FILES := 22%nat.
Definition REQUEST_TIMEOUT := 23%nat.
Definition PID_FILE := 24%nat.
Definition NUM_OPTIONS := 25%nat.

(** The array alternates names and defaults; here each pair is one entry. *)
Definition config_options : list (bytes * option bytes) := [
  (B "cgi_pattern", Some (B "**.cgi$|**.pl$|**.php$"));
  (B "cgi_environment", None);
  (B "put_delete_auth_file", None);
  (B "cgi_interpreter", None);
  (B "protect_uri", None);
  (B "authentication_domain", Some (B "mydomain.com"));
  (B "ssi_pattern", Some (B "**.shtml$|**.shtm$"));
  (B "throttle", None);
  (B "access_log_file", None);
  (B "enable_directory_listing", Some (B "yes"));
  (B "error_log_file", None);
  (B "global_auth_file", None);
  (B "index_files",
    Some (B "index.html,index.htm,index.cgi,index.shtml,index.php,index.lp"));
  (B "enable_keep_alive", Some (B "no"));
  (B "access_control_list", None);
  (B "extra_mime_types", None);
  (B "listening_ports", Some (B "8080"));
  (B "document_root", Some (B "."));
  (B "ssl_certificate", None);
  (B "num_threads", Some (B "50"));
  (B "run_as_user", None);
  (B "url_rewrite_patterns", None);
  (B "hide_files_patterns", None);
  (B "request_timeout_ms", Some (B "30000"));
  (B "pidfile", None)
].

Fixpoint get_option_index_from (opts : list (bytes * option bytes)) (name : bytes)
    (i : Z) : Z :=
  match opts with
  | [] => -1
  | (n, _) :: opts' => if streq n name then i else get_option_index_from opts' name (i + 1)
  end.

Definition get_option_index (name : bytes) : Z :=
  get_option_index_from config_options name 0.

(** [ctx->config]: one entry per option, [None] for NULL. *)
Abbreviation config := (list (option bytes)).

Definition cfg (c : config) (i : nat) : option bytes := mjoin (c !! i).

(** [None] for NULL: not the name of an option. *)
Definition mg_get_option (c : config) (name : bytes) : option bytes :=
  let i := get_option_index name in
  if i =? -1 then None
  else match cfg c (Z.to_nat i) with
       | None => Some []
       | Some v => Some v
       end.

(** ** The option loop of [mg_start] *)

Inductive option_error :=
  | InvalidOption (name : bytes)
  | NullValue (name : bytes).

(** [options] is the array up to its NULL: names and values alternate, and a
    name at the very end has the terminating NULL for a value. *)
Fixpoint set_options (c : config) (options : list bytes) : option_error + config :=
  match options with
  | [] => inr c
  | name :: rest =>
      let i := get_option_index name in
      if i =? -1 then inl (InvalidOption name)
      else match rest with
           | [] => inl (NullValue name)
           | value :: rest' => set_options (<[Z.to_nat i := Some value]> c) rest'
           end
  end.

Fixpoint set_defaults (opts : list (bytes * option bytes)) (i : nat) (c : config) : config :=
  match opts with
  | [] => c
  | (_, default_value) :: opts' =>
      let c' := match cfg c i, default_value with
                | None, Some v => <[i := Some v]> c
                | _, _ => c
                end in
      set_defaults opts' (S i) c'
  end.

(** The configuration [mg_start] builds before it sets anything up. *)
Definition mg_start_config (options : list bytes) : option_error + config :=
  match set_options (replicate NUM_OPTIONS None) options with
  | inl e => inl e
  | inr c => inr (set_defaults config_options 0 c)
  end.

(** ** Comma separated lists *)

(** [struct vec]: a pointer into a string, and a length. *)
Record vec := Vec { v_ptr : bytes; v_len : nat }.

Definition vec_str (v : vec) : bytes := take (v_len v) (v_ptr v).
(** The same for a vector whose pointer may be NULL (its length is then 0). *)
Definition ovec_str (v : option vec) : bytes := from_option vec_str [] v.

(** [next_option(list, &val, eq_val ? &eq : NULL)]: [None] at the end of the
    list, else the rest of the list, the value and the part after ['=']. *)
Definition next_option (lst : option bytes) (eq_val : bool)
    : option (bytes * vec * option vec) :=
  match lst with
  | None | Some [] => None
  | Some l =>
      let '(len, rest) :=
        match find_byte c_comma l with
        | Some n => (n, drop (S n) l)
        | None => (length l, [])
        end in
      let '(val, eq) :=
        if eq_val then
          match find_byte c_eq (take len l) with
          | Some k => (Vec l k, Some (Vec (drop (S k) l) (len - (k + 1))))
          | None => (Vec l len, None)
          end
        else (Vec l len, None) in
      Some (rest, val, eq)
  end.

(** The values a [while ((list = next_option(list, ...)) != NULL)] loop sees. *)
Fixpoint option_list_fuel (fuel : nat) (lst : option bytes) (eq_val : bool)
    : list (vec * option vec) :=
  match fuel with
  | O => []
  | S fuel' =>
      match next_option lst eq_val with
      | None => []
      | Some (rest, val, eq) => (val, eq) :: option_list_fuel fuel' (Some rest) eq_val
      end
  end.

Definition option_list (lst : option bytes) (eq_val : bool) : list (vec * option vec) :=
  option_list_fuel (S (length (default [] lst))) lst eq_val.

(** ** Lemmas on the table *)

(** The value the last pair of [options] gives to [name]. *)
Fixpoint last_assigned (name : bytes) (options : list bytes) : option bytes :=
  match options with
  | n :: v :: rest =>
      match last_assigned name rest with
      | Some x => Some x
      | None => if streq n name then Some v else None
      end
  | _ => None
  end.

Lemma config_options_NoDup : NoDup config_options.*1.
Proof. apply (bool_decide_unpack _). by_eval. Qed.

Lemma get_option_index_from_lookup opts name i k d :
  NoDup opts.*1 -> opts !! k = Some (name, d) ->
  get_option_index_from opts name i = i + Z.of_nat k.
Proof.
  revert i k. induction opts as [|[n d'] opts IH]; intros i k Hnd Hk; [done|].
  rewrite fmap_cons in Hnd. apply NoDup_cons in Hnd as [Hn Hnd]. simpl.
  destruct k as [|k]; simpl in Hk.
  - simplify_eq. rewrite streq_refl. lia.
  - assert (streq n name = false) as ->.
    { apply bool_decide_eq_false. intros ->. apply Hn.
      apply list_elem_of_fmap. exists (name, d). split; [done|].
      by eapply list_elem_of_lookup_2. }
    rewrite (IH _ k) by done. lia.
Qed.

Lemma get_option_index_from_inv opts name i :
  0 <= i -> get_option_index_from opts name i <> -1 ->
  exists k d, opts !! k = Some (name, d) /\
    get_option_index_from opts name i = i + Z.of_nat k.
Proof.
  revert i. induction opts as [|[n d] opts IH]; intros i Hi; simpl; [done|].
  destruct (streq n name) eqn:E; intros H.
  - apply streq_true in E as ->. exists 0%nat, d. split; [done|lia].
  - destruct (IH (i + 1)) as (k & d' & Hk & ->); [lia|done|].
    exists (S k), d'. split; [done|lia].
Qed.

Lemma get_option_index_inv name :
  get_option_index name <> -1 ->
  exists k d, config_options !! k = Some (name, d) /\ (k < NUM_OPTIONS)%nat /\
    get_option_index name = Z.of_nat k.
Proof.
  intros H. destruct (get_option_index_from_inv config_options name 0) as (k & d & Hk & E);
    [lia|done|].
  exists k, d. split_and!; [done| |exact E]. by apply lookup_lt_Some in Hk.
Qed.

Lemma get_option_index_lookup k name d :
  config_options !! k = Some (name, d) -> get_option_index name = Z.of_nat k.
Proof.
  intros H. unfold get_option_index.
  rewrite (get_option_index_from_lookup _ _ _ k d); [lia|apply config_options_NoDup|done].
Qed.

Lemma cfg_insert c i j v :
  (i < length c)%nat ->
  cfg (<[i := v]> c) j = if decide (i = j) then v else cfg c j.
Proof.
  intros H. unfold cfg. case_decide as E; [subst|].
  - by rewrite list_lookup_insert_eq.
  - by rewrite list_lookup_insert_ne.
Qed.

Lemma set_options_cfg n options c c' :
  (length options <= n)%nat -> length c = NUM_OPTIONS -> set_options c options = inr c' ->
  length c' = NUM_OPTIONS /\
    forall i name d, config_options !! i = Some (name, d) ->
    cfg c' i = match last_assigned name options with
               | Some v => Some v
               | None => cfg c i
               end.
Proof.
  revert options c. induction n as [|n IH]; intros options c Hn Hlen.
  { destruct options; [|simpl in Hn; lia]. by intros [= <-]. }
  destruct options as [|nm [|v rest]]; cbn [set_options].
  { by intros [= <-]. }
  { by case_match. }
  destruct (Z.eqb_spec (get_option_index nm) (-1)) as [|Hi]; [done|]. intros Hs.
  destruct (get_option_index_inv nm Hi) as (k & dk & Hk & Hlt & Ek).
  rewrite Ek, Nat2Z.id in Hs.
  destruct (IH rest _ ltac:(simpl in Hn; lia) ltac:(by rewrite length_insert) Hs) as [Hl Hc].
  split; [done|]. intros i name d Hd. rewrite (Hc _ _ _ Hd). cbn [last_assigned].
  destruct (last_assigned name rest); [done|]. rewrite cfg_insert by lia.
  case_decide as E.
  - subst. rewrite Hk in Hd. simplify_eq. by rewrite streq_refl.
  - destruct (streq nm name) eqn:En; [|done]. apply streq_true in En as ->.
    apply get_option_index_lookup in Hd. lia.
Qed.

Lemma set_defaults_cfg opts i c j :
  (i + length opts <= length c)%nat ->
  cfg (set_defaults opts i c) j =
    match cfg c j with
    | Some v => Some v
    | None => if decide (i <= j)%nat then from_option snd None (opts !! (j - i)%nat) else None
    end.
Proof.
  revert i c. induction opts as [|[n d] opts IH]; intros i c Hlen; cbn [set_defaults].
  { destruct (cfg c j); [done|]. by case_decide. }
  simpl in Hlen. set (c' := match cfg c i with Some _ => c | None => _ end).
  assert (length c' = length c) as Hc'.
  { subst c'. repeat case_match; try done. by rewrite length_insert. }
  rewrite IH by lia.
  assert (cfg c' j = if decide (i = j) then match cfg c i with Some v => Some v | None => d end
                     else cfg c j) as ->.
  { subst c'. destruct (cfg c i) as [v|] eqn:Ei, d as [d|]; rewrite ?cfg_insert by lia;
      case_decide; subst; congruence. }
  destruct (decide (i = j)) as [->|Hne].
  - destruct (cfg c j) as [v|]; [done|]. rewrite decide_False by lia.
    rewrite decide_True by lia. rewrite Nat.sub_diag. by destruct d.
  - destruct (cfg c j); [done|]. destruct (decide (S i <= j)%nat).
    + rewrite decide_True by lia. by replace (j - i)%nat with (S (j - S i)) by lia.
    + by rewrite decide_False by lia.
Qed.

(** ** Lemmas on lists of options *)

(** A list ends after its last nonempty field: a trailing comma adds none. *)
Fixpoint drop_last_empty (fs : list bytes) : list bytes :=
  match fs with
  | [] => []
  | [f] => match f with [] => [] | _ => [f] end
  | f :: fs' => f :: drop_last_empty fs'
  end.

Lemma next_option_shorter lst eq rest val e :
  next_option lst eq = Some (rest, val, e) ->
  (length rest < length (default [] lst))%nat.
Proof.
  unfold next_option. destruct lst as [[|c l]|]; [done| |done].
  set (s := c :: l). destruct (find_byte c_comma s) as [n|] eqn:E.
  - apply find_byte_lt in E. repeat case_match; intros; simplify_eq/=;
      rewrite length_drop; subst s; simpl in *; lia.
  - repeat case_match; intros; simplify_eq/=; lia.
Qed.

(** The fuel of [option_list] is enough: more of it changes nothing. *)
Lemma option_list_fuel_enough n m lst eq :
  (length (default [] lst) < n)%nat -> (length (default [] lst) < m)%nat ->
  option_list_fuel n lst eq = option_list_fuel m lst eq.
Proof.
  revert m lst. induction n as [|n IH]; intros m lst Hn Hm; [lia|].
  destruct m as [|m]; [lia|]. cbn [option_list_fuel].
  destruct (next_option lst eq) as [[[rest val] e]|] eqn:E; [|done].
  f_equal. apply next_option_shorter in E. apply IH; simpl; lia.
Qed.

Lemma option_list_unfold lst eq :
  option_list lst eq =
    match next_option lst eq with
    | None => []
    | Some (rest, val, e) => (val, e) :: option_list (Some rest) eq
    end.
Proof.
  unfold option_list at 1. cbn [option_list_fuel].
  destruct (next_option lst eq) as [[[rest val] e]|] eqn:E; [|done].
  f_equal. apply next_option_shorter in E. apply option_list_fuel_enough; simpl; lia.
Qed.

(** What a field of the list is split into: the part before its first ['='] and
    the part after it, or the whole field when no [eq_val] is asked for. *)
Definition split_eq (eq_val : bool) (f : bytes) : bytes * bytes :=
  match (if eq_val then find_byte c_eq f else None) with
  | Some k => (take k f, drop (S k) f)
  | None => (f, [])
  end.

Definition vec_pair (ve : vec * option vec) : bytes * bytes :=
  (vec_str ve.1, ovec_str ve.2).

Lemma next_option_first f s eq :
  c_comma ∉ f ->
  exists val e, next_option (Some (f ++ c_comma :: s)) eq = Some (s, val, e) /\
    vec_pair (val, e) = split_eq eq f.
Proof.
  intros Hf. unfold next_option, vec_pair, split_eq.
  destruct (f ++ c_comma :: s) as [|c l] eqn:El; [by destruct f|]. rewrite <- El.
  rewrite find_byte_app by done.
  replace (drop (S (length f)) (f ++ c_comma :: s)) with s by
    (rewrite drop_app_ge by lia; by replace (S (length f) - length f)%nat with 1%nat by lia).
  rewrite take_app_length. destruct eq.
  - destruct (find_byte c_eq f) as [k|] eqn:Ek; repeat eexists; unfold vec_str; simpl.
    + apply find_byte_lt in Ek. unfold vec_str; simpl.
      rewrite take_app_le, drop_app_le, take_app_le by (rewrite ?length_drop; lia).
      by rewrite (take_ge (drop _ _)) by (rewrite length_drop; lia).
    + by rewrite take_app_length.
  - repeat eexists. unfold vec_str; simpl. by rewrite take_app_length.
Qed.

Lemma next_option_last f eq :
  c_comma ∉ f -> f <> [] ->
  exists val e, next_option (Some f) eq = Some ([], val, e) /\
    vec_pair (val, e) = split_eq eq f.
Proof.
  intros Hf Hne. unfold next_option, vec_pair, split_eq.
  destruct f as [|c l] eqn:El; [done|]. rewrite <- El in *.
  rewrite (proj2 (find_byte_None _ _)) by done. rewrite take_ge by done. destruct eq.
  - destruct (find_byte c_eq f) as [k|] eqn:Ek; repeat eexists; unfold vec_str; simpl.
    + apply find_byte_lt in Ek. unfold vec_str; simpl.
      by rewrite (take_ge (drop _ _)) by (rewrite length_drop; lia).
    + by rewrite take_ge.
  - repeat eexists. unfold vec_str; simpl. by rewrite take_ge.
Qed.

Lemma option_list_fields s eq :
  map vec_pair (option_list (Some s) eq)
  = map (split_eq eq) (drop_last_empty (split_on c_comma s)).
Proof.
  induction s as [s IH] using list_len_ind. rewrite option_list_unfold.
  destruct (find_byte_cut c_comma s) as [Hs|(f & rest & -> & Hf & _)].
  - rewrite split_on_none by done. destruct s as [|c l]; [done|].
    destruct (next_option_last (c :: l) eq) as (val & e & -> & Hp); [done..|].
    simpl. by rewrite <- Hp.
  - destruct (next_option_first f rest eq Hf) as (val & e & -> & Hp).
    rewrite split_on_app by done. cbn [map]. rewrite Hp, IH.
    + simpl. destruct (split_on c_comma rest) eqn:E; [by apply split_on_nonempty in E|done].
    + rewrite length_app. simpl. lia.
Qed.

(** The fields of a comma separated list joined back. *)
Fixpoint join (d : Z) (fs : list bytes) : bytes :=
  match fs with
  | [] => []
  | [f] => f
  | f :: fs' => f ++ d :: join d fs'
  end.

Lemma split_on_join d fs :
  fs <> [] -> Forall (fun f => d ∉ f) fs -> split_on d (join d fs) = fs.
Proof.
  intros Hne Hfs. induction Hfs as [|f fs Hf Hfs IH]; [done|].
  destruct fs as [|g fs]; [by apply split_on_none|].
  change (join d (f :: g :: fs)) with (f ++ d :: join d (g :: fs)).
  rewrite split_on_app by done. by rewrite IH.
Qed.

(** ** Theorems *)

(** Option lists: for every list of fields without commas, the last of them
    not empty, the values [next_option] yields one after the other on the fields
    joined with commas are exactly these fields, in order, each split at its
    first ['='] when the caller asks for it; and the iteration ends there. *)
Theorem next_option_roundtrip (fs : list bytes) (eq_val : bool) :
  Forall (fun f => c_comma ∉ f) fs -> (forall f, last fs = Some f -> f <> []) ->
  map vec_pair (option_list (Some (join c_comma fs)) eq_val) = map (split_eq eq_val) fs.
Proof.
  intros Hfs Hlast. rewrite option_list_fields. f_equal.
  destruct fs as [|f fs]; [done|]. rewrite split_on_join by done.
  clear Hfs. revert f Hlast. induction fs as [|g fs IH]; intros f Hlast.
  - simpl. specialize (Hlast f eq_refl). by destruct f.
  - change (drop_last_empty (f :: g :: fs)) with (f :: drop_last_empty (g :: fs)).
    by rewrite IH.
Qed.

Lemma next_option_roundtrip_witness :
  map vec_pair (option_list (Some (join c_comma [B "**.php$=/x"; B ""; B "a=b=c"])) true)
  = [(B "**.php$", B "/x"); (B "", B ""); (B "a", B "b=c")].
Proof.
  apply (next_option_roundtrip [B "**.php$=/x"; B ""; B "a=b=c"] true).
  - apply (bool_decide_unpack _). by_eval.
  - intros f [= <-]. done.
Defined.

Lemma start_config_cfg options c :
  mg_start_config options = inr c ->
  forall i name d, config_options !! i = Some (name, d) ->
    cfg c i = match last_assigned name options with Some v => Some v | None => d end.
Proof.
  unfold mg_start_config. destruct (set_options _ options) as [|c1] eqn:E; [done|].
  intros Hc i name d Hi. apply (inj inr) in Hc. subst c.
  destruct (set_options_cfg (length options) options _ c1 ltac:(lia) (length_replicate _ _) E)
    as [Hlen Hc].
  rewrite set_defaults_cfg by (rewrite Hlen; done). rewrite (Hc i name d Hi).
  destruct (last_assigned name options) as [v|]; [done|].
  assert (cfg (replicate NUM_OPTIONS None) i = None) as ->.
  { unfold cfg. apply lookup_lt_Some in Hi. by rewrite lookup_replicate_2. }
  rewrite decide_True by lia. by rewrite Nat.sub_0_r, Hi.
Qed.

(** Start-up configuration: whenever [mg_start] accepts its option array, every
    option of the table has the value the last pair naming it gives, and its
    default when no pair names it. *)
Theorem mg_start_config_values (options : list bytes) (c : config) :
  mg_start_config options = inr c ->
  forall i name d, config_options !! i = Some (name, d) ->
    cfg c i = match last_assigned name options with Some v => Some v | None => d end.
Proof. apply start_config_cfg. Qed.

Lemma mg_start_config_values_witness :
  match mg_start_config [B "listening_ports"; B "80"; B "document_root"; B "/www";
                         B "listening_ports"; B "81"] with
  | inr c => cfg c LISTENING_PORTS = Some (B "81") /\ cfg c NUM_THREADS = Some (B "50")
  | inl _ => False
  end.
Proof.
  destruct (mg_start_config _) as [e|c] eqn:E; [vm_compute in E; discriminate|].
  split.
  - refine (eq_trans (mg_start_config_values _ c E LISTENING_PORTS
      (B "listening_ports") (Some (B "8080")) _) _); vm_compute; reflexivity.
  - refine (eq_trans (mg_start_config_values _ c E NUM_THREADS
      (B "num_threads") (Some (B "50")) _) _); vm_compute; reflexivity.
Defined.
