(* ===== verification/Pattern.v ===== *)
(** * Patterns

    [match_prefix], the matcher behind the CGI and SSI patterns, URL rewriting,
    hidden files and throttling (src/mongoose.c, lines 873-910), and
    [must_hide_file] (lines 2633-2638).  The pattern language is given by an
    inductive relation, and the backtracking loop is proved sound and complete
    for it, with its recursion bounded by the length of the pattern. *)

From S2P Require Import Prelude CString Options.

(** The loop [do ... while (res == -1 && len-- > 0)] of the ['*'] case. *)
Fixpoint match_star (rec : bytes -> bytes -> Z) (pattern str : bytes) (j : Z) (len : nat) : Z :=
  let res := rec pattern (drop len str) in
  if res =? -1 then
    match len with
    | O => -1
    | S len' => match_star rec pattern str j len'
    end
  else j + res + Z.of_nat len.

(** The [for] loop: [pattern] and [str] are what is left of them at [i] and [j].
    [rec] stands for the recursive call. *)
Fixpoint match_loop (rec : bytes -> bytes -> Z) (pattern str : bytes) (j : Z) : Z :=
  match pattern with
  | [] => j
  | c :: pattern' =>
      if (c =? c_quest) && negb (chr str =? 0) then match_loop rec pattern' (tail str) (j + 1)
      else if c =? c_dollar then (if chr str =? 0 then j else -1)
      else if c =? c_star then
        let '(rest, len) :=
          if chr pattern' =? c_star then (tail pattern', length str)
          else (pattern', strcspn str [c_slash]) in
        match rest with
        | [] => j + Z.of_nat len
        | _ => match_star rec rest str j len
        end
      else if negb (c =? chr str) then -1
      else match_loop rec pattern' (tail str) (j + 1)
  end.

(** [match_prefix(pattern, pattern_len, str)]: [pattern] is the list of the
    [pattern_len] bytes.  The source also reads the byte that follows a final
    ['*']; at every call it is one of NUL, [','], ['='] and ['|'], so the test
    for a second ['*'] is false there, as it is here. *)
Fixpoint match_prefix_fuel (fuel : nat) (pattern str : bytes) : Z :=
  match fuel with
  | O => -1
  | S fuel' =>
      match find_byte c_bar pattern with
      | Some k =>
          let res := match_prefix_fuel fuel' (take k pattern) str in
          if 0 <? res then res
          else match_prefix_fuel fuel' (drop (S k) pattern) str
      | None => match_loop (match_prefix_fuel fuel') pattern str 0
      end
  end.

Definition match_prefix (pattern str : bytes) : Z :=
  match_prefix_fuel (S (length pattern)) pattern str.

Definition PASSWORDS_FILE_NAME : bytes := B ".htpasswd".

Definition must_hide_file (c : config) (path : bytes) : bool :=
  let pw_pattern := B "**" ++ PASSWORDS_FILE_NAME ++ B "$" in
  (0 <? match_prefix pw_pattern path) ||
  match cfg c HIDE_FILES with
  | Some pattern => 0 <? match_prefix pattern path
  | None => false
  end.

(** ** The pattern language

    [gmatch p s n]: the pattern [p], which has no alternative, matches the first
    [n] bytes of [s]. *)
Inductive gmatch : bytes -> bytes -> nat -> Prop :=
  | gm_nil s : gmatch [] s 0
  | gm_any p c s n : gmatch p s n -> gmatch (c_quest :: p) (c :: s) (S n)
  | gm_end p : gmatch (c_dollar :: p) [] 0
  | gm_star2 p s k n :
      (k <= length s)%nat -> gmatch p (drop k s) n ->
      gmatch (c_star :: c_star :: p) s (k + n)
  | gm_star p s k n :
      chr p <> c_star -> (k <= strcspn s [c_slash])%nat -> gmatch p (drop k s) n ->
      gmatch (c_star :: p) s (k + n)
  | gm_char c p s n :
      c <> c_quest -> c <> c_dollar -> c <> c_star -> gmatch p s n ->
      gmatch (c :: p) (c :: s) (S n).

#[export] Hint Constructors gmatch : tw.

Lemma gmatch_le p s n : gmatch p s n -> (n <= length s)%nat.
Proof.
  induction 1 as [| |?|?? k n ? _ IH|?? k n _ Hk _ IH|]; simpl in *; try lia.
  - rewrite length_drop in IH. lia.
  - rewrite length_drop in IH. pose proof (strcspn_le s [c_slash]). lia.
Qed.

(** What a result [r] of the loop says of the pattern and the string when [j]
    bytes were already matched: no match, or a match, and a match of length 0 is
    only returned when there is no other. *)
Definition match_ok (p s : bytes) (j r : Z) : Prop :=
  (r = -1 /\ forall n, ~ gmatch p s n) \/
  (exists n, r = j + Z.of_nat n /\ gmatch p s n /\ (n = 0%nat -> forall m, gmatch p s m -> m = 0%nat)).

(** The lengths a ['*'] followed by [rest] may take. *)
Definition star_ok (rest s : bytes) (k m n : nat) : Prop :=
  (k <= m)%nat /\ gmatch rest (drop k s) n.

Lemma match_star_ok rec rest s j len :
  0 <= j -> (forall k, match_ok rest (drop k s) 0 (rec rest (drop k s))) ->
  let r := match_star rec rest s j len in
  (r = -1 /\ forall k n, ~ star_ok rest s k len n) \/
  (exists k n, r = j + Z.of_nat (k + n) /\ star_ok rest s k len n /\
    ((k + n)%nat = 0%nat -> forall k' n', star_ok rest s k' len n' -> (k' + n')%nat = 0%nat)).
Proof.
  intros Hj Hrec. induction len as [|len IH]; cbn [match_star].
  - destruct (Hrec 0%nat) as [[-> Hn]|(n & -> & Hg & Hz)].
    + left. split; [done|]. intros k n [Hk Hg]. replace k with 0%nat in Hg by lia. by eapply Hn.
    + right. rewrite (proj2 (Z.eqb_neq _ _)) by lia. exists 0%nat, n. split; [lia|].
      split; [by split|]. intros Hn k' n' [Hk Hg'].
      replace k' with 0%nat in * by lia. rewrite (Hz ltac:(lia) n'); done.
  - destruct (Hrec (S len)) as [[-> Hn]|(n & -> & Hg & Hz)].
    + assert (forall k n, star_ok rest s k (S len) n -> star_ok rest s k len n) as Hdn.
      { intros k n [Hk Hg]. split; [|done]. destruct (decide (k = S len)) as [->|]; [|lia].
        by destruct (Hn n). }
      rewrite Z.eqb_refl. destruct IH as [[-> Hno]|(k & n & -> & Hs & Hz)].
      * left. split; [done|]. intros k n Hs. by eapply Hno, Hdn.
      * right. exists k, n. split; [done|]. destruct Hs as [Hk Hg].
        split; [split; [lia|done]|]. intros E k' n' Hs'. by eapply Hz; [|apply Hdn].
    + right. rewrite (proj2 (Z.eqb_neq _ _)) by lia. exists (S len), n. split; [lia|].
      split; [by split|]. lia.
Qed.

Lemma match_ok_step p s p1 s1 j r :
  (forall m, gmatch p1 s1 m <-> exists n, m = S n /\ gmatch p s n) ->
  match_ok p s (j + 1) r -> match_ok p1 s1 j r.
Proof.
  intros Hg [[-> Hn]|(n & -> & Hp & _)].
  - left. split; [done|]. intros m Hm. apply Hg in Hm as (n & -> & ?). by eapply Hn.
  - right. exists (S n). split; [lia|]. split; [|lia]. apply Hg. by exists n.
Qed.

Lemma match_ok_fail p s j : (forall n, ~ gmatch p s n) -> match_ok p s j (-1).
Proof. by left. Qed.

(** The ['*'] case: [rest] is the pattern after the star or the two stars. *)
Lemma match_ok_star rec p rest s j len :
  0 <= j -> (forall m, gmatch p s m <-> exists k n, m = (k + n)%nat /\ star_ok rest s k len n) ->
  (len <= length s)%nat ->
  (rest <> [] -> forall k, match_ok rest (drop k s) 0 (rec rest (drop k s))) ->
  match_ok p s j (match rest with
                  | [] => j + Z.of_nat len
                  | _ => match_star rec rest s j len
                  end).
Proof.
  intros Hj Hg Hlen Hrec. destruct rest as [|c rest].
  - right. exists len. split; [done|]. split.
    + apply Hg. exists len, 0%nat. split; [lia|]. split; [done|constructor].
    + intros -> m Hm. apply Hg in Hm as (k & n & -> & Hk & Hn). inversion Hn. lia.
  - destruct (match_star_ok rec (c :: rest) s j len Hj (Hrec ltac:(done)))
      as [[-> Hn]|(k & n & -> & Hs & Hz)].
    + apply match_ok_fail. intros m Hm. apply Hg in Hm as (k & n & _ & Hs). by eapply Hn.
    + right. exists (k + n)%nat. split; [done|]. split; [apply Hg; eauto|].
      intros E m Hm. apply Hg in Hm as (k' & n' & -> & Hs'). by eapply Hz.
Qed.

Lemma gmatch_star_inv p s m :
  gmatch (c_star :: p) s m <->
  exists k n, m = (k + n)%nat /\
    (if chr p =? c_star then star_ok (tail p) s k (length s) n
     else star_ok p s k (strcspn s [c_slash]) n).
Proof.
  unfold star_ok. split.
  - inversion 1; subst; simpl in *; simplify_eq.
    + exists k, n. done.
    + exists k, n. by rewrite (proj2 (Z.eqb_neq _ _)) by done.
  - intros (k & n & -> & Hk). destruct (Z.eqb_spec (chr p) c_star) as [E|E].
    + destruct p as [|d p]; [done|]. unfold chr in E; simpl in E; subst. simpl in Hk.
      apply gm_star2; by destruct Hk.
    + apply gm_star; by destruct Hk.
Qed.

Lemma gmatch_char_inv c p s m :
  c <> c_dollar -> c <> c_star -> (c = c_quest -> s <> []) -> (c <> c_quest -> chr s = c) ->
  s <> [] -> gmatch (c :: p) s m <-> exists n, m = S n /\ gmatch p (tail s) n.
Proof.
  intros Hd Hst Hq Hc Hne. destruct s as [|d s]; [done|]. simpl. split.
  - inversion 1; subst; simplify_eq; eauto.
  - intros (n & -> & Hg). destruct (decide (c = c_quest)) as [->|E]; [by constructor|].
    specialize (Hc E). unfold chr in Hc. simpl in Hc. subst. by constructor.
Qed.

Lemma chr_0 s : cstr s -> chr s = 0 <-> s = [].
Proof.
  destruct s as [|c s]; [done|]. intros H. apply Forall_cons in H as [Hc _].
  unfold is_char in Hc. unfold chr. simpl. split; [lia|done].
Qed.

Lemma match_loop_ok rec p s j :
  0 <= j -> cstr p -> cstr s ->
  (forall p' s', (length p' < length p)%nat -> cstr s' ->
     (exists q, p = q ++ p') -> match_ok p' s' 0 (rec p' s')) ->
  match_ok p s j (match_loop rec p s j).
Proof.
  revert s j. induction p as [|c p IH]; intros s j Hj Hp Hs Hrec; cbn [match_loop].
  { right. exists 0%nat. split; [lia|]. split; [constructor|]. intros _ m H. by inversion H. }
  apply Forall_cons in Hp as [Hc Hp]. unfold is_char in Hc.
  assert (match_ok p (tail s) (j + 1) (match_loop rec p (tail s) (j + 1))) as Hnext.
  { apply IH; [lia|done|by destruct s as [|? ?]; [|apply Forall_cons in Hs as [_ ?]]|].
    intros p' s' Hl Hs' [q ->]. apply Hrec; [simpl; lia|done|]. by exists (c :: q). }
  pose proof (chr_0 s Hs) as H0.
  destruct (Z.eqb_spec c c_quest) as [->|Hq]; cbn [andb].
  { destruct (Z.eqb_spec (chr s) 0) as [E|E]; cbn [negb].
    - simpl. rewrite E. simpl. apply match_ok_fail.
      apply H0 in E as ->. intros n H. inversion H; simplify_eq.
    - eapply match_ok_step; [|exact Hnext].
      intros m. apply gmatch_char_inv; try done; rewrite H0 in E; done. }
  destruct (Z.eqb_spec c c_dollar) as [->|Hd].
  { destruct (Z.eqb_spec (chr s) 0) as [E|E].
    - apply H0 in E as ->. right. exists 0%nat. split; [lia|]. split; [constructor|].
      intros _ m H. by inversion H; simplify_eq.
    - apply match_ok_fail. intros n H. rewrite H0 in E. inversion H; simplify_eq. }
  destruct (Z.eqb_spec c c_star) as [->|Hst].
  { assert (forall q rest, c_star :: p = q ++ rest -> q <> [] -> rest <> [] ->
        forall k, match_ok rest (drop k s) 0 (rec rest (drop k s))) as Hr.
    { intros q rest Eq Hq' _ k. apply Hrec; [|by apply Forall_drop|by exists q].
      rewrite Eq, length_app. destruct q; [done|simpl; lia]. }
    pose proof (gmatch_star_inv p s) as Hg.
    destruct (chr p =? c_star) eqn:E.
    - apply match_ok_star; [done|exact Hg|lia|].
      destruct p as [|d p]; [done|]. by apply (Hr [c_star; d]).
    - apply match_ok_star; [done|exact Hg|apply strcspn_le|]. by apply (Hr [c_star]). }
  destruct (Z.eqb_spec c (chr s)) as [E|E]; cbn [negb].
  - eapply match_ok_step; [|exact Hnext].
    assert (s <> []) by (intros ->; unfold chr in E; simpl in E; lia).
    intros m. by apply gmatch_char_inv.
  - apply match_ok_fail. intros n H. inversion H; simplify_eq; done.
Qed.

Lemma match_prefix_fuel_single fuel p s :
  (length p < fuel)%nat -> cstr p -> cstr s -> c_bar ∉ p ->
  match_ok p s 0 (match_prefix_fuel fuel p s).
Proof.
  revert p s. induction fuel as [|fuel IH]; intros p s Hf Hp Hs Hb; [lia|].
  cbn [match_prefix_fuel]. rewrite (proj2 (find_byte_None _ _)) by done.
  apply match_loop_ok; try done. intros p' s' Hl Hs' [q ->].
  apply IH; [lia| |done|].
  - by apply Forall_app in Hp as [_ ?].
  - intros Hin. apply Hb, elem_of_app. by right.
Qed.

(** [r] is the result for a pattern with alternatives: the length of a nonempty
    match of one of them, and not positive when there is none. *)
Definition alt_ok (p s : bytes) (r : Z) : Prop :=
  (0 < r /\ exists alt, alt ∈ split_on c_bar p /\ gmatch alt s (Z.to_nat r)) \/
  (-1 <= r <= 0 /\ forall alt n, alt ∈ split_on c_bar p -> gmatch alt s n -> n = 0%nat).

Lemma alt_ok_single p s r : c_bar ∉ p -> match_ok p s 0 r -> alt_ok p s r.
Proof.
  intros Hb Hm. unfold alt_ok. rewrite split_on_none by done.
  destruct Hm as [[-> Hn]|(n & -> & Hg & Hz)].
  - right. split; [lia|]. intros alt n ->%list_elem_of_singleton Hg. by destruct (Hn n).
  - destruct n as [|n].
    + right. split; [lia|]. intros alt m ->%list_elem_of_singleton Hg'. by apply Hz.
    + left. split; [lia|]. exists p. split; [by left|]. by replace (Z.to_nat _) with (S n) by lia.
Qed.

Lemma match_prefix_fuel_ok fuel p s :
  (length p < fuel)%nat -> cstr p -> cstr s -> alt_ok p s (match_prefix_fuel fuel p s).
Proof.
  revert p. induction fuel as [|fuel IH]; intros p Hf Hp Hs; [lia|].
  destruct (find_byte_cut c_bar p) as [Hb|(w & rest & -> & Hb & E)].
  { apply alt_ok_single; [done|]. by apply match_prefix_fuel_single. }
  cbn [match_prefix_fuel]. rewrite E, take_app_length.
  rewrite drop_app_ge by lia. replace (S (length w) - length w)%nat with 1%nat by lia.
  cbn [drop]. apply Forall_app in Hp as [Hw Hr]. apply Forall_cons in Hr as [_ Hr].
  rewrite length_app in Hf. simpl in Hf.
  unfold alt_ok. rewrite split_on_app by done.
  destruct (IH w ltac:(lia) Hw Hs) as [(Hpos & alt & Ha & Hg)|(Hr1 & Hz1)];
    rewrite split_on_none in * by done.
  - left. rewrite (proj2 (Z.ltb_lt _ _)) by done. split; [done|]. exists alt.
    split; [|done]. apply list_elem_of_singleton in Ha as ->. by left.
  - rewrite (proj2 (Z.ltb_ge _ _)) by lia.
    destruct (IH rest ltac:(lia) Hr Hs) as [(Hpos & alt & Ha & Hg)|(Hr2 & Hz2)].
    + left. split; [done|]. exists alt. split; [by right|done].
    + right. split; [done|]. intros alt n Ha Hg. apply elem_of_cons in Ha as [->|Ha].
      * apply (Hz1 w); [by left|done].
      * by apply (Hz2 alt).
Qed.

Lemma match_prefix_alt_ok p s : cstr p -> cstr s -> alt_ok p s (match_prefix p s).
Proof. intros. by apply match_prefix_fuel_ok; [lia|..]. Qed.

Lemma match_prefix_pos p s :
  cstr p -> cstr s ->
  0 < match_prefix p s <->
  exists alt n, alt ∈ split_on c_bar p /\ (0 < n)%nat /\ gmatch alt s n.
Proof.
  intros Hp Hs. destruct (match_prefix_alt_ok p s Hp Hs) as [(Hpos & alt & Ha & Hg)|(Hr & Hz)].
  - split; [|done]. intros _. exists alt, (Z.to_nat (match_prefix p s)).
    split_and!; [done|lia|done].
  - split; [lia|]. intros (alt & n & Ha & Hn & Hg). specialize (Hz alt n Ha Hg). lia.
Qed.

(** A pattern of ordinary characters closed by ['$'] matches itself only. *)
Definition ordinary (c : Z) : Prop := c <> c_quest /\ c <> c_dollar /\ c <> c_star.

Lemma gmatch_literal lit s n :
  Forall ordinary lit -> gmatch (lit ++ [c_dollar]) s n <-> s = lit /\ n = length lit.
Proof.
  intros Hl. revert s n. induction Hl as [|c lit (Hq & Hd & Hst) _ IH]; intros s n; simpl.
  - split; [by inversion 1; simplify_eq|]. intros [-> ->]. constructor.
  - split.
    + inversion 1 as [| | | | |c' p s' m ??? Hg]; simplify_eq. apply IH in Hg as [-> ->]. done.
    + intros [-> ->]. constructor; [done..|]. by apply IH.
Qed.

(** ** Theorems *)

(** C19. The pattern matcher is sound and complete: [match_prefix] returns a positive
    length exactly when some ['|'] alternative of the pattern matches a nonempty
    prefix of the string, a positive result is the length of such a match, and
    the result always lies between -1 and the length of the string. *)
Theorem match_prefix_correct (pattern str : bytes) :
  cstr pattern -> cstr str ->
  let r := match_prefix pattern str in
  (0 < r <-> exists alt n, alt ∈ split_on c_bar pattern /\ (0 < n)%nat /\ gmatch alt str n) /\
  (0 < r -> exists alt, alt ∈ split_on c_bar pattern /\ gmatch alt str (Z.to_nat r)) /\
  -1 <= r <= Z.of_nat (length str).
Proof.
  intros Hp Hs r. split; [by apply match_prefix_pos|].
  pose proof (match_prefix_alt_ok pattern str Hp Hs) as Hok.
  fold r in Hok. destruct Hok as [(Hpos & alt & Ha & Hg)|(Hr & Hz)].
  - pose proof (gmatch_le _ _ _ Hg). split_and!; [by eauto|lia..].
  - split_and!; lia.
Qed.

Lemma match_prefix_correct_witness :
  let r := match_prefix (B "**.cgi$|**.pl$") (B "/cgi-bin/a.pl") in
  r = 13 /\ exists alt, alt ∈ split_on c_bar (B "**.cgi$|**.pl$") /\
    gmatch alt (B "/cgi-bin/a.pl") (Z.to_nat r).
Proof.
  split; [by_eval|].
  apply (match_prefix_correct (B "**.cgi$|**.pl$") (B "/cgi-bin/a.pl")).
  - apply (bool_decide_unpack _). by_eval.
  - apply (bool_decide_unpack _). by_eval.
  - by_eval.
Defined.

(** C20. Password files are hidden: [must_hide_file] holds of every path that ends in
    [.htpasswd], whatever the configuration, and beyond these exactly of the paths
    that the [hide_files_patterns] option matches. *)
Theorem must_hide_file_correct (c : config) (path : bytes) :
  cstr path -> (forall p, cfg c HIDE_FILES = Some p -> cstr p) ->
  must_hide_file c path = true <->
  (exists pre, path = pre ++ PASSWORDS_FILE_NAME) \/
  (exists p alt n, cfg c HIDE_FILES = Some p /\ alt ∈ split_on c_bar p /\ (0 < n)%nat /\
     gmatch alt path n).
Proof.
  intros Hpath Hc. unfold must_hide_file. rewrite orb_true_iff, Z.ltb_lt.
  rewrite match_prefix_pos by (done || apply (bool_decide_unpack _); by_eval).
  apply Morphisms_Prop.or_iff_morphism.
  - replace (split_on c_bar _) with [c_star :: c_star :: PASSWORDS_FILE_NAME ++ [c_dollar]]
      by by_eval.
    assert (Forall ordinary PASSWORDS_FILE_NAME) as Ho by
      (apply (bool_decide_unpack _); by_eval).
    split.
    + intros (alt & n & ->%list_elem_of_singleton & Hn & Hg).
      inversion Hg as [| | |p s k m Hk Hg'|p s k m Hne|]; simplify_eq.
      apply (gmatch_literal _ _ _ Ho) in Hg' as [Hd _].
      exists (take k path). by rewrite <- Hd, take_drop.
    + intros [pre ->]. exists (c_star :: c_star :: PASSWORDS_FILE_NAME ++ [c_dollar]),
        (length pre + length PASSWORDS_FILE_NAME)%nat.
      split_and!; [by left|simpl; lia|]. constructor; [rewrite length_app; lia|].
      rewrite drop_app_length. by apply gmatch_literal.
  - destruct (cfg c HIDE_FILES) as [p|].
    + rewrite Z.ltb_lt, match_prefix_pos by auto. split.
      * intros (alt & n & H). eauto.
      * intros (p' & alt & n & [= <-] & H). eauto.
    + split; [done|]. by intros (? & ? & ? & ? & _).
Qed.

Lemma must_hide_file_correct_witness :
  must_hide_file (replicate NUM_OPTIONS None) (B "/www/x/.htpasswd") = true.
Proof.
  apply (must_hide_file_correct (replicate NUM_OPTIONS None) (B "/www/x/.htpasswd")).
  - apply (bool_decide_unpack _). by_eval.
  - intros p H. vm_compute in H. discriminate.
  - left. by exists (B "/www/x/").
Defined.
