(* ===== verification/UriPath.v ===== *)
(** * Path sanitising

    [remove_double_dots_and_double_slashes] (src/mongoose.c, lines 1884-1904), the
    in-place filter that [handle_request] runs on every decoded URI before it is
    mapped to a file name.  The model works on the buffer with the two indices
    of the source; it is proved equal to a function on strings, from which the
    safety of the result follows. *)

From S2P Require Import Prelude.

Definition is_sep (c : Z) : bool := (c =? c_slash) || (c =? c_bslash).

(** The inner loop: the value of [s] when it ends.  Each step advances [s] and
    stops at the NUL, so the length of the buffer bounds the steps. *)
Fixpoint rdd_skip (fuel : nat) (buf : bytes) (s : nat) : nat :=
  match fuel with
  | O => s
  | S fuel' =>
      if at_ buf s =? 0 then s
      else if is_sep (at_ buf s) then rdd_skip fuel' buf (s + 1)
      else if (at_ buf s =? c_dot) && (at_ buf (s + 1) =? c_dot) then rdd_skip fuel' buf (s + 2)
      else s
  end.

(** The outer loop, [*p++ = *s++] with the skipping after a separator. *)
Fixpoint rdd_loop (fuel : nat) (buf : bytes) (p s : nat) : bytes :=
  match fuel with
  | O => buf
  | S fuel' =>
      if at_ buf s =? 0 then <[p := 0]> buf
      else
        let buf' := <[p := at_ buf s]> buf in
        let s' := (s + 1)%nat in
        let s'' := if is_sep (at_ buf' (s' - 1)) then rdd_skip (length buf') buf' s' else s' in
        rdd_loop fuel' buf' (p + 1) s''
  end.

(** The buffer after the call; [buf] holds the string and its NUL. *)
Definition remove_double_dots_and_double_slashes (buf : bytes) : bytes :=
  rdd_loop (S (length buf)) buf 0 0.

(** ** The filter as a function on strings *)

Fixpoint skip_seps (s : bytes) : bytes :=
  match s with
  | [] => []
  | c :: s' =>
      if is_sep c then skip_seps s'
      else match s' with
           | d :: s'' => if (c =? c_dot) && (d =? c_dot) then skip_seps s'' else s
           | [] => s
           end
  end.

Fixpoint clean_fuel (fuel : nat) (s : bytes) : bytes :=
  match fuel, s with
  | S fuel', c :: s' => c :: clean_fuel fuel' (if is_sep c then skip_seps s' else s')
  | _, _ => []
  end.

Definition clean (s : bytes) : bytes := clean_fuel (length s) s.
Arguments clean : simpl never.

(** Nothing that climbs or repeats may follow a separator. *)
Definition ok_after_sep (s : bytes) : Prop :=
  match s with
  | [] => True
  | [c] => is_sep c = false
  | c :: d :: _ => is_sep c = false /\ ~ (c = c_dot /\ d = c_dot)
  end.

Definition safe_path (s : bytes) : Prop :=
  forall pre c post, s = pre ++ c :: post -> is_sep c = true -> ok_after_sep post.

(** ** Lemmas *)

Lemma skip_seps_suffix s : exists pre, s = pre ++ skip_seps s.
Proof.
  induction s as [s IH] using list_len_ind. destruct s as [|c s]; [by exists []|].
  cbn [skip_seps]. destruct (is_sep c).
  { destruct (IH s) as [pre Hp]; [simpl; lia|]. exists (c :: pre). simpl. by f_equal. }
  destruct s as [|d s]; [by exists []|]. case_match; [|by exists []].
  destruct (IH s) as [pre Hp]; [simpl; lia|]. exists (c :: d :: pre). simpl. by do 2 f_equal.
Qed.

Lemma skip_seps_length s : (length (skip_seps s) <= length s)%nat.
Proof. destruct (skip_seps_suffix s) as [pre E]. rewrite E at 2. rewrite length_app. lia. Qed.

Lemma skip_seps_ok s : ok_after_sep (skip_seps s).
Proof.
  induction s as [s IH] using list_len_ind. destruct s as [|c s]; [done|].
  cbn [skip_seps]. destruct (is_sep c) eqn:Ec; [apply IH; simpl; lia|].
  destruct s as [|d s]; [done|]. destruct ((c =? c_dot) && (d =? c_dot)) eqn:E.
  - apply IH. simpl. lia.
  - split; [done|]. intros [-> ->]. done.
Qed.

(** [skip_seps] leaves alone what it would not skip. *)
Lemma skip_seps_id s : ok_after_sep s -> skip_seps s = s.
Proof.
  destruct s as [|c [|d s]]; simpl; [done|by intros ->|]. intros [-> H].
  destruct (Z.eqb_spec c c_dot), (Z.eqb_spec d c_dot); simpl; try done. exfalso. by apply H.
Qed.

Lemma clean_fuel_enough n m s :
  (length s <= n)%nat -> (length s <= m)%nat -> clean_fuel n s = clean_fuel m s.
Proof.
  revert m s. induction n as [|n IH]; intros m s Hn Hm.
  { destruct s; [|simpl in Hn; lia]. by destruct m. }
  destruct s as [|c s]; [by destruct m|]. destruct m as [|m]; [simpl in Hm; lia|].
  simpl in *. f_equal. pose proof (skip_seps_length s). apply IH; case_match; lia.
Qed.

Lemma clean_cons c s :
  clean (c :: s) = c :: clean (if is_sep c then skip_seps s else s).
Proof.
  unfold clean. simpl. f_equal. pose proof (skip_seps_length s).
  apply clean_fuel_enough; case_match; simpl; lia.
Qed.

Lemma clean_nil : clean [] = [].
Proof. done. Qed.

Lemma clean_length s : (length (clean s) <= length s)%nat.
Proof.
  induction s as [s IH] using list_len_ind. destruct s as [|c s]; [done|].
  rewrite clean_cons. simpl. pose proof (skip_seps_length s).
  apply le_n_S. case_match; (etrans; [apply IH; simpl; lia|lia]).
Qed.

(** The first bytes of a safe continuation survive. *)
Lemma clean_ok_after s : ok_after_sep s -> ok_after_sep (clean s).
Proof.
  destruct s as [|c [|d s]]; [done| |].
  - rewrite clean_cons. intros H. cbn in H. by rewrite H.
  - intros [Hc H]. rewrite clean_cons, Hc, clean_cons. done.
Qed.

Lemma clean_safe s : safe_path (clean s).
Proof.
  induction s as [s IH] using list_len_ind. destruct s as [|c s].
  { intros pre c post H. by destruct pre. }
  rewrite clean_cons. intros pre d post E Hd.
  pose proof (skip_seps_length s).
  destruct pre as [|e pre]; simplify_eq/=.
  - rewrite Hd. apply clean_ok_after, skip_seps_ok.
  - eapply (IH (if is_sep e then skip_seps s else s)); [case_match; lia|done|done].
Qed.

Lemma clean_id s : safe_path s -> clean s = s.
Proof.
  induction s as [|c s IH]; [done|]. intros Hs. rewrite clean_cons.
  assert (safe_path s) as Hs'.
  { intros pre d post -> Hd. by eapply (Hs (c :: pre)). }
  destruct (is_sep c) eqn:Ec; [|by rewrite IH].
  rewrite skip_seps_id by by apply (Hs [] c s). by rewrite IH.
Qed.

Lemma clean_cstr s : cstr s -> cstr (clean s).
Proof.
  induction s as [s IH] using list_len_ind. destruct s as [|c s]; [done|].
  intros H. apply Forall_cons in H as [Hc Hs]. rewrite clean_cons.
  pose proof (skip_seps_length s). constructor; [done|].
  apply IH; [simpl; case_match; lia|]. destruct (skip_seps_suffix s) as [pre E].
  case_match; [|done]. rewrite E in Hs. by apply Forall_app in Hs as [_ ?].
Qed.

(** *** The buffer *)

Lemma at_middle pre c post : at_ (pre ++ c :: post) (length pre) = c.
Proof. unfold at_. by rewrite list_lookup_middle. Qed.

Lemma rdd_skip_spec fuel pre s rest :
  cstr s -> (length s < fuel)%nat ->
  rdd_skip fuel (pre ++ s ++ 0 :: rest) (length pre)
  = (length pre + (length s - length (skip_seps s)))%nat.
Proof.
  revert pre s. induction fuel as [|fuel IH]; intros pre s Hs Hf; [lia|].
  cbn [rdd_skip]. destruct s as [|c s]; simpl app.
  { rewrite at_middle. simpl. lia. }
  apply Forall_cons in Hs as [Hc Hs]. unfold is_char in Hc. simpl in Hf.
  rewrite at_middle, (proj2 (Z.eqb_neq c 0)) by lia.
  assert (at_ (pre ++ c :: s ++ 0 :: rest) (length pre + 1) = chr s) as ->.
  { rewrite (cons_middle c pre), app_assoc.
    replace (length pre + 1)%nat with (length (pre ++ [c])) by (rewrite length_app; simpl; lia).
    destruct s; simpl; apply at_middle. }
  pose proof (skip_seps_length s). cbn [skip_seps]. destruct (is_sep c) eqn:Ec.
  { replace (length pre + 1)%nat with (length (pre ++ [c])) by (rewrite length_app; simpl; lia).
    rewrite (cons_middle c pre), app_assoc, IH by (done || lia).
    rewrite length_app. simpl. lia. }
  destruct s as [|d s]; simpl chr.
  { rewrite andb_false_r. simpl. lia. }
  unfold chr; simpl default. destruct ((c =? c_dot) && (d =? c_dot)) eqn:E; [|simpl; lia].
  apply Forall_cons in Hs as [_ Hs]. pose proof (skip_seps_length s). simpl in Hf.
  replace (length pre + 2)%nat with (length (pre ++ [c; d])) by (rewrite length_app; simpl; lia).
  change (c :: (d :: s) ++ 0 :: rest) with ([c; d] ++ s ++ 0 :: rest).
  rewrite app_assoc, IH by (done || lia). rewrite length_app. simpl. lia.
Qed.

(** One write [*p = *s]: the byte [c] moves to the front of the gap between the
    two indices, and its own place becomes the last of the gap. *)
Lemma write_front out gap c tl :
  exists gap2, length gap2 = length gap /\
    <[length out := c]> (out ++ gap ++ c :: tl) = (out ++ [c]) ++ gap2 ++ tl /\
    at_ ((out ++ [c]) ++ gap2 ++ tl) (length out + length gap) = c.
Proof.
  destruct gap as [|g gap].
  - exists []. split_and!; [done| |].
    + simpl. rewrite <- (Nat.add_0_r (length out)), insert_app_r. by rewrite <- app_assoc.
    + simpl. rewrite Nat.add_0_r, <- app_assoc. apply at_middle.
  - exists (gap ++ [c]). split_and!.
    + rewrite length_app. simpl. lia.
    + simpl. rewrite <- (Nat.add_0_r (length out)), insert_app_r. simpl.
      by rewrite <- !app_assoc.
    + rewrite <- !app_assoc. simpl.
      replace (length out + S (length gap))%nat with (length (out ++ c :: gap))
        by (rewrite length_app; simpl; lia).
      replace (out ++ c :: gap ++ c :: tl) with ((out ++ c :: gap) ++ c :: tl)
        by by rewrite <- app_assoc.
      apply at_middle.
Qed.

(** Where reading goes on after the byte [c]: at what follows it, without more separators
    if it is one. *)
Lemma rdd_skip_front i (out gap : bytes) c s sk rest :
  let s2 := if is_sep c then skip_seps s else s in
  let buf := (out ++ [c]) ++ gap ++ s ++ 0 :: rest in
  cstr s -> i = (length out + length gap + 1)%nat -> s = sk ++ s2 ->
  (if is_sep c then rdd_skip (length buf) buf i else i) = (length (out ++ [c]) + length (gap ++ sk))%nat.
Proof.
  intros s2 buf Hs -> Esk. unfold buf. destruct (is_sep c) eqn:Ec.
  - rewrite app_assoc.
    replace (length out + length gap + 1)%nat with (length ((out ++ [c]) ++ gap))
      by (rewrite !length_app; simpl; lia).
    rewrite rdd_skip_spec; [|done|rewrite !length_app; simpl; lia].
    rewrite !length_app. subst s2. rewrite Esk at 1. rewrite length_app.
    pose proof (skip_seps_length s). simpl. lia.
  - assert (sk = []) as -> by (apply length_zero_iff_nil;
      apply (f_equal length) in Esk; rewrite length_app in Esk; subst s2; lia).
    rewrite app_nil_r, !length_app. simpl. lia.
Qed.

Lemma rdd_loop_spec fuel out gap s rest :
  cstr s -> (length s < fuel)%nat ->
  exists gap',
    rdd_loop fuel (out ++ gap ++ s ++ 0 :: rest) (length out) (length out + length gap)
    = out ++ clean s ++ 0 :: gap' /\
    length (out ++ clean s ++ 0 :: gap') = length (out ++ gap ++ s ++ 0 :: rest).
Proof.
  revert out gap s. induction fuel as [|fuel IH]; intros out gap s Hs Hf; [lia|].
  cbn [rdd_loop].
  assert (at_ (out ++ gap ++ s ++ 0 :: rest) (length out + length gap) = chr s) as ->.
  { rewrite app_assoc, <- length_app. destruct s; apply at_middle. }
  destruct s as [|c s].
  { rewrite app_nil_l. destruct (write_front out gap 0 rest) as (gap2 & Hl & Hw & _).
    simpl. rewrite Hw. exists (gap2 ++ rest). rewrite <- !app_assoc. split; [done|].
    rewrite !length_app. simpl. rewrite length_app. lia. }
  apply Forall_cons in Hs as [Hc Hs]. unfold is_char in Hc. rewrite <- app_comm_cons.
  change (chr (c :: s)) with c. rewrite (proj2 (Z.eqb_neq c 0)) by lia.
  destruct (write_front out gap c (s ++ 0 :: rest)) as (gap2 & Hl & -> & Hat).
  replace (length out + length gap + 1 - 1)%nat with (length out + length gap)%nat by lia.
  rewrite Hat. simpl in Hf.
  set (s2 := if is_sep c then skip_seps s else s).
  assert (exists sk, s = sk ++ s2) as [sk Esk].
  { subst s2. destruct (is_sep c); [apply skip_seps_suffix|by exists []]. }
  rewrite (rdd_skip_front _ out gap2 c s sk rest) by (done || lia).
  assert (Hs2 : cstr s2) by (rewrite Esk in Hs; by apply Forall_app in Hs as [_ ?]).
  assert (Hl2 : (length s2 < fuel)%nat) by
    (apply (f_equal length) in Esk; rewrite length_app in Esk; lia).
  destruct (IH (out ++ [c]) (gap2 ++ sk) s2 Hs2 Hl2) as (gap' & Hr & Hlen).
  replace ((out ++ [c]) ++ gap2 ++ s ++ 0 :: rest)
    with ((out ++ [c]) ++ (gap2 ++ sk) ++ s2 ++ 0 :: rest)
    by (rewrite Esk; by rewrite <- !app_assoc).
  replace (length out + 1)%nat with (length (out ++ [c])) by (rewrite length_app; done).
  rewrite Hr. exists gap'. rewrite clean_cons. fold s2. rewrite <- !app_assoc. split; [done|].
  apply (f_equal length) in Esk. rewrite length_app in Esk.
  rewrite !length_app in *. simpl in *. rewrite !length_app in *. simpl in *. lia.
Qed.

Lemma rdd_spec s rest :
  cstr s ->
  exists gap, remove_double_dots_and_double_slashes (s ++ 0 :: rest) = clean s ++ 0 :: gap /\
    length (clean s ++ 0 :: gap) = length (s ++ 0 :: rest).
Proof.
  intros Hs. apply (rdd_loop_spec (S (length (s ++ 0 :: rest))) [] [] s rest); [done|].
  rewrite length_app. simpl. lia.
Qed.

(** A safe path that starts with a separator has no ['..'] component. *)
Lemma safe_path_fields s c :
  is_sep c = true -> safe_path (c :: s) -> [c_dot; c_dot] ∉ split_on c_slash s.
Proof.
  intros Hc Hsafe Hin.
  assert (exists pre d post, c :: s = pre ++ d :: c_dot :: c_dot :: post /\ is_sep d = true)
    as (pre & d & post & E & Hd).
  2: { specialize (Hsafe pre d _ E Hd). destruct Hsafe as [_ H]. by apply H. }
  clear Hsafe. revert c Hc Hin. induction s as [s IH] using list_len_ind. intros c Hc Hin.
  destruct (find_byte_cut c_slash s) as [Hs|(f & rest & -> & Hf & _)].
  - rewrite split_on_none in Hin by done. apply list_elem_of_singleton in Hin as <-.
    by exists [], c, [].
  - rewrite split_on_app in Hin by done. apply elem_of_cons in Hin as [<-|Hin].
    + by exists [], c, (c_slash :: rest).
    + destruct (IH rest) with (c := c_slash) as (pre & d & post & E & Hd); [|done|done|].
      { rewrite length_app. simpl. lia. }
      exists (c :: f ++ pre), d, post. rewrite E. simpl. by rewrite <- app_assoc.
Qed.

(** ** Theorems *)

(** C4. No directory escape: on a buffer that holds a C string, the in-place filter
    stays inside the buffer and leaves a C string in which no ['/'] or ['\'] is
    followed by another one or by [".."]; so a URI that starts with ['/'] has no
    [".."] component left.  A string that is safe already is left unchanged, so
    the filter is idempotent. *)
Theorem remove_double_dots_safe (s rest : bytes) :
  cstr s ->
  let buf := remove_double_dots_and_double_slashes (s ++ 0 :: rest) in
  let r := cstr_at buf 0 in
  length buf = length (s ++ 0 :: rest) /\
  (length r <= length s)%nat /\
  safe_path r /\
  (chr s = c_slash -> [c_dot; c_dot] ∉ split_on c_slash r) /\
  (safe_path s -> r = s).
Proof.
  intros Hs buf r. destruct (rdd_spec s rest Hs) as (gap & Hb & Hlen).
  assert (r = clean s) as Hr.
  { subst r buf. rewrite Hb. apply until_nul_cstr, clean_cstr, Hs. }
  rewrite Hr. split_and!.
  - subst buf. by rewrite Hb.
  - apply clean_length.
  - apply clean_safe.
  - destruct s as [|c s]; [done|]. change (chr (c :: s)) with c. intros ->.
    pose proof (clean_safe (c_slash :: s)) as Hsafe. rewrite clean_cons in Hsafe |- *.
    cbn [split_on]. rewrite Z.eqb_refl, not_elem_of_cons. split; [done|].
    by apply (safe_path_fields _ c_slash).
  - apply clean_id.
Qed.

Lemma remove_double_dots_safe_witness :
  cstr_at (remove_double_dots_and_double_slashes (B "/a//../..\..//etc" ++ [0])) 0 = B "/a/etc" /\
  [c_dot; c_dot] ∉ split_on c_slash
    (cstr_at (remove_double_dots_and_double_slashes (B "/a//../..\..//etc" ++ [0])) 0).
Proof.
  split; [by_eval|].
  apply (remove_double_dots_safe (B "/a//../..\..//etc") []); [|done].
  apply (bool_decide_unpack _). by_eval.
Defined.
