(* ===== verification/UrlCodec.v ===== *)
(** * URL coding, form variables and cookies

    [mg_url_decode], [mg_get_var], [mg_get_cookie] (src/mongoose.c, lines 1659-1768)
    and [mg_url_encode] (lines 2552-2570).  Sizes are below [INT_MAX], as the
    [int] parameters of the source require.  A destination buffer is the list of
    the bytes the call stores in it, the terminating NUL included. *)

From S2P Require Import Prelude CString Options.

(** The macro of [mg_url_decode], applied to a lower-cased hexadecimal digit. *)
Definition HEXTOI (x : Z) : Z := if isdigit x then x - 48 else x - 87.

(** The loop: the bytes stored with [room] bytes left before the NUL, and
    whether the source was used up. *)
Fixpoint url_decode_loop (src : bytes) (room : nat) (is_form_url_encoded : bool)
    : bytes * bool :=
  match src with
  | [] => ([], true)
  | c :: src' =>
      match room with
      | O => ([], false)
      | S room' =>
          let plain := if is_form_url_encoded && (c =? c_plus) then c_space else c in
          let continue (b : Z) (r : bytes * bool) := (b :: r.1, r.2) in
          match src' with
          | x :: y :: src'' =>
              if (c =? c_percent) && isxdigit x && isxdigit y then
                let a := tolower x in
                let b := tolower y in
                continue (wrap8 (Z.lor (Z.shiftl (HEXTOI a) 4) (HEXTOI b)))
                  (url_decode_loop src'' room' is_form_url_encoded)
              else continue plain (url_decode_loop src' room' is_form_url_encoded)
          | _ => continue plain (url_decode_loop src' room' is_form_url_encoded)
          end
      end
  end.

(** The bytes stored in [dst], and the value returned. *)
Definition mg_url_decode (src : bytes) (dst_len : Z) (is_form_url_encoded : bool)
    : bytes * Z :=
  let '(d, all) := url_decode_loop src (Z.to_nat (dst_len - 1)) is_form_url_encoded in
  (d ++ [0], if all then Z.of_nat (length d) else -1).

Definition dont_escape : bytes := B "._-$,;~()".
Definition hex_digits : bytes := B "0123456789abcdef".
Definition hex (n : Z) : Z := at_ hex_digits (Z.to_nat n).

(** [room] is [end - dst].  [None] is a byte of [dst] that the loop steps over
    without storing anything in it. *)
Fixpoint url_encode_loop (src : bytes) (room : nat) : list (option Z) :=
  match src, room with
  | [], _ => []
  | _, O => []
  | c :: src', S room' =>
      if isalnum c || mem c dont_escape then Some c :: url_encode_loop src' room'
      else if (2 <? room)%nat then
        Some c_percent :: Some (hex (Z.shiftr c 4)) :: Some (hex (Z.land c 15)) ::
          url_encode_loop src' (room - 3)
      else None :: url_encode_loop src' room'
  end.

Definition mg_url_encode (src : bytes) (dst_len : nat) : list (option Z) :=
  url_encode_loop src (dst_len - 1) ++ [Some 0].

(** The search of [mg_get_var]: [p] is what is left of the data, [first] holds
    when [p == data || p[-1] == '&'].  The result starts at the value. *)
Fixpoint get_var_find (p : bytes) (first : bool) (name : bytes) : option bytes :=
  match p with
  | [] => None
  | c :: p' =>
      if (length name <? length p)%nat then
        if first && (at_ p (length name) =? c_eq) &&
           (mg_strncasecmp name p (length name) =? 0)
        then Some (drop (length name + 1) p)
        else get_var_find p' (c =? c_amp) name
      else None
  end.

(** [None] for a NULL pointer; [dst] is the size of the destination buffer.  The
    result is the value returned, and the bytes stored in the buffer, if any. *)
Definition mg_get_var (data name : option bytes) (dst : option nat) : Z * option bytes :=
  match dst with
  | None | Some O => (-2, None)
  | Some dst_len =>
      match data, name with
      | Some ((_ :: _) as d), Some nm =>
          match get_var_find d true nm with
          | None => (-1, Some [0])
          | Some p =>
              let s := default (length p) (find_byte c_amp p) in
              let '(out, len) := mg_url_decode (take s p) (Z.of_nat dst_len) true in
              (if len =? -1 then -2 else len, Some out)
          end
      | _, _ => (-1, Some [0])
      end
  end.

(** The search loop of [mg_get_cookie] over offsets of the header. *)
Inductive cookie_search :=
  | NotFound
  | FoundAt (s : nat)
  | OutOfFuel.

Fixpoint cookie_find (fuel : nat) (header : bytes) (s : nat) (name : bytes) : cookie_search :=
  match fuel with
  | O => OutOfFuel
  | S fuel' =>
      match mg_strcasestr (drop s header) name with
      | None => NotFound
      | Some i =>
          let s := (s + i)%nat in
          if at_ header (s + length name) =? c_eq then FoundAt (s + length name + 1)
          else cookie_find fuel' header (s + length name) name
      end
  end.

(** The value and the bytes stored, once the value is found at offset [s]. *)
Definition cookie_value (header : bytes) (s : nat) (dst_size : nat) : Z * option bytes :=
  let p := match find_byte c_space (drop s header) with
           | Some k => (s + k)%nat
           | None => length header
           end in
  let p := if at_ header (p - 1) =? c_semi then (p - 1)%nat else p in
  let '(s, p) :=
    if (at_ header s =? c_dquote) && (at_ header (p - 1) =? c_dquote) && (s + 1 <? p)%nat
    then (s + 1, p - 1)%nat else (s, p) in
  if (p - s <? dst_size)%nat
  then (Z.of_nat (p - s), Some (mg_strlcpy (drop s header) (p - s + 1)))
  else (-3, Some [0]).

(** [None] when the fuel runs out. *)
Definition mg_get_cookie (fuel : nat) (cookie_header var_name : option bytes)
    (dst : option nat) : option (Z * option bytes) :=
  match dst with
  | None | Some O => Some (-2, None)
  | Some dst_size =>
      match var_name, cookie_header with
      | Some name, Some header =>
          match cookie_find fuel header 0 name with
          | NotFound => Some (-1, Some [0])
          | FoundAt s => Some (cookie_value header s dst_size)
          | OutOfFuel => None
          end
      | _, _ => Some (-1, Some [0])
      end
  end.

(** ** Lemmas on the codec *)

(** What the encoder writes for one byte. *)
Definition escape (c : Z) : bytes :=
  if isalnum c || mem c dont_escape then [c]
  else [c_percent; hex (Z.shiftr c 4); hex (Z.land c 15)].

Definition escape_all (s : bytes) : bytes := flat_map escape s.

Lemma hex_spec n : 0 <= n < 16 ->
  isxdigit (hex n) = true /\ HEXTOI (tolower (hex n)) = n /\ is_char (hex n) /\ hex n <> c_amp.
Proof.
  intros Hn. assert (Forall (fun n => isxdigit (hex n) = true /\
    HEXTOI (tolower (hex n)) = n /\ is_char (hex n) /\ hex n <> c_amp) (seqZ 0 16)) as H
    by (apply (bool_decide_unpack _); by_eval).
  rewrite Forall_forall in H. apply H. apply elem_of_seqZ. lia.
Qed.

Lemma byte_nibbles c : is_byte c ->
  0 <= Z.shiftr c 4 < 16 /\ 0 <= Z.land c 15 < 16 /\
  wrap8 (Z.lor (Z.shiftl (Z.shiftr c 4) 4) (Z.land c 15)) = c.
Proof.
  intros Hc. assert (Forall (fun c => 0 <= Z.shiftr c 4 < 16 /\ 0 <= Z.land c 15 < 16 /\
    wrap8 (Z.lor (Z.shiftl (Z.shiftr c 4) 4) (Z.land c 15)) = c) (seqZ 0 256)) as H
    by (apply (bool_decide_unpack _); by_eval).
  rewrite Forall_forall in H. apply H. apply elem_of_seqZ. unfold is_byte in Hc. lia.
Qed.

Lemma escape_length c : (1 <= length (escape c) <= 3)%nat.
Proof. unfold escape. case_match; simpl; lia. Qed.

Lemma escape_all_length s : (length (escape_all s) <= 3 * length s)%nat.
Proof.
  induction s as [|c s IH]; simpl; [lia|]. rewrite length_app.
  pose proof (escape_length c). lia.
Qed.

Lemma unreserved_plain c :
  isalnum c || mem c dont_escape = true -> c <> c_percent /\ c <> c_plus /\ c <> c_amp.
Proof. intros H. split_and!; intros ->; vm_compute in H; discriminate. Qed.

Lemma url_encode_loop_fits s room :
  (3 * length s <= room)%nat -> url_encode_loop s room = Some <$> escape_all s.
Proof.
  revert room. induction s as [|c s IH]; intros room Hr; [done|]. simpl in Hr.
  destruct room as [|room]; [lia|]. cbn [url_encode_loop escape_all flat_map].
  rewrite fmap_app. fold (escape_all s). unfold escape.
  destruct (isalnum c || mem c dont_escape).
  - rewrite IH by lia. done.
  - rewrite (proj2 (Nat.ltb_lt _ _)) by lia. rewrite IH by lia. done.
Qed.

(** Decoding what the encoder wrote, into a buffer with [room] bytes. *)
Lemma url_decode_escape s room form :
  Forall is_byte s ->
  url_decode_loop (escape_all s) room form = (take room s, (length s <=? room)%nat).
Proof.
  intros Hs. revert room. induction Hs as [|c s Hc Hs IH]; intros room.
  { simpl. by rewrite take_nil. }
  destruct (byte_nibbles c Hc) as (Hhi & Hlo & Hback).
  destruct (hex_spec _ Hhi) as (Xh & Vh & _), (hex_spec _ Hlo) as (Xl & Vl & _).
  cbn [escape_all flat_map]. fold (escape_all s). unfold escape.
  destruct (isalnum c || mem c dont_escape) eqn:E.
  - apply unreserved_plain in E as (Hp & Hplus & _).
    simpl app. cbn [url_decode_loop]. destruct room as [|room]; [done|].
    rewrite (proj2 (Z.eqb_neq c c_percent)), (proj2 (Z.eqb_neq c c_plus)) by done.
    rewrite andb_false_r. cbn [andb].
    destruct (escape_all s) as [|x [|y t]]; rewrite IH; done.
  - simpl app. cbn [url_decode_loop]. destruct room as [|room]; [done|].
    rewrite Xh, Xl, Vh, Vl, Hback, Z.eqb_refl. cbn [andb]. by rewrite IH.
Qed.

Lemma escape_all_no_amp s : Forall is_byte s -> c_amp ∉ escape_all s.
Proof.
  intros Hs Hin. unfold escape_all in Hin. apply list_elem_of_In, in_flat_map in Hin.
  destruct Hin as (c & Hc & Hin). apply list_elem_of_In in Hc, Hin.
  rewrite Forall_forall in Hs. specialize (Hs c Hc).
  destruct (byte_nibbles c Hs) as (Hhi & Hlo & _).
  destruct (hex_spec _ Hhi) as (_ & _ & _ & Nh), (hex_spec _ Hlo) as (_ & _ & _ & Nl).
  unfold escape in Hin. destruct (isalnum c || mem c dont_escape) eqn:E.
  - apply unreserved_plain in E as (_ & _ & Ha). apply list_elem_of_singleton in Hin. congruence.
  - rewrite !elem_of_cons in Hin. destruct Hin as [?|[?|[?|?]]]; try congruence.
    by apply elem_of_nil in H.
Qed.

Lemma mg_url_decode_escape s dst_len form :
  Forall is_byte s -> 0 < dst_len ->
  mg_url_decode (escape_all s) dst_len form =
    if Z.of_nat (length s) <? dst_len then (s ++ [0], Z.of_nat (length s))
    else (take (Z.to_nat (dst_len - 1)) s ++ [0], -1).
Proof.
  intros Hs Hd. unfold mg_url_decode. rewrite url_decode_escape by done.
  destruct (Z.ltb_spec (Z.of_nat (length s)) dst_len).
  - rewrite (proj2 (Nat.leb_le _ _)) by lia. by rewrite take_ge by lia.
  - by rewrite (proj2 (Nat.leb_gt _ _)) by lia.
Qed.

(** ** Lemmas on form data *)

Lemma get_var_find_short p first name :
  (length p <= length name)%nat -> get_var_find p first name = None.
Proof.
  destruct p as [|c p]; [done|]. intros H. cbn [get_var_find].
  by rewrite (proj2 (Nat.ltb_ge _ _)).
Qed.

(** Inside a field nothing is found before the next ['&']. *)
Lemma get_var_find_skip w rest name :
  c_amp ∉ w -> get_var_find (w ++ c_amp :: rest) false name = get_var_find rest true name.
Proof.
  induction w as [|c w IH]; intros Hw; simpl app; cbn [get_var_find].
  - rewrite Z.eqb_refl. case_match eqn:E; [done|]. apply Nat.ltb_ge in E.
    by rewrite get_var_find_short by (simpl in E; lia).
  - rewrite not_elem_of_cons in Hw. destruct Hw as [Hc Hw].
    rewrite (proj2 (Z.eqb_neq c c_amp)) by congruence. rewrite IH by done.
    case_match eqn:E; [done|]. apply Nat.ltb_ge in E. simpl in E. rewrite length_app in E.
    simpl in E. by rewrite get_var_find_short by lia.
Qed.

Lemma get_var_find_none w name : c_amp ∉ w -> get_var_find w false name = None.
Proof.
  induction w as [|c w IH]; [done|]. intros Hw. cbn [get_var_find].
  rewrite not_elem_of_cons in Hw. destruct Hw as [Hc Hw].
  rewrite (proj2 (Z.eqb_neq c c_amp)) by congruence. rewrite IH by done. by case_match.
Qed.

Lemma lower_eq_sign s : c_eq ∉ s <-> c_eq ∉ lower s.
Proof.
  unfold lower. induction s as [|c s IH]; simpl; [done|]. rewrite !not_elem_of_cons, IH.
  assert (c_eq <> c <-> c_eq <> tolower c) by byte_lia. tauto.
Qed.

(** The test of the search at the start of the field [k=...]. *)
Lemma get_var_test k name rest :
  c_eq ∉ k -> c_eq ∉ name -> cstr (k ++ c_eq :: rest) -> cstr name ->
  (at_ (k ++ c_eq :: rest) (length name) =? c_eq) &&
  (mg_strncasecmp name (k ++ c_eq :: rest) (length name) =? 0)
  = bool_decide (lower k = lower name).
Proof.
  intros Hk Hn Hd Hnm. apply eq_bool_prop_intro. rewrite andb_True, !Is_true_true, !Z.eqb_eq.
  rewrite mg_strncasecmp_0, bool_decide_eq_true by done.
  rewrite (take_ge (lower name)) by by rewrite lower_length. rewrite lower_app. split.
  - intros [Hat Hpre]. assert (length name = length k) as Hl.
    + destruct (Nat.lt_trichotomy (length name) (length k)) as [H|[H|H]]; [|done|]; exfalso.
      * apply Hk. unfold at_ in Hat. rewrite lookup_app_l in Hat by done.
        destruct (k !! length name) eqn:E; [|done]. simpl in Hat. subst.
        by eapply list_elem_of_lookup_2.
      * apply lower_eq_sign in Hn. apply Hn. rewrite Hpre.
        rewrite take_app_ge by (rewrite lower_length; lia). apply elem_of_app. right.
        rewrite lower_length. replace (length name - length k)%nat
          with (S (length name - length k - 1)) by lia. by left.
    + rewrite Hpre, Hl, <- lower_length, take_app_length. done.
  - intros E. assert (length name = length k) as Hl by
      (rewrite <- lower_length, <- (lower_length k); by rewrite E).
    rewrite Hl. split; [unfold at_; by rewrite list_lookup_middle|].
    by rewrite <- lower_length, take_app_length.
Qed.

Lemma get_var_find_field k name rest :
  c_eq ∉ k -> c_eq ∉ name -> cstr (k ++ c_eq :: rest) -> cstr name ->
  get_var_find (k ++ c_eq :: rest) true name =
    if bool_decide (lower k = lower name) then Some rest
    else get_var_find (tail (k ++ c_eq :: rest)) (chr (k ++ c_eq :: rest) =? c_amp) name.
Proof.
  intros Hk Hn Hd Hnm. pose proof (get_var_test k name rest Hk Hn Hd Hnm) as Ht.
  assert (forall p, p = k ++ c_eq :: rest -> get_var_find p true name =
    if (length name <? length p)%nat then
      if bool_decide (lower k = lower name) then Some (drop (length name + 1) p)
      else get_var_find (tail p) (chr p =? c_amp) name
    else None) as Hu.
  { intros [|c p] E; [by destruct k|]. cbn [get_var_find andb].
    rewrite <- E in Ht. by rewrite Ht. }
  rewrite (Hu _ eq_refl). case_bool_decide as E.
  - assert (length name = length k) as Hl by
      (rewrite <- lower_length, <- (lower_length k); by rewrite E).
    rewrite Hl, length_app. simpl. rewrite (proj2 (Nat.ltb_lt _ _)) by lia.
    rewrite drop_app_ge by lia. by replace (length k + 1 - length k)%nat with 1%nat by lia.
  - destruct (Nat.ltb_spec (length name) (length (k ++ c_eq :: rest))) as [|H]; [done|].
    rewrite get_var_find_short; [done|]. destruct (k ++ c_eq :: rest); simpl in *; lia.
Qed.

(** ** Form data as a list of fields *)

Definition form_field (kv : bytes * bytes) : bytes := kv.1 ++ c_eq :: escape_all kv.2.
Definition form_data (kvs : list (bytes * bytes)) : bytes := join c_amp (map form_field kvs).

Definition form_ok (kv : bytes * bytes) : Prop :=
  cstr kv.1 /\ cstr kv.2 /\ (c_amp ∉ kv.1) /\ (c_eq ∉ kv.1).

#[export] Instance form_ok_dec kv : Decision (form_ok kv).
Proof. unfold form_ok. apply _. Defined.

Definition same_name (name : bytes) (kv : bytes * bytes) : Prop := lower kv.1 = lower name.
#[export] Instance same_name_dec name kv : Decision (same_name name kv).
Proof. unfold same_name. apply _. Defined.

Lemma escape_all_cstr s : cstr s -> cstr (escape_all s).
Proof.
  intros Hs. apply Forall_forall. intros x Hin.
  apply list_elem_of_In, in_flat_map in Hin as (c & Hc & Hin).
  apply list_elem_of_In in Hc, Hin. rewrite Forall_forall in Hs. specialize (Hs c Hc).
  destruct (byte_nibbles c (is_char_byte _ Hs)) as (Hhi & Hlo & _).
  destruct (hex_spec _ Hhi) as (_ & _ & Ch & _), (hex_spec _ Hlo) as (_ & _ & Cl & _).
  unfold escape in Hin. case_match; rewrite !elem_of_cons in Hin;
    repeat destruct Hin as [->|Hin]; try done; by apply elem_of_nil in Hin.
Qed.

Lemma form_field_amp kv : form_ok kv -> c_amp ∉ form_field kv.
Proof.
  intros (_ & Hv & Ha & _). unfold form_field. rewrite not_elem_of_app, not_elem_of_cons.
  split_and!; [done|done|]. by apply escape_all_no_amp, cstr_bytes.
Qed.

Lemma form_field_cstr kv : form_ok kv -> cstr (form_field kv).
Proof.
  intros (Hk & Hv & _). unfold form_field. apply Forall_app. split; [done|].
  constructor; [done|]. by apply escape_all_cstr.
Qed.

Lemma form_data_cons kv kvs :
  kvs <> [] -> form_data (kv :: kvs) = form_field kv ++ c_amp :: form_data kvs.
Proof. by destruct kvs. Qed.

Lemma form_data_cstr kvs : Forall form_ok kvs -> cstr (form_data kvs).
Proof.
  intros H. induction H as [|kv kvs Hkv Hkvs IH]; [done|].
  destruct kvs as [|kv' kvs]; [by apply form_field_cstr|].
  rewrite form_data_cons by done. apply Forall_app.
  split; [by apply form_field_cstr|]. by constructor.
Qed.

(** Where the value of [name] starts, and what the data is from there on. *)
Lemma get_var_find_form name kvs :
  cstr name -> c_eq ∉ name -> Forall form_ok kvs ->
  match list_find (same_name name) kvs with
  | None => get_var_find (form_data kvs) true name = None
  | Some (_, kv) =>
      exists rest, get_var_find (form_data kvs) true name = Some (escape_all kv.2 ++ rest) /\
        (rest = [] \/ chr rest = c_amp)
  end.
Proof.
  intros Hn He Hok. induction Hok as [|kv kvs Hkv Hkvs IH]; [done|].
  set (tl := match kvs with [] => [] | _ => c_amp :: form_data kvs end).
  assert (form_data (kv :: kvs) = kv.1 ++ c_eq :: escape_all kv.2 ++ tl) as Hd.
  { subst tl. destruct kvs as [|kv' kvs].
    - rewrite app_nil_r. done.
    - rewrite form_data_cons by done. unfold form_field. by rewrite <- app_assoc. }
  assert (cstr (form_data (kv :: kvs))) as Hc by (apply form_data_cstr; by constructor).
  rewrite Hd in Hc |- *. pose proof Hkv as (_ & Hv & Ha & Hek).
  rewrite get_var_find_field by done. cbn [list_find]. unfold same_name at 1.
  destruct (decide (lower kv.1 = lower name)) as [E|E].
  - rewrite bool_decide_true by done. exists tl. split; [done|].
    subst tl. destruct kvs; [by left|by right].
  - rewrite bool_decide_false by done.
    set (f := kv.1 ++ c_eq :: escape_all kv.2 ++ tl).
    assert (exists c w, f = c :: w ++ tl /\ c <> c_amp /\ c_amp ∉ w) as (c & w & Hf & Hc1 & Hw).
    { pose proof (form_field_amp kv Hkv) as Hfa. unfold form_field in Hfa. subst f.
      destruct (kv.1) as [|c k]; simpl in *; rewrite not_elem_of_cons in Hfa;
        destruct Hfa as [H1 H2]; do 2 eexists; (split; [|by split]); [done|].
      by rewrite <- app_assoc. }
    rewrite Hf. change (chr (c :: w ++ tl)) with c. cbn [tail].
    rewrite (proj2 (Z.eqb_neq c c_amp)) by done.
    assert (get_var_find (w ++ tl) false name = get_var_find (form_data kvs) true name) as ->.
    { subst tl. destruct kvs; [rewrite app_nil_r; by apply get_var_find_none|].
      by apply get_var_find_skip. }
    destruct (list_find (same_name name) kvs) as [[j kv']|]; exact IH.
Qed.

Lemma form_data_nonempty kvs : kvs <> [] -> form_data kvs <> [].
Proof.
  destruct kvs as [|[k v] kvs]; [done|]. intros _. unfold form_data. simpl.
  destruct (map form_field kvs), k; done.
Qed.

Lemma mg_get_var_nonempty d name n :
  d <> [] ->
  mg_get_var (Some d) (Some name) (Some (S n)) =
    match get_var_find d true name with
    | None => (-1, Some [0])
    | Some p =>
        let '(out, len) := mg_url_decode (take (default (length p) (find_byte c_amp p)) p)
                             (Z.of_nat (S n)) true in
        (if len =? -1 then -2 else len, Some out)
    end.
Proof. intros H. by destruct d. Qed.

(** ** Lemmas on cookies *)

Lemma cookie_find_enough fuel header s name :
  cstr header -> cstr name -> name <> [] ->
  (length header < s + fuel)%nat -> (s <= length header)%nat ->
  cookie_find fuel header s name <> OutOfFuel.
Proof.
  intros Hh Hn Hne. revert s. induction fuel as [|fuel IH]; intros s Hf Hs; [lia|].
  cbn [cookie_find]. destruct (mg_strcasestr (drop s header) name) as [i|] eqn:E; [|done].
  apply mg_strcasestr_Some in E as [[Hl _] _]; [|by apply Forall_drop|done].
  rewrite length_drop in Hl. case_match; [done|].
  assert (0 < length name)%nat by (destruct name; [done|simpl; lia]).
  apply IH; lia.
Qed.

Lemma cookie_find_first name rest :
  cstr name -> cstr (name ++ c_eq :: rest) ->
  cookie_find (S (length (name ++ c_eq :: rest))) (name ++ c_eq :: rest) 0 name
  = FoundAt (length name + 1).
Proof.
  intros Hn Hh. cbn [cookie_find]. rewrite drop_0.
  assert (occurs_at (name ++ c_eq :: rest) name 0) as Ho.
  { split; [rewrite length_app; lia|]. by rewrite drop_0, take_app_length. }
  destruct (mg_strcasestr (name ++ c_eq :: rest) name) as [i|] eqn:E.
  - apply mg_strcasestr_Some in E as [_ Hf]; [|done|done].
    destruct i as [|i]; [|exfalso; by apply (Hf 0%nat); [lia|]].
    simpl. unfold at_. by rewrite list_lookup_middle.
  - exfalso. by eapply mg_strcasestr_None; [exact Hh|exact Hn|exact E|].
Qed.

(** ** Theorems *)

(** URL coding round trip: a C string encoded into a buffer of more than three
    times its length is stored completely and decodes, with or without form
    decoding and into any buffer that can hold it, to the string itself. *)
Theorem url_encode_decode (s : bytes) (enc_len : nat) (dec_len : Z) (form : bool) :
  cstr s -> (3 * length s < enc_len)%nat -> Z.of_nat (length s) < dec_len ->
  exists e, mg_url_encode s enc_len = Some <$> (e ++ [0]) /\ cstr e /\
    mg_url_decode e dec_len form = (s ++ [0], Z.of_nat (length s)).
Proof.
  intros Hs He Hd. exists (escape_all s). split_and!.
  - unfold mg_url_encode. rewrite url_encode_loop_fits by lia. by rewrite fmap_app.
  - by apply escape_all_cstr.
  - rewrite mg_url_decode_escape by (auto with tw || lia).
    by rewrite (proj2 (Z.ltb_lt _ _)).
Qed.

Lemma url_encode_decode_witness :
  mg_url_encode (B "a b+c/%") 64 = Some <$> (B "a%20b%2bc%2f%25" ++ [0]) /\
  exists e, mg_url_encode (B "a b+c/%") 64 = Some <$> (e ++ [0]) /\ cstr e /\
    mg_url_decode e 8 true = (B "a b+c/%" ++ [0], 7).
Proof.
  split; [by_eval|].
  apply (url_encode_decode (B "a b+c/%") 64 8 true).
  - apply (bool_decide_unpack _). by_eval.
  - simpl. lia.
  - by_eval.
Defined.

(** The encoder's gap: an escaped byte for which fewer than three bytes are left
    is skipped, and the byte of [dst] at its place is never written, although the
    text goes on after it. *)
Theorem url_encode_gap (c : Z) (s : bytes) :
  isalnum c || mem c dont_escape = false ->
  mg_url_encode (c :: s) 3 = [None] ++ url_encode_loop s 1 ++ [Some 0].
Proof. intros H. unfold mg_url_encode. cbn [url_encode_loop Nat.sub]. by rewrite H. Qed.

Lemma url_encode_gap_witness : mg_url_encode (B "/x") 3 = [None; Some 120; Some 0].
Proof. exact (url_encode_gap 47 (B "x") eq_refl). Defined.

(** C38. Form variables: on form data built from any list of name and value pairs
    with escaped values, [mg_get_var] finds the first pair whose name equals the
    given one up to case and returns the length of its value, with the value in
    the buffer; -2 and the truncated value when the buffer is too small; and -1
    with an empty string when no pair has that name. *)
Theorem mg_get_var_form (kvs : list (bytes * bytes)) (name : bytes) (dst_len : nat) :
  Forall form_ok kvs -> cstr name -> (c_eq ∉ name) -> (0 < dst_len)%nat ->
  mg_get_var (Some (form_data kvs)) (Some name) (Some dst_len) =
    match list_find (same_name name) kvs with
    | None => (-1, Some [0])
    | Some (_, (_, v)) =>
        if (length v <? dst_len)%nat then (Z.of_nat (length v), Some (v ++ [0]))
        else (-2, Some (take (dst_len - 1) v ++ [0]))
    end.
Proof.
  intros Hok Hn He Hd. destruct dst_len as [|dst_len]; [lia|].
  pose proof (get_var_find_form name kvs Hn He Hok) as Hfind.
  assert (forall i kv, list_find (same_name name) kvs = Some (i, kv) -> form_ok kv) as Hin.
  { intros i kv E. apply list_find_Some in E as (E & _).
    eapply Forall_lookup_1 in E; [exact E|done]. }
  destruct (decide (kvs = [])) as [->|Hne]; [done|].
  rewrite mg_get_var_nonempty by by apply form_data_nonempty.
  destruct (list_find (same_name name) kvs) as [[i [k v]]|].
  2: by rewrite Hfind.
  destruct Hfind as (rest & -> & Hrest). destruct (Hin i (k, v) eq_refl) as (_ & Hv & _).
  simpl in Hv |- *.
  assert (take (default (length (escape_all v ++ rest)) (find_byte c_amp (escape_all v ++ rest)))
            (escape_all v ++ rest) = escape_all v) as ->.
  { pose proof (escape_all_no_amp v (cstr_bytes _ Hv)) as Hamp. destruct Hrest as [->|Hr].
    - rewrite app_nil_r, (proj2 (find_byte_None _ _)) by done. by rewrite take_ge.
    - destruct rest as [|c rest]; [done|]. unfold chr in Hr; simpl in Hr. subst c.
      rewrite find_byte_app by done. apply take_app_length. }
  rewrite mg_url_decode_escape by (auto with tw || lia).
  destruct (Nat.ltb_spec (length v) (S dst_len)).
  - rewrite (proj2 (Z.ltb_lt _ _)) by lia. by rewrite (proj2 (Z.eqb_neq _ _)) by lia.
  - rewrite (proj2 (Z.ltb_ge _ _)) by lia. simpl. do 4 f_equal. lia.
Qed.

Lemma mg_get_var_form_witness :
  mg_get_var (Some (form_data [(B "filename", B "a.txt"); (B "data", B "x & y = 50%")]))
    (Some (B "Data")) (Some 64%nat) = (11, Some (B "x & y = 50%" ++ [0])).
Proof.
  rewrite (mg_get_var_form [(B "filename", B "a.txt"); (B "data", B "x & y = 50%")]
    (B "Data") 64).
  - by_eval.
  - apply (bool_decide_unpack _). by_eval.
  - apply (bool_decide_unpack _). by_eval.
  - apply (bool_decide_unpack _). by_eval.
  - lia.
Defined.

(** A value does not end in a semicolon, nor does what is in front of it. *)
Lemma cookie_value_end (name v more : bytes) :
  last v <> Some c_semi ->
  at_ (name ++ c_eq :: v ++ more) (length name + 1 + length v - 1) <> c_semi.
Proof.
  intros Hsemi. unfold at_. destruct v as [|c0 v'] using rev_ind.
  - replace (length name + 1 + length [] - 1)%nat with (length name) by (simpl; lia).
    by rewrite list_lookup_middle.
  - rewrite length_app. replace (length name + 1 + (length v' + length [c0]) - 1)%nat
      with (length (name ++ c_eq :: v')) by (rewrite length_app; simpl; lia).
    replace (name ++ c_eq :: (v' ++ [c0]) ++ more) with ((name ++ c_eq :: v') ++ c0 :: more)
      by (by rewrite <- !app_assoc).
    rewrite list_lookup_middle by done. simpl. intros ->. apply Hsemi. by rewrite last_snoc.
Qed.

(** Cookies: for a nonempty name the search of [mg_get_cookie] ends within one
    step per byte of the header, and a header that starts with [name=value],
    followed by nothing or by ["; "] and more cookies, gives that value: its
    length with the value in the buffer, or -3 with an empty string when the
    buffer is too small. *)
Theorem mg_get_cookie_first (name v more : bytes) (dst_size : nat) :
  cstr name -> name <> [] -> cstr v -> cstr more -> (0 < dst_size)%nat ->
  (c_space ∉ v) -> last v <> Some c_semi -> chr v <> c_dquote ->
  (more = [] \/ exists m, more = c_semi :: c_space :: m) ->
  let header := name ++ c_eq :: v ++ more in
  (forall n, n <> [] -> cstr n ->
     is_Some (mg_get_cookie (S (length header)) (Some header) (Some n) (Some dst_size))) /\
  mg_get_cookie (S (length header)) (Some header) (Some name) (Some dst_size) =
    Some (if (length v <? dst_size)%nat then (Z.of_nat (length v), Some (v ++ [0]))
          else (-3, Some [0])).
Proof.
  intros Hn Hne Hv Hm Hd Hsp Hsemi Hq Hmore header.
  assert (cstr header) as Hh.
  { apply Forall_app. split; [done|]. constructor; [done|]. by apply Forall_app. }
  unfold mg_get_cookie. destruct dst_size as [|d]; [lia|]. split.
  { intros n Hn' Hcn. pose proof (cookie_find_enough (S (length header)) header 0 n
      Hh Hcn Hn' ltac:(lia) ltac:(lia)). by destruct (cookie_find _ _ _ _). }
  subst header. rewrite cookie_find_first by done. f_equal.
  set (h := name ++ c_eq :: v ++ more). set (s := (length name + 1)%nat).
  assert (drop s h = v ++ more) as Hdrop.
  { subst s h. rewrite drop_app_ge by lia.
    by replace (length name + 1 - length name)%nat with 1%nat by lia. }
  assert (forall k, at_ h (s + k) = at_ (v ++ more) k) as Hat.
  { intros k. unfold at_. rewrite <- Hdrop. by rewrite lookup_drop. }
  assert (length h = (s + length v + length more)%nat) as Hlen.
  { subst h s. rewrite length_app. simpl. rewrite length_app. lia. }
  assert (Hlast : at_ h (s + length v - 1) <> c_semi) by (by apply cookie_value_end).
  assert (Hquote : at_ h s <> c_dquote).
  { rewrite <- (Nat.add_0_r s), Hat. unfold at_. destruct v as [|c0 v']; [|exact Hq].
    destruct Hmore as [->|[m ->]]; done. }
  unfold cookie_value. rewrite Hdrop.
  set (p := if at_ h (match find_byte c_space (v ++ more) with Some k => (s + k)%nat
              | None => length h end - 1) =? c_semi then _ else _).
  assert (p = (s + length v)%nat) as ->.
  { subst p. destruct Hmore as [->|[m ->]].
    - rewrite app_nil_r, (proj2 (find_byte_None _ _)) by done.
      rewrite Hlen, Nat.add_0_r. by rewrite (proj2 (Z.eqb_neq _ _)).
    - replace (v ++ c_semi :: c_space :: m) with ((v ++ [c_semi]) ++ c_space :: m)
        by by rewrite <- app_assoc.
      rewrite find_byte_app by (rewrite not_elem_of_app, list_elem_of_singleton; done).
      rewrite length_app. simpl length.
      replace (s + (length v + 1) - 1)%nat with (s + length v)%nat by lia.
      rewrite Hat. unfold at_. rewrite list_lookup_middle by done. done. }
  rewrite (proj2 (Z.eqb_neq (at_ h s) c_dquote)) by done. cbn [andb].
  replace (s + length v - s)%nat with (length v) by lia.
  case_match; [|done]. rewrite Hdrop, mg_strlcpy_take.
  replace (length v + 1 - 1)%nat with (length v) by lia. by rewrite take_app_length.
Qed.

Lemma mg_get_cookie_first_witness :
  mg_get_cookie 30 (Some (B "sid=42ab; theme=dark; foo=xy")) (Some (B "sid")) (Some 8%nat)
  = Some (4, Some (B "42ab" ++ [0])).
Proof.
  apply (mg_get_cookie_first (B "sid") (B "42ab") (B "; theme=dark; foo=xy") 8);
    try (apply (bool_decide_unpack _); by_eval); try done; try lia.
  right. by exists (B "theme=dark; foo=xy").
Defined.

(** An empty cookie name: on a header that does not start with ['='] the search
    finds the empty string at the same place again and again, so
    [mg_get_cookie] does not return, whatever number of iterations is allowed. *)
Theorem mg_get_cookie_empty_name_diverges (header : bytes) (dst_size fuel : nat) :
  chr header <> c_eq -> (0 < dst_size)%nat ->
  mg_get_cookie fuel (Some header) (Some []) (Some dst_size) = None.
Proof.
  intros Hh Hd. unfold mg_get_cookie. destruct dst_size as [|d]; [lia|].
  assert (cookie_find fuel header 0 [] = OutOfFuel) as ->; [|done].
  induction fuel as [|fuel IH]; [done|]. cbn [cookie_find]. rewrite drop_0.
  assert (mg_strcasestr header [] = Some 0%nat) as ->.
  { unfold mg_strcasestr. replace (Z.to_nat _) with (S (length header)) by (simpl; lia). done. }
  simpl. assert (at_ header 0 = chr header) as -> by by destruct header.
  by rewrite (proj2 (Z.eqb_neq _ _)).
Qed.

Lemma mg_get_cookie_empty_name_diverges_witness :
  mg_get_cookie 1000 (Some (B "sid=42")) (Some []) (Some 8%nat) = None.
Proof. apply mg_get_cookie_empty_name_diverges; [done|lia]. Defined.
