(* ===== verification/BlockHash.v ===== *)
(** * Block hashes: what MD5 and SHA-1 share

    32-bit words in memory in either byte order, rotation, copying into the 64
    byte block buffer, the fold of a compression function over the full blocks of
    a message, and the 64-bit message length kept in two 32-bit words. *)

From S2P Require Import Prelude.

(** ** Words *)

Definition rol (w s : Z) : Z := Z.lor (wrap32 (Z.shiftl w s)) (Z.shiftr w (32 - s)).
(** [~w] on [uint32_t]. *)
Definition not32 (w : Z) : Z := Z.lxor w (2 ^ 32 - 1).

Fixpoint load_le (mem : bytes) : Z :=
  match mem with
  | [] => 0
  | b :: mem' => b + 256 * load_le mem'
  end.

Fixpoint store_le (n : nat) (w : Z) : bytes :=
  match n with
  | O => []
  | S n' => w mod 256 :: store_le n' (w / 256)
  end.

(** A [uint32_t] load or store on a machine that is big endian, or not. *)
Definition load32 (big : bool) (mem : bytes) : Z :=
  load_le (if big then rev mem else mem).
Definition store32 (big : bool) (w : Z) : bytes :=
  if big then rev (store_le 4 w) else store_le 4 w.

(** [n] words from consecutive memory, and back. *)
Fixpoint load_words (big : bool) (n : nat) (mem : bytes) : list Z :=
  match n with
  | O => []
  | S n' => load32 big (take 4 mem) :: load_words big n' (drop 4 mem)
  end.
Definition store_words (big : bool) (ws : list Z) : bytes := flat_map (store32 big) ws.

(** ** Lemmas on words *)

Lemma store_le_length n w : length (store_le n w) = n.
Proof. revert w. induction n; intros w; simpl; auto. Qed.

Lemma store32_length big w : length (store32 big w) = 4%nat.
Proof. unfold store32. case_match; by rewrite ?length_rev, store_le_length. Qed.

Lemma load_store_le n w : 0 <= w < 256 ^ Z.of_nat n -> load_le (store_le n w) = w.
Proof.
  revert w. induction n as [|n IH]; intros w Hw; cbn [store_le load_le].
  - simpl in Hw. lia.
  - rewrite Nat2Z.inj_succ, Z.pow_succ_r in Hw by lia. rewrite IH.
    + pose proof (Z.div_mod w 256). lia.
    + split; [apply Z.div_pos; lia|]. apply Z.div_lt_upper_bound; lia.
Qed.

Lemma load_store32 big w : 0 <= w < 2 ^ 32 -> load32 big (store32 big w) = w.
Proof.
  intros Hw. unfold load32, store32. destruct big; rewrite ?rev_involutive;
    by apply load_store_le.
Qed.

Lemma store_load_le mem : Forall is_byte mem -> store_le (length mem) (load_le mem) = mem.
Proof.
  intros H. induction H as [|b mem Hb _ IH]; [done|]. simpl. unfold is_byte in Hb.
  replace ((b + 256 * load_le mem) mod 256) with b
    by (rewrite Z.mul_comm, Z.mod_add, Z.mod_small; lia).
  replace ((b + 256 * load_le mem) / 256) with (load_le mem)
    by (rewrite Z.mul_comm, Z.div_add, Z.div_small; lia).
  by rewrite IH.
Qed.

Lemma load_le_range mem : Forall is_byte mem -> 0 <= load_le mem < 256 ^ Z.of_nat (length mem).
Proof.
  intros H. induction H as [|b mem Hb _ IH]; [simpl; lia|]. cbn [load_le length].
  rewrite Nat2Z.inj_succ, Z.pow_succ_r by lia. unfold is_byte in Hb. lia.
Qed.

Lemma store_le_bytes n w : Forall is_byte (store_le n w).
Proof.
  revert w. induction n as [|n IH]; intros w; [constructor|]. constructor; [|apply IH].
  unfold is_byte. apply Z.mod_pos_bound. lia.
Qed.

Lemma store32_bytes big w : Forall is_byte (store32 big w).
Proof.
  unfold store32. case_match; [|apply store_le_bytes].
  apply Forall_rev, store_le_bytes.
Qed.

Lemma store_le_app n m w :
  0 <= w -> store_le (n + m) w = store_le n w ++ store_le m (w / 256 ^ Z.of_nat n).
Proof.
  revert w. induction n as [|n IH]; intros w Hw; cbn [store_le Nat.add app].
  - by rewrite Z.div_1_r.
  - rewrite IH by (apply Z.div_pos; lia).
    rewrite Z.div_div, <- Z.pow_succ_r, <- Nat2Z.inj_succ by lia. done.
Qed.

Lemma store_le_mod n w : store_le n (w mod 256 ^ Z.of_nat n) = store_le n w.
Proof.
  revert w. induction n as [|n IH]; intros w; [done|]. cbn [store_le].
  rewrite Nat2Z.inj_succ, Z.pow_succ_r by lia.
  rewrite Z.rem_mul_r by lia. f_equal.
  - rewrite (Z.mul_comm 256), Z.mod_add, Z.mod_mod by lia. done.
  - rewrite (Z.mul_comm 256 ((w / 256) mod _)), Z.div_add by lia.
    rewrite (Z.div_small (w mod 256)) by (apply Z.mod_pos_bound; lia). apply IH.
Qed.

Lemma load_words_length big n mem : length (load_words big n mem) = n.
Proof. revert mem. induction n; intros mem; simpl; auto. Qed.

Lemma load_words_store big ws rest :
  Forall (fun w => 0 <= w < 2 ^ 32) ws ->
  load_words big (length ws) (store_words big ws ++ rest) = ws.
Proof.
  intros H. induction H as [|w ws Hw _ IH]; [done|].
  cbn [store_words flat_map length load_words]. fold (store_words big ws).
  rewrite <- app_assoc.
  rewrite take_app_le, take_ge by (rewrite store32_length; lia).
  rewrite drop_app_ge by (rewrite store32_length; lia).
  rewrite store32_length, load_store32 by done. by rewrite Nat.sub_diag, drop_0, IH.
Qed.

Lemma load_words_app big n m a b :
  length a = (4 * n)%nat ->
  load_words big (n + m) (a ++ b) = load_words big n a ++ load_words big m b.
Proof.
  revert a. induction n as [|n IH]; intros a Ha; simpl.
  - by destruct a.
  - rewrite take_app_le, drop_app_le by lia. rewrite IH by (rewrite length_drop; lia). done.
Qed.

Lemma load_words_ext big n a b :
  take (4 * n) a = take (4 * n) b -> (4 * n <= length a)%nat ->
  load_words big n a = load_words big n b.
Proof.
  revert a b. induction n as [|n IH]; intros a b E Hl; [done|]. cbn [load_words].
  assert (take 4 a = take 4 b) as E4.
  { replace 4%nat with (Nat.min 4 (4 * S n)) by lia. rewrite <- !take_take. by rewrite E. }
  rewrite E4. f_equal. apply IH; [|rewrite length_drop; lia].
  rewrite !take_drop_commute. replace (4 + 4 * n)%nat with (4 * S n)%nat by lia. by rewrite E.
Qed.

(** ** Folding a compression function over the full blocks *)

Section absorb.
Context {S : Type} (compress : S -> bytes -> S).

Fixpoint absorb_n (n : nat) (st : S) (m : bytes) : S :=
  match n with
  | O => st
  | Datatypes.S n' => absorb_n n' (compress st (take 64 m)) (drop 64 m)
  end.

Definition absorb (st : S) (m : bytes) : S := absorb_n (length m / 64) st m.

(** What is left after the full blocks. *)
Definition leftover (m : bytes) : bytes := drop (64 * (length m / 64)) m.

Lemma absorb_n_app n st a b :
  (64 * n <= length a)%nat -> absorb_n n st (a ++ b) = absorb_n n st a.
Proof.
  revert st a. induction n as [|n IH]; intros st a Hn; [done|]. cbn [absorb_n].
  rewrite take_app_le, drop_app_le by lia. apply IH. rewrite length_drop. lia.
Qed.

Lemma absorb_n_add n m st a :
  absorb_n (n + m) st a = absorb_n m (absorb_n n st a) (drop (64 * n) a).
Proof.
  revert st a. induction n as [|n IH]; intros st a; [done|]. cbn [absorb_n Nat.add].
  rewrite IH, drop_drop. by replace (64 + 64 * n)%nat with (64 * Datatypes.S n)%nat by lia.
Qed.

(** Appending to a message whose length is a multiple of the block size. *)
Lemma absorb_app st a b k :
  length a = (64 * k)%nat -> absorb st (a ++ b) = absorb (absorb st a) b.
Proof.
  intros Ha. unfold absorb. rewrite length_app, Ha.
  replace ((64 * k + length b) / 64)%nat with (k + length b / 64)%nat
    by (rewrite (Nat.mul_comm 64), Nat.div_add_l by lia; done).
  replace (64 * k / 64)%nat with k by (rewrite Nat.mul_comm, Nat.div_mul by lia; done).
  rewrite absorb_n_add, absorb_n_app by lia.
  by rewrite drop_app_ge, Ha, Nat.sub_diag by lia.
Qed.

Lemma absorb_small st m : (length m < 64)%nat -> absorb st m = st.
Proof. intros H. unfold absorb. by rewrite Nat.div_small. Qed.

Lemma absorb_block st m : length m = 64%nat -> absorb st m = compress st m.
Proof. intros H. unfold absorb. rewrite H. simpl. by rewrite take_ge by lia. Qed.

Lemma leftover_length m : length (leftover m) = (length m mod 64)%nat.
Proof.
  unfold leftover. rewrite length_drop. pose proof (Nat.div_mod_eq (length m) 64). lia.
Qed.

Lemma leftover_app a b k :
  length a = (64 * k)%nat -> leftover (a ++ b) = leftover b.
Proof.
  intros Ha. unfold leftover. rewrite length_app, Ha.
  replace ((64 * k + length b) / 64)%nat with (k + length b / 64)%nat
    by (rewrite (Nat.mul_comm 64), Nat.div_add_l by lia; done).
  rewrite drop_app_ge by lia. f_equal. lia.
Qed.

Lemma leftover_small m : (length m < 64)%nat -> leftover m = m.
Proof. intros H. unfold leftover. by rewrite Nat.div_small. Qed.

Lemma message_split m :
  exists full k, m = full ++ leftover m /\ length full = (64 * k)%nat.
Proof.
  exists (take (64 * (length m / 64)) m), (length m / 64)%nat. split.
  - unfold leftover. by rewrite take_drop.
  - rewrite length_take. pose proof (Nat.div_mod_eq (length m) 64). lia.
Qed.

(** Absorbing [m ++ d] continues from what [m] left over. *)
Lemma absorb_step st m d :
  absorb st (m ++ d) = absorb (absorb st m) (leftover m ++ d) /\
  leftover (m ++ d) = leftover (leftover m ++ d).
Proof.
  destruct (message_split m) as (full & k & E & Hk).
  assert (absorb st m = absorb st full) as ->.
  { rewrite E, (absorb_app _ _ _ k) by done. apply absorb_small. rewrite leftover_length.
    apply Nat.mod_upper_bound. lia. }
  rewrite E at 1 3. rewrite <- !app_assoc. split.
  - by apply (absorb_app _ _ _ k).
  - by apply (leftover_app _ _ k).
Qed.
End absorb.

(** ** The block buffer *)

(** The first bytes of the 64 byte buffer are what the message [m] left over. *)
Definition buffered (inp m : bytes) : Prop :=
  length inp = 64%nat /\ Forall is_byte inp /\ take (length m mod 64) inp = leftover m.

Lemma mod64_lt n : (n mod 64 < 64)%nat.
Proof. apply Nat.mod_upper_bound. lia. Qed.

Lemma splice_bytes mem off src :
  Forall is_byte mem -> Forall is_byte src -> Forall is_byte (splice mem off src).
Proof.
  intros Hm Hs. unfold splice. rewrite !Forall_app. auto using Forall_take, Forall_drop.
Qed.

Lemma buffered_nil inp : length inp = 64%nat -> Forall is_byte inp -> buffered inp [].
Proof. done. Qed.

(** Data that does not fill the block. *)
Lemma buffered_small inp m d :
  buffered inp m -> Forall is_byte d -> (length m mod 64 + length d < 64)%nat ->
  buffered (splice inp (length m mod 64) d) (m ++ d) /\
  forall S (f : S -> bytes -> S) st, absorb f st (m ++ d) = absorb f st m.
Proof.
  intros (Hl & Hb & E) Hd Hs.
  assert (length (leftover m ++ d) < 64)%nat by (rewrite length_app, leftover_length; lia).
  assert (leftover (m ++ d) = leftover m ++ d) as EL.
  { destruct (absorb_step (fun (_ : unit) _ => tt) tt m d) as [_ ->]. by apply leftover_small. }
  split; [split_and!|].
  - rewrite splice_length; lia.
  - by apply splice_bytes.
  - rewrite EL, <- E, <- splice_take by lia. f_equal.
    rewrite <- (leftover_length (m ++ d)), EL, length_app, leftover_length. done.
  - intros S f st. destruct (absorb_step f st m d) as [-> _]. by apply absorb_small.
Qed.

(** Data that does. *)
Lemma buffered_full inp m d :
  buffered inp m -> (64 <= length m mod 64 + length d)%nat ->
  let t := (64 - length m mod 64)%nat in
  let block := splice inp (length m mod 64) (take t d) in
  length block = 64%nat /\
  leftover (m ++ d) = leftover (drop t d) /\
  forall S (f : S -> bytes -> S) st,
    absorb f st (m ++ d) = absorb f (f (absorb f st m) block) (drop t d).
Proof.
  intros (Hl & Hb & E) Hs t block. pose proof (mod64_lt (length m)).
  assert (length (take t d) = t) as Ht by (rewrite length_take; lia).
  assert (block = leftover m ++ take t d) as Eb.
  { unfold block. rewrite <- E, <- splice_take by lia. symmetry. apply take_ge.
    rewrite splice_length; lia. }
  assert (length block = 64)%nat as Hlb
    by (rewrite Eb, length_app, leftover_length; unfold t in *; lia).
  assert (leftover m ++ d = block ++ drop t d) as Ed
    by (by rewrite Eb, <- app_assoc, take_drop).
  split_and!; [done|..].
  - destruct (absorb_step (fun (_ : unit) _ => tt) tt m d) as [_ ->]. rewrite Ed.
    by apply (leftover_app _ _ 1).
  - intros S f st. destruct (absorb_step f st m d) as [-> _].
    rewrite Ed, (absorb_app _ _ _ _ 1) by done. by rewrite (absorb_block _ _ block).
Qed.

(** ** The message length in bits, in two words *)

(** [len] is the length of the message so far. *)
Definition counts (lo hi : Z) (len : nat) : Prop :=
  0 <= lo < 2 ^ 32 /\ 0 <= hi < 2 ^ 32 /\ lo + 2 ^ 32 * hi = (8 * Z.of_nat len) mod 2 ^ 64.

Lemma counts_index lo hi len :
  counts lo hi len -> Z.to_nat (Z.land (Z.shiftr lo 3) 63) = (len mod 64)%nat.
Proof.
  intros (Hlo & Hhi & E). change 63 with (Z.ones 6).
  rewrite Z.land_ones, Z.shiftr_div_pow2 by lia.
  apply Nat2Z.inj. rewrite Z2Nat.id by (apply Z.mod_pos_bound; lia).
  rewrite Nat2Z.inj_mod. change (2 ^ 3) with 8. change (2 ^ 6) with 64.
  change (Z.of_nat 64) with 64. Z.div_mod_to_equations. lia.
Qed.

(** Adding [n] bytes, [n < 2^32], with the carry found by comparison. *)
Lemma counts_add lo hi len n :
  counts lo hi len -> Z.of_nat n < 2 ^ 32 ->
  let lo' := wrap32 (lo + wrap32 (Z.shiftl (Z.of_nat n) 3)) in
  counts lo' (wrap32 (wrap32 (if lo' <? lo then hi + 1 else hi) + Z.shiftr (Z.of_nat n) 29))
    (len + n).
Proof.
  intros (Hlo & Hhi & E) Hn lo'.
  assert (lo' = (lo + wrap32 (Z.shiftl (Z.of_nat n) 3)) mod 2 ^ 32) as Hlo' by done.
  unfold counts. split; [apply wrap32_range|]. split; [apply wrap32_range|].
  rewrite Z.shiftr_div_pow2 by lia. rewrite Z.shiftl_mul_pow2 in Hlo' by lia.
  unfold wrap32 in *. rewrite Nat2Z.inj_add. change (2 ^ 3) with 8 in Hlo'.
  destruct (Z.ltb_spec lo' lo); Z.div_mod_to_equations; lia.
Qed.

(** The length field. *)
Lemma counts_store lo hi len :
  counts lo hi len ->
  store_le 4 lo ++ store_le 4 hi = store_le 8 ((8 * Z.of_nat len) mod 2 ^ 64).
Proof.
  intros (Hlo & Hhi & <-). change 8%nat with (4 + 4)%nat. rewrite store_le_app by lia.
  rewrite <- (store_le_mod 4 (lo + _)). change (256 ^ Z.of_nat 4) with (2 ^ 32).
  rewrite (Z.mul_comm _ hi), Z.mod_add, Z.div_add by lia.
  by rewrite Z.mod_small, Z.div_small by lia.
Qed.
