(* ===== verification/Md5.v ===== *)
(** * MD5

    The MD5 code of mongoose.c (src/mongoose.c, lines 2005-2198), [bin2str],
    [mg_md5] and [check_password] (lines 2200-2258).  The byte order of the machine,
    which [is_big_endian] finds out at run time, is a parameter.  The unrolled
    compression function is proved equal to the loop of RFC 1321, and hashing a
    message in pieces to hashing the padded message at once. *)

From S2P Require Import Prelude CString UrlCodec BlockHash.

Record MD5Context := MD5_CTX {
  md5_buf : list Z;   (* uint32_t buf[4] *)
  md5_bits0 : Z;      (* uint32_t bits[2] *)
  md5_bits1 : Z;
  md5_in : bytes      (* unsigned char in[64] *)
}.

(** [byteReverse(buf, longs)]: on a big endian machine each of the first [longs]
    words is read in little endian order and stored back in the machine's. *)
Fixpoint byteReverse (big : bool) (buf : bytes) (longs : nat) : bytes :=
  if big then
    match longs with
    | O => buf
    | S longs' =>
        let t := Z.lor (Z.shiftl (Z.lor (Z.shiftl (at_ buf 3) 8) (at_ buf 2)) 16)
                       (Z.lor (Z.shiftl (at_ buf 1) 8) (at_ buf 0)) in
        store32 big t ++ byteReverse big (drop 4 buf) longs'
    end
  else buf.

Definition F1 (x y z : Z) : Z := Z.lxor z (Z.land x (Z.lxor y z)).
Definition F2 (x y z : Z) : Z := F1 z x y.
Definition F3 (x y z : Z) : Z := Z.lxor (Z.lxor x y) z.
Definition F4 (x y z : Z) : Z := Z.lxor y (Z.lor x (not32 z)).

(** The four variables of the compression function, and an assignment to one. *)
Inductive reg := Ra | Rb | Rc | Rd.
Record regs := Regs { va : Z; vb : Z; vc : Z; vd : Z }.
Definition get (st : regs) (r : reg) : Z :=
  match r with Ra => va st | Rb => vb st | Rc => vc st | Rd => vd st end.
Definition set (st : regs) (r : reg) (v : Z) : regs :=
  match r, st with
  | Ra, Regs _ b c d => Regs v b c d
  | Rb, Regs a _ c d => Regs a v c d
  | Rc, Regs a b _ d => Regs a b v d
  | Rd, Regs a b c _ => Regs a b c v
  end.

(** [MD5STEP(f, w, x, y, z, in[k] + c, s)] *)
Abbreviation md5_line := ((Z -> Z -> Z -> Z) * reg * reg * reg * reg * nat * Z * Z)%type.

Definition MD5STEP (input : list Z) (st : regs) (line : md5_line) : regs :=
  let '(f, w, x, y, z, k, c, s) := line in
  let data := wrap32 (at_ input k + c) in
  let w1 := wrap32 (get st w + (f (get st x) (get st y) (get st z) + data)) in
  let w2 := rol w1 s in
  set st w (wrap32 (w2 + get st x)).

(** The 64 lines of [MD5Transform], one entry each. *)
Definition md5_lines : list md5_line := [
  (F1, Ra, Rb, Rc, Rd, 0%nat, 0xd76aa478, 7);
  (F1, Rd, Ra, Rb, Rc, 1%nat, 0xe8c7b756, 12);
  (F1, Rc, Rd, Ra, Rb, 2%nat, 0x242070db, 17);
  (F1, Rb, Rc, Rd, Ra, 3%nat, 0xc1bdceee, 22);
  (F1, Ra, Rb, Rc, Rd, 4%nat, 0xf57c0faf, 7);
  (F1, Rd, Ra, Rb, Rc, 5%nat, 0x4787c62a, 12);
  (F1, Rc, Rd, Ra, Rb, 6%nat, 0xa8304613, 17);
  (F1, Rb, Rc, Rd, Ra, 7%nat, 0xfd469501, 22);
  (F1, Ra, Rb, Rc, Rd, 8%nat, 0x698098d8, 7);
  (F1, Rd, Ra, Rb, Rc, 9%nat, 0x8b44f7af, 12);
  (F1, Rc, Rd, Ra, Rb, 10%nat, 0xffff5bb1, 17);
  (F1, Rb, Rc, Rd, Ra, 11%nat, 0x895cd7be, 22);
  (F1, Ra, Rb, Rc, Rd, 12%nat, 0x6b901122, 7);
  (F1, Rd, Ra, Rb, Rc, 13%nat, 0xfd987193, 12);
  (F1, Rc, Rd, Ra, Rb, 14%nat, 0xa679438e, 17);
  (F1, Rb, Rc, Rd, Ra, 15%nat, 0x49b40821, 22);
  (F2, Ra, Rb, Rc, Rd, 1%nat, 0xf61e2562, 5);
  (F2, Rd, Ra, Rb, Rc, 6%nat, 0xc040b340, 9);
  (F2, Rc, Rd, Ra, Rb, 11%nat, 0x265e5a51, 14);
  (F2, Rb, Rc, Rd, Ra, 0%nat, 0xe9b6c7aa, 20);
  (F2, Ra, Rb, Rc, Rd, 5%nat, 0xd62f105d, 5);
  (F2, Rd, Ra, Rb, Rc, 10%nat, 0x02441453, 9);
  (F2, Rc, Rd, Ra, Rb, 15%nat, 0xd8a1e681, 14);
  (F2, Rb, Rc, Rd, Ra, 4%nat, 0xe7d3fbc8, 20);
  (F2, Ra, Rb, Rc, Rd, 9%nat, 0x21e1cde6, 5);
  (F2, Rd, Ra, Rb, Rc, 14%nat, 0xc33707d6, 9);
  (F2, Rc, Rd, Ra, Rb, 3%nat, 0xf4d50d87, 14);
  (F2, Rb, Rc, Rd, Ra, 8%nat, 0x455a14ed, 20);
  (F2, Ra, Rb, Rc, Rd, 13%nat, 0xa9e3e905, 5);
  (F2, Rd, Ra, Rb, Rc, 2%nat, 0xfcefa3f8, 9);
  (F2, Rc, Rd, Ra, Rb, 7%nat, 0x676f02d9, 14);
  (F2, Rb, Rc, Rd, Ra, 12%nat, 0x8d2a4c8a, 20);
  (F3, Ra, Rb, Rc, Rd, 5%nat, 0xfffa3942, 4);
  (F3, Rd, Ra, Rb, Rc, 8%nat, 0x8771f681, 11);
  (F3, Rc, Rd, Ra, Rb, 11%nat, 0x6d9d6122, 16);
  (F3, Rb, Rc, Rd, Ra, 14%nat, 0xfde5380c, 23);
  (F3, Ra, Rb, Rc, Rd, 1%nat, 0xa4beea44, 4);
  (F3, Rd, Ra, Rb, Rc, 4%nat, 0x4bdecfa9, 11);
  (F3, Rc, Rd, Ra, Rb, 7%nat, 0xf6bb4b60, 16);
  (F3, Rb, Rc, Rd, Ra, 10%nat, 0xbebfbc70, 23);
  (F3, Ra, Rb, Rc, Rd, 13%nat, 0x289b7ec6, 4);
  (F3, Rd, Ra, Rb, Rc, 0%nat, 0xeaa127fa, 11);
  (F3, Rc, Rd, Ra, Rb, 3%nat, 0xd4ef3085, 16);
  (F3, Rb, Rc, Rd, Ra, 6%nat, 0x04881d05, 23);
  (F3, Ra, Rb, Rc, Rd, 9%nat, 0xd9d4d039, 4);
  (F3, Rd, Ra, Rb, Rc, 12%nat, 0xe6db99e5, 11);
  (F3, Rc, Rd, Ra, Rb, 15%nat, 0x1fa27cf8, 16);
  (F3, Rb, Rc, Rd, Ra, 2%nat, 0xc4ac5665, 23);
  (F4, Ra, Rb, Rc, Rd, 0%nat, 0xf4292244, 6);
  (F4, Rd, Ra, Rb, Rc, 7%nat, 0x432aff97, 10);
  (F4, Rc, Rd, Ra, Rb, 14%nat, 0xab9423a7, 15);
  (F4, Rb, Rc, Rd, Ra, 5%nat, 0xfc93a039, 21);
  (F4, Ra, Rb, Rc, Rd, 12%nat, 0x655b59c3, 6);
  (F4, Rd, Ra, Rb, Rc, 3%nat, 0x8f0ccc92, 10);
  (F4, Rc, Rd, Ra, Rb, 10%nat, 0xffeff47d, 15);
  (F4, Rb, Rc, Rd, Ra, 1%nat, 0x85845dd1, 21);
  (F4, Ra, Rb, Rc, Rd, 8%nat, 0x6fa87e4f, 6);
  (F4, Rd, Ra, Rb, Rc, 15%nat, 0xfe2ce6e0, 10);
  (F4, Rc, Rd, Ra, Rb, 6%nat, 0xa3014314, 15);
  (F4, Rb, Rc, Rd, Ra, 13%nat, 0x4e0811a1, 21);
  (F4, Ra, Rb, Rc, Rd, 4%nat, 0xf7537e82, 6);
  (F4, Rd, Ra, Rb, Rc, 11%nat, 0xbd3af235, 10);
  (F4, Rc, Rd, Ra, Rb, 2%nat, 0x2ad7d2bb, 15);
  (F4, Rb, Rc, Rd, Ra, 9%nat, 0xeb86d391, 21)
].

Definition MD5Transform (buf input : list Z) : list Z :=
  let st := Regs (at_ buf 0) (at_ buf 1) (at_ buf 2) (at_ buf 3) in
  let st' := fold_left (MD5STEP input) md5_lines st in
  [wrap32 (at_ buf 0 + va st'); wrap32 (at_ buf 1 + vb st');
   wrap32 (at_ buf 2 + vc st'); wrap32 (at_ buf 3 + vd st')].

Definition md5_init_buf : list Z := [0x67452301; 0xefcdab89; 0x98badcfe; 0x10325476].

(** [in] keeps whatever it holds. *)
Definition MD5Init (inp : bytes) : MD5Context := MD5_CTX md5_init_buf 0 0 inp.

(** [byteReverse(ctx->in, 16); MD5Transform(ctx->buf, (uint32_t * ) ctx->in)]: the
    new [buf] and [in]. *)
Definition md5_block (big : bool) (buf : list Z) (block : bytes) : list Z * bytes :=
  let block' := byteReverse big block 16 in
  (MD5Transform buf (load_words big 16 block'), block').

(** The loop over whole blocks and the final copy: [n] is a bound on the number
    of blocks. *)
Fixpoint md5_blocks (n : nat) (big : bool) (buf : list Z) (inp data : bytes) : list Z * bytes :=
  match n with
  | O => (buf, splice inp 0 data)
  | S n' =>
      if (64 <=? length data)%nat then
        let '(buf', inp') := md5_block big buf (splice inp 0 (take 64 data)) in
        md5_blocks n' big buf' inp' (drop 64 data)
      else (buf, splice inp 0 data)
  end.

Definition MD5Update (big : bool) (ctx : MD5Context) (data : bytes) : MD5Context :=
  let len := Z.of_nat (length data) in
  let t := md5_bits0 ctx in
  let bits0 := wrap32 (t + wrap32 (Z.shiftl len 3)) in
  let bits1 := wrap32 (if bits0 <? t then md5_bits1 ctx + 1 else md5_bits1 ctx) in
  let bits1 := wrap32 (bits1 + Z.shiftr len 29) in
  let t := Z.to_nat (Z.land (Z.shiftr t 3) 63) in
  if (0 <? t)%nat then
    let p := t in
    let t := (64 - t)%nat in
    if (length data <? t)%nat then
      MD5_CTX (md5_buf ctx) bits0 bits1 (splice (md5_in ctx) p data)
    else
      let '(buf', in') := md5_block big (md5_buf ctx) (splice (md5_in ctx) p (take t data)) in
      let '(buf'', in'') := md5_blocks (length data) big buf' in' (drop t data) in
      MD5_CTX buf'' bits0 bits1 in''
  else
    let '(buf', in') := md5_blocks (length data) big (md5_buf ctx) (md5_in ctx) data in
    MD5_CTX buf' bits0 bits1 in'.

(** The digest; the context is cleared afterwards. *)
Definition MD5Final (big : bool) (ctx : MD5Context) : bytes :=
  let count := Z.to_nat (Z.land (Z.shiftr (md5_bits0 ctx) 3) 63) in
  let inp := splice (md5_in ctx) count [0x80] in
  let p := (count + 1)%nat in
  let count := (64 - 1 - count)%nat in
  let '(buf, inp) :=
    if (count <? 8)%nat then
      let '(buf', in') := md5_block big (md5_buf ctx) (splice inp p (replicate count 0)) in
      (buf', splice in' 0 (replicate 56 0))
    else (md5_buf ctx, splice inp p (replicate (count - 8) 0)) in
  let inp := byteReverse big inp 14 in
  let inp := splice inp 56 (store32 big (md5_bits0 ctx)) in
  let inp := splice inp 60 (store32 big (md5_bits1 ctx)) in
  let buf := MD5Transform buf (load_words big 16 inp) in
  take 16 (byteReverse big (store_words big buf) 4).

(** Two lower-case hexadecimal digits per byte, without the final NUL. *)
Definition bin2str (p : bytes) : bytes :=
  flat_map (fun b => [hex (Z.shiftr b 4); hex (Z.land b 15)]) p.

(** The digest of the arguments of [mg_md5] up to the NULL; [inp] is what the
    uninitialised buffer of its context holds. *)
Definition md5_digest (big : bool) (inp : bytes) (args : list bytes) : bytes :=
  MD5Final big (fold_left (MD5Update big) args (MD5Init inp)).

(** The digest does not depend on that buffer ([md5_digest_rfc]). *)
Definition mg_md5 (big : bool) (args : list bytes) : bytes :=
  bin2str (md5_digest big (replicate 64 0) args).

(** Some of the parameters may be NULL. *)
Definition check_password (big : bool) (method : option bytes) (ha1 : bytes)
    (uri : option bytes) (nonce nc cnonce qop response : option bytes) : bool :=
  match method, nonce, nc, cnonce, qop, response with
  | Some method, Some nonce, Some nc, Some cnonce, Some qop, Some response =>
      if negb (length response =? 32)%nat then false
      else
        (* a NULL uri ends the argument list of the first hash early *)
        let ha2 := mg_md5 big ([method; B ":"] ++ from_option (fun u => [u]) [] uri) in
        let expected_response :=
          mg_md5 big [ha1; B ":"; nonce; B ":"; nc; B ":"; cnonce; B ":"; qop; B ":"; ha2] in
        mg_strcasecmp response expected_response =? 0
  | _, _, _, _, _, _ => false
  end.

(** ** RFC 1321 *)

Definition rfc_K : list Z :=
  [0xd76aa478; 0xe8c7b756; 0x242070db; 0xc1bdceee;
   0xf57c0faf; 0x4787c62a; 0xa8304613; 0xfd469501;
   0x698098d8; 0x8b44f7af; 0xffff5bb1; 0x895cd7be;
   0x6b901122; 0xfd987193; 0xa679438e; 0x49b40821;
   0xf61e2562; 0xc040b340; 0x265e5a51; 0xe9b6c7aa;
   0xd62f105d; 0x02441453; 0xd8a1e681; 0xe7d3fbc8;
   0x21e1cde6; 0xc33707d6; 0xf4d50d87; 0x455a14ed;
   0xa9e3e905; 0xfcefa3f8; 0x676f02d9; 0x8d2a4c8a;
   0xfffa3942; 0x8771f681; 0x6d9d6122; 0xfde5380c;
   0xa4beea44; 0x4bdecfa9; 0xf6bb4b60; 0xbebfbc70;
   0x289b7ec6; 0xeaa127fa; 0xd4ef3085; 0x04881d05;
   0xd9d4d039; 0xe6db99e5; 0x1fa27cf8; 0xc4ac5665;
   0xf4292244; 0x432aff97; 0xab9423a7; 0xfc93a039;
   0x655b59c3; 0x8f0ccc92; 0xffeff47d; 0x85845dd1;
   0x6fa87e4f; 0xfe2ce6e0; 0xa3014314; 0x4e0811a1;
   0xf7537e82; 0xbd3af235; 0x2ad7d2bb; 0xeb86d391].
Definition rfc_shifts : list Z := [7; 12; 17; 22; 5; 9; 14; 20; 4; 11; 16; 23; 6; 10; 15; 21].

(** The round functions as the RFC writes them. *)
Definition rfc_F (x y z : Z) : Z := Z.lor (Z.land x y) (Z.land (Z.lnot x) z).
Definition rfc_G (x y z : Z) : Z := Z.lor (Z.land x z) (Z.land y (Z.lnot z)).
Definition rfc_H (x y z : Z) : Z := Z.lxor (Z.lxor x y) z.
Definition rfc_I (x y z : Z) : Z := Z.lxor y (Z.lor x (not32 z)).
Definition rfc_fun (i : nat) : Z -> Z -> Z -> Z :=
  match (i / 16)%nat with 0%nat => rfc_F | 1%nat => rfc_G | 2%nat => rfc_H | _ => rfc_I end.
Definition rfc_index (i : nat) : nat :=
  match (i / 16)%nat with
  | 0 => i | 1 => (5 * i + 1) mod 16 | 2 => (3 * i + 5) mod 16 | _ => (7 * i) mod 16
  end%nat.

(** Step [i] on the four words: the new word goes in second, the others move up. *)
Definition rfc_step (input : list Z) (st : regs) (i : nat) : regs :=
  let sum := wrap32 (va st + rfc_fun i (vb st) (vc st) (vd st)
                     + at_ input (rfc_index i) + at_ rfc_K i) in
  let s := at_ rfc_shifts (4 * (i / 16) + i mod 4) in
  Regs (vd st) (wrap32 (vb st + rol sum s)) (vb st) (vc st).

Definition rfc_compress (buf input : list Z) : list Z :=
  let st := fold_left (rfc_step input) (seq 0 64)
              (Regs (at_ buf 0) (at_ buf 1) (at_ buf 2) (at_ buf 3)) in
  [wrap32 (at_ buf 0 + va st); wrap32 (at_ buf 1 + vb st);
   wrap32 (at_ buf 2 + vc st); wrap32 (at_ buf 3 + vd st)].

Definition rfc_block (buf : list Z) (block : bytes) : list Z :=
  rfc_compress buf (load_words false 16 block).

(** One bit, zeros up to eight bytes before a block boundary, the length in bits. *)
Definition rfc_pad (m : bytes) : bytes :=
  0x80 :: replicate ((119 - length m mod 64) mod 64) 0
       ++ store_le 8 ((8 * Z.of_nat (length m)) mod 2 ^ 64).

Definition rfc_md5 (m : bytes) : bytes :=
  store_words false (absorb rfc_block md5_init_buf (m ++ rfc_pad m)).

Example md5_abc : mg_md5 false [B "a"; B "bc"] = B "900150983cd24fb0d6963f7d28e17f72".
Proof. by_eval. Qed.
Example md5_abc_ref : bin2str (rfc_md5 (B "abc")) = B "900150983cd24fb0d6963f7d28e17f72".
Proof. by_eval. Qed.
Example md5_abc_big : mg_md5 true [B "a"; B "bc"] = B "900150983cd24fb0d6963f7d28e17f72".
Proof. by_eval. Qed.

(** ** The compression function *)

Lemma F1_rfc x y z : F1 x y z = rfc_F x y z.
Proof.
  apply Z.bits_inj'. intros n Hn. unfold F1, rfc_F.
  rewrite Z.lxor_spec, Z.land_spec, Z.lxor_spec, Z.lor_spec, !Z.land_spec, Z.lnot_spec by done.
  by destruct (Z.testbit x n), (Z.testbit y n), (Z.testbit z n).
Qed.

Lemma F2_rfc x y z : F2 x y z = rfc_G x y z.
Proof.
  apply Z.bits_inj'. intros n Hn. unfold F2, F1, rfc_G.
  rewrite Z.lxor_spec, Z.land_spec, Z.lxor_spec, Z.lor_spec, !Z.land_spec, Z.lnot_spec by done.
  by destruct (Z.testbit x n), (Z.testbit y n), (Z.testbit z n).
Qed.

(** What line [i] of the unrolled code says. *)
Definition line_at (i : nat) : md5_line :=
  let f := match (i / 16)%nat with 0%nat => F1 | 1%nat => F2 | 2%nat => F3 | _ => F4 end in
  let k := rfc_index i in
  let c := at_ rfc_K i in
  let s := at_ rfc_shifts (4 * (i / 16) + i mod 4) in
  match (i mod 4)%nat with
  | 0%nat => (f, Ra, Rb, Rc, Rd, k, c, s)
  | 1%nat => (f, Rd, Ra, Rb, Rc, k, c, s)
  | 2%nat => (f, Rc, Rd, Ra, Rb, k, c, s)
  | _ => (f, Rb, Rc, Rd, Ra, k, c, s)
  end.

Lemma md5_lines_at : md5_lines = map line_at (seq 0 64).
Proof. by_eval. Qed.

(** The four variables in the order in which the loop of the RFC sees them. *)
Definition view (i : nat) (st : regs) : regs :=
  match (i mod 4)%nat, st with
  | 0%nat, _ => st
  | 1%nat, Regs a b c d => Regs d a b c
  | 2%nat, Regs a b c d => Regs c d a b
  | _, Regs a b c d => Regs b c d a
  end.

Lemma step_sum w f i k x s :
  wrap32 (rol (wrap32 (w + (f + wrap32 (i + k)))) s + x)
  = wrap32 (x + rol (wrap32 (w + f + i + k)) s).
Proof.
  rewrite (Z.add_comm (rol _ _)). unfold wrap32. rewrite Z.add_assoc, Zplus_mod_idemp_r.
  by rewrite Z.add_assoc.
Qed.

Lemma view_step input st i :
  view (S i) (MD5STEP input st (line_at i)) = rfc_step input (view i st) i.
Proof.
  assert (forall x y z, match (i / 16)%nat with 0%nat => F1 | 1%nat => F2 | 2%nat => F3
    | _ => F4 end x y z = rfc_fun i x y z) as Hf.
  { intros x y z. unfold rfc_fun.
    destruct (i / 16)%nat as [|[|[|]]]; [apply F1_rfc|apply F2_rfc|done|done]. }
  unfold view, line_at, rfc_step.
  assert (S i mod 4 = match i mod 4 with 0 => 1 | 1 => 2 | 2 => 3 | _ => 0 end)%nat as ->.
  { assert (i mod 4 < 4)%nat by (apply Nat.mod_upper_bound; lia).
    pose proof (Nat.div_mod_eq i 4). pose proof (Nat.div_mod_eq (S i) 4).
    assert (S i mod 4 < 4)%nat by (apply Nat.mod_upper_bound; lia).
    destruct (i mod 4)%nat as [|[|[|[|]]]]; lia. }
  destruct st as [a b c d].
  destruct (i mod 4)%nat as [|[|[|]]]; unfold MD5STEP; cbn [get set va vb vc vd];
    rewrite Hf, step_sum; done.
Qed.

Lemma view_fold input n i st :
  view (i + n) (fold_left (MD5STEP input) (map line_at (seq i n)) st)
  = fold_left (rfc_step input) (seq i n) (view i st).
Proof.
  revert i st. induction n as [|n IH]; intros i st; simpl.
  - by rewrite Nat.add_0_r.
  - rewrite <- view_step, <- IH. f_equal. lia.
Qed.

Lemma view_0 st : view 0 st = st.
Proof. done. Qed.
Lemma view_64 st : view (0 + 64) st = st.
Proof. done. Qed.

Lemma fold_lines_rfc input st :
  fold_left (MD5STEP input) md5_lines st = fold_left (rfc_step input) (seq 0 64) st.
Proof.
  pose proof (view_fold input 64 0 st) as H. rewrite view_64, view_0 in H.
  rewrite md5_lines_at. exact H.
Qed.

Lemma MD5Transform_rfc buf input : MD5Transform buf input = rfc_compress buf input.
Proof. unfold MD5Transform, rfc_compress. rewrite fold_lines_rfc. reflexivity. Qed.

#[local] Opaque MD5Transform rfc_compress.

(** ** The byte order *)

Lemma byteReverse_little buf n : byteReverse false buf n = buf.
Proof. by destruct n. Qed.

(** The word that [byteReverse] reads. *)
Lemma reverse_word b0 b1 b2 b3 :
  is_byte b0 -> is_byte b1 -> is_byte b2 -> is_byte b3 ->
  Z.lor (Z.shiftl (Z.lor (Z.shiftl b3 8) b2) 16) (Z.lor (Z.shiftl b1 8) b0)
  = load_le [b0; b1; b2; b3].
Proof.
  unfold is_byte. intros. rewrite !lor_shiftl by (rewrite ?lor_shiftl; lia).
  unfold load_le. lia.
Qed.

Lemma byteReverse_cons b0 b1 b2 b3 buf n :
  Forall is_byte [b0; b1; b2; b3] ->
  byteReverse true (b0 :: b1 :: b2 :: b3 :: buf) (S n)
  = b3 :: b2 :: b1 :: b0 :: byteReverse true buf n.
Proof.
  intros H. transitivity (store32 true (load_le [b0; b1; b2; b3]) ++ byteReverse true buf n).
  - rewrite <- reverse_word by (by repeat (apply Forall_cons in H as [? H])). reflexivity.
  - assert (store_le 4 (load_le [b0; b1; b2; b3]) = [b0; b1; b2; b3]) as E
      by exact (store_load_le _ H).
    unfold store32. by rewrite E.
Qed.

(** A list of [4 * n] bytes or more starts with four bytes. *)
Lemma four_bytes n (buf : bytes) :
  (4 * S n <= length buf)%nat ->
  exists b0 b1 b2 b3 buf', buf = b0 :: b1 :: b2 :: b3 :: buf' /\ (4 * n <= length buf')%nat.
Proof.
  intros H. destruct buf as [|b0 [|b1 [|b2 [|b3 buf']]]]; simpl in H; try lia.
  eexists _, _, _, _, _. split; [done|lia].
Qed.

(** What [byteReverse] leaves: the same words in the machine's byte order. *)
Lemma byteReverse_spec big buf n :
  Forall is_byte buf -> (4 * n <= length buf)%nat ->
  load_words big n (byteReverse big buf n) = load_words false n buf /\
  length (byteReverse big buf n) = length buf /\ Forall is_byte (byteReverse big buf n).
Proof.
  destruct big; [|by rewrite byteReverse_little].
  revert buf. induction n as [|n IH]; intros buf Hb Hl; [done|].
  destruct (four_bytes n buf Hl) as (b0 & b1 & b2 & b3 & buf' & -> & Hl').
  repeat match goal with H : Forall _ (_ :: _) |- _ => apply Forall_cons in H as [? H] end.
  rewrite byteReverse_cons by (by rewrite !Forall_cons).
  destruct (IH buf') as (E & El & Eb); [done..|].
  cbn [load_words firstn skipn length]. rewrite !take_0, !drop_0, E, El. split; [done|]. split; [done|].
  by rewrite !Forall_cons.
Qed.

(** Back from the machine's byte order. *)
Lemma byteReverse_words big ws :
  byteReverse big (store_words big ws) (length ws) = store_words false ws.
Proof.
  destruct big; [|apply byteReverse_little].
  induction ws as [|w ws IH]; [done|].
  change (store_words true (w :: ws)) with (rev (store_le 4 w) ++ store_words true ws).
  pose proof (store_le_bytes 4 w) as Hb.
  change (store_words false (w :: ws)) with (store_le 4 w ++ store_words false ws).
  cbn [store_le] in *. rewrite <- IH. cbn [length].
  apply (byteReverse_cons _ _ _ _ (store_words true ws)). exact (Forall_rev Hb).
Qed.

Lemma md5_block_spec big buf block :
  Forall is_byte block -> length block = 64%nat ->
  exists in', md5_block big buf block = (rfc_block buf block, in') /\
    length in' = 64%nat /\ Forall is_byte in'.
Proof.
  intros Hb Hl. destruct (byteReverse_spec big block 16) as (E & El & Eb); [done|lia|].
  exists (byteReverse big block 16). unfold md5_block.
  rewrite E, MD5Transform_rfc. split_and!; [done|congruence|done].
Qed.

(** ** Hashing in pieces *)

Lemma md5_blocks_spec n big buf inp data :
  Forall is_byte data -> length inp = 64%nat -> Forall is_byte inp ->
  (length data < 64 * S n)%nat ->
  exists in', md5_blocks n big buf inp data = (absorb rfc_block buf data, in') /\
    buffered in' data.
Proof.
  revert buf inp data. induction n as [|n IH]; intros buf inp data Hd Hl Hb Hn;
    cbn [md5_blocks]; [|destruct (Nat.leb_spec 64 (length data))].
  1, 3: destruct (buffered_small inp [] data) as [Hbuf Ha]; [done..|simpl; lia|];
    exists (splice inp 0 data); split; [|done];
    rewrite (Ha _ rfc_block buf : absorb rfc_block buf data = _); done.
  destruct (buffered_full inp [] data) as (Hlb & Hlo & Ha); [done|simpl; lia|].
  cbn [Nat.sub length Nat.modulo] in *.
  destruct (md5_block_spec big buf (splice inp 0 (take 64 data))) as (in' & E & Hl' & Hb');
    [by apply splice_bytes, Forall_take|done|].
  rewrite E. destruct (IH (rfc_block buf (splice inp 0 (take 64 data))) in' (drop 64 data))
    as (in'' & E' & Hl'' & Hb'' & Ht); [by apply Forall_drop|done..|rewrite length_drop; lia|].
  exists in''. rewrite E'. split.
  - by rewrite (Ha _ rfc_block buf : absorb rfc_block buf data = _).
  - split_and!; [done..|]. rewrite <- !leftover_length. rewrite <- leftover_length in Ht.
    by rewrite (Hlo : leftover data = _).
Qed.

(** The context after hashing [m]. *)
Definition md5_rep (ctx : MD5Context) (m : bytes) : Prop :=
  md5_buf ctx = absorb rfc_block md5_init_buf m /\
  counts (md5_bits0 ctx) (md5_bits1 ctx) (length m) /\ buffered (md5_in ctx) m.

Lemma MD5Init_rep inp :
  length inp = 64%nat -> Forall is_byte inp -> md5_rep (MD5Init inp) [].
Proof. intros Hl Hb. split; [done|]. split; [|by apply buffered_nil]. by_eval. Qed.

Lemma MD5Update_rep big ctx m d :
  md5_rep ctx m -> Forall is_byte d -> Z.of_nat (length d) < 2 ^ 32 ->
  md5_rep (MD5Update big ctx d) (m ++ d).
Proof.
  intros (Hbuf & Hc & Hin) Hd Hlen. pose proof (mod64_lt (length m)).
  pose proof (counts_add _ _ _ (length d) Hc Hlen) as Hc'. cbv zeta in Hc'.
  rewrite <- length_app in Hc'.
  unfold MD5Update. rewrite (counts_index _ _ _ Hc).
  destruct (Nat.ltb_spec 0 (length m mod 64)) as [Hp|Hp].
  - destruct (Nat.ltb_spec (length d) (64 - length m mod 64)) as [Hs|Hs].
    + destruct (buffered_small (md5_in ctx) m d) as [Hin' Ha]; [done..|lia|].
      split_and!; [|done..]. simpl. by rewrite Ha.
    + destruct (buffered_full (md5_in ctx) m d) as (Hlb & Hlo & Ha); [done|lia|].
      destruct (md5_block_spec big (md5_buf ctx)
        (splice (md5_in ctx) (length m mod 64) (take (64 - length m mod 64) d)))
        as (in' & -> & Hl' & Hb'); [apply splice_bytes; [apply Hin|by apply Forall_take]|done|].
      edestruct (md5_blocks_spec (length d) big) as (in'' & -> & Hl'' & Hb'' & Ht);
        [by apply Forall_drop|exact Hl'|exact Hb'|rewrite length_drop; lia|].
      split; [|split; [exact Hc'|]].
      * simpl. by rewrite Hbuf, Ha.
      * split_and!; [done..|]. rewrite <- leftover_length, Hlo, leftover_length. exact Ht.
  - assert (leftover m = []) as Hm by (apply nil_length_inv; rewrite leftover_length; lia).
    destruct Hin as (Hl & Hb & _).
    destruct (md5_blocks_spec (length d) big (md5_buf ctx) (md5_in ctx) d)
      as (in' & -> & Hl' & Hb' & Ht); [done..|lia|].
    destruct (absorb_step rfc_block md5_init_buf m d) as [Ea El]. rewrite Hm in Ea, El.
    split; [|split; [exact Hc'|]].
    + simpl. by rewrite Hbuf, Ea.
    + split_and!; [done..|]. rewrite <- leftover_length, El, leftover_length. exact Ht.
Qed.

Lemma final_words big inp lo hi :
  length inp = 64%nat -> Forall is_byte inp -> 0 <= lo < 2 ^ 32 -> 0 <= hi < 2 ^ 32 ->
  load_words big 16 (splice (splice (byteReverse big inp 14) 56 (store32 big lo))
                            60 (store32 big hi))
  = load_words false 16 (take 56 inp ++ store_le 4 lo ++ store_le 4 hi).
Proof.
  intros Hl Hb Hlo Hhi. destruct (byteReverse_spec big inp 14) as (E & El & Eb); [done|lia|].
  set (R := byteReverse big inp 14) in *.
  assert (splice (splice R 56 (store32 big lo)) 60 (store32 big hi)
    = take 56 R ++ store_words big [lo; hi] ++ []) as ->.
  { unfold splice at 1.
    rewrite (drop_ge _ (60 + _)) by (rewrite splice_length; rewrite !store32_length; lia).
    rewrite splice_take_eq by (rewrite ?store32_length; lia). simpl. by rewrite <- !app_assoc. }
  rewrite !(load_words_app _ 14 2) by (rewrite length_take; lia). f_equal.
  - rewrite (load_words_ext big 14 (take 56 R) R), E
      by (first [by rewrite take_take | rewrite length_take; lia]).
    apply load_words_ext; [by rewrite take_take|lia].
  - rewrite (load_words_store big [lo; hi]) by (by rewrite !Forall_cons).
    pose proof (load_words_store false [lo; hi] []) as H. simpl in H. symmetry.
    apply H. by rewrite !Forall_cons.
Qed.

(** The padding written into the block buffer. *)
Lemma padded_block inp m z :
  buffered inp m -> (length m mod 64 + 1 + z <= 64)%nat ->
  let r := (length m mod 64)%nat in
  let block := splice (splice inp r [0x80]) (r + 1) (replicate z 0) in
  length block = 64%nat /\ Forall is_byte block /\
  take (r + 1 + z) block = leftover m ++ 0x80 :: replicate z 0.
Proof.
  intros (Hl & Hb & Ht) Hz r block. fold r in Hz, Ht.
  assert (length (splice inp r [0x80]) = 64%nat) as Hl1 by (rewrite splice_length; simpl; lia).
  assert (Forall is_byte (splice inp r [0x80])) as Hb1
    by (apply splice_bytes; [done|apply Forall_singleton; by_eval]).
  unfold block. split_and!.
  - rewrite splice_length; rewrite ?length_replicate; lia.
  - apply splice_bytes; [done|]. apply Forall_replicate. by_eval.
  - rewrite splice_take_eq by (rewrite ?length_replicate; lia).
    rewrite splice_take_eq by (simpl; lia). by rewrite Ht, <- app_assoc.
Qed.

(** The last block, the length written as two words of the machine, and the digest. *)
Lemma final_digest big buf inp lo hi len :
  length inp = 64%nat -> Forall is_byte inp -> counts lo hi len ->
  take 16 (byteReverse big (store_words big (MD5Transform buf (load_words big 16
    (splice (splice (byteReverse big inp 14) 56 (store32 big lo)) 60 (store32 big hi))))) 4)
  = store_words false
      (rfc_block buf (take 56 inp ++ store_le 8 ((8 * Z.of_nat len) mod 2 ^ 64))).
Proof.
  intros Hl Hb Hc. destruct (Hc) as (Hlo & Hhi & _). rewrite <- (counts_store _ _ _ Hc).
  rewrite final_words, MD5Transform_rfc by done. unfold rfc_block.
  set (input := load_words false 16 _).
  rewrite (byteReverse_words big (rfc_compress buf input) : byteReverse _ _ 4 = _).
  apply take_ge. apply Nat.eq_le_incl. reflexivity.
Qed.

Lemma MD5Final_rep big ctx m : md5_rep ctx m -> MD5Final big ctx = rfc_md5 m.
Proof.
  intros (Hbuf & Hc & Hin). pose proof (mod64_lt (length m)).
  pose proof (leftover_length m) as Hlm.
  unfold MD5Final, rfc_md5, rfc_pad. rewrite (counts_index _ _ _ Hc).
  destruct (absorb_step rfc_block md5_init_buf m
    (0x80 :: replicate ((119 - length m mod 64) mod 64) 0
       ++ store_le 8 ((8 * Z.of_nat (length m)) mod 2 ^ 64))) as [-> _].
  rewrite <- Hbuf.
  destruct (Nat.ltb_spec (64 - 1 - length m mod 64) 8) as [Hr|Hr].
  - destruct (padded_block (md5_in ctx) m (64 - 1 - length m mod 64)) as (Hl' & Hb' & Ht');
      [done|lia|].
    destruct (md5_block_spec big (md5_buf ctx) _ Hb' Hl') as (in' & -> & Hl2 & Hb2).
    rewrite (take_ge (splice _ _ _)) in Ht' by lia. rewrite Ht' in *.
    rewrite (final_digest big _ _ _ _ (length m)); [..|exact Hc].
    2: by rewrite splice_length, Hl2 by (rewrite length_replicate; lia).
    2: apply splice_bytes; [done|]; apply Forall_replicate; by_eval.
    rewrite splice_take_eq by (rewrite ?length_replicate; lia).
    rewrite (Nat.mod_small (119 - length m mod 64)) by lia.
    replace (119 - length m mod 64)%nat with (64 - 1 - length m mod 64 + 56)%nat by lia.
    rewrite replicate_add, <- !app_assoc.
    rewrite app_comm_cons, (app_assoc (leftover m)).
    rewrite (absorb_app _ _ _ _ 1) by done. rewrite (absorb_block _ _ _ Hl').
    rewrite absorb_block; [done|]. by rewrite length_app, length_replicate, store_le_length.
  - destruct (padded_block (md5_in ctx) m (64 - 1 - length m mod 64 - 8)) as (Hl' & Hb' & Ht');
      [done|lia|].
    rewrite (final_digest _ _ _ _ _ _ Hl' Hb' Hc).
    replace (_ + 1 + _)%nat with 56%nat in Ht' by lia. rewrite Ht'.
    replace ((119 - length m mod 64) mod 64)%nat with (64 - 1 - length m mod 64 - 8)%nat
      by (apply Nat.mod_unique with 1%nat; lia).
    rewrite absorb_block; [by rewrite <- app_assoc|].
    rewrite length_app. cbn [length]. rewrite length_app, length_replicate, store_le_length. lia.
Qed.

Lemma md5_digest_rfc big inp args :
  length inp = 64%nat -> Forall is_byte inp ->
  Forall (fun d => Forall is_byte d /\ Z.of_nat (length d) < 2 ^ 32) args ->
  md5_digest big inp args = rfc_md5 (concat args).
Proof.
  intros Hl Hb Hargs. apply MD5Final_rep. change (concat args) with ([] ++ concat args).
  pose proof (MD5Init_rep inp Hl Hb) as Hrep. revert Hrep.
  generalize (@nil Z) as m, (MD5Init inp) as ctx.
  induction Hargs as [|d args [Hd Hn] _ IH]; intros m ctx Hrep; simpl.
  - by rewrite app_nil_r.
  - rewrite app_assoc. by apply IH, MD5Update_rep.
Qed.

Lemma rfc_md5_length m : length (rfc_md5 m) = 16%nat.
Proof.
  unfold rfc_md5. assert (forall n st d, length st = 4%nat ->
    length (absorb_n rfc_block n st d) = 4%nat) as H.
  { induction n as [|n IH]; intros st d Hst; [done|]. cbn [absorb_n]. by apply IH. }
  specialize (H (length (m ++ rfc_pad m) / 64)%nat md5_init_buf (m ++ rfc_pad m) eq_refl).
  unfold store_words, absorb.
  destruct (absorb_n _ _ _ _) as [|a [|b [|c [|d [|]]]]]; done.
Qed.

Lemma rfc_md5_bytes m : Forall is_byte (rfc_md5 m).
Proof.
  unfold rfc_md5, store_words. apply Forall_flat_map. apply Forall_true. intros w. apply store32_bytes.
Qed.

Lemma bin2str_length d : length (bin2str d) = (2 * length d)%nat.
Proof. unfold bin2str. induction d; simpl; lia. Qed.

Lemma bin2str_xdigits d :
  Forall is_byte d -> Forall (fun c => isxdigit c = true /\ is_char c) (bin2str d).
Proof.
  intros H. unfold bin2str. apply Forall_flat_map. eapply Forall_impl; [done|].
  intros b Hb. unfold is_byte in Hb.
  assert (0 <= Z.shiftr b 4 < 16) by (rewrite Z.shiftr_div_pow2 by lia;
    split; [apply Z.div_pos; lia|apply Z.div_lt_upper_bound; lia]).
  assert (0 <= Z.land b 15 < 16) by (change 15 with (Z.ones 4); rewrite Z.land_ones by lia;
    apply Z.mod_pos_bound; lia).
  destruct (hex_spec (Z.shiftr b 4)) as (? & _ & ? & _); [done|].
  destruct (hex_spec (Z.land b 15)) as (? & _ & ? & _); [done|].
  apply Forall_cons; split; [done|]. by apply Forall_singleton.
Qed.

(** Arguments of [mg_md5] that are strings of a sensible length. *)
Definition md5_args (args : list bytes) : Prop :=
  Forall (fun d => Forall is_byte d /\ Z.of_nat (length d) < 2 ^ 32) args.

(** [mg_md5] gives the 32 hexadecimal digits of the MD5 of its arguments. *)
Lemma mg_md5_spec big args :
  md5_args args ->
  mg_md5 big args = bin2str (rfc_md5 (concat args)) /\
  length (mg_md5 big args) = 32%nat /\
  Forall (fun c => isxdigit c = true /\ is_char c) (mg_md5 big args).
Proof.
  intros H. unfold mg_md5. rewrite md5_digest_rfc; [|done|by apply Forall_replicate|done].
  split_and!; [done| |apply bin2str_xdigits, rfc_md5_bytes].
  by rewrite bin2str_length, rfc_md5_length.
Qed.

(** C37. Hashing a message in any number of pieces, each shorter than 2^32 bytes, on
    a machine of either byte order and whatever the uninitialised block buffer
    holds, gives the MD5 digest of RFC 1321 (padding, length field and the 64-step
    loop) of the concatenated message. *)
Theorem md5_streaming big inp args :
  length inp = 64%nat -> Forall is_byte inp ->
  Forall (fun d => Forall is_byte d /\ Z.of_nat (length d) < 2 ^ 32) args ->
  md5_digest big inp args = rfc_md5 (concat args).
Proof. apply md5_digest_rfc. Qed.

Lemma md5_streaming_witness :
  md5_digest true (replicate 64 0xcc) [B "mongoose"; B ":"; replicate 70 65]
  = rfc_md5 (concat [B "mongoose"; B ":"; replicate 70 65]).
Proof.
  apply md5_streaming.
  - reflexivity.
  - apply Forall_replicate. by_eval.
  - repeat (apply Forall_cons; split); [..|constructor]; split;
      first [by apply Forall_replicate | by_eval | apply (bool_decide_unpack _); by_eval].
Defined.
