(* ===== verification/Sha1.v ===== *)
(** * SHA-1

    The SHA-1 code of mongoose.c (src/mongoose.c, lines 3684-3808).  The byte order
    that [is_big_endian] finds out at run time is a parameter.  The unrolled
    compression function with its 16-word circular schedule is proved equal to the
    80-word schedule and the loop of FIPS 180, and hashing in pieces to hashing the
    padded message. *)

From S2P Require Import Prelude BlockHash.

(** [block->l[i]] swapped on a little endian machine, and the block afterwards. *)
Definition blk0 (big : bool) (block : list Z) (i : nat) : Z * list Z :=
  let w := at_ block i in
  let w' := if big then w
            else Z.lor (Z.land (rol w 24) 0xFF00FF00) (Z.land (rol w 8) 0x00FF00FF) in
  (w', <[i := w']> block).

Definition blk (block : list Z) (i : nat) : Z * list Z :=
  let w := rol (Z.lxor (Z.lxor (Z.lxor (at_ block ((i + 13) mod 16)) (at_ block ((i + 8) mod 16)))
                       (at_ block ((i + 2) mod 16)))
                (at_ block (i mod 16))) 1 in
  (w, <[(i mod 16)%nat := w]> block).

(** The five variables of the compression function. *)
Inductive sreg := Xa | Xb | Xc | Xd | Xe.
Record sregs := SRegs { xa : Z; xb : Z; xc : Z; xd : Z; xe : Z }.
Definition sget (st : sregs) (r : sreg) : Z :=
  match r with Xa => xa st | Xb => xb st | Xc => xc st | Xd => xd st | Xe => xe st end.
Definition sset (st : sregs) (r : sreg) (x : Z) : sregs :=
  match r, st with
  | Xa, SRegs _ b c d e => SRegs x b c d e
  | Xb, SRegs a _ c d e => SRegs a x c d e
  | Xc, SRegs a b _ d e => SRegs a b x d e
  | Xd, SRegs a b c _ e => SRegs a b c x e
  | Xe, SRegs a b c d _ => SRegs a b c d x
  end.

(** The five macros: [S0] takes its word from [blk0], the others from [blk]. *)
Inductive sha_macro := S0 | S1 | S2 | S3 | S4.
Definition sha_f (m : sha_macro) (w x y : Z) : Z :=
  match m with
  | S0 | S1 => Z.lxor (Z.land w (Z.lxor x y)) y
  | S2 | S4 => Z.lxor (Z.lxor w x) y
  | S3 => Z.lor (Z.land (Z.lor w x) y) (Z.land w x)
  end.
Definition sha_k (m : sha_macro) : Z :=
  match m with
  | S0 | S1 => 0x5A827999 | S2 => 0x6ED9EBA1 | S3 => 0x8F1BBCDC | S4 => 0xCA62C1D6
  end.

(** [Sm(v, w, x, y, z, i)] *)
Abbreviation sha_line := (sha_macro * sreg * sreg * sreg * sreg * sreg * nat)%type.
Definition sha_step (big : bool) (st : sregs * list Z) (line : sha_line) : sregs * list Z :=
  let '(m, v, w, x, y, z, i) := line in
  let '(r, block) := st in
  let '(word, block) := match m with S0 => blk0 big block i | _ => blk block i end in
  let r := sset r z (wrap32 (sget r z + (sha_f m (sget r w) (sget r x) (sget r y)
                             + word + sha_k m + rol (sget r v) 5))) in
  (sset r w (rol (sget r w) 30), block).

(** The 80 macro calls of [SHA1Transform]. *)
Definition sha_lines : list sha_line := [
  (S0, Xa, Xb, Xc, Xd, Xe, 0%nat); (S0, Xe, Xa, Xb, Xc, Xd, 1%nat);
  (S0, Xd, Xe, Xa, Xb, Xc, 2%nat); (S0, Xc, Xd, Xe, Xa, Xb, 3%nat);
  (S0, Xb, Xc, Xd, Xe, Xa, 4%nat); (S0, Xa, Xb, Xc, Xd, Xe, 5%nat);
  (S0, Xe, Xa, Xb, Xc, Xd, 6%nat); (S0, Xd, Xe, Xa, Xb, Xc, 7%nat);
  (S0, Xc, Xd, Xe, Xa, Xb, 8%nat); (S0, Xb, Xc, Xd, Xe, Xa, 9%nat);
  (S0, Xa, Xb, Xc, Xd, Xe, 10%nat); (S0, Xe, Xa, Xb, Xc, Xd, 11%nat);
  (S0, Xd, Xe, Xa, Xb, Xc, 12%nat); (S0, Xc, Xd, Xe, Xa, Xb, 13%nat);
  (S0, Xb, Xc, Xd, Xe, Xa, 14%nat); (S0, Xa, Xb, Xc, Xd, Xe, 15%nat);
  (S1, Xe, Xa, Xb, Xc, Xd, 16%nat); (S1, Xd, Xe, Xa, Xb, Xc, 17%nat);
  (S1, Xc, Xd, Xe, Xa, Xb, 18%nat); (S1, Xb, Xc, Xd, Xe, Xa, 19%nat);
  (S2, Xa, Xb, Xc, Xd, Xe, 20%nat); (S2, Xe, Xa, Xb, Xc, Xd, 21%nat);
  (S2, Xd, Xe, Xa, Xb, Xc, 22%nat); (S2, Xc, Xd, Xe, Xa, Xb, 23%nat);
  (S2, Xb, Xc, Xd, Xe, Xa, 24%nat); (S2, Xa, Xb, Xc, Xd, Xe, 25%nat);
  (S2, Xe, Xa, Xb, Xc, Xd, 26%nat); (S2, Xd, Xe, Xa, Xb, Xc, 27%nat);
  (S2, Xc, Xd, Xe, Xa, Xb, 28%nat); (S2, Xb, Xc, Xd, Xe, Xa, 29%nat);
  (S2, Xa, Xb, Xc, Xd, Xe, 30%nat); (S2, Xe, Xa, Xb, Xc, Xd, 31%nat);
  (S2, Xd, Xe, Xa, Xb, Xc, 32%nat); (S2, Xc, Xd, Xe, Xa, Xb, 33%nat);
  (S2, Xb, Xc, Xd, Xe, Xa, 34%nat); (S2, Xa, Xb, Xc, Xd, Xe, 35%nat);
  (S2, Xe, Xa, Xb, Xc, Xd, 36%nat); (S2, Xd, Xe, Xa, Xb, Xc, 37%nat);
  (S2, Xc, Xd, Xe, Xa, Xb, 38%nat); (S2, Xb, Xc, Xd, Xe, Xa, 39%nat);
  (S3, Xa, Xb, Xc, Xd, Xe, 40%nat); (S3, Xe, Xa, Xb, Xc, Xd, 41%nat);
  (S3, Xd, Xe, Xa, Xb, Xc, 42%nat); (S3, Xc, Xd, Xe, Xa, Xb, 43%nat);
  (S3, Xb, Xc, Xd, Xe, Xa, 44%nat); (S3, Xa, Xb, Xc, Xd, Xe, 45%nat);
  (S3, Xe, Xa, Xb, Xc, Xd, 46%nat); (S3, Xd, Xe, Xa, Xb, Xc, 47%nat);
  (S3, Xc, Xd, Xe, Xa, Xb, 48%nat); (S3, Xb, Xc, Xd, Xe, Xa, 49%nat);
  (S3, Xa, Xb, Xc, Xd, Xe, 50%nat); (S3, Xe, Xa, Xb, Xc, Xd, 51%nat);
  (S3, Xd, Xe, Xa, Xb, Xc, 52%nat); (S3, Xc, Xd, Xe, Xa, Xb, 53%nat);
  (S3, Xb, Xc, Xd, Xe, Xa, 54%nat); (S3, Xa, Xb, Xc, Xd, Xe, 55%nat);
  (S3, Xe, Xa, Xb, Xc, Xd, 56%nat); (S3, Xd, Xe, Xa, Xb, Xc, 57%nat);
  (S3, Xc, Xd, Xe, Xa, Xb, 58%nat); (S3, Xb, Xc, Xd, Xe, Xa, 59%nat);
  (S4, Xa, Xb, Xc, Xd, Xe, 60%nat); (S4, Xe, Xa, Xb, Xc, Xd, 61%nat);
  (S4, Xd, Xe, Xa, Xb, Xc, 62%nat); (S4, Xc, Xd, Xe, Xa, Xb, 63%nat);
  (S4, Xb, Xc, Xd, Xe, Xa, 64%nat); (S4, Xa, Xb, Xc, Xd, Xe, 65%nat);
  (S4, Xe, Xa, Xb, Xc, Xd, 66%nat); (S4, Xd, Xe, Xa, Xb, Xc, 67%nat);
  (S4, Xc, Xd, Xe, Xa, Xb, 68%nat); (S4, Xb, Xc, Xd, Xe, Xa, 69%nat);
  (S4, Xa, Xb, Xc, Xd, Xe, 70%nat); (S4, Xe, Xa, Xb, Xc, Xd, 71%nat);
  (S4, Xd, Xe, Xa, Xb, Xc, 72%nat); (S4, Xc, Xd, Xe, Xa, Xb, 73%nat);
  (S4, Xb, Xc, Xd, Xe, Xa, 74%nat); (S4, Xa, Xb, Xc, Xd, Xe, 75%nat);
  (S4, Xe, Xa, Xb, Xc, Xd, 76%nat); (S4, Xd, Xe, Xa, Xb, Xc, 77%nat);
  (S4, Xc, Xd, Xe, Xa, Xb, 78%nat); (S4, Xb, Xc, Xd, Xe, Xa, 79%nat)
].

Definition SHA1Transform (big : bool) (state : list Z) (buffer : bytes) : list Z :=
  let st := SRegs (at_ state 0) (at_ state 1) (at_ state 2) (at_ state 3) (at_ state 4) in
  let '(r, _) := fold_left (sha_step big) sha_lines (st, load_words big 16 buffer) in
  [wrap32 (at_ state 0 + xa r); wrap32 (at_ state 1 + xb r); wrap32 (at_ state 2 + xc r);
   wrap32 (at_ state 3 + xd r); wrap32 (at_ state 4 + xe r)].

Record SHA1_CTX := SHA1_Ctx {
  sha_state : list Z;     (* uint32_t state[5] *)
  sha_count0 : Z;         (* uint32_t count[2] *)
  sha_count1 : Z;
  sha_buffer : bytes      (* unsigned char buffer[64] *)
}.

Definition sha_init_state : list Z :=
  [0x67452301; 0xEFCDAB89; 0x98BADCFE; 0x10325476; 0xC3D2E1F0].

(** [buffer] keeps whatever it holds. *)
Definition SHA1Init (buffer : bytes) : SHA1_CTX := SHA1_Ctx sha_init_state 0 0 buffer.

(** The loop over the whole blocks in [data] from offset [i]; [n] bounds its rounds. *)
Fixpoint sha_blocks (n : nat) (big : bool) (state : list Z) (data : bytes) (i : Z)
    : list Z * Z :=
  match n with
  | O => (state, i)
  | S n' =>
      if wrap32 (i + 63) <? Z.of_nat (length data) then
        sha_blocks n' big (SHA1Transform big state (take 64 (drop (Z.to_nat i) data))) data
          (wrap32 (i + 64))
      else (state, i)
  end.

Definition SHA1Update (big : bool) (ctx : SHA1_CTX) (data : bytes) : SHA1_CTX :=
  let len := Z.of_nat (length data) in
  let j := sha_count0 ctx in
  let count0 := wrap32 (j + wrap32 (Z.shiftl len 3)) in
  let count1 := wrap32 (if count0 <? j then sha_count1 ctx + 1 else sha_count1 ctx) in
  let count1 := wrap32 (count1 + Z.shiftr len 29) in
  let j := Z.land (Z.shiftr j 3) 63 in
  if 63 <? wrap32 (j + len) then
    let i := 64 - j in
    let buffer := splice (sha_buffer ctx) (Z.to_nat j) (take (Z.to_nat i) data) in
    let state := SHA1Transform big (sha_state ctx) buffer in
    let '(state, i) := sha_blocks (length data) big state data i in
    SHA1_Ctx state count0 count1 (splice buffer 0 (drop (Z.to_nat i) data))
  else SHA1_Ctx (sha_state ctx) count0 count1 (splice (sha_buffer ctx) (Z.to_nat j) data).

(** The padding loop; [None] when [fuel] runs out. *)
Fixpoint sha_pad_loop (fuel : nat) (big : bool) (ctx : SHA1_CTX) : option SHA1_CTX :=
  match fuel with
  | O => None
  | S fuel' =>
      if Z.land (sha_count0 ctx) 504 =? 448 then Some ctx
      else sha_pad_loop fuel' big (SHA1Update big ctx [0])
  end.

(** [(w >> ((3 - (i & 3)) * 8)) & 255] for the four bytes of [w]. *)
Definition sha_word_bytes (w : Z) : bytes :=
  map (fun i => Z.land (Z.shiftr w ((3 - i) * 8)) 255) [0; 1; 2; 3].

(** At most 63 zero bytes are appended, so 64 rounds of fuel are enough. *)
Definition SHA1Final (big : bool) (ctx : SHA1_CTX) : option bytes :=
  let finalcount := sha_word_bytes (sha_count1 ctx) ++ sha_word_bytes (sha_count0 ctx) in
  match sha_pad_loop 64 big (SHA1Update big ctx [128]) with
  | None => None
  | Some ctx => Some (flat_map sha_word_bytes (sha_state (SHA1Update big ctx finalcount)))
  end.

(** The digest of a message given in pieces. *)
Definition sha1_digest (big : bool) (buffer : bytes) (args : list bytes) : option bytes :=
  SHA1Final big (fold_left (SHA1Update big) args (SHA1Init buffer)).

(** ** FIPS 180 *)

(** The 80 words of the schedule. *)
Definition fips_extend (ws : list Z) : list Z :=
  let t := length ws in
  ws ++ [rol (Z.lxor (Z.lxor (Z.lxor (at_ ws (t - 3)) (at_ ws (t - 8))) (at_ ws (t - 14)))
                (at_ ws (t - 16))) 1].
Definition fips_schedule (block : bytes) : list Z :=
  Nat.iter 64 fips_extend (load_words true 16 block).

Definition fips_Ch (x y z : Z) : Z := Z.lxor (Z.land x y) (Z.land (Z.lnot x) z).
Definition fips_Parity (x y z : Z) : Z := Z.lxor (Z.lxor x y) z.
Definition fips_Maj (x y z : Z) : Z :=
  Z.lxor (Z.lxor (Z.land x y) (Z.land x z)) (Z.land y z).
Definition fips_f (t : nat) : Z -> Z -> Z -> Z :=
  match (t / 20)%nat with
  | 0%nat => fips_Ch | 1%nat => fips_Parity | 2%nat => fips_Maj | _ => fips_Parity
  end.
Definition fips_K (t : nat) : Z :=
  match (t / 20)%nat with
  | 0%nat => 0x5A827999 | 1%nat => 0x6ED9EBA1 | 2%nat => 0x8F1BBCDC | _ => 0xCA62C1D6
  end.

Definition fips_step (W : list Z) (st : sregs) (t : nat) : sregs :=
  let '(SRegs a b c d e) := st in
  SRegs (wrap32 (rol a 5 + fips_f t b c d + e + fips_K t + at_ W t)) a (rol b 30) c d.

Definition fips_block (state : list Z) (block : bytes) : list Z :=
  let st := SRegs (at_ state 0) (at_ state 1) (at_ state 2) (at_ state 3) (at_ state 4) in
  let r := fold_left (fips_step (fips_schedule block)) (seq 0 80) st in
  [wrap32 (at_ state 0 + xa r); wrap32 (at_ state 1 + xb r); wrap32 (at_ state 2 + xc r);
   wrap32 (at_ state 3 + xd r); wrap32 (at_ state 4 + xe r)].

Definition fips_pad (m : bytes) : bytes :=
  0x80 :: replicate ((119 - length m mod 64) mod 64) 0
       ++ rev (store_le 8 ((8 * Z.of_nat (length m)) mod 2 ^ 64)).

Definition fips_sha1 (m : bytes) : bytes :=
  store_words true (absorb fips_block sha_init_state (m ++ fips_pad m)).

Example sha_abc : sha1_digest false (replicate 64 7) [B "ab"; B "c"] =
  Some [0xa9; 0x99; 0x3e; 0x36; 0x47; 0x06; 0x81; 0x6a; 0xba; 0x3e; 0x25; 0x71; 0x78; 0x50;
        0xc2; 0x6c; 0x9c; 0xd0; 0xd8; 0x9d].
Proof. by_eval. Qed.
Example sha_abc_big : sha1_digest true (replicate 64 7) [B "ab"; B "c"] = Some (fips_sha1 (B "abc")).
Proof. by_eval. Qed.

(** ** The round functions and the byte order *)

Ltac bitwise :=
  apply Z.bits_inj'; intros ?n ?Hn;
  repeat first [rewrite Z.lxor_spec | rewrite Z.land_spec | rewrite Z.lor_spec
               | rewrite Z.lnot_spec by done];
  repeat match goal with |- context [Z.testbit ?x ?n] => destruct (Z.testbit x n) end;
  reflexivity.

Lemma sha_f_Ch w x y : sha_f S0 w x y = fips_Ch w x y.
Proof. unfold sha_f, fips_Ch. bitwise. Qed.

Lemma sha_f_Maj w x y : sha_f S3 w x y = fips_Maj w x y.
Proof. unfold sha_f, fips_Maj. bitwise. Qed.

Lemma load_le_testbit mem n :
  Forall is_byte mem -> 0 <= n ->
  Z.testbit (load_le mem) n = Z.testbit (at_ mem (Z.to_nat (n / 8))) (n mod 8).
Proof.
  intros H. revert n. induction H as [|b mem Hb _ IH]; intros n Hn; cbn [load_le].
  - unfold at_. rewrite lookup_nil. simpl. by rewrite !Z.testbit_0_l.
  - unfold is_byte in Hb. rewrite Z.add_comm, (Z.mul_comm 256).
    change (load_le mem * 256) with (load_le mem * 2 ^ 8).
    rewrite <- (lor_shiftl (load_le mem) b 8) by lia. rewrite Z.lor_spec, Z.shiftl_spec by done.
    destruct (Z.lt_ge_cases n 8).
    + rewrite Z.div_small, Z.mod_small, Z.testbit_neg_r by lia. done.
    + rewrite IH by lia.
      rewrite <- (Z.mod_small b (2 ^ 8)), Z.mod_pow2_bits_high by lia.
      rewrite orb_false_r. replace (n - 8) with (n + (-1) * 8) by lia.
      rewrite Z.div_add, Z.mod_add by lia.
      assert (1 <= n / 8) by (apply Z.div_le_lower_bound; lia).
      replace (Z.to_nat (n / 8)) with (S (Z.to_nat (n / 8 + -1))) by lia. done.
Qed.

Lemma rol_testbit w s n :
  0 <= w < 2 ^ 32 -> 0 < s < 32 -> 0 <= n < 32 ->
  Z.testbit (rol w s) n = Z.testbit w ((n - s) mod 32).
Proof.
  intros Hw Hs Hn. unfold rol, wrap32.
  rewrite Z.lor_spec, Z.mod_pow2_bits_low, Z.shiftl_spec, Z.shiftr_spec by lia.
  destruct (Z.lt_ge_cases n s).
  - rewrite Z.testbit_neg_r by lia. simpl. f_equal. apply Z.mod_unique with (-1); lia.
  - rewrite Z.mod_small by lia.
    rewrite <- (Z.mod_small w (2 ^ 32)) at 2 by done.
    rewrite (Z.mod_pow2_bits_high w 32) by lia. apply orb_false_r.
Qed.

(** The swap of [blk0] on a word loaded in little endian order. *)
Lemma swap_word b0 b1 b2 b3 :
  Forall is_byte [b0; b1; b2; b3] ->
  let w := load_le [b0; b1; b2; b3] in
  Z.lor (Z.land (rol w 24) 0xFF00FF00) (Z.land (rol w 8) 0x00FF00FF) = load_le [b3; b2; b1; b0].
Proof.
  intros H w. pose proof (load_le_range _ H) as Hw. fold w in Hw. change (256 ^ _) with (2 ^ 32) in Hw.
  apply Z.bits_inj'. intros n Hn. rewrite Z.lor_spec, !Z.land_spec.
  rewrite (load_le_testbit [b3; b2; b1; b0]) by (try apply (Forall_rev H); done).
  destruct (Z.lt_ge_cases n 32).
  - rewrite !rol_testbit by lia. unfold w.
    rewrite !load_le_testbit by (done || (apply Z.mod_pos_bound; lia)).
    assert (exists k, (k < 32)%nat /\ n = Z.of_nat k) as (k & Hk & ->)
      by (exists (Z.to_nat n); lia).
    clear -Hk. do 32 (destruct k as [|k]; [cbn; by rewrite ?andb_true_r, ?andb_false_r, ?orb_false_r|]).
    lia.
  - rewrite (Z.bits_above_log2 0xFF00FF00), (Z.bits_above_log2 0x00FF00FF) by (simpl; lia).
    rewrite !andb_false_r. symmetry. unfold at_. rewrite lookup_ge_None_2; [apply Z.testbit_0_l|].
    assert (4 <= n / 8) by (apply Z.div_le_lower_bound; lia). simpl. lia.
Qed.

(** ** The schedule *)

Lemma at_app_l (a b : list Z) t : (t < length a)%nat -> at_ (a ++ b) t = at_ a t.
Proof. intros H. unfold at_. by rewrite lookup_app_l. Qed.

Lemma at_insert_eq (l : list Z) i x : (i < length l)%nat -> at_ (<[i := x]> l) i = x.
Proof. intros H. unfold at_. by rewrite list_lookup_insert_eq. Qed.

Lemma at_insert_ne (l : list Z) i j x : i <> j -> at_ (<[i := x]> l) j = at_ l j.
Proof. intros H. unfold at_. by rewrite list_lookup_insert_ne. Qed.

Definition sched_word (W : list Z) (t : nat) : Z :=
  rol (Z.lxor (Z.lxor (Z.lxor (at_ W (t - 3)) (at_ W (t - 8))) (at_ W (t - 14)))
         (at_ W (t - 16))) 1.

Lemma fips_iter n ws :
  (16 <= length ws)%nat ->
  let L := Nat.iter n fips_extend ws in
  length L = (length ws + n)%nat /\
  (forall t, (t < length ws)%nat -> at_ L t = at_ ws t) /\
  (forall t, (length ws <= t < length ws + n)%nat -> at_ L t = sched_word L t).
Proof.
  intros Hl. induction n as [|n IH]; intros L.
  - split_and!; [subst L; simpl; lia|done|lia].
  - destruct IH as (HL & Hlow & Hrec). set (L0 := Nat.iter n fips_extend ws) in *.
    assert (L = L0 ++ [sched_word L0 (length L0)]) as EL by done. clearbody L.
    assert (length L = S (length L0)) as HL' by (rewrite EL, length_app; simpl; lia).
    assert (forall t, (t < length L0)%nat -> at_ L t = at_ L0 t) as Hat
      by (intros t Ht; rewrite EL; by apply at_app_l).
    split_and!; [lia|intros t Ht; rewrite Hat by lia; auto|].
    intros t Ht. unfold sched_word. rewrite !(Hat (t - _)%nat) by lia.
    destruct (Nat.eq_dec t (length L0)) as [->|Hne].
    + unfold at_ at 1. by rewrite EL, lookup_app_r, Nat.sub_diag by lia.
    + rewrite Hat by lia. apply Hrec. lia.
Qed.

Lemma fips_schedule_low buffer t :
  (t < 16)%nat -> at_ (fips_schedule buffer) t = at_ (load_words true 16 buffer) t.
Proof.
  intros Ht. destruct (fips_iter 64 (load_words true 16 buffer)) as (_ & Hlow & _);
    [by rewrite load_words_length|]. apply Hlow. by rewrite load_words_length.
Qed.

Lemma fips_schedule_rec buffer t :
  (16 <= t < 80)%nat -> at_ (fips_schedule buffer) t = sched_word (fips_schedule buffer) t.
Proof.
  intros Ht. destruct (fips_iter 64 (load_words true 16 buffer)) as (_ & _ & Hrec);
    [by rewrite load_words_length|]. apply Hrec. by rewrite load_words_length.
Qed.

#[local] Opaque fips_schedule.

Lemma load_words_at big n mem i :
  (i < n)%nat -> at_ (load_words big n mem) i = load32 big (take 4 (drop (4 * i) mem)).
Proof.
  revert mem i. induction n as [|n IH]; intros mem i Hi; [lia|].
  destruct i as [|i]; [done|]. change (at_ (load_words big n (drop 4 mem)) i = load32 big
    (take 4 (drop (4 * S i) mem))). rewrite IH, drop_drop by lia.
  by replace (4 + 4 * i)%nat with (4 * S i)%nat by lia.
Qed.

(** [blk0] gives the words of the message in big endian order. *)
Lemma blk0_word big buffer i :
  Forall is_byte buffer -> length buffer = 64%nat -> (i < 16)%nat ->
  forall block, at_ block i = at_ (load_words big 16 buffer) i ->
  fst (blk0 big block i) = at_ (load_words true 16 buffer) i.
Proof.
  intros Hb Hl Hi block E. unfold blk0. cbv zeta. rewrite E, !load_words_at by done.
  destruct big; [done|]. cbn [fst].
  assert (length (take 4 (drop (4 * i) buffer)) = 4%nat) as H4
    by (rewrite length_take, length_drop; lia).
  assert (Forall is_byte (take 4 (drop (4 * i) buffer))) as Hb4
    by (by apply Forall_take, Forall_drop).
  destruct (take 4 (drop (4 * i) buffer)) as [|b0 [|b1 [|b2 [|b3 [|]]]]]; try done.
  by apply swap_word.
Qed.

(** The 16 words after [i] steps: the last 16 words of the schedule, or for the
    first steps the words still to be swapped. *)
Definition sched_inv (raw W : list Z) (i : nat) (block : list Z) : Prop :=
  length block = 16%nat /\
  (forall t, (t < i <= t + 16)%nat -> at_ block (t mod 16) = at_ W t) /\
  (forall t, (i <= t < 16)%nat -> at_ block t = at_ raw t).

Lemma sched_inv_insert raw W i block :
  sched_inv raw W i block -> sched_inv raw W (S i) (<[(i mod 16)%nat := at_ W i]> block).
Proof.
  intros (Hl & Hw & Hr). assert (i mod 16 < 16)%nat by (apply Nat.mod_upper_bound; lia).
  split_and!; [by rewrite length_insert|..].
  - intros t Ht. destruct (Nat.eq_dec t i) as [->|Hne]; [by rewrite at_insert_eq by lia|].
    rewrite at_insert_ne; [apply Hw; lia|]. intros E.
    pose proof (Nat.div_mod_eq i 16). pose proof (Nat.div_mod_eq t 16). lia.
  - intros t Ht. rewrite at_insert_ne by (rewrite Nat.mod_small by lia; lia). apply Hr. lia.
Qed.

(** Both macros deliver word [i] of the schedule and keep the block in step. *)
Lemma schedule_step big buffer i block :
  Forall is_byte buffer -> length buffer = 64%nat -> (i < 80)%nat ->
  let raw := load_words big 16 buffer in
  let W := fips_schedule buffer in
  sched_inv raw W i block ->
  (if (i <? 16)%nat then blk0 big block i else blk block i)
  = (at_ W i, <[(i mod 16)%nat := at_ W i]> block).
Proof.
  intros Hb Hl Hi raw W (Hbl & Hw & Hr).
  destruct (Nat.ltb_spec i 16) as [H16|H16].
  - assert (fst (blk0 big block i) = at_ W i) as E
      by (unfold W; rewrite fips_schedule_low by done; apply blk0_word; auto with lia).
    unfold blk0 in *. cbn [fst] in E. cbv zeta. rewrite E. by rewrite Nat.mod_small by done.
  - unfold blk. unfold W at 1 2. rewrite fips_schedule_rec by lia. unfold sched_word. fold W.
    assert (forall k, (0 < k <= 16)%nat -> at_ block ((i + (16 - k)) mod 16) = at_ W (i - k)) as Hk.
    { intros k Hk. rewrite <- (Hw (i - k)%nat) by lia. f_equal.
      replace (i + (16 - k))%nat with (i - k + 1 * 16)%nat by lia. by rewrite Nat.Div0.mod_add. }
    pose proof (Hk 3 ltac:(lia))%nat as H3. pose proof (Hk 8 ltac:(lia))%nat as H8.
    pose proof (Hk 14 ltac:(lia))%nat as H14. pose proof (Hk 16 ltac:(lia))%nat as H0.
    cbn [Nat.sub] in H3, H8, H14, H0. rewrite Nat.add_0_r in H0. by rewrite H3, H8, H14, H0.
Qed.

(** ** The compression function *)

Definition sha_macro_at (i : nat) : sha_macro :=
  if (i <? 16)%nat then S0
  else match (i / 20)%nat with 0%nat => S1 | 1%nat => S2 | 2%nat => S3 | _ => S4 end.

(** What line [i] of the unrolled code says. *)
Definition sha_line_at (i : nat) : sha_line :=
  match (i mod 5)%nat with
  | 0%nat => (sha_macro_at i, Xa, Xb, Xc, Xd, Xe, i)
  | 1%nat => (sha_macro_at i, Xe, Xa, Xb, Xc, Xd, i)
  | 2%nat => (sha_macro_at i, Xd, Xe, Xa, Xb, Xc, i)
  | 3%nat => (sha_macro_at i, Xc, Xd, Xe, Xa, Xb, i)
  | _ => (sha_macro_at i, Xb, Xc, Xd, Xe, Xa, i)
  end.

Lemma sha_lines_at : sha_lines = map sha_line_at (seq 0 80).
Proof. by_eval. Qed.

(** The variables in the order in which the loop of the standard sees them. *)
Definition sview (i : nat) (r : sregs) : sregs :=
  match (i mod 5)%nat, r with
  | 0%nat, _ => r
  | 1%nat, SRegs a b c d e => SRegs e a b c d
  | 2%nat, SRegs a b c d e => SRegs d e a b c
  | 3%nat, SRegs a b c d e => SRegs c d e a b
  | _, SRegs a b c d e => SRegs b c d e a
  end.

Lemma sha_macro_f i x y z : sha_f (sha_macro_at i) x y z = fips_f i x y z.
Proof.
  unfold sha_macro_at, fips_f. destruct (Nat.ltb_spec i 16).
  - rewrite Nat.div_small by lia. apply sha_f_Ch.
  - destruct (i / 20)%nat as [|[|[|]]];
      [apply sha_f_Ch|reflexivity|apply sha_f_Maj|reflexivity].
Qed.

Lemma sha_macro_k i : sha_k (sha_macro_at i) = fips_K i.
Proof.
  unfold sha_macro_at, fips_K. destruct (Nat.ltb_spec i 16).
  - by rewrite Nat.div_small by lia.
  - by destruct (i / 20)%nat as [|[|[|]]].
Qed.

Lemma sha_macro_blk {A} i (x y : A) :
  match sha_macro_at i with S0 => x | _ => y end = if (i <? 16)%nat then x else y.
Proof. unfold sha_macro_at. destruct (i <? 16)%nat; [done|]. destruct (i / 20)%nat as [|[|[|]]]; reflexivity. Qed.

Lemma succ_mod5 i :
  (S i mod 5 = match i mod 5 with 0 => 1 | 1 => 2 | 2 => 3 | 3 => 4 | _ => 0 end)%nat.
Proof.
  assert (i mod 5 < 5)%nat by (apply Nat.mod_upper_bound; lia).
  assert (S i mod 5 < 5)%nat by (apply Nat.mod_upper_bound; lia).
  pose proof (Nat.div_mod_eq i 5). pose proof (Nat.div_mod_eq (S i) 5).
  destruct (i mod 5)%nat as [|[|[|[|[|]]]]]; lia.
Qed.

Lemma sview_step big buffer i r block :
  Forall is_byte buffer -> length buffer = 64%nat -> (i < 80)%nat ->
  let raw := load_words big 16 buffer in
  let W := fips_schedule buffer in
  sched_inv raw W i block ->
  exists r' block', sha_step big (r, block) (sha_line_at i) = (r', block') /\
    sview (S i) r' = fips_step W (sview i r) i /\ sched_inv raw W (S i) block'.
Proof.
  intros Hb Hl Hi raw W Hinv. pose proof (schedule_step big buffer i block Hb Hl Hi Hinv) as Hs.
  pose proof (sched_inv_insert _ _ _ _ Hinv) as Hinv'.
  fold W in Hs. assert (forall a b c e f, wrap32 (e + (f + a + b + c))
    = wrap32 (c + f + e + b + a)) as Hsum by (intros; f_equal; lia).
  unfold sha_line_at, sview, fips_step. rewrite succ_mod5. destruct r as [a b c d e].
  destruct (i mod 5)%nat as [|[|[|[|]]]]; cbn [sha_step]; rewrite sha_macro_blk, Hs;
    cbn [sget sset xa xb xc xd xe]; rewrite sha_macro_f, sha_macro_k;
    (eexists _, _; split; [reflexivity|]; split; [|exact Hinv']); by rewrite Hsum.
Qed.

Lemma sview_fold big buffer n i r block :
  Forall is_byte buffer -> length buffer = 64%nat -> (i + n <= 80)%nat ->
  let raw := load_words big 16 buffer in
  let W := fips_schedule buffer in
  sched_inv raw W i block ->
  sview (i + n) (fst (fold_left (sha_step big) (map sha_line_at (seq i n)) (r, block)))
  = fold_left (fips_step W) (seq i n) (sview i r).
Proof.
  intros Hb Hl. revert i r block. induction n as [|n IH]; intros i r block Hn raw W Hinv;
    subst raw W; cbn [seq map fold_left].
  - by rewrite Nat.add_0_r.
  - destruct (sview_step big buffer i r block) as (r' & block' & -> & <- & Hinv'); [done..|lia|done|].
    rewrite <- IH with (block := block') by (done || lia). f_equal. lia.
Qed.

Lemma sview_0 r : sview 0 r = r.
Proof. done. Qed.
Lemma sview_80 r : sview (0 + 80) r = r.
Proof. done. Qed.

Lemma SHA1Transform_fips big state buffer :
  Forall is_byte buffer -> length buffer = 64%nat ->
  SHA1Transform big state buffer = fips_block state buffer.
Proof.
  intros Hb Hl. unfold SHA1Transform, fips_block. rewrite sha_lines_at.
  set (st := SRegs _ _ _ _ _).
  pose proof (sview_fold big buffer 80 0 st (load_words big 16 buffer) Hb Hl (le_n _)) as H.
  rewrite sview_80, sview_0 in H. rewrite <- H.
  - by destruct (fold_left _ _ _) as [r block].
  - split_and!; [apply load_words_length|lia|done].
Qed.

#[local] Opaque SHA1Transform fips_block.

(** ** Hashing in pieces *)

Lemma sha_blocks_spec n big state data i :
  Forall is_byte data -> Z.of_nat (length data) < 2 ^ 32 - 64 ->
  (i <= length data)%nat -> (length data - i < 64 * S n)%nat ->
  exists i', sha_blocks n big state data (Z.of_nat i)
    = (absorb fips_block state (drop i data), Z.of_nat i') /\
    drop i' data = leftover (drop i data).
Proof.
  intros Hd Hlen. revert state i. induction n as [|n IH]; intros state i Hi Hn;
    cbn [sha_blocks]; [|rewrite wrap32_small by lia;
      destruct (Z.ltb_spec (Z.of_nat i + 63) (Z.of_nat (length data)))].
  1, 3: exists i; rewrite absorb_small, leftover_small by (rewrite length_drop; lia); done.
  rewrite Nat2Z.id, wrap32_small by lia.
  replace (Z.of_nat i + 64) with (Z.of_nat (i + 64)) by lia.
  assert (length (take 64 (drop i data)) = 64%nat) as H64
    by (rewrite length_take, length_drop; lia).
  assert (drop i data = take 64 (drop i data) ++ drop (i + 64) data) as Ed
    by (rewrite <- drop_drop, take_drop; done).
  destruct (IH (SHA1Transform big state (take 64 (drop i data))) (i + 64)%nat) as (i' & -> & Ei);
    [lia..|]. exists i'. rewrite Ei.
  set (rest := drop (i + 64) data) in *. set (blk64 := take 64 (drop i data)) in *.
  rewrite Ed. rewrite (absorb_app _ _ _ _ 1), (leftover_app _ _ 1) by done.
  by rewrite (absorb_block _ _ blk64), SHA1Transform_fips
    by (done || by apply Forall_take, Forall_drop).
Qed.

(** The context after hashing [m]. *)
Definition sha_rep (ctx : SHA1_CTX) (m : bytes) : Prop :=
  sha_state ctx = absorb fips_block sha_init_state m /\
  counts (sha_count0 ctx) (sha_count1 ctx) (length m) /\ buffered (sha_buffer ctx) m.

Lemma SHA1Init_rep buffer :
  length buffer = 64%nat -> Forall is_byte buffer -> sha_rep (SHA1Init buffer) [].
Proof. intros Hl Hb. split; [done|]. split; [|by apply buffered_nil]. by_eval. Qed.

Lemma SHA1Update_rep big ctx m d :
  sha_rep ctx m -> Forall is_byte d -> Z.of_nat (length d) < 2 ^ 32 - 64 ->
  sha_rep (SHA1Update big ctx d) (m ++ d).
Proof.
  intros (Hst & Hc & Hin) Hd Hlen. pose proof (mod64_lt (length m)).
  pose proof (counts_add _ _ _ (length d) Hc ltac:(lia)) as Hc'. cbv zeta in Hc'.
  rewrite <- length_app in Hc'. pose proof (counts_index _ _ _ Hc) as Hj.
  unfold SHA1Update. set (j := Z.land (Z.shiftr (sha_count0 ctx) 3) 63) in *.
  assert (0 <= j) by (unfold j; rewrite Z.land_nonneg; lia).
  rewrite Hj, wrap32_small by lia.
  destruct (Z.ltb_spec 63 (j + Z.of_nat (length d))) as [Hs|Hs].
  - destruct (buffered_full (sha_buffer ctx) m d) as (Hlb & Hlo & Ha); [done|lia|].
    replace (Z.to_nat (64 - j)) with (64 - length m mod 64)%nat by lia.
    set (block := splice _ _ _) in *.
    assert (Forall is_byte block) as Hbb
      by (apply splice_bytes; [apply Hin|by apply Forall_take]).
    replace (64 - j) with (Z.of_nat (64 - length m mod 64)) by lia.
    destruct (sha_blocks_spec (length d) big (SHA1Transform big (sha_state ctx) block) d
      (64 - length m mod 64)) as (i' & -> & Ei); [done|done|lia|lia|].
    rewrite Nat2Z.id, Ei, <- Hlo. split; [|split; [exact Hc'|]].
    + cbn [sha_state]. by rewrite SHA1Transform_fips, Hst, Ha by done.
    + pose proof (leftover_length (m ++ d)) as Hll. pose proof (mod64_lt (length (m ++ d))).
      cbn [sha_buffer]. split_and!.
      * rewrite splice_length; lia.
      * apply splice_bytes; [done|]. rewrite Hlo. by apply Forall_drop, Forall_drop.
      * by rewrite splice_take_eq by lia.
  - destruct (buffered_small (sha_buffer ctx) m d) as [Hin' Ha]; [done..|lia|].
    split; [|split; [exact Hc'|exact Hin']]. cbn [sha_state]. by rewrite Ha.
Qed.

Lemma word_bytes_be w : sha_word_bytes w = store32 true w.
Proof.
  assert (forall k, 0 <= k -> Z.land (Z.shiftr w (k * 8)) 255 = w / 2 ^ (k * 8) mod 256) as H.
  { intros k Hk. rewrite Z.shiftr_div_pow2 by lia. apply (Z.land_ones _ 8). lia. }
  unfold sha_word_bytes, store32. cbn [map store_le rev app].
  rewrite !H by lia. rewrite !Z.div_div by lia. by rewrite Z.div_1_r.
Qed.

(** [(count[0] & 504) != 448]: the message has 56 bytes in its last block. *)
Lemma counts_504 lo hi len :
  counts lo hi len -> Z.land lo 504 = 448 <-> (len mod 64 = 56)%nat.
Proof.
  intros Hc. pose proof (counts_index _ _ _ Hc) as Hi.
  assert (Z.land lo 504 = 8 * Z.land (Z.shiftr lo 3) 63) as ->; [|
    assert (0 <= Z.land (Z.shiftr lo 3) 63) by (rewrite Z.land_nonneg; lia); lia].
  rewrite (Z.mul_comm 8). change 8 with (2 ^ 3). rewrite <- Z.shiftl_mul_pow2 by lia.
  rewrite Z.shiftl_land, <- Z.ldiff_ones_r by lia. change (Z.shiftl 63 3) with 504.
  apply Z.bits_inj'. intros n Hn. rewrite !Z.land_spec, Z.ldiff_spec.
  destruct (Z.lt_ge_cases n 3) as [H3|H3].
  - assert (n = 0 \/ n = 1 \/ n = 2) as [->|[->| ->]] by lia; cbn; by rewrite !andb_false_r.
  - rewrite Z.ones_spec_high by lia. by rewrite andb_true_r.
Qed.

Lemma sha_pad_spec fuel big ctx m z :
  sha_rep ctx m -> ((length m + z) mod 64 = 56)%nat -> (z < 64)%nat -> (z < fuel)%nat ->
  exists ctx', sha_pad_loop fuel big ctx = Some ctx' /\ sha_rep ctx' (m ++ replicate z 0).
Proof.
  revert ctx m z. induction fuel as [|fuel IH]; intros ctx m z Hrep Hz Hz' Hf; [lia|].
  cbn [sha_pad_loop]. destruct Hrep as (Hst & Hc & Hin).
  destruct (Z.eqb_spec (Z.land (sha_count0 ctx) 504) 448) as [E|E];
    rewrite (counts_504 _ _ _ Hc) in E.
  - exists ctx. assert (z = 0)%nat as ->; [|by rewrite app_nil_r].
    pose proof (Nat.div_mod_eq (length m) 64). pose proof (Nat.div_mod_eq (length m + z) 64). lia.
  - destruct z as [|z]; [by rewrite Nat.add_0_r in Hz|].
    destruct (IH (SHA1Update big ctx [0]) (m ++ [0]) z) as (ctx' & -> & Hrep').
    + apply SHA1Update_rep; [done|by repeat constructor|done].
    + rewrite length_app. simpl. by replace (length m + 1 + z)%nat with (length m + S z)%nat by lia.
    + lia.
    + lia.
    + exists ctx'. split; [done|]. by rewrite <- app_assoc in Hrep'.
Qed.

Lemma SHA1Final_rep big ctx m : sha_rep ctx m -> SHA1Final big ctx = Some (fips_sha1 m).
Proof.
  intros Hrep. pose proof (mod64_lt (length m)). pose proof Hrep as (_ & Hc & _).
  unfold SHA1Final, fips_sha1, fips_pad.
  set (z := ((119 - length m mod 64) mod 64)%nat).
  assert (Hz : (z < 64)%nat) by apply mod64_lt.
  assert (Hmod : ((length (m ++ [128%Z]) + z) mod 64 = 56)%nat).
  { rewrite length_app. unfold z. simpl length.
    pose proof (Nat.div_mod_eq (length m) 64). pose proof (Nat.div_mod_eq (119 - length m mod 64) 64).
    symmetry. apply Nat.mod_unique with ((length m / 64) + 1 - (119 - length m mod 64) / 64)%nat; [lia|].
    assert ((119 - length m mod 64) / 64 < 2)%nat by (apply Nat.Div0.div_lt_upper_bound; lia). lia. }
  destruct (sha_pad_spec 64 big (SHA1Update big ctx [128]) (m ++ [128]) z)
    as (ctx' & -> & Hrep'); [apply SHA1Update_rep; [done|apply Forall_singleton; by_eval|done]|done..|].
  rewrite !word_bytes_be. unfold store32. rewrite <- rev_app_distr, (counts_store _ _ _ Hc).
  set (tail := rev _).
  destruct (SHA1Update_rep big ctx' _ tail Hrep') as (-> & _ & _).
  { apply Forall_rev, store_le_bytes. }
  { unfold tail. by rewrite length_rev, store_le_length. }
  unfold store_words. rewrite (flat_map_ext _ _ word_bytes_be). by rewrite <- !app_assoc.
Qed.

Lemma sha1_digest_fips big buffer args :
  length buffer = 64%nat -> Forall is_byte buffer ->
  Forall (fun d => Forall is_byte d /\ Z.of_nat (length d) < 2 ^ 32 - 64) args ->
  sha1_digest big buffer args = Some (fips_sha1 (concat args)).
Proof.
  intros Hl Hb Hargs. apply SHA1Final_rep. change (concat args) with ([] ++ concat args).
  pose proof (SHA1Init_rep buffer Hl Hb) as Hrep. revert Hrep.
  generalize (@nil Z) as m, (SHA1Init buffer) as ctx.
  induction Hargs as [|d args [Hd Hn] _ IH]; intros m ctx Hrep; simpl.
  - by rewrite app_nil_r.
  - rewrite app_assoc. by apply IH, SHA1Update_rep.
Qed.

(** SHA-1 of a message in pieces, each shorter than 2^32 - 64 bytes, on a machine
    of either byte order and whatever the uninitialised buffer holds, terminates
    (the padding loop needs at most 64 rounds) with the digest of FIPS 180: the
    80-word schedule is what the 16-word circular buffer delivers. *)
Theorem sha1_streaming big buffer args :
  length buffer = 64%nat -> Forall is_byte buffer ->
  Forall (fun d => Forall is_byte d /\ Z.of_nat (length d) < 2 ^ 32 - 64) args ->
  sha1_digest big buffer args = Some (fips_sha1 (concat args)).
Proof. apply sha1_digest_fips. Qed.

Lemma sha1_streaming_witness :
  sha1_digest false (replicate 64 0xcc) [B "abc"; replicate 70 65]
  = Some (fips_sha1 (concat [B "abc"; replicate 70 65])).
Proof.
  apply sha1_streaming.
  - reflexivity.
  - apply Forall_replicate. by_eval.
  - repeat (apply Forall_cons; split); [..|constructor]; split;
      first [by apply Forall_replicate | by_eval | apply (bool_decide_unpack _); by_eval].
Defined.

Lemma absorb_n_words n st m :
  length st = 5%nat -> length (absorb_n fips_block n st m) = 5%nat.
Proof. revert st m. induction n as [|n IH]; intros st m H; [done|]. by apply IH. Qed.

Lemma fips_sha1_length m : length (fips_sha1 m) = 20%nat.
Proof.
  unfold fips_sha1, absorb. set (st := absorb_n _ _ _ _).
  assert (length st = 5%nat) as H by (by apply absorb_n_words).
  destruct st as [|a [|b [|c [|d [|e [|]]]]]]; done.
Qed.
