(* ===== verification/Base64.v ===== *)
(** * Base64

    [base64_encode] of src/mongoose.c (lines 3811-3834), used by the WebSocket
    handshake, with a decoder that it is proved to invert. *)

From S2P Require Import Prelude.

Definition b64 : bytes :=
  B "ABCDEFGHIJKLMNOPQRSTUVWXYZabcdefghijklmnopqrstuvwxyz0123456789+/".

(** The loop, three source bytes a round, at most [n] rounds. *)
Fixpoint base64_loop (n : nat) (src : bytes) : bytes :=
  match n, src with
  | S n', a :: _ =>
      let src_len := length src in
      let b := if (src_len <=? 1)%nat then 0 else at_ src 1 in
      let c := if (src_len <=? 2)%nat then 0 else at_ src 2 in
      [at_ b64 (Z.to_nat (Z.shiftr a 2));
       at_ b64 (Z.to_nat (Z.lor (Z.shiftl (Z.land a 3) 4) (Z.shiftr b 4)))]
      ++ (if (1 <? src_len)%nat
          then [at_ b64 (Z.to_nat (Z.lor (Z.shiftl (Z.land b 15) 2) (Z.shiftr c 6)))] else [])
      ++ (if (2 <? src_len)%nat then [at_ b64 (Z.to_nat (Z.land c 63))] else [])
      ++ base64_loop n' (drop 3 src)
  | _, _ => []
  end.

(** [while (j % 4 != 0) dst[j++] = '=']: how many are added at [j]. *)
Definition base64_padding (j : nat) : nat := ((4 - j mod 4) mod 4)%nat.

(** The string written to [dst], without its NUL. *)
Definition base64_encode (src : bytes) : bytes :=
  let dst := base64_loop (length src) src in
  dst ++ replicate (base64_padding (length dst)) c_eq.

(** ** A decoder *)

Definition b64_index (c : Z) : option Z := Z.of_nat <$> find_byte c b64.

(** One group of four characters. *)
Definition b64_group (w x y z : Z) : option bytes :=
  i ← b64_index w; j ← b64_index x;
  if y =? c_eq then if z =? c_eq then Some [i * 4 + j / 16] else None
  else
    k ← b64_index y;
    if z =? c_eq then Some [i * 4 + j / 16; (j mod 16) * 16 + k / 4]
    else l ← b64_index z; Some [i * 4 + j / 16; (j mod 16) * 16 + k / 4; (k mod 4) * 64 + l].

Fixpoint base64_decode (s : bytes) : option bytes :=
  match s with
  | [] => Some []
  | w :: x :: y :: z :: s' => g ← b64_group w x y z; r ← base64_decode s'; Some (g ++ r)
  | _ => None
  end.

Example b64_1 : base64_encode (B "a") = B "YQ==".
Proof. by_eval. Qed.
Example b64_5 : base64_encode (B "hello") = B "aGVsbG8=".
Proof. by_eval. Qed.

(** ** The round trip *)

Lemma b64_index_at i : 0 <= i < 64 -> b64_index (at_ b64 (Z.to_nat i)) = Some i.
Proof.
  intros Hi. assert (forallb (fun k => bool_decide (b64_index (at_ b64 k) = Some (Z.of_nat k)))
    (seq 0 64) = true) as H by by_eval.
  rewrite forallb_forall in H. specialize (H (Z.to_nat i)). rewrite bool_decide_eq_true in H.
  rewrite Z2Nat.id in H by lia. apply H. apply in_seq. lia.
Qed.

Lemma b64_not_eq i : 0 <= i < 64 -> (at_ b64 (Z.to_nat i) =? c_eq) = false.
Proof.
  intros Hi. apply Z.eqb_neq. intros E. pose proof (b64_index_at i Hi) as H. by rewrite E in H.
Qed.

(** The four sextets of three bytes. *)
Lemma sextets a b c :
  is_byte a -> is_byte b -> is_byte c ->
  Z.shiftr a 2 = a / 4 /\
  Z.lor (Z.shiftl (Z.land a 3) 4) (Z.shiftr b 4) = a mod 4 * 16 + b / 16 /\
  Z.lor (Z.shiftl (Z.land b 15) 2) (Z.shiftr c 6) = b mod 16 * 4 + c / 64 /\
  Z.land c 63 = c mod 64.
Proof.
  unfold is_byte. intros Ha Hb Hc.
  change 3 with (Z.ones 2). change 15 with (Z.ones 4). change 63 with (Z.ones 6).
  rewrite !Z.land_ones by lia.
  rewrite !Z.shiftr_div_pow2 by lia.
  rewrite !lor_shiftl by (lia || (split; [apply Z.div_pos; lia|apply Z.div_lt_upper_bound; lia])).
  done.
Qed.

Lemma sextet_ranges a b c :
  is_byte a -> is_byte b -> is_byte c ->
  0 <= a / 4 < 64 /\ 0 <= a mod 4 * 16 + b / 16 < 64 /\ 0 <= b mod 16 * 4 + c / 64 < 64 /\
  0 <= c mod 64 < 64.
Proof. unfold is_byte. intros. Z.div_mod_to_equations. lia. Qed.

(** What the bytes of a group are put together to again. *)
Lemma sextet_bytes a b c :
  is_byte a -> is_byte b -> is_byte c ->
  a / 4 * 4 + (a mod 4 * 16 + b / 16) / 16 = a /\
  (a mod 4 * 16 + b / 16) mod 16 * 16 + (b mod 16 * 4 + c / 64) / 4 = b /\
  (b mod 16 * 4 + c / 64) mod 4 * 64 + c mod 64 = c.
Proof. unfold is_byte. intros. Z.div_mod_to_equations. lia. Qed.

Lemma group3 a b c :
  is_byte a -> is_byte b -> is_byte c ->
  b64_group (at_ b64 (Z.to_nat (a / 4))) (at_ b64 (Z.to_nat (a mod 4 * 16 + b / 16)))
    (at_ b64 (Z.to_nat (b mod 16 * 4 + c / 64))) (at_ b64 (Z.to_nat (c mod 64)))
  = Some [a; b; c].
Proof.
  intros Ha Hb Hc. destruct (sextet_ranges a b c) as (? & ? & ? & ?); [done..|].
  destruct (sextet_bytes a b c) as (E1 & E2 & E3); [done..|].
  unfold b64_group. rewrite !b64_not_eq, !b64_index_at by done. simpl. by rewrite E1, E2, E3.
Qed.

Lemma group2 a b :
  is_byte a -> is_byte b ->
  b64_group (at_ b64 (Z.to_nat (a / 4))) (at_ b64 (Z.to_nat (a mod 4 * 16 + b / 16)))
    (at_ b64 (Z.to_nat (b mod 16 * 4 + 0 / 64))) c_eq = Some [a; b].
Proof.
  intros Ha Hb. destruct (sextet_ranges a b 0) as (? & ? & ? & ?); [done..|].
  destruct (sextet_bytes a b 0) as (E1 & E2 & _); [done..|].
  unfold b64_group. rewrite !b64_not_eq, !b64_index_at by done. simpl. by rewrite E1, E2.
Qed.

Lemma group1 a :
  is_byte a ->
  b64_group (at_ b64 (Z.to_nat (a / 4))) (at_ b64 (Z.to_nat (a mod 4 * 16 + 0 / 16)))
    c_eq c_eq = Some [a].
Proof.
  intros Ha. destruct (sextet_ranges a 0 0) as (? & ? & ? & ?); [done..|].
  destruct (sextet_bytes a 0 0) as (E1 & _ & _); [done..|].
  unfold b64_group. rewrite !b64_index_at by done. simpl. by rewrite E1.
Qed.

Lemma base64_padding_4 k : base64_padding (S (S (S (S k)))) = base64_padding k.
Proof.
  unfold base64_padding. replace (S (S (S (S k)))) with (k + 1 * 4)%nat by lia.
  by rewrite Nat.Div0.mod_add.
Qed.

(** The loop body on a full group. *)
Lemma base64_loop_3 n a b c src :
  is_byte a -> is_byte b -> is_byte c ->
  base64_loop (S n) (a :: b :: c :: src)
  = at_ b64 (Z.to_nat (a / 4)) :: at_ b64 (Z.to_nat (a mod 4 * 16 + b / 16))
    :: at_ b64 (Z.to_nat (b mod 16 * 4 + c / 64)) :: at_ b64 (Z.to_nat (c mod 64))
    :: base64_loop n src.
Proof.
  intros Ha Hb Hc. destruct (sextets a b c) as (<- & <- & <- & <-); [done..|]. reflexivity.
Qed.

Lemma base64_loop_decode n src :
  Forall is_byte src -> (length src <= n)%nat ->
  let dst := base64_loop n src in
  base64_decode (dst ++ replicate (base64_padding (length dst)) c_eq) = Some src.
Proof.
  revert src. induction n as [|n IH]; intros src Hs Hn dst; subst dst.
  - by destruct src; [|simpl in Hn; lia].
  - destruct src as [|a [|b [|c src]]].
    + done.
    + apply Forall_cons in Hs as [Ha _]. destruct (sextets a 0 0) as (E1 & E2 & _); [done..|].
      assert (base64_loop (S n) [a] = [at_ b64 (Z.to_nat (a / 4));
        at_ b64 (Z.to_nat (a mod 4 * 16 + 0 / 16))]) as ->
        by (rewrite <- E1, <- E2; destruct n; reflexivity).
      cbn [length app base64_padding base64_decode replicate Nat.modulo].
      cbn -[b64 b64_group Z.div Z.modulo]. by rewrite group1.
    + apply Forall_cons in Hs as [Ha Hs]. apply Forall_cons in Hs as [Hb _].
      destruct (sextets a b 0) as (E1 & E2 & E3 & _); [done..|].
      assert (base64_loop (S n) [a; b] = [at_ b64 (Z.to_nat (a / 4));
        at_ b64 (Z.to_nat (a mod 4 * 16 + b / 16));
        at_ b64 (Z.to_nat (b mod 16 * 4 + 0 / 64))]) as ->
        by (rewrite <- E1, <- E2, <- E3; destruct n; reflexivity).
      cbn -[b64 b64_group Z.div Z.modulo]. by rewrite group2.
    + repeat match goal with H : Forall _ (_ :: _) |- _ => apply Forall_cons in H as [? H] end.
      rewrite base64_loop_3 by done. simpl in Hn.
      cbn [length]. rewrite base64_padding_4. cbn [app base64_decode]. rewrite group3 by done.
      simpl. rewrite IH by (done || lia). done.
Qed.

(** [base64_encode] is injective on byte strings: a decoder gets the source
    back, whatever its length modulo three. *)
Theorem base64_roundtrip src :
  Forall is_byte src -> base64_decode (base64_encode src) = Some src.
Proof. intros Hs. by apply base64_loop_decode. Qed.

Lemma base64_roundtrip_witness : base64_decode (base64_encode [0; 255; 128; 7]) = Some [0; 255; 128; 7].
Proof. apply base64_roundtrip. apply (bool_decide_unpack _). by_eval. Defined.

(** The length of the text, without the NUL. *)
Lemma base64_length src : length (base64_encode src) = (4 * ((length src + 2) / 3))%nat.
Proof.
  unfold base64_encode. rewrite length_app, length_replicate.
  assert (forall n src, (length src <= n)%nat ->
    let d := length (base64_loop n src) in
    (d + base64_padding d = 4 * ((length src + 2) / 3))%nat) as H; [|by apply H].
  clear src. induction n as [|n IH]; intros src Hn; [by destruct src; [|simpl in Hn; lia]|].
  destruct src as [|a [|b [|c src]]]; [done|by destruct n..|].
  cbv zeta. replace (length (base64_loop (S n) (a :: b :: c :: src)))
    with (S (S (S (S (length (base64_loop n src)))))) by reflexivity.
  rewrite base64_padding_4. simpl in Hn. specialize (IH src). cbv zeta in IH. cbn [length].
  replace (S (S (S (length src))) + 2)%nat with (length src + 2 + 1 * 3)%nat by lia.
  rewrite Nat.div_add by lia. lia.
Qed.
