(* ===== verification/SocketQueue.v ===== *)
(** * The queue of accepted sockets

    [produce_socket], [consume_socket] (src/mongoose.c, lines 4836-4936) and the
    way the master and the worker threads use them (lines 4865-4915, 4980-5047,
    5073-5078).  The ring buffer is related to a bounded first-in first-out list.
    The threads are a step relation with the mutex and the three condition
    variables spelled out: no accepted socket is lost, duplicated or reordered and
    no wake-up is lost while the server runs, and a shutdown can deadlock because
    the flag is set and the broadcast made without the mutex. *)

From S2P Require Import Prelude.

(** ** The ring *)

Record socket := Socket {
  sock : Z;                 (* SOCKET *)
  lsa : Z * Z;              (* local address: IPv4 address and port *)
  rsa : Z * Z;              (* remote address *)
  is_ssl : bool;
  ssl_redir : bool
}.

#[export] Instance socket_eq_dec : EqDecision socket.
Proof. solve_decision. Defined.
#[export] Instance socket_inhabited : Inhabited socket :=
  populate (Socket 0 (0, 0) (0, 0) false false).

(** [ARRAY_SIZE(ctx->queue)] *)
Definition queue_size : Z := 20.

(** The fields of [struct mg_context] that the queue uses. *)
Record sq := SQ {
  queue : list socket;      (* struct socket queue[20] *)
  sq_head : Z;              (* int *)
  sq_tail : Z               (* int *)
}.

Definition slot (i : Z) : nat := Z.to_nat (i mod queue_size).

(** [produce_socket] waits on [sq_empty] while this holds ([stop_flag] is 0). *)
Definition sq_is_full (q : sq) : bool := queue_size <=? sq_head q - sq_tail q.

(** The rest of [produce_socket]: false when the socket is not put in the queue. *)
Definition sq_put (q : sq) (sp : socket) : bool * sq :=
  if sq_head q - sq_tail q <? queue_size
  then (true, SQ (<[slot (sq_head q) := sp]> (queue q)) (sq_head q + 1) (sq_tail q))
  else (false, q).

(** [consume_socket] waits on [sq_full] while this holds ([stop_flag] is 0). *)
Definition sq_is_empty (q : sq) : bool := sq_head q =? sq_tail q.

(** [while (sq_tail > 20) { sq_tail -= 20; sq_head -= 20; }] *)
Fixpoint sq_wrap (fuel : nat) (head tail : Z) : Z * Z :=
  match fuel with
  | O => (head, tail)
  | S fuel' =>
      if queue_size <? tail then sq_wrap fuel' (head - queue_size) (tail - queue_size)
      else (head, tail)
  end.

(** The rest of [consume_socket]: the socket copied to [*sp], if any.  The tail is
    reduced by at least one a round, so that the tail bounds the rounds. *)
Definition sq_get (q : sq) : option socket * sq :=
  if sq_tail q <? sq_head q then
    let sp := queue q !!! slot (sq_tail q) in
    let '(head, tail) := sq_wrap (Z.to_nat (sq_tail q + 1)) (sq_head q) (sq_tail q + 1) in
    (Some sp, SQ (queue q) head tail)
  else (None, q).

(** The context is zeroed by [calloc]. *)
Definition sq_init : sq := SQ (replicate 20 inhabitant) 0 0.

(** ** The list it stands for *)

Definition contents (q : sq) : list socket :=
  map (fun k => queue q !!! slot (sq_tail q + Z.of_nat k))
    (seq 0 (Z.to_nat (sq_head q - sq_tail q))).

Definition sq_wf (q : sq) : Prop :=
  length (queue q) = 20%nat /\ 0 <= sq_tail q <= 20 /\ 0 <= sq_head q - sq_tail q <= 20.

Lemma sq_init_wf : sq_wf sq_init.
Proof. unfold sq_wf. simpl. lia. Qed.

Lemma contents_length q : sq_wf q -> Z.of_nat (length (contents q)) = sq_head q - sq_tail q.
Proof. intros (_ & _ & H). unfold contents. rewrite length_map, length_seq. lia. Qed.

Lemma slot_lt i : (slot i < 20)%nat.
Proof. unfold slot, queue_size. pose proof (Z.mod_pos_bound i 20). lia. Qed.

Lemma slot_inj i j : slot i = slot j -> - 20 < i - j < 20 -> i = j.
Proof.
  unfold slot, queue_size. intros E H. pose proof (Z.mod_pos_bound i 20).
  pose proof (Z.mod_pos_bound j 20). pose proof (Z.div_mod i 20). pose proof (Z.div_mod j 20). lia.
Qed.

Lemma slot_period i : slot (i + 20) = slot i.
Proof. unfold slot, queue_size. by rewrite <- (Z.mul_1_l 20), Z.mod_add by lia. Qed.

(** The tests of the wait loops, on the list. *)
Lemma sq_is_full_spec q : sq_wf q -> sq_is_full q = bool_decide (length (contents q) = 20%nat).
Proof.
  intros Hq. pose proof (contents_length q Hq). destruct Hq as (_ & _ & Hd).
  unfold sq_is_full, queue_size. case_bool_decide; lia.
Qed.

Lemma sq_is_empty_spec q : sq_wf q -> sq_is_empty q = bool_decide (contents q = []).
Proof.
  intros Hq. pose proof (contents_length q Hq). destruct Hq as (_ & _ & Hd).
  unfold sq_is_empty. rewrite (bool_decide_ext _ (length (contents q) = 0%nat))
    by (rewrite length_zero_iff_nil; done). case_bool_decide; lia.
Qed.

(** Putting a socket in appends it, or fails when there are twenty. *)
Lemma sq_put_spec q sp :
  sq_wf q ->
  let '(ok, q') := sq_put q sp in
  sq_wf q' /\ ok = bool_decide (length (contents q) < 20)%nat /\
  contents q' = if ok then contents q ++ [sp] else contents q.
Proof.
  intros Hq. pose proof (contents_length q Hq) as Hl. destruct Hq as (Hn & Ht & Hd).
  unfold sq_put, queue_size. destruct (Z.ltb_spec (sq_head q - sq_tail q) 20) as [H|H].
  - split_and!.
    + unfold sq_wf. simpl. rewrite length_insert. lia.
    + symmetry. apply bool_decide_eq_true. lia.
    + unfold contents. cbn [queue sq_head sq_tail].
      replace (Z.to_nat (sq_head q + 1 - sq_tail q))
        with (Z.to_nat (sq_head q - sq_tail q) + 1)%nat by lia.
      rewrite seq_app, map_app. cbn [seq map Nat.add]. f_equal.
      * apply map_ext_in. intros k Hk. apply in_seq in Hk.
        rewrite list_lookup_total_insert_ne; [done|].
        intros E. apply slot_inj in E; lia.
      * replace (sq_tail q + Z.of_nat (Z.to_nat (sq_head q - sq_tail q))) with (sq_head q) by lia.
        rewrite list_lookup_total_insert_eq; [done|]. rewrite Hn. apply slot_lt.
  - split_and!; [done| |done]. symmetry. apply bool_decide_eq_false. lia.
Qed.

Lemma sq_wrap_spec q :
  sq_wf q -> sq_tail q < sq_head q ->
  let '(head, tail) := sq_wrap (Z.to_nat (sq_tail q + 1)) (sq_head q) (sq_tail q + 1) in
  (head, tail) = (sq_head q, sq_tail q + 1) /\ sq_tail q < 20 \/
  (head, tail) = (sq_head q - 20, 1) /\ sq_tail q = 20.
Proof.
  intros (Hn & Ht & Hd) Hlt. destruct (Z.eq_dec (sq_tail q) 20) as [E|E].
  - rewrite E. by right.
  - replace (Z.to_nat (sq_tail q + 1)) with (S (Z.to_nat (sq_tail q))) by lia.
    cbn [sq_wrap]. unfold queue_size. destruct (Z.ltb_spec 20 (sq_tail q + 1)); [lia|].
    left. split; [done|lia].
Qed.

(** Taking a socket out removes the oldest, or fails when there is none. *)
Lemma sq_get_spec q :
  sq_wf q ->
  let '(sp, q') := sq_get q in
  sq_wf q' /\
  match contents q with
  | [] => sp = None /\ q' = q
  | s :: rest => sp = Some s /\ contents q' = rest
  end.
Proof.
  intros Hq. pose proof (contents_length q Hq) as Hl. pose proof (sq_wrap_spec q Hq) as Hw.
  destruct Hq as (Hn & Ht & Hd). unfold sq_get.
  destruct (Z.ltb_spec (sq_tail q) (sq_head q)) as [H|H].
  - specialize (Hw H). destruct (sq_wrap _ _ _) as [head tail].
    assert (head - tail = sq_head q - sq_tail q - 1 /\ 0 <= tail <= 20 /\
            forall k, slot (tail + k) = slot (sq_tail q + 1 + k)) as (Hht & Hta & Hslot).
    { destruct Hw as [([= -> ->] & ?)|([= -> ->] & E)]; (split_and!; [lia..|]); [done|].
      intros k. rewrite E, <- slot_period. f_equal. lia. }
    split; [unfold sq_wf; simpl; lia|].
    unfold contents at 1. replace (Z.to_nat (sq_head q - sq_tail q))
      with (S (Z.to_nat (head - tail))) by lia.
    cbn [seq map]. rewrite Z.add_0_r. split; [done|].
    unfold contents. cbn [queue sq_head sq_tail]. rewrite <- seq_shift, map_map.
    apply map_ext. intros k. rewrite Hslot. do 2 f_equal. lia.
  - split; [by unfold sq_wf|]. destruct (contents q); [done|]. simpl in Hl. lia.
Qed.

(** ** The threads *)

(** Where a worker thread is. *)
Inductive wpc :=
  | WIdle                            (* about to lock the mutex in consume_socket *)
  | WTest                            (* holds the mutex, at the test of the wait loop *)
  | WBlock                           (* the test held: about to wait, holds the mutex *)
  | WWaiting                         (* in pthread_cond_wait(&sq_full) *)
  | WWoken                           (* signalled, about to take the mutex again *)
  | WRet (client : option socket)    (* unlocked, about to read stop_flag *)
  | WBusy (client : option socket)   (* process_new_connection, close_connection *)
  | WExit                            (* left the loop *)
  | WDone.                           (* num_threads decremented, returned *)

(** Where the master thread is. *)
Inductive mpc :=
  | MLoop                            (* polling the listening sockets *)
  | MLock (sp : socket)              (* about to lock the mutex in produce_socket *)
  | MTest (sp : socket)
  | MBlock (sp : socket)
  | MWaiting (sp : socket)           (* in pthread_cond_wait(&sq_empty) *)
  | MWoken (sp : socket)
  | MBroadcast                       (* left the loop, listening sockets closed *)
  | MJoin                            (* about to lock the mutex *)
  | MJTest                           (* holds it, about to test num_threads *)
  | MJWaiting                        (* in pthread_cond_wait(&cond) *)
  | MJWoken
  | MDone.                           (* stop_flag set to 2 *)

#[export] Instance wpc_eq_dec : EqDecision wpc.
Proof. solve_decision. Defined.
#[export] Instance mpc_eq_dec : EqDecision mpc.
Proof. solve_decision. Defined.

Inductive tid := TMaster | TWorker (i : nat).

(** The shared context, the threads, and two histories: the sockets put into the
    queue and those taken out. *)
Record sys := Sys {
  ring : sq;
  stop_flag : Z;
  owner : option tid;                (* of ctx->mutex *)
  workers : list wpc;
  master : mpc;
  num_threads : Z;
  hist_in : list socket;
  hist_out : list socket
}.

Definition set_worker (i : nat) (pc : wpc) (o : option tid) (s : sys) : sys :=
  Sys (ring s) (stop_flag s) o (<[i := pc]> (workers s)) (master s) (num_threads s)
    (hist_in s) (hist_out s).
Definition set_master (pc : mpc) (o : option tid) (s : sys) : sys :=
  Sys (ring s) (stop_flag s) o (workers s) pc (num_threads s) (hist_in s) (hist_out s).

(** [pthread_cond_signal(&sq_full)]: one waiting worker, if there is one. *)
Inductive signal_worker : list wpc -> list wpc -> Prop :=
  | signal_one ws i : ws !! i = Some WWaiting -> signal_worker ws (<[i := WWoken]> ws)
  | signal_none ws : WWaiting ∉ ws -> signal_worker ws ws.

(** [pthread_cond_signal(&sq_empty)] and [pthread_cond_signal(&cond)]: only the
    master waits on these. *)
Definition signal_master (m : mpc) : mpc :=
  match m with MWaiting sp => MWoken sp | _ => m end.
Definition signal_join (m : mpc) : mpc :=
  match m with MJWaiting => MJWoken | _ => m end.

(** [pthread_cond_broadcast(&sq_full)] *)
Definition wake_all (ws : list wpc) : list wpc :=
  map (fun w => if bool_decide (w = WWaiting) then WWoken else w) ws.

Inductive step : sys -> sys -> Prop :=
  (* consume_socket *)
  | W_lock i s :
      workers s !! i = Some WIdle -> owner s = None ->
      step s (set_worker i WTest (Some (TWorker i)) s)
  | W_test i s :
      workers s !! i = Some WTest -> sq_is_empty (ring s) = true -> stop_flag s = 0 ->
      step s (set_worker i WBlock (owner s) s)
  | W_wait i s :
      workers s !! i = Some WBlock -> step s (set_worker i WWaiting None s)
  | W_relock i s :
      workers s !! i = Some WWoken -> owner s = None ->
      step s (set_worker i WTest (Some (TWorker i)) s)
  | W_take i s sp q :
      workers s !! i = Some WTest ->
      sq_is_empty (ring s) && (stop_flag s =? 0) = false ->
      sq_get (ring s) = (sp, q) ->
      step s (Sys q (stop_flag s) None (<[i := WRet sp]> (workers s))
                (signal_master (master s)) (num_threads s) (hist_in s)
                (hist_out s ++ option_list sp))
  (* worker_thread *)
  | W_serve i s client :
      workers s !! i = Some (WRet client) -> stop_flag s = 0 ->
      step s (set_worker i (WBusy client) (owner s) s)
  | W_served i s client :
      workers s !! i = Some (WBusy client) -> step s (set_worker i WIdle (owner s) s)
  | W_leave i s client :
      workers s !! i = Some (WRet client) -> stop_flag s <> 0 ->
      step s (set_worker i WExit (owner s) s)
  | W_exit i s :
      workers s !! i = Some WExit -> owner s = None ->
      step s (Sys (ring s) (stop_flag s) None (<[i := WDone]> (workers s))
                (signal_join (master s)) (num_threads s - 1) (hist_in s) (hist_out s))
  (* accept_new_connection *)
  | M_accept s sp :
      master s = MLoop -> stop_flag s = 0 -> step s (set_master (MLock sp) (owner s) s)
  (* produce_socket *)
  | M_lock s sp :
      master s = MLock sp -> owner s = None -> step s (set_master (MTest sp) (Some TMaster) s)
  | M_test s sp :
      master s = MTest sp -> stop_flag s = 0 -> sq_is_full (ring s) = true ->
      step s (set_master (MBlock sp) (owner s) s)
  | M_wait s sp :
      master s = MBlock sp -> step s (set_master (MWaiting sp) None s)
  | M_relock s sp :
      master s = MWoken sp -> owner s = None -> step s (set_master (MTest sp) (Some TMaster) s)
  | M_put s sp (ok : bool) q ws :
      master s = MTest sp ->
      (stop_flag s =? 0) && sq_is_full (ring s) = false ->
      sq_put (ring s) sp = (ok, q) -> signal_worker (workers s) ws ->
      step s (Sys q (stop_flag s) None ws MLoop (num_threads s)
                (if ok then hist_in s ++ [sp] else hist_in s) (hist_out s))
  (* the end of master_thread *)
  | M_leave s :
      master s = MLoop -> stop_flag s <> 0 -> step s (set_master MBroadcast (owner s) s)
  | M_broadcast s :
      master s = MBroadcast ->
      step s (Sys (ring s) (stop_flag s) (owner s) (wake_all (workers s)) MJoin
                (num_threads s) (hist_in s) (hist_out s))
  | M_join s :
      master s = MJoin \/ master s = MJWoken -> owner s = None ->
      step s (set_master MJTest (Some TMaster) s)
  | M_join_wait s :
      master s = MJTest -> 0 < num_threads s -> step s (set_master MJWaiting None s)
  | M_done s :
      master s = MJTest -> num_threads s <= 0 ->
      step s (Sys (ring s) 2 None (workers s) MDone (num_threads s) (hist_in s) (hist_out s))
  (* mg_stop, in the thread that started the server *)
  | Stop s :
      stop_flag s = 0 ->
      step s (Sys (ring s) 1 (owner s) (workers s) (master s) (num_threads s)
                (hist_in s) (hist_out s)).

(** [pthread_cond_wait] may also return without a signal. *)
Inductive spurious : sys -> sys -> Prop :=
  | W_spurious i s :
      workers s !! i = Some WWaiting -> spurious s (set_worker i WWoken (owner s) s)
  | M_spurious s sp :
      master s = MWaiting sp -> spurious s (set_master (MWoken sp) (owner s) s)
  | MJ_spurious s :
      master s = MJWaiting -> spurious s (set_master MJWoken (owner s) s).

(** The server with [n] workers when [mg_start] returns. *)
Definition sys_init (n : nat) : sys :=
  Sys sq_init 0 None (replicate n WIdle) MLoop (Z.of_nat n) [] [].

Inductive reachable (n : nat) : sys -> Prop :=
  | reach_init : reachable n (sys_init n)
  | reach_step s s' : reachable n s -> step s s' -> reachable n s'
  | reach_spurious s s' : reachable n s -> spurious s s' -> reachable n s'.

(** ** The invariant *)

(** The thread holds the mutex. *)
Definition w_holds (pc : wpc) : Prop := pc = WTest \/ pc = WBlock.
Definition m_holds (pc : mpc) : Prop :=
  match pc with MTest _ | MBlock _ | MJTest => True | _ => False end.

(** On its way to test the queue: it will not miss a socket that is there. *)
Definition pending (pc : wpc) : bool := bool_decide (pc = WWoken \/ pc = WTest).
Definition pendings (ws : list wpc) : nat := length (List.filter pending ws).
Definition alive (pc : wpc) : bool := negb (bool_decide (pc = WDone)).
Definition alives (ws : list wpc) : nat := length (List.filter alive ws).

Record sys_inv (n : nat) (s : sys) : Prop := {
  inv_wf : sq_wf (ring s);
  inv_hist : hist_in s = hist_out s ++ contents (ring s);
  inv_owner_w : forall i pc, workers s !! i = Some pc ->
    (w_holds pc <-> owner s = Some (TWorker i));
  inv_owner_m : m_holds (master s) <-> owner s = Some TMaster;
  inv_block : WBlock ∈ workers s -> contents (ring s) = [];
  inv_full : forall sp, master s = MBlock sp \/ master s = MWaiting sp ->
    length (contents (ring s)) = 20%nat;
  inv_pending : WWaiting ∈ workers s ->
    (length (contents (ring s)) <= pendings (workers s))%nat;
  inv_running : stop_flag s = 0 -> (WExit ∉ workers s) /\ (WDone ∉ workers s);
  inv_threads : num_threads s = Z.of_nat (alives (workers s));
  inv_count : length (workers s) = n
}.

(** Counting after one worker moved. *)
Lemma filter_insert (f : wpc -> bool) ws i old new :
  ws !! i = Some old ->
  (length (List.filter f (<[i := new]> ws)) + Nat.b2n (f old)
   = length (List.filter f ws) + Nat.b2n (f new))%nat.
Proof.
  revert i. induction ws as [|w ws IH]; intros [|i] H; simplify_eq/=.
  - destruct (f old), (f new); simpl; lia.
  - specialize (IH i H). destruct (f w); simpl; lia.
Qed.

Lemma elem_of_insert_inv {A} (l : list A) i x y : x ∈ <[i := y]> l -> x = y \/ x ∈ l.
Proof.
  intros (j & Hj)%list_elem_of_lookup.
  destruct (decide (i = j)) as [<-|Hne].
  - apply list_lookup_insert_Some in Hj as [(_ & -> & _)|(? & _)]; [by left|done].
  - rewrite list_lookup_insert_ne in Hj by done. right. by eapply list_elem_of_lookup_2.
Qed.

Lemma lookup_insert_cases {A} (l : list A) i j x y :
  <[i := y]> l !! j = Some x -> i = j /\ x = y \/ i <> j /\ l !! j = Some x.
Proof.
  intros H. apply list_lookup_insert_Some in H as [(<- & -> & _)|[]]; auto.
Qed.

(** A worker moves on its own. *)
Lemma inv_set_worker n s i old new o :
  sys_inv n s -> workers s !! i = Some old ->
  (w_holds new <-> o = Some (TWorker i)) ->
  (o = owner s \/ owner s = None /\ o = Some (TWorker i)
   \/ owner s = Some (TWorker i) /\ o = None) ->
  (new = WBlock -> contents (ring s) = []) ->
  (contents (ring s) = [] \/
   new <> WWaiting /\ (pending old = true -> pending new = true)) ->
  (new = WExit -> stop_flag s <> 0) -> alive old = true -> alive new = true ->
  sys_inv n (set_worker i new o s).
Proof.
  intros [Hwf Hh How Hom Hb Hf Hp Hr Ht Hc] Hi Hnew Ho Hblk Hpend Hex Hao Han.
  constructor; simpl; try done.
  - intros j pc Hj. apply lookup_insert_cases in Hj as [[<- ->]|[Hne Hj]]; [done|].
    rewrite (How j pc Hj). split; [|]; destruct Ho as [->|[[? ->]|[? ->]]]; congruence.
  - rewrite Hom. split; destruct Ho as [->|[[? ->]|[? ->]]]; congruence.
  - intros H. apply elem_of_insert_inv in H as [<-|H]; auto.
  - intros H. destruct Hpend as [->|[Hnw Hpn]]; [simpl; lia|].
    apply elem_of_insert_inv in H as [<-|H]; [done|]. specialize (Hp H).
    pose proof (filter_insert pending (workers s) i old new Hi) as E. unfold pendings in *.
    destruct (pending old); [rewrite Hpn in E by done|]; simpl in E; lia.
  - intros H0. destruct (Hr H0) as [He Hd]. split; intros H.
    + apply elem_of_insert_inv in H as [<-|H]; [by apply Hex|done].
    + apply elem_of_insert_inv in H as [<-|H]; [by vm_compute in Han|done].
  - rewrite Ht. pose proof (filter_insert alive (workers s) i old new Hi) as E.
    unfold alives. rewrite Hao, Han in E. lia.
  - by rewrite length_insert.
Qed.

(** The master moves on its own. *)
Lemma inv_set_master n s pc o :
  sys_inv n s ->
  (m_holds pc <-> o = Some TMaster) ->
  (o = owner s \/ owner s = None /\ o = Some TMaster \/ owner s = Some TMaster /\ o = None) ->
  (forall sp, pc = MBlock sp \/ pc = MWaiting sp -> length (contents (ring s)) = 20%nat) ->
  sys_inv n (set_master pc o s).
Proof.
  intros [Hwf Hh How Hom Hb Hf Hp Hr Ht Hc] Hpc Ho Hfull.
  constructor; simpl; try done.
  intros i w Hi. rewrite (How i w Hi). split; destruct Ho as [->|[[? ->]|[? ->]]]; congruence.
Qed.

(** A worker at the test of the loop is the only one that holds the mutex. *)
Lemma inv_test_alone n s i :
  sys_inv n s -> workers s !! i = Some WTest ->
  owner s = Some (TWorker i) /\ (WBlock ∉ workers s) /\ ~ m_holds (master s).
Proof.
  intros Hinv Hi. assert (owner s = Some (TWorker i)) as Ho
    by (apply (inv_owner_w _ _ Hinv i WTest Hi); by left).
  split_and!; [done| |].
  - intros (j & Hj)%list_elem_of_lookup.
    assert (owner s = Some (TWorker j)) as Ho' by (apply (inv_owner_w _ _ Hinv j _ Hj); by right).
    congruence.
  - rewrite (inv_owner_m _ _ Hinv). congruence.
Qed.

Lemma inv_take n s i sp q :
  sys_inv n s -> workers s !! i = Some WTest -> sq_get (ring s) = (sp, q) ->
  sys_inv n (Sys q (stop_flag s) None (<[i := WRet sp]> (workers s)) (signal_master (master s))
               (num_threads s) (hist_in s) (hist_out s ++ option_list sp)).
Proof.
  intros Hinv Hi Hg. destruct (inv_test_alone n s i Hinv Hi) as (Ho & Hnb & Hnm).
  destruct Hinv as [Hwf Hh How Hom Hb Hf Hp Hr Ht Hc].
  pose proof (sq_get_spec (ring s) Hwf) as Hspec. rewrite Hg in Hspec.
  destruct Hspec as [Hwf' Hspec].
  pose proof (filter_insert pending (workers s) i WTest (WRet sp) Hi) as Ep.
  pose proof (filter_insert alive (workers s) i WTest (WRet sp) Hi) as Ea.
  assert (pending (WRet sp) = false) as Epr by done.
  assert (alive (WRet sp) = true) as Ear by done.
  rewrite Epr in Ep. rewrite Ear in Ea.
  change (Nat.b2n (pending WTest)) with 1%nat in Ep. change (Nat.b2n (alive WTest)) with 1%nat in Ea.
  change (Nat.b2n true) with 1%nat in Ea. change (Nat.b2n false) with 0%nat in Ep.
  constructor; simpl; try done.
  - destruct (contents (ring s)) as [|c cs] eqn:E.
    + destruct Hspec as [-> ->]. rewrite E. simpl. by rewrite Hh, !app_nil_r.
    + destruct Hspec as [-> ->]. by rewrite Hh, <- app_assoc.
  - intros j pc Hj. apply lookup_insert_cases in Hj as [[<- ->]|[Hne Hj]].
    + split; [by intros [|]|done].
    + rewrite (How j pc Hj), Ho. split; [congruence|done].
  - split; [|done]. intros Hm. exfalso. apply Hnm. by destruct (master s).
  - intros H. exfalso. apply Hnb. by apply elem_of_insert_inv in H as [?|H].
  - intros sp' H. exfalso. apply Hnm. by destruct (master s), H.
  - intros H. apply elem_of_insert_inv in H as [?|H]; [done|]. specialize (Hp H).
    unfold pendings in *. destruct (contents (ring s)) as [|c cs] eqn:E.
    + destruct Hspec as [_ ->]. rewrite E. simpl. lia.
    + destruct Hspec as [_ ->]. simpl in Hp. lia.
  - intros H0. destruct (Hr H0) as [He Hd]. split; intros H;
      by apply elem_of_insert_inv in H as [?|H].
  - rewrite Ht. unfold alives. lia.
  - by rewrite length_insert.
Qed.

Lemma signal_worker_spec ws ws' :
  signal_worker ws ws' ->
  length ws' = length ws /\ alives ws' = alives ws /\
  (forall j pc, ws' !! j = Some pc -> pc = WWoken \/ ws !! j = Some pc) /\
  (WWaiting ∈ ws' -> WWaiting ∈ ws /\ pendings ws' = S (pendings ws)).
Proof.
  destruct 1 as [ws i Hi|ws Hn].
  - pose proof (filter_insert pending ws i WWaiting WWoken Hi) as Ep.
    pose proof (filter_insert alive ws i WWaiting WWoken Hi) as Ea.
    change (Nat.b2n (pending WWaiting)) with 0%nat in Ep.
    change (Nat.b2n (pending WWoken)) with 1%nat in Ep.
    change (Nat.b2n (alive WWaiting)) with 1%nat in Ea.
    change (Nat.b2n (alive WWoken)) with 1%nat in Ea.
    unfold pendings, alives. split_and!; [apply length_insert|lia|..].
    + intros j pc Hj. apply lookup_insert_cases in Hj as [[_ ->]|[_ Hj]]; auto.
    + intros H. split; [|lia]. by apply elem_of_insert_inv in H as [?|H].
  - split_and!; auto. done.
Qed.

Lemma inv_put n s sp ok q ws :
  sys_inv n s -> master s = MTest sp -> sq_put (ring s) sp = (ok, q) ->
  signal_worker (workers s) ws ->
  sys_inv n (Sys q (stop_flag s) None ws MLoop (num_threads s)
               (if ok then hist_in s ++ [sp] else hist_in s) (hist_out s)).
Proof.
  intros [Hwf Hh How Hom Hb Hf Hp Hr Ht Hc] Hm Hq Hsig.
  assert (owner s = Some TMaster) as Ho by (apply Hom; by rewrite Hm).
  pose proof (sq_put_spec (ring s) sp Hwf) as Hspec. rewrite Hq in Hspec.
  destruct Hspec as (Hwf' & Hok & Hcont).
  destruct (signal_worker_spec _ _ Hsig) as (Hl & Ha & Hin & Hwt).
  assert (forall pc, pc <> WWoken -> pc ∈ ws -> pc ∈ workers s) as Hsub.
  { intros pc Hne (j & Hj)%list_elem_of_lookup. apply Hin in Hj as [?|Hj]; [done|].
    by eapply list_elem_of_lookup_2. }
  assert (forall i pc, workers s !! i = Some pc -> ~ w_holds pc) as Hnh
    by (intros i pc Hi; rewrite (How i pc Hi), Ho; done).
  constructor; simpl; try done.
  - rewrite Hcont. destruct ok; [|done]. by rewrite Hh, app_assoc.
  - intros j pc Hj. split; [|done]. intros Hpc. exfalso.
    apply Hin in Hj as [->|Hj]; [by destruct Hpc|by eapply Hnh].
  - intros H. apply Hsub in H as (j & Hj)%list_elem_of_lookup; [|done].
    exfalso. eapply Hnh; [exact Hj|by right].
  - by intros sp' [|].
  - intros H. apply Hwt in H as [H ->]. specialize (Hp H). rewrite Hcont.
    destruct ok; rewrite ?length_app; simpl; lia.
  - intros H0. destruct (Hr H0) as [He Hd]. split; intros H; by apply Hsub in H.
  - by rewrite Ha.
  - by rewrite Hl.
Qed.

Lemma inv_exit n s i :
  sys_inv n s -> workers s !! i = Some WExit -> owner s = None ->
  sys_inv n (Sys (ring s) (stop_flag s) None (<[i := WDone]> (workers s))
               (signal_join (master s)) (num_threads s - 1) (hist_in s) (hist_out s)).
Proof.
  intros [Hwf Hh How Hom Hb Hf Hp Hr Ht Hc] Hi Ho.
  pose proof (filter_insert pending (workers s) i WExit WDone Hi) as Ep.
  pose proof (filter_insert alive (workers s) i WExit WDone Hi) as Ea.
  change (Nat.b2n (pending WExit)) with 0%nat in Ep. change (Nat.b2n (pending WDone)) with 0%nat in Ep.
  change (Nat.b2n (alive WExit)) with 1%nat in Ea. change (Nat.b2n (alive WDone)) with 0%nat in Ea.
  assert (WExit ∈ workers s) by (by eapply list_elem_of_lookup_2).
  constructor; simpl; try done.
  - intros j pc Hj. apply lookup_insert_cases in Hj as [[<- ->]|[Hne Hj]].
    + split; [by intros [|]|done].
    + by rewrite (How j pc Hj), Ho.
  - rewrite <- Ho, <- Hom. by destruct (master s).
  - intros Hw. apply elem_of_insert_inv in Hw as [?|Hw]; auto. done.
  - intros sp Hsp. apply (Hf sp). destruct (master s), Hsp; simplify_eq/=; auto.
  - intros Hw. apply elem_of_insert_inv in Hw as [?|Hw]; [done|]. specialize (Hp Hw).
    unfold pendings in *. lia.
  - intros H0. by destruct (Hr H0).
  - rewrite Ht. unfold alives. lia.
  - by rewrite length_insert.
Qed.

Lemma wake_all_elem ws pc : pc ∈ wake_all ws -> pc = WWoken \/ pc <> WWaiting /\ pc ∈ ws.
Proof.
  unfold wake_all. rewrite list_elem_of_In, in_map_iff. intros (w & <- & Hw).
  rewrite <- list_elem_of_In in Hw. case_bool_decide; auto.
Qed.

Lemma inv_broadcast n s :
  sys_inv n s -> master s = MBroadcast ->
  sys_inv n (Sys (ring s) (stop_flag s) (owner s) (wake_all (workers s)) MJoin
               (num_threads s) (hist_in s) (hist_out s)).
Proof.
  intros [Hwf Hh How Hom Hb Hf Hp Hr Ht Hc] Hm.
  assert (forall pc, pc <> WWoken -> pc ∈ wake_all (workers s) -> pc ∈ workers s) as Hsub
    by (intros pc Hne H; by apply wake_all_elem in H as [?|[_ ?]]).
  constructor; simpl; try done.
  - intros i pc Hi. unfold wake_all in Hi. rewrite list_lookup_fmap in Hi.
    apply fmap_Some in Hi as (w & Hi & ->). rewrite <- (How i w Hi).
    case_bool_decide; [subst|done]. split; by intros [|].
  - rewrite <- Hom, Hm. done.
  - intros H. apply Hb. by apply Hsub.
  - by intros sp [|].
  - intros H. by apply wake_all_elem in H as [|[]].
  - intros H0. destruct (Hr H0) as [He Hd]. split; intros H; by apply Hsub in H.
  - rewrite Ht. f_equal. unfold alives, wake_all. clear. induction (workers s) as [|w ws IH]; [done|].
    cbn [List.filter map]. destruct (bool_decide_reflect (w = WWaiting)) as [->|].
    + change (alive WWoken) with true. change (alive WWaiting) with true. simpl. by f_equal.
    + destruct (alive w); simpl; by rewrite IH.
  - unfold wake_all. by rewrite length_map.
Qed.

(** The side conditions of the two lemmas, from the invariant of the state before. *)
Ltac thread_side Hinv :=
  unfold w_holds, m_holds in *; simpl;
  match goal with
  | |- forall sp, _ -> _ => intros ? [?|?]; simplify_eq
  | |- _ <-> _ => intuition congruence
  | _ => idtac
  end;
  try solve [done | intuition congruence
    | right; right; intuition congruence
    | intros _; apply (bool_decide_eq_true _); rewrite <- sq_is_empty_spec by apply Hinv; done
    | left; apply (bool_decide_eq_true _); rewrite <- sq_is_empty_spec by apply Hinv; done
    | apply (bool_decide_eq_true _); rewrite <- sq_is_full_spec by apply Hinv; done
    | left; apply (inv_block _ _ Hinv); by eapply list_elem_of_lookup_2
    | by eapply (inv_full _ _ Hinv); eauto ].

Lemma step_inv n s s' : sys_inv n s -> step s s' -> sys_inv n s'.
Proof.
  intros Hinv Hstep. destruct Hstep.
  all: try match goal with
    | H : workers _ !! _ = Some ?old |- sys_inv _ (set_worker ?i ?new ?o _) =>
        pose proof (inv_owner_w _ _ Hinv _ _ H) as How;
        eapply (inv_set_worker _ _ _ old new o); [done|done|..]; thread_side Hinv
    | |- sys_inv _ (set_master ?pc ?o _) =>
        pose proof (inv_owner_m _ _ Hinv) as Hom;
        repeat match goal with H : master _ = _ |- _ => rewrite H in Hom end;
        apply inv_set_master; [done|..]; thread_side Hinv
    end.
  all: eauto using inv_take, inv_put, inv_exit, inv_broadcast.
  - pose proof (inv_owner_m _ _ Hinv) as Hom. rewrite H in Hom. simpl in Hom.
    destruct Hinv as [Hwf Hh How _ Hb Hf Hp Hr Ht Hc]. constructor; simpl; try done.
    + intros i pc Hi. rewrite (How i pc Hi). intuition congruence.
    + by intros sp [|].
  - destruct Hinv. by constructor.
Qed.

Lemma spurious_inv n s s' : sys_inv n s -> spurious s s' -> sys_inv n s'.
Proof.
  intros Hinv Hstep. destruct Hstep.
  - pose proof (inv_owner_w _ _ Hinv _ _ H) as How.
    eapply (inv_set_worker _ _ _ WWaiting WWoken); [done|done|..]; thread_side Hinv.
  - pose proof (inv_owner_m _ _ Hinv) as Hom. rewrite H in Hom.
    apply inv_set_master; [done|..]; thread_side Hinv.
  - pose proof (inv_owner_m _ _ Hinv) as Hom. rewrite H in Hom.
    apply inv_set_master; [done|..]; thread_side Hinv.
Qed.

Lemma init_inv n : sys_inv n (sys_init n).
Proof.
  assert (forall pc, pc ∈ replicate n WIdle -> pc = WIdle) as Hrep
    by (intros pc H; by apply elem_of_replicate in H as [-> _]).
  constructor; simpl; try done.
  - intros i pc Hi. apply lookup_replicate in Hi as [-> _]. split; [by intros [|]|done].
  - by intros sp [|].
  - intros H. by apply Hrep in H.
  - intros _. split; intros H; by apply Hrep in H.
  - f_equal. unfold alives. clear Hrep. induction n as [|n IH]; [done|].
    cbn [replicate List.filter]. change (alive WIdle) with true. simpl. by f_equal.
  - apply length_replicate.
Qed.

Lemma reachable_inv n s : reachable n s -> sys_inv n s.
Proof. induction 1; eauto using init_inv, step_inv, spurious_inv. Qed.

(** ** What holds of every run *)

(** C9. However the master and any number of workers interleave, with spurious
    wake-ups and a shutdown at any time, the sockets put into the queue are, in
    order, those taken out followed by those still in the ring; the ring never
    holds more than twenty and its indices stay within [0, 40]. *)
Theorem queue_fifo n s :
  reachable n s ->
  hist_in s = hist_out s ++ contents (ring s) /\
  (length (contents (ring s)) <= 20)%nat /\
  0 <= sq_tail (ring s) <= 20 /\ sq_tail (ring s) <= sq_head (ring s) <= 40.
Proof.
  intros H%reachable_inv. pose proof (contents_length _ (inv_wf _ _ H)).
  destruct H as [(Hl & Ht & Hd) Hh]. split_and!; [done|lia..].
Qed.

(** At most one thread is between taking and releasing the mutex. *)
Lemma mutual_exclusion n s i j pi pj :
  reachable n s -> workers s !! i = Some pi -> workers s !! j = Some pj ->
  w_holds pi -> (w_holds pj -> i = j) /\ ~ m_holds (master s).
Proof.
  intros H%reachable_inv Hi Hj Hpi. rewrite (inv_owner_w _ _ H _ _ Hi) in Hpi.
  rewrite (inv_owner_w _ _ H _ _ Hj), (inv_owner_m _ _ H). split; congruence.
Qed.

(** Neither waiting for a signal nor finished. *)
Definition awake (pc : wpc) : Prop :=
  match pc with WWaiting | WBlock | WExit | WDone => False | _ => True end.

Lemma filter_pos (f : wpc -> bool) ws :
  (0 < length (List.filter f ws))%nat -> exists w, w ∈ ws /\ f w = true.
Proof.
  intros H. destruct (List.filter f ws) as [|w l] eqn:E; simpl in H; [lia|].
  exists w. rewrite list_elem_of_In. apply filter_In. rewrite E. by left.
Qed.

(** C10. No wake-up is lost while the server runs: whenever a socket is queued, or the
    master waits for room in the queue, some worker is awake, that is busy with a
    connection or on its way to look at the queue. *)
Theorem queue_no_lost_wakeup n s :
  reachable n s -> (0 < n)%nat -> stop_flag s = 0 ->
  contents (ring s) <> [] \/ (exists sp, master s = MWaiting sp) ->
  exists pc, pc ∈ workers s /\ awake pc.
Proof.
  intros H%reachable_inv Hn H0 Hc. assert (contents (ring s) <> []) as Hne.
  { destruct Hc as [Hc|[sp Hm]]; [done|]. intros E.
    pose proof (inv_full _ _ H sp (or_intror Hm)) as Hf. by rewrite E in Hf. }
  destruct (decide (WWaiting ∈ workers s)) as [Hw|Hw].
  - pose proof (inv_pending _ _ H Hw) as Hp. destruct (filter_pos pending (workers s)) as (w & Hw' & Hpw).
    { unfold pendings in Hp. destruct (contents (ring s)); simpl in Hp; [done|lia]. }
    exists w. split; [done|]. unfold pending in Hpw. apply bool_decide_eq_true in Hpw as [-> | ->]; done.
  - destruct (workers s) as [|w ws] eqn:E; [pose proof (inv_count _ _ H) as Hc'; rewrite E in Hc'; simpl in Hc'; lia|].
    exists w. rewrite <- E in *. assert (w ∈ workers s) as Hw' by (rewrite E; left).
    split; [done|]. destruct (inv_running _ _ H H0) as [He Hd]. pose proof (inv_block _ _ H) as Hb.
    destruct w; simpl; auto.
Qed.

(** A run of single steps, as a list of states. *)
Inductive run : sys -> list sys -> Prop :=
  | run_nil s : run s []
  | run_cons s s' l : step s s' -> run s' l -> run s (s' :: l).

Lemma run_reachable n s l : reachable n s -> run s l -> Forall (reachable n) l.
Proof.
  intros Hs Hr. induction Hr as [|s s' l Hst _ IH]; constructor; eauto using reach_step.
Qed.

Definition a_socket : socket := Socket 7 (0x7f000001, 80) (0x7f000001, 40000) false false.

Definition q_put1 : sq := SQ (<[0%nat := a_socket]> (replicate 20 inhabitant)) 1 0.

(** One socket accepted and queued while the only worker waits. *)
Definition busy_run : list sys :=
  let q0 := sq_init in
  [Sys q0 0 (Some (TWorker 0)) [WTest] MLoop 1 [] [];
   Sys q0 0 (Some (TWorker 0)) [WBlock] MLoop 1 [] [];
   Sys q0 0 None [WWaiting] MLoop 1 [] [];
   Sys q0 0 None [WWaiting] (MLock a_socket) 1 [] [];
   Sys q0 0 (Some TMaster) [WWaiting] (MTest a_socket) 1 [] [];
   Sys q_put1 0 None [WWoken] MLoop 1 [a_socket] []].

Lemma busy_run_ok : run (sys_init 1) busy_run.
Proof.
  repeat apply run_cons; [..|apply run_nil].
  - by apply (W_lock 0 (sys_init 1)).
  - by apply (W_test 0 (Sys sq_init 0 (Some (TWorker 0)) [WTest] MLoop 1 [] [])).
  - by apply (W_wait 0 (Sys sq_init 0 (Some (TWorker 0)) [WBlock] MLoop 1 [] [])).
  - by apply (M_accept (Sys sq_init 0 None [WWaiting] MLoop 1 [] [])).
  - by apply (M_lock (Sys sq_init 0 None [WWaiting] (MLock a_socket) 1 [] [])).
  - by apply (M_put (Sys sq_init 0 (Some TMaster) [WWaiting] (MTest a_socket) 1 [] [])
      a_socket true q_put1 [WWoken]); [..|apply (signal_one [WWaiting] 0)].
Qed.

Definition busy_state : sys := Sys q_put1 0 None [WWoken] MLoop 1 [a_socket] [].

Lemma busy_reachable : reachable 1 busy_state.
Proof.
  pose proof (run_reachable 1 _ _ (reach_init 1) busy_run_ok) as H.
  rewrite Forall_lookup in H. by apply (H 5%nat).
Qed.

Lemma queue_fifo_witness : [a_socket] = [] ++ contents q_put1.
Proof. exact (proj1 (queue_fifo 1 busy_state busy_reachable)). Defined.

Lemma queue_no_lost_wakeup_witness : exists pc, pc ∈ [WWoken] /\ awake pc.
Proof. apply (queue_no_lost_wakeup 1 busy_state busy_reachable); [lia|done|by left]. Defined.

(** ** The shutdown *)

(** A worker finds the queue empty; [mg_stop] sets the flag; the master leaves its
    loop and broadcasts, without the mutex that the worker holds; the worker waits. *)
Definition deadlock_run : list sys :=
  let q := sq_init in
  [Sys q 0 (Some (TWorker 0)) [WTest] MLoop 1 [] [];
   Sys q 0 (Some (TWorker 0)) [WBlock] MLoop 1 [] [];
   Sys q 1 (Some (TWorker 0)) [WBlock] MLoop 1 [] [];
   Sys q 1 (Some (TWorker 0)) [WBlock] MBroadcast 1 [] [];
   Sys q 1 (Some (TWorker 0)) [WBlock] MJoin 1 [] [];
   Sys q 1 None [WWaiting] MJoin 1 [] [];
   Sys q 1 (Some TMaster) [WWaiting] MJTest 1 [] [];
   Sys q 1 None [WWaiting] MJWaiting 1 [] []].

(** The shutdown can deadlock: with one worker there is a run that ends with the
    worker waiting on [sq_full], the master waiting for the worker to finish and
    [stop_flag] still 1, and no thread can take a step: [mg_stop] never returns. *)
Theorem stop_deadlock :
  run (sys_init 1) deadlock_run /\
  exists s, last deadlock_run = Some s /\ workers s = [WWaiting] /\ stop_flag s = 1 /\
    forall s', ~ step s s'.
Proof.
  split.
  - repeat apply run_cons; [..|apply run_nil].
    + by apply (W_lock 0 (sys_init 1)).
    + by apply (W_test 0 (Sys sq_init 0 (Some (TWorker 0)) [WTest] MLoop 1 [] [])).
    + by apply (Stop (Sys sq_init 0 (Some (TWorker 0)) [WBlock] MLoop 1 [] [])).
    + by apply (M_leave (Sys sq_init 1 (Some (TWorker 0)) [WBlock] MLoop 1 [] [])).
    + by apply (M_broadcast (Sys sq_init 1 (Some (TWorker 0)) [WBlock] MBroadcast 1 [] [])).
    + by apply (W_wait 0 (Sys sq_init 1 (Some (TWorker 0)) [WBlock] MJoin 1 [] [])).
    + by apply (M_join (Sys sq_init 1 None [WWaiting] MJoin 1 [] [])); [left|].
    + by apply (M_join_wait (Sys sq_init 1 (Some TMaster) [WWaiting] MJTest 1 [] [])).
  - eexists. split; [reflexivity|]. split_and!; [done..|]. intros s' H.
    inversion H; simplify_eq/=; repeat match goal with
      | H : [_] !! ?i = Some _ |- _ => destruct i as [|]; simplify_eq/= end; intuition done.
Qed.
