(* ===== verification/Sockets.v ===== *)
(** * What becomes of accepted sockets

    An observer of the threads of SocketQueue.v that keeps a ledger: the sockets that
    [accept_new_connection] hands to [produce_socket], those that a worker has served
    and closed, and those that nobody holds any more and nobody has closed.  At any
    moment every accepted socket is in exactly one place, and while the server runs
    none is lost.  The shutdown loses those that are in the queue or have just been
    taken from it. *)

From S2P Require Import Prelude SocketQueue.

Record ledger := Ledger {
  led_accepted : list socket;
  led_closed : list socket;      (* close_connection in worker_thread *)
  led_lost : list socket         (* dropped without being closed *)
}.

(** Who holds which sockets. *)
Definition master_holds (m : mpc) : list socket :=
  match m with
  | MLock sp | MTest sp | MBlock sp | MWaiting sp | MWoken sp => [sp]
  | _ => []
  end.
Definition worker_holds (pc : wpc) : list socket :=
  match pc with
  | WRet (Some so) | WBusy (Some so) => [so]
  | _ => []
  end.
Definition workers_hold (ws : list wpc) : list socket := concat (map worker_holds ws).

(** What one step of the threads shows. *)
Definition accepts (s s' : sys) : list socket :=
  match master s, master s' with MLoop, MLock sp => [sp] | _, _ => [] end.
Definition closes (ws ws' : list wpc) : list socket :=
  concat (zip_with (fun w w' => match w, w' with WBusy (Some so), WIdle => [so] | _, _ => [] end) ws ws').
Definition abandons (ws ws' : list wpc) : list socket :=
  concat (zip_with (fun w w' => match w, w' with WRet (Some so), WExit => [so] | _, _ => [] end) ws ws').
(** [produce_socket] returns without having put the socket into the queue. *)
Definition drops (s s' : sys) : list socket :=
  match master s, master s' with
  | MTest sp, MLoop => if bool_decide (length (hist_in s') = length (hist_in s)) then [sp] else []
  | _, _ => []
  end.

Definition observe (s s' : sys) (l : ledger) : ledger :=
  Ledger (led_accepted l ++ accepts s s')
    (led_closed l ++ closes (workers s) (workers s'))
    (led_lost l ++ abandons (workers s) (workers s') ++ drops s s').

Inductive tracked (n : nat) : sys -> ledger -> Prop :=
  | track_init : tracked n (sys_init n) (Ledger [] [] [])
  | track_step s s' l : tracked n s l -> step s s' -> tracked n s' (observe s s' l)
  | track_spurious s s' l : tracked n s l -> spurious s s' -> tracked n s' (observe s s' l).

Lemma tracked_reachable n s l : tracked n s l -> reachable n s.
Proof. induction 1; eauto using reachable. Qed.

(** ** One worker moves *)

Lemma zip_with_same {B} (f : wpc -> wpc -> list B) ws :
  (forall w, f w w = []) -> concat (zip_with f ws ws) = [].
Proof. intros Hf. induction ws as [|w ws IH]; [done|]. simpl. by rewrite Hf, IH. Qed.

Lemma zip_with_moved {B} (f : wpc -> wpc -> list B) ws i old new :
  (forall w, f w w = []) -> ws !! i = Some old -> concat (zip_with f ws (<[i := new]> ws)) = f old new.
Proof.
  intros Hf. revert i. induction ws as [|w ws IH]; intros [|i] H; simplify_eq/=.
  - by rewrite zip_with_same, app_nil_r.
  - by rewrite Hf, (IH i).
Qed.

Lemma workers_hold_moved ws i old new :
  ws !! i = Some old ->
  workers_hold (<[i := new]> ws) ++ worker_holds old ≡ₚ workers_hold ws ++ worker_holds new.
Proof.
  unfold workers_hold. revert i. induction ws as [|w ws IH]; intros [|i] H; simplify_eq/=.
  - solve_Permutation.
  - rewrite <- !app_assoc. by rewrite (IH i H).
Qed.

(** Everything that is somewhere. *)
Definition held (s : sys) : list socket :=
  master_holds (master s) ++ contents (ring s) ++ workers_hold (workers s).

Definition balanced (s s' : sys) : Prop :=
  held s ++ accepts s s'
  ≡ₚ held s' ++ closes (workers s) (workers s') ++ abandons (workers s) (workers s') ++ drops s s'.

Lemma closes_same ws : closes ws ws = [].
Proof. apply zip_with_same. by intros [| | | | |[]|[]| |]. Qed.
Lemma abandons_same ws : abandons ws ws = [].
Proof. apply zip_with_same. by intros [| | | | |[]|[]| |]. Qed.

(** Only one worker moves, and neither the master nor the queue do. *)
Lemma balanced_worker i old new s s' :
  workers s !! i = Some old -> workers s' = <[i := new]> (workers s) ->
  contents (ring s') = contents (ring s) -> master_holds (master s') = master_holds (master s) ->
  accepts s s' = [] -> drops s s' = [] ->
  worker_holds old ≡ₚ worker_holds new ++ closes [old] [new] ++ abandons [old] [new] ->
  balanced s s'.
Proof.
  intros Hi Hw Hr Hm Ha Hd Hp. unfold balanced, held, closes, abandons in *.
  rewrite Ha, Hd, Hm, Hr, Hw. erewrite !zip_with_moved; [|by intros [| | | | |[]|[]| |]|done|by intros [| | | | |[]|[]| |]|done].
  simpl in Hp. rewrite !app_nil_r in *.
  pose proof (workers_hold_moved (workers s) i old new Hi) as Hmv. rewrite Hp in Hmv.
  apply (Permutation_app_inv_r (worker_holds new)). rewrite <- !app_assoc. apply Permutation_app_head.
  apply Permutation_app_head. rewrite <- Hmv. solve_Permutation.
Qed.

(** Only the master moves. *)
Lemma balanced_master s s' :
  workers s' = workers s -> contents (ring s') = contents (ring s) ->
  master_holds (master s) ++ accepts s s' = master_holds (master s') -> drops s s' = [] -> balanced s s'.
Proof.
  intros Hw Hr Hm Hd. unfold balanced, held. rewrite Hw, Hr, Hd, closes_same, abandons_same, <- Hm.
  rewrite !app_nil_r. solve_Permutation.
Qed.

(** A worker takes the oldest socket. *)
Lemma balanced_take i s sp q :
  sq_wf (ring s) -> workers s !! i = Some WTest -> sq_get (ring s) = (sp, q) ->
  balanced s (Sys q (stop_flag s) None (<[i := WRet sp]> (workers s)) (signal_master (master s))
                (num_threads s) (hist_in s) (hist_out s ++ option_list sp)).
Proof.
  intros Hwf Hi Hg. pose proof (sq_get_spec (ring s) Hwf) as Hs. rewrite Hg in Hs. destruct Hs as [_ Hs].
  pose proof (workers_hold_moved (workers s) i WTest (WRet sp) Hi) as Hm. rewrite app_nil_r in Hm.
  unfold balanced, held, closes, abandons. cbn [ring workers master].
  erewrite !zip_with_moved; [|by intros [| | | | |[]|[]| |]|done|by intros [| | | | |[]|[]| |]|done].
  assert (master_holds (signal_master (master s)) = master_holds (master s)) as -> by (by destruct (master s)).
  unfold accepts, drops. cbn [master hist_in]. destruct (contents (ring s)) as [|so rest] eqn:Ec; destruct Hs as [-> E].
  - simpl in *. rewrite app_nil_r in Hm. rewrite Hm. subst q. rewrite Ec. destruct (master s); solve_Permutation.
  - simpl in *. rewrite Hm, E. destruct (master s); solve_Permutation.
Qed.

Lemma signal_worker_holds ws ws' :
  signal_worker ws ws' -> workers_hold ws' ≡ₚ workers_hold ws /\ closes ws ws' = [] /\ abandons ws ws' = [].
Proof.
  destruct 1 as [ws i Hi|ws _]; [|by rewrite closes_same, abandons_same].
  pose proof (workers_hold_moved ws i WWaiting WWoken Hi) as Hm. rewrite !app_nil_r in Hm.
  unfold closes, abandons. by erewrite !zip_with_moved; [|by intros [| | | | |[]|[]| |]|done|by intros [| | | | |[]|[]| |]|done].
Qed.

Lemma wake_all_holds ws :
  workers_hold (wake_all ws) = workers_hold ws /\ closes ws (wake_all ws) = [] /\ abandons ws (wake_all ws) = [].
Proof.
  unfold workers_hold, closes, abandons, wake_all. induction ws as [|w ws (I1 & I2 & I3)]; [done|].
  simpl. rewrite I1, I2, I3, !app_nil_r. destruct (bool_decide_reflect (w = WWaiting)) as [->|]; [done|].
  split_and!; [done|..]; by destruct w as [| | | | |[]|[]| |].
Qed.

(** The master puts a socket into the queue, or drops it. *)
Lemma balanced_put s sp ok q ws :
  sq_wf (ring s) -> master s = MTest sp -> sq_put (ring s) sp = (ok, q) -> signal_worker (workers s) ws ->
  balanced s (Sys q (stop_flag s) None ws MLoop (num_threads s)
                (if ok then hist_in s ++ [sp] else hist_in s) (hist_out s)).
Proof.
  intros Hwf Hm Hq Hsig. pose proof (sq_put_spec (ring s) sp Hwf) as Hs. rewrite Hq in Hs. destruct Hs as (_ & _ & Hc).
  destruct (signal_worker_holds _ _ Hsig) as (Hw & Hcl & Hab).
  unfold balanced, held, accepts, drops. cbn [ring workers master hist_in]. rewrite Hm, Hcl, Hab, Hc, Hw. simpl.
  destruct ok; case_bool_decide as E; rewrite ?length_app in E; simpl in E; try lia; try done; solve_Permutation.
Qed.

(** The step leaves the master where it is. *)
Lemma quiet_master s s' : master s' = master s -> accepts s s' = [] /\ drops s s' = [].
Proof. unfold accepts, drops. intros ->. by destruct (master s). Qed.

Lemma balanced_set_worker i old new o s :
  workers s !! i = Some old ->
  worker_holds old ≡ₚ worker_holds new ++ closes [old] [new] ++ abandons [old] [new] ->
  balanced s (set_worker i new o s).
Proof.
  intros Hi Hp. destruct (quiet_master s (set_worker i new o s) eq_refl) as [Ha Hd].
  by apply (balanced_worker i old new).
Qed.

Lemma balanced_set_master pc o s :
  master_holds (master s) ++ accepts s (set_master pc o s) = master_holds pc ->
  drops s (set_master pc o s) = [] -> balanced s (set_master pc o s).
Proof. intros. by apply balanced_master. Qed.

Lemma step_balanced n s s' : sys_inv n s -> step s s' -> balanced s s'.
Proof.
  intros [Hwf _ _ _ _ _ _ _ _ _] Hst. destruct Hst; eauto using balanced_take, balanced_put.
  all: try (eapply balanced_set_worker; [done|]; by repeat destruct client).
  all: try (apply balanced_set_master; unfold accepts, drops; cbn [set_master master];
            repeat match goal with H : master _ = _ |- _ => rewrite H end; done).
  - apply (balanced_worker i WExit WDone); try done; unfold accepts, drops; cbn [master]; by destruct (master s).
  - destruct (wake_all_holds (workers s)) as (Hw & Hc & Ha).
    unfold balanced, held, accepts, drops. cbn [master ring workers hist_in]. by rewrite Hw, Hc, Ha, H, !app_nil_r.
  - apply balanced_set_master; unfold accepts, drops; cbn [set_master master]; by destruct H as [-> | ->].
  - apply balanced_master; unfold accepts, drops; cbn [master]; by rewrite ?H.
  - destruct (quiet_master s (Sys (ring s) 1 (owner s) (workers s) (master s) (num_threads s) (hist_in s) (hist_out s)) eq_refl)
      as [Ha Hd]. apply balanced_master; [done|done|by rewrite Ha, app_nil_r|done].
Qed.

Lemma spurious_balanced s s' : spurious s s' -> balanced s s'.
Proof.
  destruct 1; [by eapply balanced_set_worker|..];
    apply balanced_set_master; unfold accepts, drops; cbn [set_master master]; by rewrite H.
Qed.

(** A socket is only dropped after the server has been told to stop. *)
Lemma step_loses s s' :
  step s s' -> stop_flag s' = 0 ->
  stop_flag s = 0 /\ abandons (workers s) (workers s') = [] /\ drops s s' = [].
Proof.
  assert (forall i old new ws, ws !! i = Some old -> new <> WExit -> abandons ws (<[i:=new]> ws) = []) as Hab.
  { intros i old new ws Hi Hn. unfold abandons. erewrite zip_with_moved; [|by intros [| | | | |[]|[]| |]|done].
    destruct old as [| | | | |[]|[]| |]; try done. by destruct new. }
  intros Hst H0. destruct Hst; cbn [set_worker set_master stop_flag workers master] in *; try done;
    (split; [done|]); try (split; [by eapply Hab|]); rewrite ?abandons_same;
    try (split; [done|]);
    try (unfold drops; cbn [set_worker set_master master hist_in];
         repeat match goal with H : master _ = _ |- _ => rewrite H end; by try destruct (master s)).
  - destruct (signal_worker_holds _ _ H3) as (_ & _ & ->). split; [done|].
    unfold drops. cbn [master hist_in]. rewrite H. unfold sq_put, sq_is_full in *. rewrite H0 in *. cbn [Z.eqb andb] in *.
    destruct (Z.ltb_spec (sq_head (ring s) - sq_tail (ring s)) queue_size); [|apply Z.leb_gt in H1; lia].
    injection H2 as <- <-. rewrite bool_decide_eq_false_2; [done|]. rewrite length_app. simpl. lia.
  - destruct (wake_all_holds (workers s)) as (_ & _ & ->). split; [done|]. unfold drops. cbn [master]. by rewrite H.
Qed.

Lemma spurious_loses s s' :
  spurious s s' -> stop_flag s' = stop_flag s /\ abandons (workers s) (workers s') = [] /\ drops s s' = [].
Proof.
  destruct 1; unfold drops, abandons; cbn [set_worker set_master stop_flag workers master hist_in].
  - erewrite zip_with_moved; [|by intros [| | | | |[]|[]| |]|done]. by destruct (master s).
  - rewrite H. by rewrite zip_with_same by (by intros [| | | | |[]|[]| |]).
  - rewrite H. by rewrite zip_with_same by (by intros [| | | | |[]|[]| |]).
Qed.

(** When the master thread has ended, the workers have. *)
Lemma master_done n s : reachable n s -> master s = MDone -> num_threads s <= 0.
Proof.
  assert (forall m, signal_master m = MDone -> m = MDone) as Hs1 by (by intros []).
  assert (forall m, signal_join m = MDone -> m = MDone) as Hs2 by (by intros []).
  induction 1 as [|s s' _ IH Hst|s s' _ IH Hst]; [done|..];
    destruct Hst; cbn [set_worker set_master master num_threads]; intros Hm; try done; auto.
  specialize (IH (Hs2 _ Hm)). lia.
Qed.

Lemma workers_done_hold ws : alives ws = 0%nat -> workers_hold ws = [].
Proof.
  unfold alives, workers_hold. induction ws as [|w ws IH]; [done|]. cbn [List.filter map concat].
  destruct (alive w) eqn:E; [done|]. intros H. rewrite (IH H). unfold alive in E.
  by apply negb_false_iff, bool_decide_eq_true in E as ->.
Qed.

Lemma tracked_balance n s l :
  tracked n s l -> led_accepted l ≡ₚ held s ++ led_closed l ++ led_lost l.
Proof.
  assert (forall s s' l, led_accepted l ≡ₚ held s ++ led_closed l ++ led_lost l -> balanced s s' ->
    led_accepted (observe s s' l) ≡ₚ held s' ++ led_closed (observe s s' l) ++ led_lost (observe s s' l)) as Hone.
  { intros s0 s' l0 Hl Hb. unfold balanced in Hb. cbn [observe led_accepted led_closed led_lost]. rewrite Hl.
    transitivity ((held s0 ++ accepts s0 s') ++ led_closed l0 ++ led_lost l0); [solve_Permutation|].
    rewrite Hb. solve_Permutation. }
  induction 1 as [|s s' l Ht IH Hst|s s' l Ht IH Hst].
  - unfold held. simpl. induction n; [done|]. exact IHn.
  - apply Hone; [done|]. eapply step_balanced; [|done]. by eapply reachable_inv, tracked_reachable.
  - apply Hone; [done|]. by apply spurious_balanced.
Qed.

Lemma tracked_lost n s l : tracked n s l -> stop_flag s = 0 -> led_lost l = [].
Proof.
  induction 1 as [|s s' l Ht IH Hst|s s' l Ht IH Hst]; [done|..]; cbn [observe led_lost]; intros H0.
  - destruct (step_loses s s' Hst H0) as (Hs & -> & ->). by rewrite IH.
  - destruct (spurious_loses s s' Hst) as (Hs & -> & ->). rewrite IH by congruence. done.
Qed.

(** C12. Every accepted socket is in exactly one place: however the threads interleave,
    the sockets that have been accepted are those in the hands of the master, in the
    queue or in the hands of one worker, those that a worker has closed, and those that
    are lost; none is lost while the server runs, and when the master thread has ended
    all that is left is in the queue, where nobody will close it. *)
Theorem sockets_accounted (n : nat) (s : sys) (l : ledger) :
  tracked n s l ->
  led_accepted l ≡ₚ held s ++ led_closed l ++ led_lost l /\
  (stop_flag s = 0 -> led_lost l = []) /\
  (master s = MDone -> held s = contents (ring s)).
Proof.
  intros Ht. pose proof (tracked_reachable _ _ _ Ht) as Hr. split_and!.
  - apply (tracked_balance _ _ _ Ht).
  - apply (tracked_lost _ _ _ Ht).
  - intros Hm. pose proof (master_done _ _ Hr Hm) as Hn. rewrite (inv_threads _ _ (reachable_inv _ _ Hr)) in Hn.
    unfold held. rewrite Hm, workers_done_hold by lia. by rewrite app_nil_r.
Qed.

(** ** A socket that the shutdown loses *)

Fixpoint observe_run (s : sys) (states : list sys) (l : ledger) : sys * ledger :=
  match states with
  | [] => (s, l)
  | s' :: states' => observe_run s' states' (observe s s' l)
  end.

Lemma run_tracked n s states l :
  tracked n s l -> run s states ->
  tracked n (observe_run s states l).1 (observe_run s states l).2.
Proof.
  intros Ht Hr. revert l Ht. induction Hr as [|s s' states Hst _ IH]; intros l Ht; [done|].
  apply IH. by eapply track_step.
Qed.

(** The worker takes the socket when [mg_stop] has set the flag. *)
Definition lost_run : list sys :=
  let q := SQ (queue q_put1) 1 1 in
  [Sys sq_init 0 None [WIdle] (MLock a_socket) 1 [] [];
   Sys sq_init 0 (Some TMaster) [WIdle] (MTest a_socket) 1 [] [];
   Sys q_put1 0 None [WIdle] MLoop 1 [a_socket] [];
   Sys q_put1 0 (Some (TWorker 0)) [WTest] MLoop 1 [a_socket] [];
   Sys q_put1 1 (Some (TWorker 0)) [WTest] MLoop 1 [a_socket] [];
   Sys q 1 None [WRet (Some a_socket)] MLoop 1 [a_socket] [a_socket];
   Sys q 1 None [WExit] MLoop 1 [a_socket] [a_socket];
   Sys q 1 None [WExit] MBroadcast 1 [a_socket] [a_socket];
   Sys q 1 None [WExit] MJoin 1 [a_socket] [a_socket];
   Sys q 1 None [WDone] MJoin 0 [a_socket] [a_socket];
   Sys q 1 (Some TMaster) [WDone] MJTest 0 [a_socket] [a_socket];
   Sys q 2 None [WDone] MDone 0 [a_socket] [a_socket]].

Lemma lost_run_ok : run (sys_init 1) lost_run.
Proof.
  unfold lost_run. set (q := SQ _ 1 1).
  repeat apply run_cons; [..|apply run_nil].
  - by apply (M_accept (sys_init 1)).
  - by apply (M_lock (Sys sq_init 0 None [WIdle] (MLock a_socket) 1 [] [])).
  - apply (M_put (Sys sq_init 0 (Some TMaster) [WIdle] (MTest a_socket) 1 [] []) a_socket true q_put1 [WIdle]);
      [done..|]. apply signal_none. by_decide.
  - by apply (W_lock 0 (Sys q_put1 0 None [WIdle] MLoop 1 [a_socket] [])).
  - by apply (Stop (Sys q_put1 0 (Some (TWorker 0)) [WTest] MLoop 1 [a_socket] [])).
  - by apply (W_take 0 (Sys q_put1 1 (Some (TWorker 0)) [WTest] MLoop 1 [a_socket] []) (Some a_socket) q).
  - by apply (W_leave 0 (Sys q 1 None [WRet (Some a_socket)] MLoop 1 [a_socket] [a_socket]) (Some a_socket)).
  - by apply (M_leave (Sys q 1 None [WExit] MLoop 1 [a_socket] [a_socket])).
  - by apply (M_broadcast (Sys q 1 None [WExit] MBroadcast 1 [a_socket] [a_socket])).
  - by apply (W_exit 0 (Sys q 1 None [WExit] MJoin 1 [a_socket] [a_socket])).
  - by apply (M_join (Sys q 1 None [WDone] MJoin 0 [a_socket] [a_socket])); [left|].
  - by apply (M_done (Sys q 1 (Some TMaster) [WDone] MJTest 0 [a_socket] [a_socket])).
Qed.

Lemma sockets_accounted_witness :
  let '(s, l) := observe_run (sys_init 1) lost_run (Ledger [] [] []) in
  led_lost l = [a_socket] /\ [a_socket] ≡ₚ held s ++ led_closed l ++ led_lost l /\ held s = contents (ring s).
Proof.
  split; [done|].
  destruct (sockets_accounted 1 _ _ (run_tracked 1 _ _ _ (track_init 1) lost_run_ok)) as (Hb & _ & Hd).
  split; [exact Hb|]. by apply Hd.
Defined.
