(* ===== verification/HttpRequest.v ===== *)
(** * HTTP requests

    Finding the end of a request in the receive buffer, cutting it up into the
    request line and the headers, and looking headers up: [skip_quoted], [skip],
    [get_header], [get_request_len], [parse_http_headers], [is_valid_http_method],
    [parse_http_message] and [is_valid_uri] of src/mongoose.c.

    The parser works on a buffer in which it writes NUL bytes.  What it returns are
    pointers into that buffer, here the C strings they point to: a word is complete
    when the function that cuts it off returns, and no later write touches it. *)

From S2P Require Import Prelude CString.

(** ** Words *)

(** The loop over quoted delimiters: [w] is the word so far, [e] the text at
    [end_word].  A delimiter after [quotechar] replaces it and the word goes on; the
    text gets shorter every round, its length is enough fuel. *)
Fixpoint unquote (fuel : nat) (delimiters : bytes) (quotechar : Z) (w e : bytes)
    : bytes * bytes :=
  match fuel with
  | O => (w, e)
  | S fuel' =>
      if bool_decide (last w = Some quotechar) then
        match e with
        | [] => (removelast w, e)
        | _ :: e' =>
            let end_off := strcspn e' delimiters in
            unquote fuel' delimiters quotechar
              (removelast w ++ take (end_off + 1) e) (drop (end_off + 1) e)
        end
      else (w, e)
  end.

(** The word at the start of [s] and what [*buf] points to afterwards. *)
Definition skip_quoted (s delimiters whitespace : bytes) (quotechar : Z) : bytes * bytes :=
  let n := strcspn s delimiters in
  let '(w, e) := unquote (S (length s)) delimiters quotechar (take n s) (drop n s) in
  match e with
  | [] => (w, [])
  | _ :: e' => (w, drop (strspn e' whitespace) e')
  end.

Definition skip (s delimiters : bytes) : bytes * bytes := skip_quoted s delimiters delimiters 0.

(** ** The request *)

Record mg_request_info := RequestInfo {
  request_method : option bytes;
  uri : option bytes;
  http_version : option bytes;
  query_string : option bytes;
  remote_user : option bytes;
  remote_ip : Z;
  remote_port : Z;
  ri_is_ssl : bool;
  http_headers : list (bytes * bytes)   (* the first num_headers entries *)
}.

(** [ARRAY_SIZE(ri->http_headers)] *)
Definition max_headers : nat := 64.

Fixpoint get_header (headers : list (bytes * bytes)) (name : bytes) : option bytes :=
  match headers with
  | [] => None
  | (n, v) :: headers' =>
      if mg_strcasecmp name n =? 0 then Some v else get_header headers' name
  end.

(** The scan of [get_request_len] from offset [i], with [s] the bytes that are left. *)
Fixpoint request_len_from (i : Z) (s : bytes) : Z :=
  match s with
  | c :: (c1 :: rest) as s' =>
      if negb (isprint c) && negb (c =? c_cr) && negb (c =? c_lf) && (c <? 128) then -1
      else if (c =? c_lf) && (c1 =? c_lf) then i + 2
      else if (c =? c_lf) && (c1 =? c_cr) && bool_decide (head rest = Some c_lf) then i + 3
      else request_len_from (i + 1) s'
  | _ => 0
  end.

Definition get_request_len (buf : bytes) (buflen : nat) : Z :=
  request_len_from 0 (take buflen buf).

Definition crlf : bytes := [c_cr; c_lf].

(** Up to [n] headers; what is left of the buffer is not used again. *)
Fixpoint parse_http_headers (n : nat) (buf : bytes) : list (bytes * bytes) :=
  match n with
  | O => []
  | S n' =>
      let '(name, buf) := skip_quoted buf (B ":") (B " ") 0 in
      let '(value, buf) := skip buf crlf in
      if chr name =? 0 then [] else (name, value) :: parse_http_headers n' buf
  end.

Definition is_valid_http_method (method : bytes) : bool :=
  streq method (B "GET") || streq method (B "POST") || streq method (B "HEAD")
  || streq method (B "CONNECT") || streq method (B "PUT") || streq method (B "DELETE")
  || streq method (B "OPTIONS") || streq method (B "PROPFIND").

Fixpoint skip_spaces (buf : bytes) : bytes :=
  match buf with
  | c :: buf' => if isspace c then skip_spaces buf' else buf
  | [] => []
  end.

(** The result and the new request information; the address fields are not touched. *)
Definition parse_http_message (buf : bytes) (len : nat) (ri : mg_request_info)
    : Z * mg_request_info :=
  let request_length := get_request_len buf len in
  if 0 <? request_length then
    let text := until_nul (take (Z.to_nat (request_length - 1)) buf) in
    let text := skip_spaces text in
    let '(method, text) := skip text (B " ") in
    let '(u, text) := skip text (B " ") in
    let '(version, text) := skip text crlf in
    let info ver hs := RequestInfo (Some method) (Some u) (Some ver) (query_string ri) None
                         (remote_ip ri) (remote_port ri) (ri_is_ssl ri) hs in
    let is_request := is_valid_http_method method in
    if (is_request && negb (starts_with version (B "HTTP/")))
       || (negb is_request && negb (starts_with method (B "HTTP/")))
    then (-1, info version [])
    else (request_length,
          info (if is_request then drop 5 version else version)
            (parse_http_headers max_headers text))
  else (request_length, ri).

Definition is_valid_uri (u : bytes) : bool :=
  (chr u =? c_slash) || ((chr u =? c_star) && (at_ u 1 =? 0)).

(** ** Examples *)

Definition no_request : mg_request_info :=
  RequestInfo None None None None None 0 0 false [].

Definition example_request : bytes :=
  B "GET /a%20b?x=1 HTTP/1.1" ++ crlf ++ B "Host: h" ++ crlf ++ B "X:y" ++ crlf ++ crlf ++ B "tail".

Example parse_example :
  parse_http_message example_request (length example_request) no_request
  = (41, RequestInfo (Some (B "GET")) (Some (B "/a%20b?x=1")) (Some (B "1.1")) None None 0 0 false
          [(B "Host", B "h"); (B "X", B "y")]).
Proof. by_eval. Qed.

Example skip_quoted_example :
  skip_quoted (B "a\'b' , c") (B "'") (B " ,") c_bslash = (B "a'b", B "c").
Proof. by_eval. Qed.

(** ** Lemmas on words *)

Lemma unquote_none fuel delims q w e :
  last w <> Some q -> unquote fuel delims q w e = (w, e).
Proof.
  intros H. destruct fuel; [done|]. simpl. by rewrite bool_decide_eq_false_2.
Qed.

Lemma cstr_last w : cstr w -> last w <> Some 0.
Proof.
  intros Hw E. apply last_Some_elem_of in E. rewrite Forall_forall in Hw.
  apply Hw in E. unfold is_char in E. lia.
Qed.

(** A word that does not end with the quote character, one delimiter, any white
    space. *)
Lemma skip_quoted_word_q w d ws rest delims white q :
  last w <> Some q -> Forall (fun c => mem c delims = false) w -> mem d delims = true ->
  Forall (fun c => mem c white = true) ws ->
  (forall c, head rest = Some c -> mem c white = false) ->
  skip_quoted (w ++ d :: ws ++ rest) delims white q = (w, rest).
Proof.
  intros Hw Hn Hd Hws Hr. unfold skip_quoted. rewrite strcspn_app by done.
  rewrite take_app_length, drop_app_length, unquote_none by done.
  f_equal. assert (strspn (ws ++ rest) white = length ws) as ->; [|apply drop_app_length].
  destruct rest as [|c rest].
  - rewrite app_nil_r. clear -Hws. induction Hws as [|c ws Hc _ IH]; simpl; [done|].
    by rewrite Hc, IH.
  - apply strspn_app; [done|by apply Hr].
Qed.

Lemma skip_quoted_word w d ws rest delims white :
  cstr w -> Forall (fun c => mem c delims = false) w -> mem d delims = true ->
  Forall (fun c => mem c white = true) ws ->
  (forall c, head rest = Some c -> mem c white = false) ->
  skip_quoted (w ++ d :: ws ++ rest) delims white 0 = (w, rest).
Proof. intros Hw. apply skip_quoted_word_q. by apply cstr_last. Qed.

Lemma skip_quoted_end w delims white :
  cstr w -> Forall (fun c => mem c delims = false) w ->
  skip_quoted w delims white 0 = (w, []).
Proof.
  intros Hw Hn. unfold skip_quoted. rewrite strcspn_all by done.
  rewrite take_ge, drop_ge, unquote_none by (done || by apply cstr_last). done.
Qed.

(** What is left is never longer than the text, and shorter after a delimiter. *)
Lemma unquote_length fuel delims q w e :
  (length (snd (unquote fuel delims q w e)) <= length e)%nat.
Proof.
  revert w e. induction fuel as [|fuel IH]; intros w e; simpl; [lia|].
  case_match; [|simpl; lia]. destruct e as [|c e]; [done|].
  etransitivity; [apply IH|]. rewrite length_drop. lia.
Qed.

(** ** The end of a request *)

(** A byte the scan refuses. *)
Definition bad_byte (c : Z) : bool :=
  negb (isprint c) && negb (c =? c_cr) && negb (c =? c_lf) && (c <? 128).

(** [s] ends with a blank line. *)
Definition blank_end (s : bytes) : Prop :=
  exists h, s = h ++ [c_lf; c_lf] \/ s = h ++ [c_lf; c_cr; c_lf].

Lemma request_len_app i a b :
  request_len_from i a <> 0 -> request_len_from i (a ++ b) = request_len_from i a.
Proof.
  revert i. induction a as [|c a IH]; intros i H; [done|].
  destruct a as [|c1 a]; [done|]. cbn [app] in *.
  change ((c :: c1 :: a) ++ b) with (c :: c1 :: (a ++ b)).
  cbn [request_len_from] in *. destruct (bad_byte c) eqn:Eb; unfold bad_byte in Eb; rewrite Eb in *; [done|].
  destruct ((c =? c_lf) && (c1 =? c_lf)); [done|].
  destruct a as [|c2 a].
  - simpl in H. rewrite andb_false_r in H. simpl in H. by destruct H.
  - cbn [head app] in *. destruct ((c =? c_lf) && (c1 =? c_cr) && _); [done|]. by apply IH.
Qed.

(** The scan is stable: once a prefix decides, more data changes nothing. *)
Lemma get_request_len_mono buf n m :
  (n <= m)%nat -> get_request_len buf n <> 0 -> get_request_len buf m = get_request_len buf n.
Proof.
  intros Hnm H. unfold get_request_len in *.
  rewrite <- (take_drop n (take m buf)), take_take, Nat.min_l by done. by apply request_len_app.
Qed.

(** A blank line that starts at offset [k], and the number of its bytes. *)
Definition blank_at (s : bytes) (k : nat) : option Z :=
  if starts_with (drop k s) [c_lf; c_lf] then Some 2
  else if starts_with (drop k s) [c_lf; c_cr; c_lf] then Some 3 else None.

Definition bad_at (s : bytes) (k : nat) : Prop := exists c, s !! k = Some c /\ bad_byte c = true.

(** What a scan of [s] that started at offset [i] has found. *)
Inductive scan_result (i : Z) (s : bytes) : Z -> Prop :=
  | scan_end k e :
      blank_at s k = Some e ->
      (forall k', (k' < k)%nat -> blank_at s k' = None) ->
      (forall k', (k' <= k)%nat -> ~ bad_at s k') ->
      scan_result i s (i + Z.of_nat k + e)
  | scan_bad k :
      bad_at s k -> (S k < length s)%nat ->
      (forall k', (k' < k)%nat -> blank_at s k' = None /\ ~ bad_at s k') ->
      scan_result i s (-1)
  | scan_more :
      (forall k, blank_at s k = None) ->
      (forall k, (S k < length s)%nat -> ~ bad_at s k) ->
      scan_result i s 0.

Lemma blank_at_0 c c1 rest :
  blank_at (c :: c1 :: rest) 0
  = if (c =? c_lf) && (c1 =? c_lf) then Some 2
    else if (c =? c_lf) && (c1 =? c_cr) && bool_decide (head rest = Some c_lf) then Some 3 else None.
Proof.
  unfold blank_at, starts_with. rewrite drop_0. simpl.
  destruct (Z.eqb_spec c c_lf) as [->|]; [|by rewrite !bool_decide_eq_false_2 by congruence].
  destruct (Z.eqb_spec c1 c_lf) as [->|]; [by rewrite bool_decide_eq_true_2|].
  rewrite bool_decide_eq_false_2 by congruence. simpl.
  destruct (Z.eqb_spec c1 c_cr) as [->|]; [|by rewrite bool_decide_eq_false_2 by congruence].
  simpl. destruct rest as [|c2 rest]; [done|]. simpl.
  destruct (decide (c2 = c_lf)) as [->|]; [done|].
  rewrite !bool_decide_eq_false_2 by congruence. done.
Qed.

Lemma scan_shift i c s r :
  blank_at (c :: s) 0 = None -> bad_byte c = false -> s <> [] ->
  scan_result (i + 1) s r -> scan_result i (c :: s) r.
Proof.
  intros H0 Hc Hne Hr.
  assert (forall k, bad_at (c :: s) (S k) <-> bad_at s k) as Hs by done.
  assert (~ bad_at (c :: s) 0) as Hb by (intros (d & [= <-] & ?); congruence).
  destruct Hr as [k e He Hk Hbk|k Hbad Hl Hk|Hn Hbk].
  - replace (i + 1 + Z.of_nat k + e) with (i + Z.of_nat (S k) + e) by lia.
    apply scan_end; [done|..]; intros [|k'] Hk'; try done; [apply Hk; lia|].
    rewrite Hs. apply Hbk. lia.
  - apply (scan_bad _ _ (S k)); [done|simpl; lia|]. intros [|k'] Hk'; [done|].
    rewrite Hs. apply Hk. lia.
  - apply scan_more; intros [|k]; [done|apply Hn|done|]. simpl. rewrite Hs. intros. apply Hbk. lia.
Qed.

Lemma request_len_scan i s : scan_result i s (request_len_from i s).
Proof.
  revert i. induction s as [|c s IH]; intros i.
  - apply scan_more; [|simpl; lia]. intros k. unfold blank_at. by rewrite drop_nil.
  - destruct s as [|c1 rest].
    + apply scan_more; [|simpl; lia]. intros [|k]; unfold blank_at, starts_with; simpl.
      * by rewrite !bool_decide_eq_false_2 by done.
      * by rewrite drop_nil.
    + pose proof (blank_at_0 c c1 rest) as Hb. cbn [request_len_from].
      destruct (bad_byte c) eqn:Eb; unfold bad_byte in Eb; rewrite Eb.
      * apply (scan_bad _ _ 0); [by exists c|simpl; lia|lia].
      * assert (~ bad_at (c :: c1 :: rest) 0) as Hnb
          by (intros (d & [= <-] & Hd); unfold bad_byte in Hd; congruence).
        assert (forall e, blank_at (c :: c1 :: rest) 0 = Some e ->
          scan_result i (c :: c1 :: rest) (i + e)) as Hend.
        { intros e He. replace (i + e) with (i + Z.of_nat 0 + e) by lia.
          apply scan_end; [done|lia|]. intros [|k'] Hk'; [done|lia]. }
        destruct ((c =? c_lf) && (c1 =? c_lf)); [by apply Hend|].
        destruct ((c =? c_lf) && (c1 =? c_cr) && _); [by apply Hend|].
        apply scan_shift; [done|done|done|apply IH].
Qed.

Lemma blank_at_le s k e : blank_at s k = Some e -> Z.of_nat k + e <= Z.of_nat (length s).
Proof.
  unfold blank_at. destruct (starts_with (drop k s) [c_lf; c_lf]) eqn:E2;
    [|destruct (starts_with (drop k s) [c_lf; c_cr; c_lf]) eqn:E3; [|done]]; intros [= <-];
    [apply starts_with_true in E2 as (r & E)|apply starts_with_true in E3 as (r & E)];
    apply (f_equal length) in E; rewrite length_drop, length_app in E; cbn [length] in E; lia.
Qed.

Lemma get_request_len_le buf n : get_request_len buf n <= Z.of_nat (Nat.min n (length buf)).
Proof.
  unfold get_request_len. rewrite <- length_take. destruct (request_len_scan 0 (take n buf)) as [k e He _ _| |].
  - apply blank_at_le in He. lia.
  - lia.
  - lia.
Qed.

(** [get_request_len] finds the first blank line: a positive result is the end
    of the first [\n\n] or [\n\r\n] in the buffer, -1 means that a control character
    comes before any blank line, 0 that neither is there yet. *)
Theorem get_request_len_first (buf : bytes) (buflen : nat) :
  scan_result 0 (take buflen buf) (get_request_len buf buflen).
Proof. apply request_len_scan. Qed.

(** ** Printing and parsing *)

(** A byte that may stand in a line. *)
Definition text_byte (c : Z) : Prop :=
  is_char c /\ bad_byte c = false /\ c <> c_cr /\ c <> c_lf.
Definition word_byte (c : Z) : Prop := text_byte c /\ c <> c_space.

#[export] Instance text_byte_dec c : Decision (text_byte c).
Proof. unfold text_byte. apply _. Defined.
#[export] Instance word_byte_dec c : Decision (word_byte c).
Proof. unfold word_byte. apply _. Defined.

Definition header_text (h : bytes * bytes) : bytes := h.1 ++ B ": " ++ h.2 ++ crlf.
Definition headers_text (hs : list (bytes * bytes)) : bytes := concat (map header_text hs).
(** A first line of three words, the last of which may have blanks, and headers. *)
Definition line_text (a b c : bytes) (hs : list (bytes * bytes)) : bytes :=
  (a ++ B " " ++ b ++ B " " ++ c) ++ crlf ++ headers_text hs ++ crlf.
Definition request_text (method u version : bytes) (hs : list (bytes * bytes)) : bytes :=
  (method ++ B " " ++ u ++ B " HTTP/" ++ version) ++ crlf ++ headers_text hs ++ crlf.
Definition response_text (version status reason : bytes) (hs : list (bytes * bytes)) : bytes :=
  line_text (B "HTTP/" ++ version) status reason hs.

Lemma text_cstr s : Forall text_byte s -> cstr s.
Proof. intros H. eapply Forall_impl; [exact H|]. by intros c []. Qed.

Lemma text_no_crlf s : Forall text_byte s -> Forall (fun c => mem c crlf = false) s.
Proof.
  intros H. eapply Forall_impl; [exact H|]. intros c (_ & _ & Hr & Hn).
  apply mem_false. unfold crlf. rewrite !not_elem_of_cons. split_and!; [done..|apply not_elem_of_nil].
Qed.

Lemma request_len_step i c s :
  bad_byte c = false -> s <> [] -> c <> c_lf ->
  request_len_from i (c :: s) = request_len_from (i + 1) s.
Proof.
  intros Hb Hs Hlf. destruct s as [|c1 t]; [done|].
  change (request_len_from i (c :: c1 :: t)) with
    (if bad_byte c then -1 else if (c =? c_lf) && (c1 =? c_lf) then i + 2
     else if (c =? c_lf) && (c1 =? c_cr) && bool_decide (head t = Some c_lf) then i + 3
     else request_len_from (i + 1) (c1 :: t)).
  by rewrite Hb, (proj2 (Z.eqb_neq c c_lf)).
Qed.

(** The scan passes over a line that is not empty and is followed by another. *)
Lemma scan_text i w s :
  Forall text_byte w -> s <> [] ->
  request_len_from i (w ++ s) = request_len_from (i + Z.of_nat (length w)) s.
Proof.
  intros Hw Hs. revert i. induction Hw as [|c w (Hc & Hb & Hcr & Hlf) _ IH]; intros i.
  - simpl. f_equal. lia.
  - cbn [app length]. rewrite request_len_step; [|done| |done].
    + rewrite IH. f_equal. lia.
    + intros E. by apply app_eq_nil in E as [].
Qed.

Lemma scan_line i w c s :
  Forall text_byte w -> text_byte c ->
  request_len_from i (w ++ crlf ++ c :: s)
  = request_len_from (i + Z.of_nat (length w) + 2) (c :: s).
Proof.
  intros Hw (_ & _ & Hcr & Hlf). rewrite scan_text by done.
  set (j := i + _). replace (j + 2) with (j + 1 + 1) by lia. unfold crlf.
  apply Z.eqb_neq in Hcr, Hlf. cbn [request_len_from app]. simpl.
  by rewrite Hcr, Hlf.
Qed.

Lemma scan_last_line i w s :
  Forall text_byte w ->
  request_len_from i (w ++ crlf ++ crlf ++ s) = i + Z.of_nat (length w) + 4.
Proof. intros Hw. rewrite scan_text by done. unfold crlf. simpl. lia. Qed.

Lemma headers_scan i w hs s :
  Forall text_byte w ->
  Forall (fun '(name, value) => Forall text_byte name /\ name <> [] /\ Forall text_byte value) hs ->
  request_len_from i (w ++ crlf ++ headers_text hs ++ crlf ++ s)
  = i + Z.of_nat (length (w ++ crlf ++ headers_text hs ++ crlf)).
Proof.
  intros Hw Hhs. revert i w Hw. induction Hhs as [|[name value] hs (Hn & Hne & Hv) _ IH]; intros i w Hw.
  - cbn [headers_text map concat app]. rewrite scan_last_line by done.
    unfold crlf. autorewrite with tw_len. simpl. lia.
  - assert (Forall text_byte (name ++ B ": " ++ value)) as Hl.
    { rewrite !Forall_app. split_and!; [done| |done]. by_decide. }
    assert (exists c t, name ++ B ": " ++ value = c :: t /\ text_byte c) as (c & t & Et & Hc).
    { destruct name as [|c name]; [done|]. apply Forall_cons in Hn as [Hc _]. by eexists _, _. }
    assert (headers_text ((name, value) :: hs) = (name ++ B ": " ++ value) ++ crlf ++ headers_text hs)
      as Eh by (unfold headers_text, header_text; cbn [map concat fst snd]; by rewrite <- !app_assoc).
    rewrite Eh, <- !app_assoc, (app_assoc name), (app_assoc _ value), <- (app_assoc name).
    rewrite Et. change ((c :: t) ++ ?x) with (c :: (t ++ x)) at 1. rewrite scan_line by done.
    rewrite app_comm_cons, <- Et, IH by done. autorewrite with tw_len. unfold crlf. simpl. lia.
Qed.

(** The text after a line has been cut off: nothing when it was the last one. *)
Definition rest_text (hs : list (bytes * bytes)) : bytes :=
  match hs with [] => [] | _ => headers_text hs ++ [c_cr] end.

Definition header_ok (h : bytes * bytes) : Prop :=
  let '(name, value) := h in
  Forall text_byte name /\ name <> [] /\ (c_colon ∉ name) /\
  Forall text_byte value /\ head value <> Some c_space.

#[export] Instance header_ok_dec h : Decision (header_ok h).
Proof. destruct h. unfold header_ok. apply _. Defined.

Lemma skip_line w hs :
  Forall text_byte w -> Forall header_ok hs ->
  skip (w ++ crlf ++ headers_text hs ++ [c_cr]) crlf = (w, rest_text hs).
Proof.
  intros Hw Hhs. unfold skip. change (crlf ++ ?x) with (c_cr :: [c_lf] ++ x).
  destruct Hhs as [|[name value] hs (Hn & Hne & _) _]; cbn [rest_text].
  - apply (skip_quoted_word w c_cr [c_lf; c_cr] []);
      [by apply text_cstr|by apply text_no_crlf|done|by repeat constructor|done].
  - apply skip_quoted_word;
      [by apply text_cstr|by apply text_no_crlf|done|by repeat constructor|].
    + intros c Hc. destruct name as [|d name]; [done|]. simpl in Hc. injection Hc as <-.
      apply text_no_crlf in Hn. by apply Forall_cons in Hn as [].
Qed.

Lemma parse_headers_text n hs :
  Forall header_ok hs -> parse_http_headers n (rest_text hs) = take n hs.
Proof.
  intros Hhs. revert n. induction Hhs as [|[name value] hs (Hn & Hne & Hc & Hv & Hs) Hhs IH];
    intros [|n]; try done.
  cbn [rest_text parse_http_headers].
  assert (headers_text ((name, value) :: hs) ++ [c_cr]
    = name ++ c_colon :: [c_space] ++ (value ++ crlf ++ headers_text hs ++ [c_cr])) as ->
    by (unfold headers_text, header_text; cbn [map concat fst snd]; by rewrite <- !app_assoc).
  rewrite (skip_quoted_word name c_colon [c_space]); cycle 1.
  - by apply text_cstr.
  - rewrite Forall_forall. intros c Hin. apply mem_false. intros ->%list_elem_of_singleton. done.
  - done.
  - by repeat constructor.
  - intros c Hhead. apply mem_false. intros ->%list_elem_of_singleton. by destruct value.
  - rewrite skip_line by done. destruct name as [|d name]; [done|].
    apply Forall_cons in Hn as [(Hd & _) _]. unfold is_char in Hd. unfold chr. simpl.
    rewrite (proj2 (Z.eqb_neq d 0)) by lia. by rewrite IH.
Qed.

Lemma valid_method_bytes m :
  is_valid_http_method m = true -> Forall word_byte m /\ exists c m', m = c :: m' /\ isspace c = false.
Proof.
  unfold is_valid_http_method. rewrite !orb_true_iff, !streq_true.
  intros H. repeat destruct H as [H|H]; subst m;
    (split; [by_decide|by eexists _, _]).
Qed.

Lemma word_no_space w : Forall word_byte w -> Forall (fun c => mem c (B " ") = false) w.
Proof.
  intros H. eapply Forall_impl; [exact H|]. intros c [_ Hc]. apply mem_false.
  by intros ->%list_elem_of_singleton.
Qed.

Lemma word_text w : Forall word_byte w -> Forall text_byte w.
Proof. intros H. eapply Forall_impl; [exact H|]. by intros c []. Qed.

Lemma headers_text_cstr hs : Forall header_ok hs -> cstr (headers_text hs).
Proof.
  intros H. unfold headers_text. induction H as [|[name value] hs (Hn & _ & _ & Hv & _) _ IH];
    [constructor|]. cbn [map concat]. unfold header_text. cbn [fst snd].
  rewrite !cstr_app. split_and!; auto using text_cstr; by_decide.
Qed.

(** A word before one space. *)
Lemma skip_space w c rest :
  Forall word_byte w -> c <> c_space -> skip (w ++ B " " ++ c :: rest) (B " ") = (w, c :: rest).
Proof.
  intros Hw Hc. apply (skip_quoted_word w c_space [] (c :: rest)).
  - by apply text_cstr, word_text.
  - by apply word_no_space.
  - done.
  - constructor.
  - intros d [= <-]. apply mem_false. by intros ->%list_elem_of_singleton.
Qed.

(** ** Messages *)

(** What makes a printed message readable. *)
Record line_ok (a b c : bytes) (hs : list (bytes * bytes)) : Prop := LineOk {
  lk_a : Forall word_byte a;
  lk_a_ne : a <> [];
  lk_b : Forall word_byte b;
  lk_b_ne : b <> [];
  lk_c : Forall text_byte c;
  lk_c_ne : c <> [];
  lk_c_space : chr c <> c_space;
  lk_headers : Forall header_ok hs
}.

Lemma word_no_isspace c : word_byte c -> isspace c = false.
Proof.
  intros [(Hc & Hb & Hcr & Hlf) Hs]. unfold bad_byte, isprint, is_char, isspace in *.
  destruct (Z.eqb_spec c 32); [done|]. simpl.
  destruct (Z.leb_spec 9 c), (Z.leb_spec c 13); try done. simpl.
  exfalso. assert (c = 9 \/ c = 11 \/ c = 12) as [->|[->| ->]] by lia; done.
Qed.

Lemma first_line_text a b c hs : line_ok a b c hs -> Forall text_byte (a ++ B " " ++ b ++ B " " ++ c).
Proof. intros []. rewrite !Forall_app. split_and!; auto using word_text; by_decide. Qed.

Lemma line_text_len a b c hs body len :
  line_ok a b c hs -> (length (line_text a b c hs) <= len)%nat ->
  get_request_len (line_text a b c hs ++ body) len = Z.of_nat (length (line_text a b c hs)).
Proof.
  intros Hok Hlen. unfold get_request_len. rewrite take_app_ge by done.
  unfold line_text. rewrite <- !(app_assoc (_ ++ B " " ++ _)), <- !(app_assoc crlf),
    <- (app_assoc (headers_text hs)).
  apply headers_scan; [by eapply first_line_text|]. eapply Forall_impl; [apply Hok|].
  intros [name value] (? & ? & _ & ? & _). done.
Qed.

(** The text without its last byte, which the parser overwrites. *)
Lemma line_text_cut a b c hs :
  line_ok a b c hs ->
  let X := (a ++ B " " ++ b ++ B " " ++ c) ++ crlf ++ headers_text hs ++ [c_cr] in
  line_text a b c hs = X ++ [c_lf] /\ cstr X /\ skip_spaces X = X.
Proof.
  intros Hok X. pose proof (first_line_text _ _ _ _ Hok) as Hl. destruct Hok as [Ha Hne _ _ _ _ _ Hhs]. split_and!.
  - unfold line_text, X, crlf. by rewrite <- !app_assoc.
  - unfold X. rewrite !cstr_app in *. apply text_cstr in Hl. rewrite !cstr_app in Hl.
    split_and!; auto using headers_text_cstr; try tauto; by_decide.
  - unfold X. destruct a as [|x a]; [done|]. apply Forall_cons in Ha as [Hx _]. simpl.
    by rewrite word_no_isspace.
Qed.

(** The first line and the headers come out again. *)
Lemma parse_line_text a b c hs body len ri :
  line_ok a b c hs -> (length (line_text a b c hs) <= len)%nat ->
  let info v hs := RequestInfo (Some a) (Some b) (Some v) (query_string ri) None
                     (remote_ip ri) (remote_port ri) (ri_is_ssl ri) hs in
  parse_http_message (line_text a b c hs ++ body) len ri
  = if is_valid_http_method a then
      if starts_with c (B "HTTP/") then (Z.of_nat (length (line_text a b c hs)), info (drop 5 c) (take 64 hs))
      else (-1, info c [])
    else if starts_with a (B "HTTP/") then (Z.of_nat (length (line_text a b c hs)), info c (take 64 hs))
    else (-1, info c []).
Proof.
  intros Hok Hlen info. unfold parse_http_message. rewrite line_text_len by done.
  destruct (line_text_cut _ _ _ _ Hok) as (-> & HX & Hsp). set (X := _ ++ crlf ++ _) in *.
  destruct Hok as [Ha Hane Hb Hbne Hc Hcne Hcs Hhs].
  destruct b as [|cb b']; [done|]. apply Forall_cons in Hb as Hb'. destruct Hb' as [[_ Hcb] _].
  destruct c as [|cc c']; [done|]. change (chr (cc :: c')) with cc in Hcs.
  rewrite length_app. cbn [length]. rewrite (proj2 (Z.ltb_lt _ _)) by lia.
  replace (Z.to_nat (Z.of_nat (length X + 1) - 1)) with (length X) by lia.
  rewrite <- app_assoc, take_app_length, until_nul_id, Hsp by done.
  unfold X at 1. rewrite <- !app_assoc. cbn [app]. rewrite skip_space by done.
  change (cb :: b' ++ B " " ++ ?x) with ((cb :: b') ++ B " " ++ x). rewrite skip_space by done.
  rewrite app_comm_cons, skip_line by done. rewrite parse_headers_text by done.
  destruct (is_valid_http_method a); [destruct (starts_with (cc :: c') _)|destruct (starts_with a _)];
    cbn [andb orb negb]; done.
Qed.

(** What makes a printed request readable. *)
Record request_ok (method u version : bytes) (hs : list (bytes * bytes)) : Prop := RequestOk {
  rq_method : is_valid_http_method method = true;
  rq_uri : Forall word_byte u;
  rq_uri_ne : u <> [];
  rq_version : Forall text_byte version;
  rq_headers : Forall header_ok hs
}.

Lemma request_line_ok method u version hs :
  request_ok method u version hs -> line_ok method u (B "HTTP/" ++ version) hs.
Proof.
  intros []. destruct (valid_method_bytes _ rq_method0) as [Hm (c & m' & -> & _)]. constructor; try done.
  rewrite Forall_app. split; [by_decide|done].
Qed.

Lemma request_text_len method u version hs body len :
  request_ok method u version hs -> (length (request_text method u version hs) <= len)%nat ->
  get_request_len (request_text method u version hs ++ body) len
  = Z.of_nat (length (request_text method u version hs)).
Proof. intros Hok%request_line_ok. by apply line_text_len. Qed.

Lemma parse_request_text method u version hs body len ri :
  request_ok method u version hs -> (length (request_text method u version hs) <= len)%nat ->
  parse_http_message (request_text method u version hs ++ body) len ri
  = (Z.of_nat (length (request_text method u version hs)),
     RequestInfo (Some method) (Some u) (Some version) (query_string ri) None
       (remote_ip ri) (remote_port ri) (ri_is_ssl ri) (take 64 hs)).
Proof.
  intros Hok Hlen. pose proof (parse_line_text _ _ _ _ body len ri (request_line_ok _ _ _ _ Hok) Hlen) as E.
  cbv zeta in E. rewrite (rq_method _ _ _ _ Hok) in E.
  replace (starts_with (B "HTTP/" ++ version) (B "HTTP/")) with true in E
    by (symmetry; apply starts_with_true; by eexists).
  exact E.
Qed.

(** A reply: its version, status and reason take the place of method, URI and version. *)
Lemma parse_response_text version status reason hs body len ri :
  line_ok (B "HTTP/" ++ version) status reason hs ->
  (length (response_text version status reason hs) <= len)%nat ->
  parse_http_message (response_text version status reason hs ++ body) len ri
  = (Z.of_nat (length (response_text version status reason hs)),
     RequestInfo (Some (B "HTTP/" ++ version)) (Some status) (Some reason) (query_string ri) None
       (remote_ip ri) (remote_port ri) (ri_is_ssl ri) (take 64 hs)).
Proof.
  intros Hok Hlen. unfold response_text in *. rewrite parse_line_text by done.
  replace (is_valid_http_method (B "HTTP/" ++ version)) with false by done.
  replace (starts_with (B "HTTP/" ++ version) (B "HTTP/")) with true
    by (symmetry; apply starts_with_true; by eexists).
  done.
Qed.

(** What an accepted request line and headers look like. *)
Definition method_ok (m : bytes) : Prop := is_valid_http_method m = true \/ starts_with m (B "HTTP/") = true.

Lemma parse_http_headers_ok n text :
  (length (parse_http_headers n text) <= n)%nat /\ Forall (fun h => fst h <> []) (parse_http_headers n text).
Proof.
  revert text. induction n as [|n IH]; intros text; cbn [parse_http_headers]; [by split; [simpl; lia|]|].
  destruct (skip_quoted _ _ _ _) as [name t1]. destruct (skip t1 crlf) as [value t2].
  destruct (Z.eqb_spec (chr name) 0) as [|Hn]; [split; [simpl; lia|constructor]|]. destruct (IH t2) as [Hl Hf].
  split; [simpl; lia|]. constructor; [|done]. simpl. by intros ->.
Qed.

Lemma parse_http_message_ok buf len ri res ri' :
  parse_http_message buf len ri = (res, ri') -> 0 < res ->
  exists m u v hs, ri' = RequestInfo (Some m) (Some u) (Some v) (query_string ri) None
      (remote_ip ri) (remote_port ri) (ri_is_ssl ri) hs /\
    method_ok m /\ (length hs <= 64)%nat /\ Forall (fun h => fst h <> []) hs.
Proof.
  unfold parse_http_message. destruct (Z.ltb_spec 0 (get_request_len buf len)); [|intros [= <- <-]; lia].
  destruct (skip (skip_spaces _) _) as [m t1]. destruct (skip t1 _) as [u t2]. destruct (skip t2 crlf) as [v text].
  destruct ((is_valid_http_method m && _) || _) eqn:Eb; [intros [= <- <-]; lia|]. intros [= <- <-] _.
  apply orb_false_iff in Eb as [_ Eb]. destruct (parse_http_headers_ok max_headers text).
  eexists m, u, _, _. split; [reflexivity|]. split; [|done]. unfold method_ok.
  destruct (is_valid_http_method m); [by left|right]. by destruct (starts_with m _).
Qed.

(** C22. Parsing undoes printing: a request line and headers printed with one space
    after each colon and CRLF line ends are found complete in a buffer that holds
    anything after them, and come out again, headers after the 64th left out; the
    address fields of the request information are not touched. *)
Theorem parse_http_message_print method u version hs body len ri :
  is_valid_http_method method = true ->
  Forall word_byte u -> u <> [] -> Forall text_byte version -> Forall header_ok hs ->
  (length (request_text method u version hs) <= len)%nat ->
  parse_http_message (request_text method u version hs ++ body) len ri
  = (Z.of_nat (length (request_text method u version hs)),
     RequestInfo (Some method) (Some u) (Some version) (query_string ri) None
       (remote_ip ri) (remote_port ri) (ri_is_ssl ri) (take 64 hs)).
Proof. intros. by apply parse_request_text. Qed.

Lemma parse_http_message_print_witness :
  parse_http_message (request_text (B "PUT") (B "/f") (B "1.1") [(B "Content-Length", B "3")] ++ B "abc")
    100 no_request
  = (38, RequestInfo (Some (B "PUT")) (Some (B "/f")) (Some (B "1.1")) None None 0 0 false
          [(B "Content-Length", B "3")]).
Proof.
  apply (parse_http_message_print (B "PUT") (B "/f") (B "1.1") [(B "Content-Length", B "3")]);
    first [by_eval | by_decide | by_decide].
Defined.
