(* ===== verification/Scanf.v ===== *)
(** * Numbers in text, [sscanf] and [strtoll]

    The directives of [sscanf] that the program uses, with the C library's rules for
    the end of the input, white space and overflow, and decimal printing.  Used by
    the parsers of addresses, ports, dates, ranges and password files. *)

From S2P Require Import Prelude.

(** ** Decimal numbers *)

Fixpoint dec_fuel (fuel : nat) (n : Z) : bytes :=
  match fuel with
  | O => []
  | S fuel' => (if n <? 10 then [] else dec_fuel fuel' (n / 10)) ++ [48 + n mod 10]
  end.

(** [printf("%d")]; the logarithm of the number bounds its digits. *)
Definition dec (n : Z) : bytes :=
  if n <? 0 then c_minus :: dec_fuel (S (Z.to_nat (Z.log2 (- n)))) (- n)
  else dec_fuel (S (Z.to_nat (Z.log2 n))) n.

(** The digits at the start of [s], with those before worth [acc]: the number and
    the rest. *)
Fixpoint digits (acc : Z) (s : bytes) : Z * bytes :=
  match s with
  | c :: s' => if isdigit c then digits (acc * 10 + (c - 48)) s' else (acc, s)
  | [] => (acc, [])
  end.

Fixpoint skip_ws (s : bytes) : bytes :=
  match s with
  | c :: s' => if isspace c then skip_ws s' else s
  | [] => []
  end.

Definition LONG_MAX : Z := 2 ^ 63 - 1.
Definition LONG_MIN : Z := - 2 ^ 63.
Definition clamp64 (z : Z) : Z := Z.max LONG_MIN (Z.min LONG_MAX z).

(** An optional sign and digits, without leading white space: [None] when there is
    no digit.  The value saturates at the limits of 64 bits. *)
Definition scan_number (s : bytes) : option (Z * bytes) :=
  let '(neg, s) := match s with
                   | c :: s' => if c =? c_minus then (true, s')
                                else if c =? c_plus then (false, s') else (false, s)
                   | [] => (false, s)
                   end in
  match s with
  | c :: _ =>
      if isdigit c then
        let '(n, rest) := digits 0 s in Some (clamp64 (if neg then - n else n), rest)
      else None
  | [] => None
  end.

(** [strtoll(s, NULL, 10)] and [atoi(s)]. *)
Definition strtoll (s : bytes) : Z := default 0 (fst <$> scan_number (skip_ws s)).
Definition atoi (s : bytes) : Z := int32 (strtoll s).

(** ** Directives *)

Inductive directive :=
  | Lit (c : Z)                                   (* an ordinary character *)
  | Ws                                            (* white space *)
  | Pd                                            (* %d *)
  | Plld                                          (* %lld *)
  | Ps (width : option nat) (store : bool)        (* %s, %3s, %*3s *)
  | Pnot (width : option nat) (set : bytes) (store : bool)   (* %[^...], %*[^...] *)
  | Pn.                                           (* %n *)

Inductive scanned := SInt (z : Z) | SStr (s : bytes).

(** The bytes a field may take. *)
Definition field (width : option nat) (stop : Z -> bool) (s : bytes) : bytes * bytes :=
  let fix go (n : nat) (s : bytes) {struct s} :=
    match s with
    | c :: s' =>
        if stop c then ([], s)
        else if bool_decide (width = Some n) then ([], s)
        else let '(w, rest) := go (S n) s' in (c :: w, rest)
    | [] => ([], [])
    end in
  go 0%nat s.

(** The number of assignments, or -1 when the input ends before the first one, and
    the values assigned.  [total] is the length of the input, for [%n]. *)
Fixpoint scan (total : nat) (fmt : list directive) (s : bytes) (done : Z)
    : Z * list scanned :=
  let input_error := (if done =? 0 then -1 else done, []) in
  match fmt with
  | [] => (done, [])
  | d :: fmt' =>
      match d with
      | Ws => scan total fmt' (skip_ws s) done
      | Lit c =>
          match s with
          | [] => input_error
          | x :: s' => if x =? c then scan total fmt' s' done else (done, [])
          end
      | Pd | Plld =>
          match skip_ws s with
          | [] => input_error
          | s' =>
              match scan_number s' with
              | None => (done, [])
              | Some (z, rest) =>
                  let z' := match d with Pd => int32 z | _ => z end in
                  let '(n, vs) := scan total fmt' rest (done + 1) in (n, SInt z' :: vs)
              end
          end
      | Ps width store =>
          match skip_ws s with
          | [] => input_error
          | s' =>
              let '(w, rest) := field width isspace s' in
              if store then
                let '(n, vs) := scan total fmt' rest (done + 1) in (n, SStr w :: vs)
              else scan total fmt' rest done
          end
      | Pnot width set store =>
          match s with
          | [] => input_error
          | _ =>
              let '(w, rest) := field width (fun c => mem c set) s in
              match w with
              | [] => (done, [])
              | _ =>
                  if store then
                    let '(n, vs) := scan total fmt' rest (done + 1) in (n, SStr w :: vs)
                  else scan total fmt' rest done
              end
          end
      | Pn =>
          let '(n, vs) := scan total fmt' s done in
          (n, SInt (Z.of_nat (total - length s)) :: vs)
      end
  end.

Definition sscanf (s : bytes) (fmt : list directive) : Z * list scanned :=
  scan (length s) fmt s 0.

Example sscanf_ip :
  sscanf (B "10.0.0.1/8,x") [Pd; Lit c_dot; Pd; Lit c_dot; Pd; Lit c_dot; Pd; Lit c_slash; Pd; Pn]
  = (5, [SInt 10; SInt 0; SInt 0; SInt 1; SInt 8; SInt 10]).
Proof. by_eval. Qed.
Example sscanf_eof : fst (sscanf [] [Pd]) = -1.
Proof. by_eval. Qed.
Example sscanf_big : sscanf (B "4294967297") [Pd] = (1, [SInt 1]).
Proof. by_eval. Qed.
Example sscanf_huge : sscanf (B "99999999999999999999") [Pd] = (1, [SInt (-1)]).
Proof. by_eval. Qed.

(** ** Printing and scanning numbers *)

Lemma dec_fuel_digits fuel n : 0 <= n -> Forall (fun c => isdigit c = true) (dec_fuel fuel n).
Proof.
  revert n. induction fuel as [|fuel IH]; intros n Hn; simpl; [constructor|].
  apply Forall_app. split.
  - destruct (n <? 10); [constructor|]. apply IH. by apply Z.div_pos.
  - constructor; [|constructor]. pose proof (Z.mod_pos_bound n 10). unfold isdigit.
    apply andb_true_iff. lia.
Qed.

Lemma digits_app acc ds rest :
  Forall (fun c => isdigit c = true) ds ->
  digits acc (ds ++ rest) = digits (fst (digits acc ds)) rest.
Proof.
  intros H. revert acc. induction H as [|c ds Hc _ IH]; intros acc; simpl; [done|].
  by rewrite Hc, IH.
Qed.

Lemma digits_snoc acc ds c :
  Forall (fun c => isdigit c = true) ds -> isdigit c = true ->
  fst (digits acc (ds ++ [c])) = fst (digits acc ds) * 10 + (c - 48).
Proof. intros H Hc. rewrite digits_app by done. simpl. by rewrite Hc. Qed.

Lemma dec_fuel_value fuel n :
  0 <= n -> n < 2 ^ Z.of_nat fuel -> fst (digits 0 (dec_fuel fuel n)) = n.
Proof.
  revert n. induction fuel as [|fuel IH]; intros n Hn Hf.
  - simpl in *. lia.
  - cbn [dec_fuel]. pose proof (Z.mod_pos_bound n 10 ltac:(lia)).
    rewrite Nat2Z.inj_succ, Z.pow_succ_r in Hf by lia.
    rewrite digits_snoc.
    + destruct (Z.ltb_spec n 10).
      * simpl. rewrite Z.mod_small by lia. lia.
      * rewrite IH; [|by apply Z.div_pos|apply Z.div_lt_upper_bound; lia].
        pose proof (Z.div_mod n 10). lia.
    + destruct (n <? 10); [constructor|]. apply dec_fuel_digits. by apply Z.div_pos.
    + unfold isdigit. apply andb_true_iff. lia.
Qed.

(** A number that fits is scanned as it was printed, whatever follows it. *)
Lemma scan_number_dec n rest :
  LONG_MIN <= n <= LONG_MAX ->
  (forall c, head rest = Some c -> isdigit c = false) ->
  scan_number (dec n ++ rest) = Some (n, rest).
Proof.
  intros Hn Hrest. unfold dec.
  assert (forall m, 0 <= m -> let ds := dec_fuel (S (Z.to_nat (Z.log2 m))) m in
    digits 0 (ds ++ rest) = (m, rest) /\ exists c t, ds ++ rest = c :: t /\ isdigit c = true) as Hd.
  { intros m Hm ds. pose proof (dec_fuel_digits (S (Z.to_nat (Z.log2 m))) m Hm) as Hds. fold ds in Hds.
    split.
    - rewrite digits_app by done. unfold ds. rewrite dec_fuel_value; [|done|].
      + destruct rest as [|c rest]; [done|]. simpl. by rewrite (Hrest c eq_refl).
      + rewrite Nat2Z.inj_succ, Z2Nat.id by apply Z.log2_nonneg.
        destruct (Z.eq_dec m 0) as [->|]; [done|]. apply Z.log2_spec. lia.
    - unfold ds in *. cbn [dec_fuel] in *. apply Forall_app in Hds as [Ha Hb].
      destruct (if m <? 10 then [] else _) as [|c t].
      + apply Forall_cons in Hb as [Hb _]. by eexists _, _.
      + apply Forall_cons in Ha as [Ha _]. by eexists _, _. }
  unfold LONG_MIN, LONG_MAX in *. destruct (Z.ltb_spec n 0) as [Hneg|Hpos].
  - destruct (Hd (- n)) as (E & c & t & Ec & Hc); [lia|].
    unfold scan_number. cbn [app]. rewrite Z.eqb_refl. rewrite Ec in *. cbv iota beta.
    rewrite Hc, E. f_equal. f_equal. unfold clamp64, LONG_MIN, LONG_MAX. lia.
  - destruct (Hd n) as (E & c & t & Ec & Hc); [lia|]. rewrite Ec in *. unfold scan_number.
    rewrite (proj2 (Z.eqb_neq c c_minus)), (proj2 (Z.eqb_neq c c_plus))
      by (intros ->; done).
    rewrite Hc, E. f_equal. f_equal. unfold clamp64, LONG_MIN, LONG_MAX. lia.
Qed.

Lemma dec_head n : exists c t, dec n = c :: t /\ isspace c = false.
Proof.
  unfold dec. destruct (Z.ltb_spec n 0) as [|Hn]; [by eexists _, _|].
  pose proof (dec_fuel_digits (S (Z.to_nat (Z.log2 n))) n Hn) as Hd.
  cbn [dec_fuel] in *. destruct ((if n <? 10 then [] else _) ++ _) as [|c t] eqn:E.
  - by apply app_eq_nil in E as [].
  - exists c, t. split; [done|]. apply Forall_cons in Hd as [Hc _].
    revert Hc. clear. unfold isdigit, isspace. lia.
Qed.

(** Directives on printed text. *)
Lemma scan_Pd total fmt n rest done :
  - 2 ^ 31 <= n < 2 ^ 31 -> (forall c, head rest = Some c -> isdigit c = false) ->
  scan total (Pd :: fmt) (dec n ++ rest) done
  = let '(k, vs) := scan total fmt rest (done + 1) in (k, SInt n :: vs).
Proof.
  intros Hn Hr. destruct (dec_head n) as (c & t & E & Hc).
  pose proof (scan_number_dec n rest) as Hs. unfold LONG_MIN, LONG_MAX in Hs.
  rewrite E in *. cbn [scan app skip_ws] in *. rewrite Hc, Hs by (done || lia).
  by rewrite int32_small.
Qed.

Lemma scan_Lit total fmt c s done : scan total (Lit c :: fmt) (c :: s) done = scan total fmt s done.
Proof. simpl. by rewrite Z.eqb_refl. Qed.

Lemma scan_Pn total fmt s done :
  scan total (Pn :: fmt) s done
  = let '(k, vs) := scan total fmt s done in (k, SInt (Z.of_nat (total - length s)) :: vs).
Proof. done. Qed.

Lemma field_app_width width stop w rest :
  match width with Some k => (length w <= k)%nat | None => True end ->
  Forall (fun c => stop c = false) w -> (forall c, head rest = Some c -> stop c = true) ->
  field width stop (w ++ rest) = (w, rest).
Proof.
  intros Hk Hw Hr. unfold field.
  assert (forall n, width = Some n -> (length w + 0 <= n)%nat) as Hn by (intros n ->; lia).
  clear Hk. revert Hn. generalize 0%nat. induction Hw as [|c w Hc _ IH]; intros n Hn.
  - destruct rest as [|c rest]; [done|]. simpl. by rewrite (Hr c eq_refl).
  - cbn [app]. rewrite Hc. rewrite bool_decide_eq_false_2 by (intros E; specialize (Hn _ E); simpl in Hn; lia).
    rewrite IH; [done|]. intros k E. specialize (Hn _ E). simpl in Hn. lia.
Qed.

Lemma field_app stop w rest :
  Forall (fun c => stop c = false) w -> (forall c, head rest = Some c -> stop c = true) ->
  field None stop (w ++ rest) = (w, rest).
Proof. by apply field_app_width. Qed.

Lemma scan_Pnot total fmt set store w rest done :
  w <> [] -> Forall (fun c => mem c set = false) w ->
  (forall c, head rest = Some c -> mem c set = true) ->
  scan total (Pnot None set store :: fmt) (w ++ rest) done
  = if store then let '(k, vs) := scan total fmt rest (done + 1) in (k, SStr w :: vs)
    else scan total fmt rest done.
Proof.
  intros Hne Hw Hr. pose proof (field_app (fun c => mem c set) w rest Hw Hr) as Hf.
  destruct w as [|c w]; [done|]. cbn [scan]. rewrite Hf. cbn [app]. done.
Qed.

Lemma scan_Ps total fmt store w rest done :
  w <> [] -> Forall (fun c => isspace c = false) w ->
  (forall c, head rest = Some c -> isspace c = true) ->
  scan total (Ps None store :: fmt) (w ++ rest) done
  = if store then let '(k, vs) := scan total fmt rest (done + 1) in (k, SStr w :: vs)
    else scan total fmt rest done.
Proof.
  intros Hne Hw Hr. pose proof (field_app isspace w rest Hw Hr) as Hf.
  destruct w as [|c w]; [done|]. apply Forall_cons in Hw as [Hc _].
  cbn [scan app skip_ws] in *. rewrite Hc. cbn [app] in Hf. by rewrite Hf.
Qed.

Lemma skip_ws_chr s : isspace (chr s) = false -> skip_ws s = s.
Proof. destruct s as [|c s]; [done|]. unfold chr. simpl. by intros ->. Qed.

Lemma scan_Ws total fmt s done : scan total (Ws :: fmt) s done = scan total fmt (skip_ws s) done.
Proof. done. Qed.

(** Fields with a maximal width that are not too long, at the end of a format. *)
Lemma scan_Pnot_max total k set w rest done :
  w <> [] -> (length w <= k)%nat -> Forall (fun c => mem c set = false) w ->
  (forall c, head rest = Some c -> mem c set = true) ->
  scan total [Pnot (Some k) set true] (w ++ rest) done = (done + 1, [SStr w]).
Proof.
  intros Hne Hk Hw Hr. pose proof (field_app_width (Some k) (fun c => mem c set) w rest Hk Hw Hr) as Hf.
  destruct w as [|c w]; [done|]. cbn [scan]. by rewrite Hf.
Qed.

Lemma scan_Ps_max total k w rest done :
  w <> [] -> (length w <= k)%nat -> Forall (fun c => isspace c = false) w ->
  (forall c, head rest = Some c -> isspace c = true) ->
  scan total [Ps (Some k) true] (w ++ rest) done = (done + 1, [SStr w]).
Proof.
  intros Hne Hk Hw Hr. pose proof (field_app_width (Some k) isspace w rest Hk Hw Hr) as Hf.
  destruct w as [|c w]; [done|]. apply Forall_cons in Hw as [Hc _].
  cbn [scan app skip_ws] in *. rewrite Hc. by rewrite Hf.
Qed.

(** The ordinary characters of a format. *)
Definition lits (s : bytes) : list directive := map Lit s.

Lemma scan_lits total l fmt rest done : scan total (lits l ++ fmt) (l ++ rest) done = scan total fmt rest done.
Proof. induction l as [|c l IH]; [done|]. cbn [lits map app]. rewrite scan_Lit. apply IH. Qed.

Lemma scan_lits_other total l fmt s done : starts_with s l = false -> snd (scan total (lits l ++ fmt) s done) = [].
Proof.
  revert s. induction l as [|c l IH]; intros s Hs.
  - unfold starts_with in Hs. by rewrite bool_decide_eq_true_2 in Hs.
  - cbn [lits map app scan]. destruct s as [|x s]; [done|].
    destruct (Z.eqb_spec x c) as [->|]; [|done]. apply IH. unfold starts_with in *. cbn [length take] in Hs.
    apply bool_decide_eq_false in Hs. apply bool_decide_eq_false. congruence.
Qed.
