(* ===== verification/Access.v ===== *)
(** * Addresses: access control, throttling, listening ports

    [isbyte], [parse_net], [check_acl], [set_throttle] and [parse_port_string] of
    src/mongoose.c.  Addresses are 32-bit numbers in host byte order.  The access control list is proved to decide
    by its last matching rule, deny by default, and to be malformed or not whatever
    the address. *)

From S2P Require Import Prelude CString Options Pattern Scanf SocketQueue.

Definition isbyte (n : Z) : bool := (0 <=? n) && (n <=? 255).

Definition fmt_ip : list directive := [Pd; Lit c_dot; Pd; Lit c_dot; Pd; Lit c_dot; Pd].

(** [((uint32_t)a << 24) | ((uint32_t)b << 16) | ((uint32_t)c << 8) | d] *)
Definition make_ip (a b c d : Z) : Z :=
  Z.lor (Z.lor (Z.lor (wrap32 (Z.shiftl (wrap32 a) 24)) (wrap32 (Z.shiftl (wrap32 b) 16)))
               (wrap32 (Z.shiftl (wrap32 c) 8))) (wrap32 d).

(** [None] for a result of 0, else the length of what was read, [*net] and [*mask]. *)
Definition parse_net (spec : bytes) : option (Z * Z * Z) :=
  let parsed :=
    match sscanf spec (fmt_ip ++ [Lit c_slash; Pd; Pn]) with
    | (5, [SInt a; SInt b; SInt c; SInt d; SInt slash; SInt n]) => Some (a, b, c, d, slash, n)
    | _ =>
        match sscanf spec (fmt_ip ++ [Pn]) with
        | (4, [SInt a; SInt b; SInt c; SInt d; SInt n]) => Some (a, b, c, d, 32, n)
        | _ => None
        end
    end in
  match parsed with
  | Some (a, b, c, d, slash, n) =>
      if isbyte a && isbyte b && isbyte c && isbyte d && (0 <=? slash) && (slash <? 33) then
        Some (n, make_ip a b c d,
              if slash =? 0 then 0 else wrap32 (Z.shiftl 0xffffffff (32 - slash)))
      else None
  | None => None
  end.

(** The loop of [check_acl] over the rules. *)
Fixpoint acl_loop (rules : list (vec * option vec)) (allowed remote_ip : Z) : Z :=
  match rules with
  | [] => if allowed =? c_plus then 1 else 0
  | (v, _) :: rules' =>
      let flag := chr (v_ptr v) in
      if negb (flag =? c_plus) && negb (flag =? c_minus) then -1
      else match parse_net (drop 1 (v_ptr v)) with
           | None => -1
           | Some (_, net, mask) =>
               acl_loop rules' (if net =? Z.land remote_ip mask then flag else allowed) remote_ip
           end
  end.

Definition check_acl (c : config) (remote_ip : Z) : Z :=
  let lst := cfg c ACCESS_CONTROL_LIST in
  let allowed := match lst with None => c_plus | Some _ => c_minus end in
  acl_loop (option_list lst false) allowed remote_ip.

Definition acl_accepted (c : config) : bool := negb (check_acl c 0x7f000001 =? -1).

(** ** Throttling *)

(** The floating point numbers of the C library that [set_throttle] uses. *)
Class Doubles := {
  double : Type;
  scan_lf : bytes -> option (double * bytes);   (* sscanf with %lf *)
  is_negative : double -> bool;
  times : double -> Z -> double;
  to_int : double -> Z                          (* conversion to int *)
}.

(** One rule: [None] when the value is missing (a NULL pointer is then read), [Some
    None] when the rule does not apply, else the new throttle. *)
Definition throttle_rule `{Doubles} (v : vec) (val : option vec) (remote_ip : Z) (u : bytes)
    : option (option Z) :=
  match val with
  | None => None
  | Some val =>
      Some match scan_lf (v_ptr val) with
      | None => None
      | Some (n, rest) =>
          let mult := match rest with c :: _ => c | [] => c_comma end in
          if is_negative n
             || (negb (tolower mult =? 107) && negb (tolower mult =? 109) && negb (mult =? c_comma))
          then None
          else
            let n := times n (if tolower mult =? 107 then 1024
                              else if tolower mult =? 109 then 1048576 else 1) in
            if (v_len v =? 1)%nat && (chr (v_ptr v) =? c_star) then Some (to_int n)
            else match parse_net (v_ptr v) with
                 | Some (len, net, mask) =>
                     if 0 <? len then
                       if Z.land remote_ip mask =? net then Some (to_int n) else None
                     else if 0 <? match_prefix (vec_str v) u then Some (to_int n) else None
                 | None => if 0 <? match_prefix (vec_str v) u then Some (to_int n) else None
                 end
      end
  end.

Fixpoint throttle_loop `{Doubles} (rules : list (vec * option vec)) (remote_ip : Z) (u : bytes)
    (throttle : Z) : option Z :=
  match rules with
  | [] => Some throttle
  | (v, val) :: rules' =>
      match throttle_rule v val remote_ip u with
      | None => None
      | Some r => throttle_loop rules' remote_ip u (default throttle r)
      end
  end.

(** [None] when it reads through a NULL pointer. *)
Definition set_throttle `{Doubles} (spec : option bytes) (remote_ip : Z) (u : bytes) : option Z :=
  throttle_loop (option_list spec true) remote_ip u 0.

(** ** Listening ports *)

(** The socket, with address and port in host byte order; [None] for a result of 0. *)
Definition parse_port_string (v : vec) : option socket :=
  let finish (addr port len : Z) :=
    let c := at_ (v_ptr v) (Z.to_nat len) in
    Some (Socket 0 (addr, wrap16 port) (0, 0) (c =? 115) (c =? 114)) in
  match sscanf (v_ptr v) (fmt_ip ++ [Lit c_colon; Pd; Pn]) with
  | (5, [SInt a; SInt b; SInt c; SInt d; SInt port; SInt len]) =>
      finish (wrap32 (Z.lor (Z.lor (Z.lor (Z.shiftl a 24) (Z.shiftl b 16)) (Z.shiftl c 8)) d))
        port len
  | _ =>
      match sscanf (v_ptr v) [Pd; Pn] with
      | (1, [SInt port; SInt len]) =>
          let c := at_ (v_ptr v) (Z.to_nat len) in
          if (len <=? 0) || (Z.of_nat (v_len v) <? len)
             || (negb (c =? 0) && negb (c =? 115) && negb (c =? 114) && negb (c =? c_comma))
          then None else finish 0 port len
      | _ => None
      end
  end.

Definition acl (s : string) : config := <[ACCESS_CONTROL_LIST := Some (B s)]> (replicate 25 None).

Example acl_1 : check_acl (acl "-0.0.0.0/0,+192.168.0.0/16") 0xc0a80102 = 1.
Proof. by_eval. Qed.
Example acl_2 : check_acl (acl "+192.168.0.0/16,-192.168.1.0/24") 0xc0a80102 = 0.
Proof. by_eval. Qed.
Example acl_3 : check_acl (acl "192.168.0.0/16") 0xc0a80102 = -1.
Proof. by_eval. Qed.
Example port_1 : parse_port_string (Vec (B "127.0.0.1:443s,80") 14)
  = Some (Socket 0 (0x7f000001, 443) (0, 0) true false).
Proof. by_eval. Qed.

(** ** Rules of the access control list *)

Record rule := Rule { allow : bool; ip_a : Z; ip_b : Z; ip_c : Z; ip_d : Z; bits : Z }.

Definition rule_ok (r : rule) : Prop :=
  is_byte (ip_a r) /\ is_byte (ip_b r) /\ is_byte (ip_c r) /\ is_byte (ip_d r) /\ 0 <= bits r <= 32.

#[export] Instance rule_ok_dec r : Decision (rule_ok r).
Proof. unfold rule_ok. apply _. Defined.

Definition net_text (r : rule) : bytes :=
  dec (ip_a r) ++ c_dot :: dec (ip_b r) ++ c_dot :: dec (ip_c r) ++ c_dot :: dec (ip_d r)
  ++ c_slash :: dec (bits r).
Definition rule_text (r : rule) : bytes := (if allow r then c_plus else c_minus) :: net_text r.

Definition rule_net (r : rule) : Z :=
  ip_a r * 2 ^ 24 + ip_b r * 2 ^ 16 + ip_c r * 2 ^ 8 + ip_d r.

(** The address is in the rule's network: its first [bits r] bits are the network's,
    and the network has no other bits. *)
Definition rule_match (r : rule) (ip : Z) : bool :=
  ip / 2 ^ (32 - bits r) * 2 ^ (32 - bits r) =? rule_net r.

(** The verdict of the last rule that matches; no rule, no access. *)
Definition verdict (rs : list rule) (ip : Z) : bool :=
  fold_left (fun acc r => if rule_match r ip then allow r else acc) rs false.

Lemma make_ip_sum a b c d :
  is_byte a -> is_byte b -> is_byte c -> is_byte d ->
  make_ip a b c d = a * 2 ^ 24 + b * 2 ^ 16 + c * 2 ^ 8 + d.
Proof.
  unfold is_byte, make_ip. intros Ha Hb Hc Hd.
  rewrite !(wrap32_small a), !(wrap32_small b), !(wrap32_small c), !(wrap32_small d) by lia.
  rewrite !wrap32_small by (rewrite Z.shiftl_mul_pow2; lia).
  rewrite (lor_shiftl a) by (rewrite ?Z.shiftl_mul_pow2; lia).
  replace (a * 2 ^ 24 + Z.shiftl b 16) with (Z.shiftl (a * 2 ^ 8 + b) 16)
    by (rewrite !Z.shiftl_mul_pow2; lia).
  rewrite (lor_shiftl (a * 2 ^ 8 + b)) by (rewrite ?Z.shiftl_mul_pow2; lia).
  replace ((a * 2 ^ 8 + b) * 2 ^ 16 + Z.shiftl c 8) with (Z.shiftl (a * 2 ^ 16 + b * 2 ^ 8 + c) 8)
    by (rewrite !Z.shiftl_mul_pow2; lia).
  rewrite lor_shiftl by lia. lia.
Qed.

Definition net_mask (slash : Z) : Z :=
  if slash =? 0 then 0 else wrap32 (Z.shiftl 0xffffffff (32 - slash)).

Lemma land_mask ip slash :
  0 <= ip < 2 ^ 32 -> 0 <= slash <= 32 ->
  Z.land ip (net_mask slash) = ip / 2 ^ (32 - slash) * 2 ^ (32 - slash).
Proof.
  intros Hip Hs. unfold net_mask. destruct (Z.eqb_spec slash 0) as [->|Hne].
  - rewrite Z.land_0_r. change (32 - 0) with 32. rewrite Z.div_small by done. done.
  - rewrite <- Z.shiftr_div_pow2, <- Z.shiftl_mul_pow2 by lia.
    apply Z.bits_inj'. intros n Hn. rewrite Z.land_spec, Z.shiftl_spec by done.
    destruct (Z.lt_ge_cases n 32).
    + unfold wrap32. rewrite Z.mod_pow2_bits_low, Z.shiftl_spec by lia.
      change 0xffffffff with (Z.ones 32). destruct (Z.lt_ge_cases n (32 - slash)).
      * rewrite !(Z.testbit_neg_r _ (n - _)) by lia. apply andb_false_r.
      * rewrite Z.shiftr_spec, Z.ones_spec_low by lia. rewrite andb_true_r. f_equal. lia.
    + rewrite Z.shiftr_spec by lia. replace (n - (32 - slash) + (32 - slash)) with n by lia.
      rewrite <- (Z.mod_small ip (2 ^ 32)) by done. rewrite Z.mod_pow2_bits_high by lia. done.
Qed.

Lemma nondigit_head d rest c : isdigit d = false -> head (d :: rest) = Some c -> isdigit c = false.
Proof. intros H [= <-]. done. Qed.

Lemma parse_net_text r rest :
  rule_ok r -> (forall c, head rest = Some c -> isdigit c = false) ->
  exists n, parse_net (net_text r ++ rest) = Some (n, rule_net r, net_mask (bits r)).
Proof.
  intros (Ha & Hb & Hc & Hd & Hs) Hrest.
  assert (forall c, is_byte c -> - 2 ^ 31 <= c < 2 ^ 31) as Hr by (unfold is_byte; lia).
  assert (exists n, sscanf (net_text r ++ rest) (fmt_ip ++ [Lit c_slash; Pd; Pn])
    = (5, [SInt (ip_a r); SInt (ip_b r); SInt (ip_c r); SInt (ip_d r); SInt (bits r); SInt n]))
    as [n E].
  { unfold sscanf, fmt_ip. set (total := length _). unfold net_text. cbn [app].
    do 4 (rewrite <- !app_assoc; cbn [app];
          rewrite scan_Pd by (auto; intros ?; by apply nondigit_head); rewrite scan_Lit).
    rewrite scan_Pd by (auto; lia). rewrite scan_Pn. by eexists. }
  exists n. unfold parse_net. rewrite E. cbv iota beta.
  unfold is_byte in *. assert (isbyte (ip_a r) && isbyte (ip_b r) && isbyte (ip_c r) && isbyte (ip_d r)
    && (0 <=? bits r) && (bits r <? 33) = true) as ->
    by (unfold isbyte; rewrite !andb_true_iff; lia).
  by rewrite make_ip_sum.
Qed.

Lemma option_list_cons f rest :
  c_comma ∉ f ->
  option_list (Some (f ++ c_comma :: rest)) false
  = (Vec (f ++ c_comma :: rest) (length f), None) :: option_list (Some rest) false.
Proof.
  intros Hf. rewrite option_list_unfold. unfold next_option.
  destruct (f ++ c_comma :: rest) as [|x l] eqn:E; [by destruct f|]. rewrite <- E.
  rewrite find_byte_app by done. do 3 f_equal.
  rewrite drop_app_ge by lia. by replace (S (length f) - length f)%nat with 1%nat by lia.
Qed.

Lemma option_list_one f :
  c_comma ∉ f -> f <> [] -> option_list (Some f) false = [(Vec f (length f), None)].
Proof.
  intros Hf Hne. rewrite option_list_unfold. unfold next_option. destruct f as [|x l]; [done|].
  by rewrite (proj2 (find_byte_None _ _)) by done.
Qed.

Lemma dec_no_comma n : c_comma ∉ dec n.
Proof.
  unfold dec. assert (forall k m, 0 <= m -> c_comma ∉ dec_fuel k m) as H.
  { intros k m Hm Hin. pose proof (dec_fuel_digits k m Hm) as Hd. rewrite Forall_forall in Hd.
    by apply Hd in Hin. }
  destruct (Z.ltb_spec n 0); [|by apply H].
  rewrite not_elem_of_cons. split; [done|]. apply H. lia.
Qed.

Lemma rule_text_no_comma r : c_comma ∉ rule_text r.
Proof.
  unfold rule_text, net_text. rewrite not_elem_of_cons. split; [by destruct (allow r)|].
  repeat (rewrite not_elem_of_app || rewrite not_elem_of_cons).
  split_and!; (apply dec_no_comma || done).
Qed.

(** One rule of the loop. *)
Lemma acl_loop_rule r rest vs e n allowed ip :
  rule_ok r -> 0 <= ip < 2 ^ 32 -> (forall c, head rest = Some c -> isdigit c = false) ->
  acl_loop ((Vec (rule_text r ++ rest) n, e) :: vs) allowed ip
  = acl_loop vs (if rule_match r ip then (if allow r then c_plus else c_minus) else allowed) ip.
Proof.
  intros Hr Hip Hrest. cbn [acl_loop v_ptr]. destruct (parse_net_text r rest Hr Hrest) as [k E].
  unfold rule_text. cbn [app drop chr head default]. rewrite drop_0, E.
  rewrite land_mask by (done || apply Hr). unfold rule_match. rewrite (Z.eqb_sym (rule_net r)).
  destruct (allow r); reflexivity.
Qed.

Lemma acl_loop_rules rs a ip :
  Forall rule_ok rs -> 0 <= ip < 2 ^ 32 ->
  acl_loop (option_list (Some (join c_comma (map rule_text rs))) false)
    (if a : bool then c_plus else c_minus) ip
  = if fold_left (fun acc r => if rule_match r ip then allow r else acc) rs a then 1 else 0.
Proof.
  intros Hrs Hip. revert a. induction Hrs as [|r rs Hr Hrs IH]; intros a.
  - by destruct a.
  - assert ((if rule_match r ip then if allow r then c_plus else c_minus
             else if a then c_plus else c_minus)
      = if (if rule_match r ip then allow r else a) then c_plus else c_minus) as Ea
      by (by destruct (rule_match r ip)).
    destruct rs as [|r' rs].
    + cbn [map join fold_left]. rewrite option_list_one by (apply rule_text_no_comma || done).
      rewrite <- (app_nil_r (rule_text r)) at 1. rewrite acl_loop_rule by done. rewrite Ea.
      by destruct (if rule_match r ip then allow r else a).
    + cbn [map]. change (join c_comma (?x :: ?y :: ?l)) with (x ++ c_comma :: join c_comma (y :: l)).
      rewrite option_list_cons by apply rule_text_no_comma.
      rewrite acl_loop_rule by (done || by intros c [= <-]). rewrite Ea. apply IH.
Qed.

(** The access control list decides by its last matching rule: for rules printed
    as [+a.b.c.d/n] or [-a.b.c.d/n] and joined by commas, [check_acl] returns 1 for
    an address exactly when the last rule whose network contains it allows it; an
    address no rule matches is refused. *)
Theorem check_acl_last_match (c : config) (rs : list rule) (ip : Z) :
  cfg c ACCESS_CONTROL_LIST = Some (join c_comma (map rule_text rs)) ->
  Forall rule_ok rs -> 0 <= ip < 2 ^ 32 ->
  check_acl c ip = if verdict rs ip then 1 else 0.
Proof.
  intros Hc Hrs Hip. unfold check_acl, verdict. rewrite Hc. by apply (acl_loop_rules rs false).
Qed.

Lemma check_acl_last_match_witness :
  check_acl (acl "+10.0.0.0/8,-10.1.0.0/16") 0x0a010203 = 0 /\
  check_acl (acl "+10.0.0.0/8,-10.1.0.0/16") 0x0a020203 = 1.
Proof.
  split; refine (eq_trans (check_acl_last_match _
    [Rule true 10 0 0 0 8; Rule false 10 1 0 0 16] _ _ _ _) _); by_eval || by_decide || lia.
Defined.

Lemma acl_loop_malformed vs a a' ip ip' :
  (acl_loop vs a ip = -1 -> acl_loop vs a' ip' = -1) /\
  (acl_loop vs a ip <> -1 -> acl_loop vs a ip = 0 \/ acl_loop vs a ip = 1).
Proof.
  revert a a'. induction vs as [|[v e] vs IH]; intros a a'; cbn [acl_loop].
  - case_match; split; auto; lia.
  - case_match; [by split|]. destruct (parse_net _) as [[[n net] mask]|]; [|by split]. apply IH.
Qed.

(** Whether the list is malformed does not depend on the address: once
    [acl_accepted] has accepted it at start-up, no later [check_acl] reports an
    error, so that the accepting thread, which treats every non-zero result as
    permission, never lets an address in because of a malformed list. *)
Theorem acl_option_total (c : config) (ip : Z) :
  acl_accepted c = true -> check_acl c ip = 0 \/ check_acl c ip = 1.
Proof.
  unfold acl_accepted, check_acl. rewrite negb_true_iff, Z.eqb_neq. intros H.
  apply (acl_loop_malformed _ _ (match cfg c ACCESS_CONTROL_LIST with None => c_plus | _ => c_minus end)
    ip ip). intros E. by eapply acl_loop_malformed in E.
Qed.

Lemma acl_option_total_witness :
  check_acl (acl "+10.0.0.0/8") 5 = 0 \/ check_acl (acl "+10.0.0.0/8") 5 = 1.
Proof. apply acl_option_total. by_eval. Defined.

(** ** Throttling *)

(** Throttling: when every rule has a value, the last rule that applies to the
    client's address or the URI sets the rate, and 0 (no limit) is the default. *)
Theorem set_throttle_last `{Doubles} (spec : option bytes) (ip : Z) (u : bytes) :
  Forall (fun ve => snd ve <> None) (option_list spec true) ->
  set_throttle spec ip u
  = Some (default 0 (last (omap (fun ve => mjoin (throttle_rule ve.1 ve.2 ip u))
                             (option_list spec true)))).
Proof.
  unfold set_throttle. generalize (option_list spec true) as rules, 0 as t. intros rules t Hr.
  revert t. induction Hr as [|[v [val|]] rules Hv _ IH]; intros t; [done| |done].
  change (omap ?f (?x :: rules)) with
    (match f x with Some y => y :: omap f rules | None => omap f rules end).
  cbn [throttle_loop snd fst] in *.
  destruct (throttle_rule v (Some val) ip u) as [[r|]|] eqn:E; [| |by unfold throttle_rule in E];
    rewrite IH; cbn [default mjoin option_join]; [|done].
  rewrite last_cons. by destruct (last _).
Qed.

(** A rule without a value makes it read through a NULL pointer. *)
Lemma set_throttle_null `{Doubles} ip u : set_throttle (Some (B "*")) ip u = None.
Proof. done. Qed.

(** Whole numbers stand for the C library's floating point numbers. *)
#[local] Instance whole_numbers : Doubles := {
  double := Z;
  scan_lf s := scan_number (skip_ws s);
  is_negative z := z <? 0;
  times z k := z * k;
  to_int z := int32 z
}.

Lemma set_throttle_last_witness :
  set_throttle (Some (B "*=10,10.0.0.0/8=2k,/x*=5,**.y=7")) 0x0a000001 (B "/z") = Some 2048.
Proof.
  refine (eq_trans (set_throttle_last (Some (B "*=10,10.0.0.0/8=2k,/x*=5,**.y=7")) 0x0a000001 (B "/z") _) _).
  - by_decide.
  - by_eval.
Defined.
