(* ===== verification/Conn.v ===== *)
(** * Connections: the state, and reading from and writing to the client

    [struct mg_connection], the world around it and the I/O primitives of
    src/mongoose.c: [push], [pull], [pull_all], [mg_read], [mg_write],
    [alloc_vprintf], [mg_printf], [mg_snprintf], [should_keep_alive],
    [suggest_connection_header] and [send_http_error].

    The system around a connection is scripted: what [recv] delivers, how much each
    [send] takes, what [time], [malloc] and the reads of [ctx->stop_flag] return.
    A computation takes the world and gives a result and the new world, or [None]
    when an assertion fails and the process aborts. *)

From S2P Require Import Prelude CString Options SocketQueue HttpRequest Scanf.

Definition MG_BUF_LEN : nat := Z.to_nat 8192.
Definition MAX_REQUEST_SIZE : nat := Z.to_nat 16384.

Record conn := Conn {
  request_info : mg_request_info;
  config_of : config;              (* ctx->config *)
  client : socket;
  birth_time : Z;
  num_bytes_sent : Z;              (* int64_t *)
  content_len : Z;                 (* int64_t *)
  consumed_content : Z;            (* int64_t *)
  buf : bytes;                     (* buf_size bytes *)
  path_info : option bytes;
  must_close : bool;
  request_len : Z;
  data_len : Z;
  status_code : Z;
  throttle : Z;
  last_throttle_time : Z;
  last_throttle_bytes : Z
}.

Definition buf_size (c : conn) : nat := length (buf c).

(** ** The world *)

(** What a read from the client gives: some bytes, or an error or timeout; at the
    end of the list the client has closed the connection. *)
Inductive rx_event := RxData (d : bytes) | RxError.

(** What is done to files and processes, in order. *)
Inductive effect :=
  | FxCreate (path : bytes)                 (* open for writing, truncated *)
  | FxSeek (path : bytes) (off : Z)
  | FxWrite (path data : bytes)
  | FxRemove (path : bytes)
  | FxMkdir (path : bytes)
  | FxRename (from to : bytes)
  | FxExec (argv : list bytes) (env : list bytes) (dir : bytes)
  | FxCommand (cmd : bytes)
  | FxKill (pid : Z)
  | FxAppend (path data : bytes)            (* a line of a log *)
  | FxLog (line : bytes).                   (* printed on the terminal *)

Record world := World {
  cn : conn;
  rx : list rx_event;
  tx : list Z;              (* limits of the next sends; no limit at the end *)
  sent : bytes;             (* everything sent to the client so far *)
  clock : list Z;           (* results of time(NULL) *)
  mallocs : list bool;      (* results of malloc; it succeeds at the end *)
  stops : list bool;        (* the next reads of ctx->stop_flag; zero at the end *)
  fx : list effect          (* everything done to files and processes so far *)
}.

Definition M (A : Type) : Type := world -> option (A * world).

#[export] Instance M_ret : MRet M := fun A a w => Some (a, w).
#[export] Instance M_bind : MBind M := fun A B f m w =>
  match m w with None => None | Some (a, w') => f a w' end.

Definition abort {A} : M A := fun _ => None.
Definition assert_ (b : bool) : M unit := if b then mret tt else abort.

Definition set_cn (c : conn) (w : world) : world :=
  World c (rx w) (tx w) (sent w) (clock w) (mallocs w) (stops w) (fx w).
Definition set_rx (l : list rx_event) (w : world) : world :=
  World (cn w) l (tx w) (sent w) (clock w) (mallocs w) (stops w) (fx w).
Definition set_tx (l : list Z) (d : bytes) (w : world) : world :=
  World (cn w) (rx w) l (sent w ++ d) (clock w) (mallocs w) (stops w) (fx w).

Definition emit (e : effect) : M unit := fun w =>
  Some (tt, World (cn w) (rx w) (tx w) (sent w) (clock w) (mallocs w) (stops w) (fx w ++ [e])).

Definition get_conn : M conn := fun w => Some (cn w, w).
Definition modify (f : conn -> conn) : M unit := fun w => Some (tt, set_cn (f (cn w)) w).

Definition time : M Z := fun w =>
  Some (default 0 (head (clock w)),
        World (cn w) (rx w) (tx w) (sent w) (tail (clock w)) (mallocs w) (stops w) (fx w)).
Definition malloc : M bool := fun w =>
  Some (default true (head (mallocs w)),
        World (cn w) (rx w) (tx w) (sent w) (clock w) (tail (mallocs w)) (stops w) (fx w)).
Definition stop_requested : M bool := fun w =>
  Some (default false (head (stops w)),
        World (cn w) (rx w) (tx w) (sent w) (clock w) (mallocs w) (tail (stops w)) (fx w)).

(** [send(sock, d, length d, ...)] *)
Definition send (d : bytes) : M Z := fun w =>
  match tx w with
  | [] => Some (Z.of_nat (length d), set_tx [] d w)
  | k :: tx' =>
      if k <=? 0 then Some (k, set_tx tx' [] w)
      else let n := Z.min k (Z.of_nat (length d)) in
           Some (n, set_tx tx' (take (Z.to_nat n) d) w)
  end.

(** [recv(sock, buf, n, 0)]: the result and the bytes stored. *)
Definition recv (n : nat) : M (Z * bytes) := fun w =>
  match rx w with
  | [] => Some ((0, []), w)
  | RxError :: rx' => Some ((-1, []), set_rx rx' w)
  | RxData d :: rx' =>
      let d1 := take n d in
      let rest := drop n d in
      Some ((Z.of_nat (length d1), d1),
            set_rx (if bool_decide (rest = []) then rx' else RxData rest :: rx') w)
  end.

(** Fields of the connection that are assigned to. *)
Definition set_status (z : Z) (c : conn) : conn :=
  Conn (request_info c) (config_of c) (client c) (birth_time c) (num_bytes_sent c) (content_len c)
    (consumed_content c) (buf c) (path_info c) (must_close c) (request_len c) (data_len c) z
    (throttle c) (last_throttle_time c) (last_throttle_bytes c).
Definition add_sent (z : Z) (c : conn) : conn :=
  Conn (request_info c) (config_of c) (client c) (birth_time c) (num_bytes_sent c + z)
    (content_len c) (consumed_content c) (buf c) (path_info c) (must_close c) (request_len c)
    (data_len c) (status_code c) (throttle c) (last_throttle_time c) (last_throttle_bytes c).
Definition add_consumed (z : Z) (c : conn) : conn :=
  Conn (request_info c) (config_of c) (client c) (birth_time c) (num_bytes_sent c) (content_len c)
    (consumed_content c + z) (buf c) (path_info c) (must_close c) (request_len c) (data_len c)
    (status_code c) (throttle c) (last_throttle_time c) (last_throttle_bytes c).
Definition set_throttled (t b : Z) (c : conn) : conn :=
  Conn (request_info c) (config_of c) (client c) (birth_time c) (num_bytes_sent c) (content_len c)
    (consumed_content c) (buf c) (path_info c) (must_close c) (request_len c) (data_len c)
    (status_code c) (throttle c) t b.
Definition set_data (b : bytes) (len : Z) (c : conn) : conn :=
  Conn (request_info c) (config_of c) (client c) (birth_time c) (num_bytes_sent c) (content_len c)
    (consumed_content c) b (path_info c) (must_close c) (request_len c) len (status_code c)
    (throttle c) (last_throttle_time c) (last_throttle_bytes c).
Definition set_request_info (ri : mg_request_info) (c : conn) : conn :=
  Conn ri (config_of c) (client c) (birth_time c) (num_bytes_sent c) (content_len c)
    (consumed_content c) (buf c) (path_info c) (must_close c) (request_len c) (data_len c)
    (status_code c) (throttle c) (last_throttle_time c) (last_throttle_bytes c).
Definition set_must_close (b : bool) (c : conn) : conn :=
  Conn (request_info c) (config_of c) (client c) (birth_time c) (num_bytes_sent c) (content_len c)
    (consumed_content c) (buf c) (path_info c) b (request_len c) (data_len c) (status_code c)
    (throttle c) (last_throttle_time c) (last_throttle_bytes c).
Definition set_throttle_rate (z : Z) (c : conn) : conn :=
  Conn (request_info c) (config_of c) (client c) (birth_time c) (num_bytes_sent c) (content_len c)
    (consumed_content c) (buf c) (path_info c) (must_close c) (request_len c) (data_len c)
    (status_code c) z (last_throttle_time c) (last_throttle_bytes c).
Definition set_path_info (p : option bytes) (c : conn) : conn :=
  Conn (request_info c) (config_of c) (client c) (birth_time c) (num_bytes_sent c) (content_len c)
    (consumed_content c) (buf c) p (must_close c) (request_len c) (data_len c) (status_code c)
    (throttle c) (last_throttle_time c) (last_throttle_bytes c).

Definition set_request_len (z : Z) (c : conn) : conn :=
  Conn (request_info c) (config_of c) (client c) (birth_time c) (num_bytes_sent c) (content_len c)
    (consumed_content c) (buf c) (path_info c) (must_close c) z (data_len c) (status_code c)
    (throttle c) (last_throttle_time c) (last_throttle_bytes c).
Definition set_content_len (z : Z) (c : conn) : conn :=
  Conn (request_info c) (config_of c) (client c) (birth_time c) (num_bytes_sent c) z
    (consumed_content c) (buf c) (path_info c) (must_close c) (request_len c) (data_len c)
    (status_code c) (throttle c) (last_throttle_time c) (last_throttle_bytes c).
Definition set_birth_time (z : Z) (c : conn) : conn :=
  Conn (request_info c) (config_of c) (client c) z (num_bytes_sent c) (content_len c)
    (consumed_content c) (buf c) (path_info c) (must_close c) (request_len c) (data_len c)
    (status_code c) (throttle c) (last_throttle_time c) (last_throttle_bytes c).
Definition set_client (so : socket) (c : conn) : conn :=
  Conn (request_info c) (config_of c) so (birth_time c) (num_bytes_sent c) (content_len c)
    (consumed_content c) (buf c) (path_info c) (must_close c) (request_len c) (data_len c)
    (status_code c) (throttle c) (last_throttle_time c) (last_throttle_bytes c).

(** [conn->request_info.remote_user = u] *)
Definition set_remote_user (u : option bytes) (c : conn) : conn :=
  let ri := request_info c in
  set_request_info (RequestInfo (request_method ri) (uri ri) (http_version ri) (query_string ri) u
    (remote_ip ri) (remote_port ri) (ri_is_ssl ri) (http_headers ri)) c.

(** ** Writing *)

(** The loop of [push]: [d] is what is left to send, [n] bounds the rounds, each of
    which sends at least one byte. *)
Fixpoint push_loop (n : nat) (d : bytes) (already : Z) : M Z :=
  match n with
  | O => mret already
  | S n' =>
      if (0 <? length d)%nat then
        let k := Z.min (Z.of_nat (length d)) INT_MAX in
        r ← send (take (Z.to_nat k) d);
        if r <=? 0 then mret already
        else push_loop n' (drop (Z.to_nat r) d) (already + r)
      else mret already
  end.

(** [push(NULL, sock, ssl, d, len)]: [len] may be negative. *)
Definition push (d : bytes) (len : Z) : M Z :=
  push_loop (length d) (take (Z.to_nat len) d) 0.

(** The loop of [mg_write] that sends [throttle] bytes a second: [total] bytes of
    [data] are out, each round sends at least one. *)
Fixpoint throttled_loop (n : nat) (data : bytes) (total : Z) : M Z :=
  match n with
  | O => mret total
  | S n' =>
      let len := Z.of_nat (length data) in
      if total <? len then
        stop ← stop_requested;
        if (stop : bool) then mret total
        else
          c ← get_conn;
          let allowed := if len - total <? throttle c then len - total else throttle c in
          k ← push (drop (Z.to_nat total) data) allowed;
          if negb (k =? allowed) then mret total
          else
            t ← time;
            _ ← modify (set_throttled t allowed);
            throttled_loop n' data (total + k)
      else mret total
  end.

(** Before its result is converted to [int]. *)
Definition mg_write64 (data : bytes) : M Z :=
  let len := Z.of_nat (length data) in
  c ← get_conn;
  if 0 <? throttle c then
    now ← time;
    _ ← (if negb (now =? last_throttle_time c) then modify (set_throttled now 0) else mret tt);
    c ← get_conn;
    let allowed := throttle c - last_throttle_bytes c in
    let allowed := if len <? allowed then len else allowed in
    total ← push data allowed;
    if total =? allowed then
      _ ← modify (fun c => set_throttled (last_throttle_time c) (last_throttle_bytes c + total) c);
      throttled_loop (length data) data total
    else mret total
  else push data len.

Definition mg_write (data : bytes) : M Z := r ← mg_write64 data; mret (int32 r).

(** ** Formatted output

    The text is given as already formatted. *)

(** What the buffer holds, and the result -1 when no memory is left.  [mem] has
    [MG_BUF_LEN] bytes; it is used for a text of that length, too. *)
Definition alloc_vprintf (text : bytes) : M (option bytes) :=
  let len := length text in
  if (MG_BUF_LEN <? len)%nat then
    ok ← malloc;
    mret (if (ok : bool) then Some text else None)
  else mret (Some (if (len =? MG_BUF_LEN)%nat then take (MG_BUF_LEN - 1) text ++ [0] else text)).

Definition mg_printf (text : bytes) : M Z :=
  m ← alloc_vprintf text;
  match m with
  | None => mret (-1)
  | Some d => if (0 <? length d)%nat then mg_write d else mret 0
  end.

(** [mg_snprintf(conn, buf, buflen, ...)]: the C string in the buffer, whose length
    it returns. *)
Definition mg_snprintf (buflen : nat) (text : bytes) : bytes := take (buflen - 1) text.

(** ** Reading *)

(** [pull(NULL, conn, buf, len)] *)
Definition pull (len : nat) : M (Z * bytes) :=
  r ← recv len;
  stop ← stop_requested;
  mret (if (stop : bool) then (-1, snd r) else r).

(** The result and the bytes stored so far. *)
Fixpoint pull_all_loop (n len : nat) (acc : bytes) : M (Z * bytes) :=
  match n with
  | O => mret (Z.of_nat (length acc), acc)
  | S n' =>
      if (0 <? len)%nat then
        '(k, d) ← pull len;
        if k <? 0 then mret (k, acc ++ d)
        else if k =? 0 then mret (Z.of_nat (length acc), acc)
        else
          _ ← modify (add_consumed k);
          pull_all_loop n' (len - Z.to_nat k) (acc ++ d)
      else mret (Z.of_nat (length acc), acc)
  end.
Definition pull_all (len : nat) : M (Z * bytes) := pull_all_loop len len [].

Definition mg_read (len : nat) : M (Z * bytes) :=
  c ← get_conn;
  if consumed_content c <? content_len c then
    let to_read := content_len c - consumed_content c in
    let len := if to_read <? Z.of_nat len then Z.to_nat to_read else len in
    let off := request_len c + consumed_content c in
    let buffered_len := data_len c - off in
    if 0 <? buffered_len then
      let buffered_len := if Z.of_nat len <? buffered_len then Z.of_nat len else buffered_len in
      let d := take (Z.to_nat buffered_len) (drop (Z.to_nat off) (buf c)) in
      _ ← modify (add_consumed buffered_len);
      '(n, d') ← pull_all (len - Z.to_nat buffered_len);
      mret (if 0 <=? n then buffered_len + n else n, d ++ d')
    else
      '(n, d') ← pull_all len;
      mret (n, d')
  else mret (0, []).

(** ** Replies *)

Definition header_of (c : conn) (name : bytes) : option bytes :=
  get_header (http_headers (request_info c)) name.

Definition should_keep_alive (c : conn) : bool :=
  let header := header_of c (B "Connection") in
  negb (must_close c
        || (status_code c =? 401)
        || negb (mg_strcasecmp (default [] (cfg (config_of c) ENABLE_KEEP_ALIVE)) (B "yes") =? 0)
        || match header with
           | Some h => negb (mg_strcasecmp h (B "keep-alive") =? 0)
           | None => match http_version (request_info c) with
                     | Some v => negb (streq v (B "1.1"))
                     | None => false
                     end
           end).

Definition suggest_connection_header (c : conn) : bytes :=
  if should_keep_alive c then B "keep-alive" else B "close".

(** The body of an error reply: [text] is the formatted message. *)
Definition error_body (status : Z) (reason text : bytes) : bytes :=
  if (199 <? status) && negb (status =? 204) && negb (status =? 304) then
    let first := mg_snprintf MG_BUF_LEN (B "Error " ++ dec status ++ B ": " ++ reason) ++ [c_lf] in
    first ++ mg_snprintf (MG_BUF_LEN - length first) text
  else [].

(** No callback for errors is set. *)
Definition send_http_error (status : Z) (reason text : bytes) : M unit :=
  _ ← modify (set_status status);
  c ← get_conn;
  let body := error_body status reason text in
  _ ← mg_printf (B "HTTP/1.1 " ++ dec status ++ B " " ++ reason ++ crlf
                 ++ B "Content-Length: " ++ dec (Z.of_nat (length body)) ++ crlf
                 ++ B "Connection: " ++ suggest_connection_header c ++ crlf ++ crlf);
  n ← mg_printf body;
  modify (add_sent n).

(** ** What is sent *)

(** The next sends all take something. *)
Definition tx_ok (w : world) : Prop := Forall (fun k => 0 < k) (tx w).

(** [w'] is [w] after sending [d] and nothing else. *)
Record sent_only (w w' : world) (d : bytes) : Prop := {
  so_sent : sent w' = sent w ++ d;
  so_cn : cn w' = cn w;
  so_rx : rx w' = rx w;
  so_clock : clock w' = clock w;
  so_mallocs : mallocs w' = mallocs w;
  so_stops : stops w' = stops w;
  so_fx : fx w' = fx w;
  so_tx : tx_ok w -> tx_ok w'
}.

Lemma sent_only_refl w : sent_only w w [].
Proof. constructor; auto. by rewrite app_nil_r. Qed.

Lemma sent_only_trans w1 w2 w3 d d' :
  sent_only w1 w2 d -> sent_only w2 w3 d' -> sent_only w1 w3 (d ++ d').
Proof.
  intros H1 H2. constructor; try (etransitivity; [apply H2|apply H1]).
  - rewrite (so_sent _ _ _ H2), (so_sent _ _ _ H1). by rewrite app_assoc.
  - intros H. by apply H2, H1.
Qed.

Lemma send_spec d w :
  exists r w', send d w = Some (r, w') /\
    sent_only w w' (take (Z.to_nat r) d) /\ r <= Z.of_nat (length d) /\
    (tx_ok w -> d <> [] -> 0 < r).
Proof.
  unfold send, tx_ok. destruct (tx w) as [|k tx'] eqn:E.
  - eexists _, _. split; [done|]. split_and!; [|done|].
    + constructor; try done; simpl; [|intros _; unfold tx_ok; constructor].
      by rewrite Nat2Z.id, take_ge by done.
    + intros _ Hd. destruct d; [done|]. simpl. lia.
  - destruct (Z.leb_spec k 0) as [Hk|Hk]; (eexists _, _; split; [done|]); split_and!.
    + replace (Z.to_nat k) with 0%nat by lia.
      constructor; try done; simpl. unfold tx_ok. rewrite E. intros H. by apply Forall_cons in H as [].
    + lia.
    + intros H. apply Forall_cons in H as [? _]. lia.
    + constructor; try done; simpl. unfold tx_ok. rewrite E. intros H. by apply Forall_cons in H as [].
    + lia.
    + intros _ Hd. destruct d; [done|]. simpl. lia.
Qed.

Lemma push_loop_spec n d already w :
  (length d <= n)%nat ->
  exists k w', push_loop n d already w = Some (already + Z.of_nat k, w') /\
    (k <= length d)%nat /\ sent_only w w' (take k d) /\ (tx_ok w -> k = length d).
Proof.
  revert d already w. induction n as [|n IH]; intros d already w Hn; cbn [push_loop].
  - exists 0%nat, w. destruct d; [|simpl in Hn; lia].
    split_and!; [unfold mret, M_ret; do 2 f_equal; lia|done|apply sent_only_refl|done].
  - destruct (Nat.ltb_spec 0 (length d)) as [Hd|Hd].
    + set (k0 := Z.min (Z.of_nat (length d)) INT_MAX).
      destruct (send_spec (take (Z.to_nat k0) d) w) as (r & w1 & E & Hs & Hr & Hpos).
      unfold mbind, M_bind. rewrite E. unfold INT_MAX in *.
      rewrite length_take in Hr.
      assert (take (Z.to_nat k0) d <> []) as Hne
        by (destruct d; [simpl in Hd; lia|]; unfold k0; intros E0; apply (f_equal length) in E0;
            rewrite length_take in E0; simpl in E0; lia).
      destruct (Z.leb_spec r 0) as [Hr0|Hr0].
      * exists 0%nat, w1. split_and!; [unfold mret, M_ret; do 2 f_equal; lia|lia| |].
        -- replace (Z.to_nat r) with 0%nat in Hs by lia. done.
        -- intros Htx. specialize (Hpos Htx Hne). lia.
      * destruct (IH (drop (Z.to_nat r) d) (already + r) w1) as (k & w2 & E2 & Hk & Hs2 & Htx2);
          [rewrite length_drop; lia|].
        rewrite length_drop in Hk, Htx2.
        exists (Z.to_nat r + k)%nat, w2. split_and!.
        -- rewrite E2. do 2 f_equal. lia.
        -- lia.
        -- rewrite take_take, Nat.min_l in Hs by lia.
           rewrite <- (take_take_drop d (Z.to_nat r) k). by eapply sent_only_trans.
        -- intros Htx. rewrite (Htx2 (so_tx _ _ _ Hs Htx)). lia.
    + exists 0%nat, w. split_and!; [unfold mret, M_ret; do 2 f_equal; lia|lia|apply sent_only_refl|lia].
Qed.

Lemma push_spec d len w :
  exists k w', push d len w = Some (Z.of_nat k, w') /\
    (k <= length (take (Z.to_nat len) d))%nat /\ sent_only w w' (take k d) /\
    (tx_ok w -> k = length (take (Z.to_nat len) d)).
Proof.
  unfold push. destruct (push_loop_spec (length d) (take (Z.to_nat len) d) 0 w)
    as (k & w' & E & Hk & Hs & Htx); [rewrite length_take; lia|].
  exists k, w'. rewrite E. split_and!; [done|done| |done].
  rewrite take_take, Nat.min_l in Hs; [done|]. rewrite length_take in Hk. lia.
Qed.

(** [w'] is [w] after sending [d]; only the throttling counters of the connection
    have changed. *)
Record wrote (w w' : world) (d : bytes) : Prop := {
  wr_sent : sent w' = sent w ++ d;
  wr_cn : exists t b, cn w' = set_throttled t b (cn w);
  wr_rx : rx w' = rx w;
  wr_mallocs : mallocs w' = mallocs w;
  wr_fx : fx w' = fx w;
  wr_stops : stops w = [] -> stops w' = [];
  wr_tx : tx_ok w -> tx_ok w'
}.

Lemma wrote_refl w w' :
  sent w' = sent w -> (exists t b, cn w' = set_throttled t b (cn w)) -> rx w' = rx w ->
  mallocs w' = mallocs w -> (stops w = [] -> stops w' = []) -> tx w' = tx w -> fx w' = fx w ->
  wrote w w' [].
Proof. intros. constructor; auto; [by rewrite app_nil_r|]. unfold tx_ok. congruence. Qed.

Lemma set_throttled_id c : set_throttled (last_throttle_time c) (last_throttle_bytes c) c = c.
Proof. by destruct c. Qed.

Lemma sent_only_wrote w w' d : sent_only w w' d -> wrote w w' d.
Proof.
  intros []. constructor; auto; [|congruence].
  eexists _, _. by rewrite set_throttled_id.
Qed.

Lemma wrote_trans w1 w2 w3 d d' : wrote w1 w2 d -> wrote w2 w3 d' -> wrote w1 w3 (d ++ d').
Proof.
  intros [S1 (t1 & b1 & C1) R1 M1 X1 P1 T1] [S2 (t2 & b2 & C2) R2 M2 X2 P2 T2].
  constructor; auto; try congruence.
  - by rewrite S2, S1, app_assoc.
  - exists t2, b2. by rewrite C2, C1.
Qed.

Lemma wrote_nil_r w1 w2 w3 d : wrote w1 w2 d -> wrote w2 w3 [] -> wrote w1 w3 d.
Proof. intros H1 H2. rewrite <- (app_nil_r d). by eapply wrote_trans. Qed.

Lemma wrote_throttle w w' d : wrote w w' d -> throttle (cn w') = throttle (cn w).
Proof. intros [_ (t & b & ->) _ _ _ _ _]. done. Qed.

Lemma wrote_nothing w : wrote w w [].
Proof. apply sent_only_wrote, sent_only_refl. Qed.

Lemma drop_take_same (t : nat) (d : bytes) : drop t (take t d) = [].
Proof. apply drop_ge. rewrite length_take. lia. Qed.

(** Two pieces of [data] that follow one another. *)
Lemma drop_take_join (a b c : nat) (data : bytes) :
  (a <= b <= c)%nat -> drop a (take b data) ++ drop b (take c data) = drop a (take c data).
Proof.
  intros H. replace (take b data) with (take b (take c data)) by (rewrite take_take, Nat.min_l by lia; done).
  apply drop_take_drop. lia.
Qed.

Lemma throttled_loop_spec n data total w :
  (total <= length data)%nat -> (length data - total <= n)%nat -> 0 < throttle (cn w) ->
  exists r k w', throttled_loop n data (Z.of_nat total) w = Some (Z.of_nat r, w') /\
    (total <= r <= k)%nat /\ (k <= length data)%nat /\ wrote w w' (drop total (take k data)) /\
    (tx_ok w -> stops w = [] -> r = length data).
Proof.
  revert total w. induction n as [|n IH]; intros total w Ht Hn Hth; cbn [throttled_loop].
  - exists total, total, w. rewrite drop_take_same. split_and!; auto using wrote_nothing; lia.
  - destruct (Z.ltb_spec (Z.of_nat total) (Z.of_nat (length data))) as [Hlt|Hge].
    2: { exists total, total, w. rewrite drop_take_same. split_and!; auto using wrote_nothing; lia. }
    unfold mbind, M_bind, stop_requested at 1. set (w1 := World _ _ _ _ _ _ _ _).
    assert (wrote w w1 []) as Hw1.
    { apply wrote_refl; [done| |done|done|simpl; by intros ->|done|done].
      eexists _, _. by rewrite set_throttled_id. }
    destruct (default false (head (stops w))) eqn:Est.
    { exists total, total, w1. rewrite drop_take_same. split_and!; [done|lia|lia|lia|done|].
      intros _ E. by rewrite E in Est. }
    unfold get_conn at 1. cbn [cn w1].
    set (allowed := if _ <? _ then _ else _).
    assert (0 < allowed <= Z.of_nat (length data) - Z.of_nat total) as Hal
      by (unfold allowed; case_match; lia).
    destruct (push_spec (drop (Z.to_nat (Z.of_nat total)) data) allowed w1)
      as (k & w2 & E & Hk & Hs & Htx). rewrite E. rewrite Nat2Z.id in *.
    rewrite length_take, length_drop in Hk, Htx.
    pose proof (wrote_trans _ _ _ _ _ Hw1 (sent_only_wrote _ _ _ Hs)) as Hw2. cbn [app] in Hw2.
    assert (take k (drop total data) = drop total (take (total + k) data)) as Etk
      by (rewrite take_drop_commute; done).
    rewrite Etk in Hw2.
    destruct (Z.eqb_spec (Z.of_nat k) allowed) as [Ek|Ek]; cbn [negb].
    + unfold time, modify. set (w3 := set_cn _ _).
      assert (wrote w2 w3 []) as Hw3 by (apply wrote_refl; try done; by eexists _, _).
      pose proof (wrote_nil_r _ _ _ _ Hw2 Hw3) as Hw03.
      destruct (IH (total + k)%nat w3) as (r & k' & w4 & E4 & Hr & Hk' & Hw4 & Hall);
        [lia|lia|by rewrite (wrote_throttle _ _ _ Hw03)|].
      exists r, k', w4. rewrite <- Nat2Z.inj_add, E4. split_and!; [done|lia|lia|done| |].
      * rewrite <- (drop_take_join total (total + k) k') by lia. by eapply wrote_trans.
      * intros Htx0 Hst. apply Hall; [by apply Hw03|by apply Hw03].
    + exists total, (total + k)%nat, w2. split_and!; [done|lia|lia|lia|done|].
      intros Htx0 Hst. destruct Ek. rewrite Htx by (by apply Hw1). lia.
Qed.

(** The throttling counters are consistent: not more bytes counted than allowed. *)
Definition throttle_ok (c : conn) : Prop :=
  throttle c <= 0 \/ 0 <= last_throttle_bytes c <= throttle c.

Lemma mg_write64_spec data w :
  exists r k w', mg_write64 data w = Some (Z.of_nat r, w') /\
    (r <= k <= length data)%nat /\ wrote w w' (take k data) /\
    (tx_ok w -> stops w = [] -> throttle_ok (cn w) -> r = length data).
Proof.
  unfold mg_write64, mbind, M_bind, get_conn at 1.
  destruct (Z.ltb_spec 0 (throttle (cn w))) as [Hth|Hth].
  - unfold time at 1. set (w1 := World _ _ _ _ _ _ _ _). cbv beta iota.
    set (t := default 0 _).
    assert (exists w2, (if negb (t =? last_throttle_time (cn w)) then modify (set_throttled t 0)
                        else mret tt) w1 = Some (tt, w2) /\ wrote w w2 [] /\
            (throttle_ok (cn w) -> throttle_ok (cn w2))) as (w2 & -> & Hw2 & Hok).
    { case_match; eexists; (split; [reflexivity|]); (split; [apply wrote_refl; try done|]).
      - by eexists _, _.
      - unfold throttle_ok. simpl. lia.
      - eexists _, _. by rewrite set_throttled_id.
      - done. }
    pose proof (wrote_throttle _ _ _ Hw2) as Ht2. unfold get_conn at 1. cbv beta iota.
    set (allowed := if _ <? _ then _ else _).
    destruct (push_spec data allowed w2) as (k & w3 & E & Hk & Hs & Htx). rewrite E.
    rewrite length_take in Hk, Htx.
    pose proof (wrote_trans _ _ _ _ _ Hw2 (sent_only_wrote _ _ _ Hs)) as Hw3. cbn [app] in Hw3.
    destruct (Z.eqb_spec (Z.of_nat k) allowed) as [Ek|Ek].
    + unfold modify. cbv beta iota. set (w4 := set_cn _ _).
      assert (wrote w3 w4 []) as Hw4 by (apply wrote_refl; try done; by eexists _, _).
      pose proof (wrote_nil_r _ _ _ _ Hw3 Hw4) as Hw04.
      destruct (throttled_loop_spec (length data) data k w4)
        as (r & k' & w5 & E5 & Hr & Hk' & Hw5 & Hall); [lia|lia|by rewrite (wrote_throttle _ _ _ Hw04)|].
      exists r, k', w5. split_and!; [done|lia|lia| |].
      * pose proof (wrote_trans _ _ _ _ _ Hw04 Hw5) as H.
        rewrite <- (drop_0 (take k' data)), <- (drop_take_drop (take k' data) 0 k), take_take,
          Nat.min_l, drop_0 by lia. done.
      * intros Htx0 Hst _. apply Hall; by apply Hw04.
    + exists k, k, w3. split_and!; [done|lia|lia|done|].
      intros Htx0 Hst Hthr. destruct Ek. apply Hok in Hthr. rewrite Htx by (by apply Hw2).
      unfold throttle_ok in Hthr. rewrite Ht2 in Hthr. unfold allowed. rewrite Ht2.
      destruct (Z.ltb_spec (Z.of_nat (length data)) (throttle (cn w) - last_throttle_bytes (cn w2))); lia.
  - destruct (push_spec data (Z.of_nat (length data)) w) as (k & w' & E & Hk & Hs & Htx).
    rewrite Nat2Z.id, take_ge in * by lia.
    exists k, k, w'. split_and!; [done|lia|lia|by apply sent_only_wrote|]. intros H _ _. by apply Htx.
Qed.

Lemma mg_write_sends data w :
  tx_ok w -> stops w = [] -> throttle_ok (cn w) -> Z.of_nat (length data) < 2 ^ 31 ->
  exists w', mg_write data w = Some (Z.of_nat (length data), w') /\ wrote w w' data.
Proof.
  intros Htx Hst Hth Hlen. destruct (mg_write64_spec data w) as (r & k & w' & E & Hrk & Hw & Hall).
  assert (r = length data) as -> by (by apply Hall). rewrite take_ge in Hw by lia.
  exists w'. unfold mg_write, mbind, M_bind. rewrite E. unfold mret, M_ret.
  by rewrite int32_small by lia.
Qed.

(** The connection takes what is sent. *)
Definition sends_ok (w : world) : Prop :=
  Forall (fun n => 0 < n) (tx w) /\ stops w = [] /\ throttle (cn w) <= 0.

Lemma wrote_sends_ok w w' d : wrote w w' d -> sends_ok w -> sends_ok w'.
Proof.
  intros Hw (Htx & Hst & Hth). split_and!;
    [by apply (wr_tx _ _ _ Hw)|by apply (wr_stops _ _ _ Hw)|by rewrite (wrote_throttle _ _ _ Hw)].
Qed.

Lemma mg_write_all d w :
  sends_ok w -> Z.of_nat (length d) < 2 ^ 31 ->
  exists w', mg_write d w = Some (Z.of_nat (length d), w') /\ sent w' = sent w ++ d /\
    sends_ok w' /\ wrote w w' d.
Proof.
  intros Hok Hd. pose proof Hok as (Htx & Hst & Hth).
  destruct (mg_write_sends d w) as (w' & E & Hw); [done|done|by left|done|].
  exists w'. split_and!; [done|apply Hw|by eapply wrote_sends_ok|done].
Qed.

Lemma mg_printf_all text w :
  sends_ok w -> (0 < length text < MG_BUF_LEN)%nat ->
  exists w', mg_printf text w = Some (Z.of_nat (length text), w') /\ sent w' = sent w ++ text /\
    sends_ok w' /\ wrote w w' text.
Proof.
  intros Hok Hl. unfold mg_printf, alloc_vprintf, mbind, M_bind.
  destruct (Nat.ltb_spec MG_BUF_LEN (length text)); [lia|].
  destruct (Nat.eqb_spec (length text) MG_BUF_LEN); [lia|]. unfold mret at 1, M_ret at 1.
  destruct (Nat.ltb_spec 0 (length text)); [|lia].
  apply mg_write_all; [done|]. unfold MG_BUF_LEN in Hl. lia.
Qed.

Lemma sent_app w w' w'' (a b : bytes) :
  sent w' = sent w ++ a -> sent w'' = sent w' ++ b -> sent w'' = sent w ++ (a ++ b).
Proof. intros E1 E2. by rewrite E2, E1, app_assoc. Qed.

(** Whatever the client's socket accepts, with or without throttling, what
    [mg_write] adds to the output is a prefix of the data, at least as long as the
    count it returns; when every send takes something, the server is not stopping
    and the throttling counters are consistent, all of it is sent, exactly once and
    in order. *)
Theorem mg_write_prefix (data : bytes) (w : world) :
  Z.of_nat (length data) < 2 ^ 31 ->
  exists r k w', mg_write data w = Some (Z.of_nat r, w') /\
    (r <= k <= length data)%nat /\ sent w' = sent w ++ take k data /\
    (Forall (fun n => 0 < n) (tx w) -> stops w = [] -> throttle_ok (cn w) ->
     r = length data /\ sent w' = sent w ++ data).
Proof.
  intros Hlen. destruct (mg_write64_spec data w) as (r & k & w' & E & Hrk & Hw & Hall).
  exists r, k, w'. unfold mg_write, mbind, M_bind. rewrite E.
  unfold mret, M_ret. rewrite int32_small by lia. split_and!; [done|lia|lia|apply Hw|].
  intros H1 H2 H3. specialize (Hall H1 H2 H3). split; [done|].
  rewrite (wr_sent _ _ _ Hw), take_ge by lia. done.
Qed.

Lemma mg_write_prefix_witness :
  exists r k w', mg_write (B "hello") (World (Conn no_request [] inhabitant 0 0 0 0 [] None false 0 0 0 2 5 0)
      [] [1; 1; 5] [] [5; 6; 7] [] [] []) = Some (Z.of_nat r, w') /\
    (r <= k <= 5)%nat /\ sent w' = take k (B "hello") /\
    (Forall (fun n => 0 < n) [1; 1; 5] -> [] = ([] : list bool) -> throttle_ok
       (Conn no_request [] inhabitant 0 0 0 0 [] None false 0 0 0 2 5 0) ->
     r = 5%nat /\ sent w' = B "hello").
Proof. apply (mg_write_prefix (B "hello") (World _ [] [1; 1; 5] [] [5; 6; 7] [] [] [])). done. Defined.

(** A reply of exactly [MG_BUF_LEN] bytes goes out with a NUL byte in place of its
    last byte: [alloc_vprintf] formats it into a buffer of that size, which cannot
    hold its terminating NUL as well. *)
Theorem mg_printf_boundary (text : bytes) (w : world) :
  Z.of_nat (length text) = 8192 ->
  Forall (fun n => 0 < n) (tx w) -> stops w = [] -> throttle_ok (cn w) ->
  exists w', mg_printf text w = Some (8192, w') /\
    sent w' = sent w ++ take (Z.to_nat 8191) text ++ [0].
Proof.
  intros Hlen Htx Hst Hth. unfold mg_printf, alloc_vprintf, mbind, M_bind.
  assert (MG_BUF_LEN = length text) as E8 by (unfold MG_BUF_LEN; lia).
  rewrite E8, Nat.ltb_irrefl, Nat.eqb_refl. unfold mret at 1, M_ret at 1.
  replace (length text - 1)%nat with (Z.to_nat 8191) by lia.
  assert (length (take (Z.to_nat 8191) text ++ [0]) = length text) as Hl
    by (rewrite length_app, length_take; cbn [length]; lia).
  rewrite Hl. destruct (Nat.ltb_spec 0 (length text)); [|lia].
  destruct (mg_write_sends (take (Z.to_nat 8191) text ++ [0]) w)
    as (w' & E & Hw); [done|done|done|rewrite Hl; lia|].
  exists w'. rewrite E, Hl. split; [|apply Hw]. do 2 f_equal. lia.
Qed.

Definition idle_conn : conn :=
  Conn no_request [] inhabitant 0 0 0 0 [] None false 0 0 0 0 0 0.
Definition quiet (c : conn) (input : list rx_event) : world := World c input [] [] [] [] [] [].

Lemma mg_printf_boundary_witness :
  exists w', mg_printf (replicate (Z.to_nat 8192) 65) (quiet idle_conn []) = Some (8192, w') /\
    sent w' = replicate (Z.to_nat 8191) 65 ++ [0].
Proof.
  destruct (mg_printf_boundary (replicate (Z.to_nat 8192) 65) (quiet idle_conn []))
    as (w' & E & Hs).
  - by_eval.
  - constructor.
  - done.
  - left. done.
  - exists w'. split; [done|]. rewrite Hs. by_eval.
Defined.

(** ** Computations that do not abort *)

Definition total {A} (m : M A) : Prop := forall w, exists r w', m w = Some (r, w').

Create HintDb total.

Lemma total_ret {A} (a : A) : total (mret a).
Proof. intros w. by exists a, w. Qed.
Lemma total_bind {A B} (m : M A) (f : A -> M B) : total m -> (forall a, total (f a)) -> total (m ≫= f).
Proof.
  intros Hm Hf w. unfold mbind, M_bind. destruct (Hm w) as (a & w' & ->). apply Hf.
Qed.
Lemma total_emit e : total (emit e).
Proof. intros w. by eexists _, _. Qed.
Lemma total_get_conn : total get_conn.
Proof. intros w. by eexists _, _. Qed.
Lemma total_modify f : total (modify f).
Proof. intros w. by eexists _, _. Qed.
Lemma total_time : total time.
Proof. intros w. by eexists _, _. Qed.
Lemma total_malloc : total malloc.
Proof. intros w. by eexists _, _. Qed.
Lemma total_stop : total stop_requested.
Proof. intros w. by eexists _, _. Qed.
#[export] Hint Resolve total_ret total_emit total_get_conn total_modify total_time total_malloc total_stop : total.

(** Follow the structure of a computation. *)
Ltac solve_total :=
  repeat first
    [ solve [eauto 2 with total]
    | apply total_bind; [|intros ?]
    | match goal with |- total (match ?x with _ => _ end) => destruct x end ].

Lemma total_mg_write d : total (mg_write d).
Proof.
  intros w. unfold mg_write, mbind, M_bind. destruct (mg_write64_spec d w) as (r & k & w' & -> & _).
  by eexists _, _.
Qed.
#[export] Hint Resolve total_mg_write : total.

Lemma total_mg_printf text : total (mg_printf text).
Proof. unfold mg_printf, alloc_vprintf. solve_total. Qed.
#[export] Hint Resolve total_mg_printf : total.

Lemma total_send_http_error status reason text : total (send_http_error status reason text).
Proof. unfold send_http_error. solve_total. Qed.
#[export] Hint Resolve total_send_http_error : total.

(** ** What is read *)

(** The client sends data, and nothing goes wrong. *)
Definition rx_clean (l : list rx_event) : Prop :=
  Forall (fun e => match e with RxData d => d <> [] | RxError => False end) l.

Definition stream (l : list rx_event) : bytes :=
  flat_map (fun e => match e with RxData d => d | RxError => [] end) l.

Lemma recv_spec n w :
  rx_clean (rx w) -> (0 < n)%nat ->
  exists d w', recv n w = Some ((Z.of_nat (length d), d), w') /\
    stream (rx w) = d ++ stream (rx w') /\ (length d <= n)%nat /\ rx_clean (rx w') /\
    (d = [] -> stream (rx w) = []) /\
    cn w' = cn w /\ sent w' = sent w /\ stops w' = stops w /\ tx w' = tx w /\
    mallocs w' = mallocs w /\ fx w' = fx w.
Proof.
  intros Hc Hn. unfold recv. destruct (rx w) as [|[d|] rx'] eqn:E.
  - exists [], w. rewrite E. split_and!; try done. simpl. lia.
  - apply Forall_cons in Hc as [Hd Hc]. exists (take n d). eexists. split; [done|].
    assert (d <> [] -> take n d = [] -> False) as Ht
      by (destruct d, n; try done; lia).
    case_bool_decide as Hr; simpl; split_and!; try done.
    + rewrite <- (take_drop n d) at 1. by rewrite Hr, app_nil_r.
    + rewrite length_take. lia.
    + intros E0. by destruct Ht.
    + rewrite app_assoc, take_drop. done.
    + rewrite length_take. lia.
    + by constructor.
    + intros E0. by destruct Ht.
  - by apply Forall_cons in Hc as [].
Qed.

Lemma drop_length_take {A} n (l : list A) : drop (length (take n l)) l = drop n l.
Proof.
  rewrite length_take. destruct (Nat.le_gt_cases n (length l)).
  - by rewrite Nat.min_l.
  - by rewrite Nat.min_r, !drop_ge by lia.
Qed.

Lemma pull_all_spec n len acc w :
  rx_clean (rx w) -> stops w = [] -> (len <= n)%nat ->
  exists d w', pull_all_loop n len acc w = Some ((Z.of_nat (length (acc ++ d)), acc ++ d), w') /\
    d = take len (stream (rx w)) /\ stream (rx w') = drop len (stream (rx w)) /\
    rx_clean (rx w') /\ cn w' = add_consumed (Z.of_nat (length d)) (cn w) /\
    sent w' = sent w /\ stops w' = [] /\ tx w' = tx w /\ mallocs w' = mallocs w /\ fx w' = fx w.
Proof.
  revert len acc w. induction n as [|n IH]; intros len acc w Hc Hst Hn.
  - replace len with 0%nat by lia. exists [], w. rewrite app_nil_r. split_and!; try done.
    unfold add_consumed. simpl. rewrite Z.add_0_r. by destruct (cn w).
  - assert (forall c, add_consumed 0 c = c) as Hac
      by (intros c; unfold add_consumed; rewrite Z.add_0_r; by destruct c).
    cbn [pull_all_loop]. destruct (Nat.ltb_spec 0 len) as [Hl|Hl].
    2: { replace len with 0%nat by lia. exists [], w. rewrite app_nil_r. by split_and!. }
    unfold pull, mbind, M_bind, stop_requested, mret, M_ret.
    destruct (recv_spec len w Hc Hl) as (d & w1 & -> & Hs & Hd & Hc1 & He & Hcn & Hsent & Hst1 & Htx & Hma & Hfx).
    rewrite Hst1, Hst. cbn [head tail default]. cbv beta iota.
    destruct (Z.ltb_spec (Z.of_nat (length d)) 0); [lia|].
    destruct (Z.eqb_spec (Z.of_nat (length d)) 0) as [E0|E0].
    + assert (d = []) as -> by (destruct d; [done|simpl in E0; lia]).
      exists []. eexists. rewrite app_nil_r. split; [reflexivity|]. rewrite He by done.
      cbn [rx cn sent stops tx]. rewrite take_nil, drop_nil. rewrite Hcn.
      split_and!; try done. by rewrite <- (He eq_refl), Hs.
    + unfold modify. cbv beta iota. set (w2 := set_cn _ _). rewrite Nat2Z.id.
      destruct (IH (len - length d)%nat (acc ++ d) w2) as (d' & w' & -> & Hd' & Hs' & Hc' & Hcn' & Hsent' & Hst' & Htx' & Hma' & Hfx');
        [done|done|lia|].
      exists (d ++ d'), w'. rewrite app_assoc. cbn [rx w2 set_cn cn sent tx mallocs fx] in *. split_and!; try done.
      * rewrite Hs, Hd', take_app_ge by lia. done.
      * rewrite Hs, Hs', drop_app_ge by lia. done.
      * rewrite Hcn', Hcn. unfold add_consumed. simpl. rewrite length_app. f_equal. lia.
      * congruence.
      * congruence.
      * congruence.
      * congruence.
Qed.

(** The part of the body that came with the request and is still in the buffer. *)
Definition buffered_body (c : conn) : bytes :=
  drop (Z.to_nat (request_len c + consumed_content c)) (take (Z.to_nat (data_len c)) (buf c)).

(** What is left of the body: the buffered part, then what the client sends. *)
Definition body_stream (w : world) : bytes := buffered_body (cn w) ++ stream (rx w).

Definition conn_ok (c : conn) : Prop :=
  0 <= request_len c <= data_len c /\ data_len c <= Z.of_nat (length (buf c)) /\
  0 <= consumed_content c.

Lemma buffered_body_length c :
  conn_ok c ->
  Z.of_nat (length (buffered_body c)) = Z.max 0 (data_len c - (request_len c + consumed_content c)).
Proof.
  intros (Hr & Hd & Hc). unfold buffered_body. rewrite length_drop, length_take. lia.
Qed.

Lemma buffered_body_add k c :
  conn_ok c -> 0 <= k ->
  buffered_body (add_consumed k c) = drop (Z.to_nat k) (buffered_body c).
Proof.
  intros (Hr & Hd & Hc) Hk. unfold buffered_body. simpl. rewrite drop_drop. f_equal. lia.
Qed.

(** What is copied from the buffer. *)
Lemma buffered_body_take n k c :
  conn_ok c -> request_len c + consumed_content c <= data_len c ->
  k = Z.min (Z.of_nat n) (Z.of_nat (length (buffered_body c))) ->
  take (Z.to_nat k) (drop (Z.to_nat (request_len c + consumed_content c)) (buf c)) = take n (buffered_body c).
Proof.
  intros (Hr & Hd & Hc) Hle Ek. unfold buffered_body in *. rewrite length_drop, length_take in Ek.
  rewrite !take_drop_commute, take_take. f_equal.
  destruct (Z.le_gt_cases (Z.of_nat n) (data_len c - (request_len c + consumed_content c))); f_equal; lia.
Qed.

(** Taking from the buffer first and then from the socket. *)
Lemma take_app_split {A} n (a b : list A) :
  take n (a ++ b) = take n a ++ take (n - length a) b /\ drop n (a ++ b) = drop n a ++ drop (n - length a) b.
Proof.
  destruct (Nat.le_gt_cases n (length a)).
  - rewrite take_app_le, drop_app_le by done. replace (n - length a)%nat with 0%nat by lia.
    by rewrite take_0, drop_0, app_nil_r.
  - by rewrite take_app_ge, drop_app_ge, (take_ge a), (drop_ge a) by lia.
Qed.

(** What is left of the body after a read that took [n] bytes of it, [d'] of them from the
    socket. *)
Lemma body_stream_read n (w w' : world) (d' : bytes) :
  let bb := buffered_body (cn w) in
  let k := Z.min (Z.of_nat n) (Z.of_nat (length bb)) in
  conn_ok (cn w) -> d' = take (n - length bb) (stream (rx w)) -> stream (rx w') = drop (n - length bb) (stream (rx w)) ->
  cn w' = add_consumed (Z.of_nat (length d')) (add_consumed k (cn w)) ->
  body_stream w' = drop n (body_stream w).
Proof.
  intros bb k Hok Hd Hs Hcn. pose proof (buffered_body_length _ Hok) as Hbl. fold bb in Hbl.
  destruct (take_app_split n bb (stream (rx w))) as [_ Edr]. unfold body_stream. fold bb. rewrite Edr, Hcn, Hs. f_equal.
  rewrite buffered_body_add by (lia || (unfold conn_ok in *; simpl; lia)).
  rewrite buffered_body_add by (done || lia). fold bb. rewrite drop_drop, Nat2Z.id.
  destruct (Nat.le_gt_cases n (length bb)); [|by rewrite !drop_ge by lia].
  f_equal. replace (n - length bb)%nat with 0%nat in Hd by lia. rewrite Hd, take_0. simpl. lia.
Qed.

Lemma mg_read_spec (len : nat) (w : world) :
  conn_ok (cn w) -> rx_clean (rx w) -> stops w = [] ->
  let left := content_len (cn w) - consumed_content (cn w) in
  let d := take (Nat.min len (Z.to_nat left)) (body_stream w) in
  exists w', mg_read len w = Some ((Z.of_nat (length d), d), w') /\
    body_stream w' = drop (length d) (body_stream w) /\
    cn w' = add_consumed (Z.of_nat (length d)) (cn w) /\
    rx_clean (rx w') /\ stops w' = [] /\ sent w' = sent w /\ tx w' = tx w /\ fx w' = fx w.
Proof.
  intros Hok Hc Hst left d. pose proof (buffered_body_length _ Hok) as Hbl.
  assert (forall c, add_consumed 0 c = c) as Hac
    by (intros c; unfold add_consumed; rewrite Z.add_0_r; by destruct c).
  unfold mg_read, mbind, M_bind, get_conn.
  destruct (Z.ltb_spec (consumed_content (cn w)) (content_len (cn w))) as [Hlt|Hge].
  2: { assert (d = []) as Ed by (unfold d, left; replace (Z.to_nat _) with 0%nat by lia;
         by rewrite Nat.min_0_r).
       rewrite Ed. exists w. simpl. by split_and!. }
  fold left. set (n := if left <? Z.of_nat len then Z.to_nat left else len).
  assert (n = Nat.min len (Z.to_nat left)) as En
    by (unfold n; destruct (Z.ltb_spec left (Z.of_nat len)); unfold left in *; lia).
  set (bb := buffered_body (cn w)) in *.
  destruct (Z.ltb_spec 0 (data_len (cn w) - (request_len (cn w) + consumed_content (cn w)))) as [Hb|Hb].
  - set (k := if Z.of_nat n <? _ then _ else _).
    assert (0 <= k /\ k = Z.min (Z.of_nat n) (Z.of_nat (length bb))) as [Hk Ek].
    { unfold k. rewrite Hbl. case_match; lia. }
    rewrite (buffered_body_take n k) by (done || lia). fold bb.
    unfold modify. cbv beta iota. set (w1 := set_cn _ _).
    unfold pull_all. destruct (pull_all_spec (n - Z.to_nat k) (n - Z.to_nat k) [] w1)
      as (d' & w' & E & Hd' & Hs' & Hc' & Hcn' & Hsent' & Hst' & Htx' & _ & Hfx'); [done|done|done|].
    rewrite E. cbn [app] in *. cbn [w1 set_cn rx cn sent tx fx] in *.
    replace (n - Z.to_nat k)%nat with (n - length bb)%nat in * by lia.
    destruct (take_app_split n bb (stream (rx w))) as [Et Edr].
    assert (d = take n bb ++ d') as Ed by (unfold d, body_stream; by rewrite <- En, Hd').
    assert (Z.of_nat (length d) = k + Z.of_nat (length d')) as Eld
      by (rewrite Ed, length_app, length_take; lia).
    exists w'. split_and!; try done.
    + destruct (Z.leb_spec 0 (Z.of_nat (length d'))); [|lia]. unfold mret, M_ret.
      by rewrite <- Ed, Eld.
    + unfold d. rewrite <- En, drop_length_take. rewrite Ek in Hcn'. by apply (body_stream_read n w w' d').
    + rewrite Hcn'. unfold add_consumed. simpl. f_equal. lia.
  - assert (bb = []) as Ebb by (apply nil_length_inv; lia).
    destruct (pull_all_spec n n [] w) as (d' & w' & E & Hd' & Hs' & Hc' & Hcn' & Hsent' & Hst' & Htx' & _ & Hfx');
      [done|done|done|]. unfold pull_all. rewrite E. cbn [app].
    assert (d = d') as -> by (unfold d, body_stream; fold bb; by rewrite <- En, Hd', Ebb).
    exists w'. split_and!; try done.
    unfold body_stream. rewrite Hcn', Hs', buffered_body_add by (done || lia). fold bb.
    rewrite Ebb, drop_nil. cbn [app]. by rewrite Hd', drop_length_take.
Qed.


Definition post_conn : conn :=
  Conn no_request [] inhabitant 0 0 5 0 (B "HDRab" ++ [0; 0]) None false 3 5 0 0 0 0.

