(* ===== verification/WebSocket.v ===== *)
(** * WebSocket

    The server side of the protocol: [is_websocket_request],
    [send_websocket_handshake], [handle_websocket_request] and [read_websocket] of
    src/mongoose.c, and the handlers of src/websocket.c.

    The payload is given to the handler in a buffer that may hold more bytes than
    the frame: [mem] keeps what earlier frames left in it, and memory from [malloc]
    holds anything. *)

From S2P Require Import Prelude CString Options SocketQueue HttpRequest Scanf Sha1 Base64 Conn.

(** ** Handshake *)

Definition ws_magic : bytes := B "258EAFA5-E914-47DA-95CA-C5AB0DC85B11".

(** The text that is hashed: [buf] has 100 bytes. *)
Definition ws_accept_text (key : bytes) : bytes := mg_snprintf 100 (key ++ ws_magic).

Definition ws_reply (accept : bytes) : bytes :=
  B "HTTP/1.1 101 Switching Protocols" ++ crlf ++ B "Upgrade: websocket" ++ crlf
  ++ B "Connection: Upgrade" ++ crlf ++ B "Sec-WebSocket-Accept: " ++ accept ++ crlf.

Definition is_websocket_request (c : conn) : bool :=
  match header_of c (B "Host"), header_of c (B "Upgrade"), header_of c (B "Connection"),
        header_of c (B "Sec-WebSocket-Key"), header_of c (B "Sec-WebSocket-Version") with
  | Some _, Some upgrade, Some connection, Some _, Some _ =>
      bool_decide (is_Some (mg_strcasestr upgrade (B "websocket")))
      && bool_decide (is_Some (mg_strcasestr connection (B "Upgrade")))
  | _, _, _, _, _ => false
  end.

(** ** Frames *)

(** [header_len], [data_len] and [mask_len] of the frame that [body] starts with;
    [None] when [header_len] stays 0. *)
Definition ws_header (body : bytes) : option (nat * Z * nat) :=
  let body_len := length body in
  if (body_len <? 2)%nat then None
  else
    let len := Z.land (at_ body 1) 127 in
    let mask_len := if Z.land (at_ body 1) 128 =? 0 then 0%nat else 4%nat in
    if (len <? 126) && (mask_len <=? body_len)%nat then Some ((2 + mask_len)%nat, len, mask_len)
    else if (len =? 126) && (4 + mask_len <=? body_len)%nat then
      Some ((4 + mask_len)%nat, Z.shiftl (at_ body 2) 8 + at_ body 3, mask_len)
    else if (10 + mask_len <=? body_len)%nat then
      let word i := Z.shiftl (at_ body i) 24 + Z.shiftl (at_ body (i + 1)) 16
                    + Z.shiftl (at_ body (i + 2)) 8 + at_ body (i + 3) in
      Some ((10 + mask_len)%nat, Z.shiftl (word 2%nat) 32 + word 6%nat, mask_len)
    else None.

(** [data[i] ^= mask[i % 4]] for the first [n] bytes from index [i] on. *)
Fixpoint unmask (n i : nat) (mask data : bytes) : bytes :=
  match n, data with
  | S n', b :: data' => Z.lxor b (at_ mask (i mod 4)) :: unmask n' (S i) mask data'
  | _, _ => data
  end.

(** ** The handlers of src/websocket.c *)

(** [websocket_data(conn, flags, data, data_len)]: [data] is the whole buffer. *)
Definition websocket_data (flags : Z) (data : bytes) (data_len : Z) : M Z :=
  let data_len := if 65536 <? data_len then 65536 else data_len in
  _ ← emit (FxLog (B "data_len=" ++ dec data_len));
  let opcode := Z.land flags 0x0f in
  '(reply, ret) ←
    (if (opcode =? 8) || starts_with data (B ".close") then
       mret ([0x88; wrap8 data_len], 0)
     else if data_len <=? 125 then mret ([Z.lor 0x80 opcode; wrap8 data_len], 1)
     else mret ([Z.lor 0x80 opcode; 126; wrap8 (data_len / 256); wrap8 (data_len mod 256)], 1));
  _ ← mg_write reply;
  _ ← (if 0 <? data_len then mg_write (take (Z.to_nat data_len) data) else mret 0);
  mret ret.

Definition websocket_ready_handler : M unit :=
  c ← get_conn;
  _ ← match header_of c (B "Sec-WebSocket-Protocol") with
      | None => mret 0
      | Some prot =>
          let b := take 99 prot in
          let b := match find_last c_comma b with Some i => take i b | None => b end in
          mg_printf (B "Sec-WebSocket-Protocol: " ++ b ++ crlf)
      end;
  _ ← mg_printf crlf;
  mret tt.

Definition websocket_data_handler (flags : Z) (data : bytes) (data_len : Z) : M Z :=
  c ← get_conn;
  if match header_of c (B "Sec-WebSocket-Protocol") with
     | Some prot => starts_with prot (B "foobar")
     | None => false
     end then mret 0
  else
    let u := default [] (uri (request_info c)) in
    if streq u (B "/") || streq u (B "/echo") then websocket_data flags data data_len
    else mret 0.

(** ** The conversation *)

(** The bytes after the request: [body_len] bytes from [buf] on. *)
Definition ws_body (c : conn) : bytes :=
  drop (Z.to_nat (request_len c)) (take (Z.to_nat (Conn.data_len c)) (buf c)).

Section websocket.
(** The byte order of the machine, what uninitialised memory holds, and the handler
    in [callbacks.websocket_data] (data buffer and payload length). *)
Context (big : bool) (sha_buffer : bytes) (junk : nat -> bytes).
Context (handler : Z -> bytes -> Z -> M Z).

Definition send_websocket_handshake : M unit :=
  c ← get_conn;
  let key := default (B "(null)") (header_of c (B "Sec-WebSocket-Key")) in
  match sha1_digest big sha_buffer [ws_accept_text key] with
  | None => abort
  | Some sha => _ ← mg_printf (ws_reply (base64_encode sha)); mret tt
  end.

(** The payload, as it was sent, in the buffer [data]; the frame is taken out of the
    connection's buffer. *)
Definition ws_data (data : bytes) (header_len : nat) (data_len : Z) : M bytes :=
  c ← get_conn;
  let body := ws_body c in
  if Z.of_nat (length body) <? data_len + Z.of_nat header_len then
    let part := drop header_len body in
    let data := splice data 0 part in
    '(_, d) ← pull_all (Z.to_nat (int32 (data_len - Z.of_nat (length part))));
    _ ← modify (fun c => set_data (buf c) (request_len c) c);
    mret (splice data (length part) d)
  else
    let len := (Z.to_nat data_len + header_len)%nat in
    _ ← modify (fun c => set_data (splice (buf c) (Z.to_nat (request_len c)) (drop len body))
                           (Conn.data_len c - Z.of_nat len) c);
    mret (splice data 0 (take (Z.to_nat data_len) (drop header_len body))).

(** One round of the loop on a frame whose header is there: the payload buffer after
    unmasking, and the connection's buffer without the frame.  [mem] is the 4096 byte
    buffer on the stack.  [None] when the memory for the payload is not granted. *)
Definition ws_payload (mem : bytes) (header_len : nat) (data_len : Z) (mask_len : nat)
    : M (option bytes) :=
  c ← get_conn;
  let body := ws_body c in
  ok ← (if Z.of_nat (length mem) <? data_len then malloc else mret true);
  if negb ok then mret None
  else
    let data := if Z.of_nat (length mem) <? data_len then junk (Z.to_nat data_len) else mem in
    let mask := take mask_len (drop (header_len - mask_len) body) in
    _ ← assert_ (Z.of_nat header_len <=? Z.of_nat (length body));
    data ← ws_data data header_len data_len;
    mret (Some (if (0 <? mask_len)%nat then unmask (Z.to_nat data_len) 0 mask data else data)).

(** False when the rounds run out before the loop ends. *)
Fixpoint read_websocket_loop (fuel : nat) (mem : bytes) : M bool :=
  match fuel with
  | O => mret false
  | S fuel' =>
      c ← get_conn;
      let body := ws_body c in
      match ws_header body with
      | Some (header_len, data_len, mask_len) =>
          let bits := at_ body 0 in
          p ← ws_payload mem header_len data_len mask_len;
          match p with
          | None => mret true
          | Some data =>
              ret ← handler bits data data_len;
              if (ret =? 0) || (Z.land bits 0xf =? 8) then mret true
              else read_websocket_loop fuel'
                     (if Z.of_nat (length mem) <? data_len then mem else data)
          end
      | None =>
          '(n, d) ← pull (buf_size c - Z.to_nat (Conn.data_len c));
          if n <=? 0 then mret true
          else
            _ ← modify (fun c => set_data (splice (buf c) (Z.to_nat (Conn.data_len c)) d)
                                   (Conn.data_len c + n) c);
            read_websocket_loop fuel' mem
      end
  end.

Definition read_websocket (fuel : nat) (mem : bytes) : M bool :=
  c ← get_conn;
  _ ← assert_ (content_len c =? 0);
  read_websocket_loop fuel mem.

(** The callback [websocket_ready] is the handler of src/websocket.c;
    [websocket_connect] is not set. *)
Definition handle_websocket_request (fuel : nat) (mem : bytes) : M unit :=
  c ← get_conn;
  if bool_decide (header_of c (B "Sec-WebSocket-Version") = Some (B "13")) then
    _ ← send_websocket_handshake;
    _ ← websocket_ready_handler;
    _ ← read_websocket fuel mem;
    mret tt
  else send_http_error 426 (B "Upgrade Required") (B "Upgrade Required").
End websocket.

(** ** Frames as RFC 6455 writes them *)

Definition ws_len_field (mbit n : Z) : bytes :=
  if n <=? 125 then [mbit + n]
  else if n <=? 65535 then [mbit + 126; n / 256; n mod 256]
  else [mbit + 127; n / 2 ^ 56 mod 256; n / 2 ^ 48 mod 256; n / 2 ^ 40 mod 256; n / 2 ^ 32 mod 256;
        n / 2 ^ 24 mod 256; n / 2 ^ 16 mod 256; n / 2 ^ 8 mod 256; n mod 256].

Definition ws_head (bits : Z) (mask : option bytes) (n : Z) : bytes :=
  bits :: ws_len_field (match mask with Some _ => 128 | None => 0 end) n ++ default [] mask.

Definition ws_frame (bits : Z) (mask : option bytes) (payload : bytes) : bytes :=
  ws_head bits mask (Z.of_nat (length payload))
  ++ match mask with Some m => unmask (length payload) 0 m payload | None => payload end.

Definition mask_ok (mask : option bytes) : Prop :=
  match mask with Some m => length m = 4%nat | None => True end.

Definition mask_size (mask : option bytes) : nat := match mask with Some _ => 4 | None => 0 end.

Lemma unmask_length n i m d : length (unmask n i m d) = length d.
Proof.
  revert n i. induction d as [|b d IH]; intros [|n] i; simpl; [done..|]. by rewrite IH.
Qed.

Lemma unmask_app n i m d rest :
  (n <= length d)%nat -> unmask n i m (d ++ rest) = unmask n i m d ++ rest.
Proof.
  revert n i. induction d as [|b d IH]; intros [|n] i H; simpl in *; [|lia|done|].
  - by destruct rest.
  - by rewrite IH by lia.
Qed.

(** Masking twice gives the payload back. *)
Lemma unmask_twice n i m d : unmask n i m (unmask n i m d) = d.
Proof.
  revert n i. induction d as [|b d IH]; intros [|n] i; simpl; [done..|].
  rewrite Z.lxor_assoc, Z.lxor_nilpotent, Z.lxor_0_r. by rewrite IH.
Qed.

Lemma len_byte k :
  0 <= k < 128 ->
  Z.land k 127 = k /\ Z.land k 128 = 0 /\ Z.land (128 + k) 127 = k /\ Z.land (128 + k) 128 = 128.
Proof.
  intros Hk. assert (forallb (fun j => let k := Z.of_nat j in
    (Z.land k 127 =? k) && (Z.land k 128 =? 0) && (Z.land (128 + k) 127 =? k)
    && (Z.land (128 + k) 128 =? 128)) (seq 0 128) = true) as H by by_eval.
  rewrite forallb_forall in H. specialize (H (Z.to_nat k)). cbv zeta in H.
  rewrite Z2Nat.id in H by lia.
  assert (In (Z.to_nat k) (seq 0 128)) as Hin by (apply in_seq; lia). specialize (H Hin).
  rewrite !andb_true_iff, !Z.eqb_eq in H. tauto.
Qed.

Lemma be64 n :
  0 <= n < 2 ^ 64 ->
  Z.shiftl (Z.shiftl (n / 2 ^ 56 mod 256) 24 + Z.shiftl (n / 2 ^ 48 mod 256) 16
            + Z.shiftl (n / 2 ^ 40 mod 256) 8 + n / 2 ^ 32 mod 256) 32
  + (Z.shiftl (n / 2 ^ 24 mod 256) 24 + Z.shiftl (n / 2 ^ 16 mod 256) 16
     + Z.shiftl (n / 2 ^ 8 mod 256) 8 + n mod 256) = n.
Proof.
  intros Hn. rewrite !Z.shiftl_mul_pow2 by lia.
  assert (forall k j, 0 <= k -> j = k + 8 -> n / 2 ^ k = 256 * (n / 2 ^ j) + n / 2 ^ k mod 256) as H.
  { intros k j Hk ->. rewrite Z.pow_add_r, <- Z.div_div by lia. apply Z.div_mod. lia. }
  pose proof (H 8 16 ltac:(lia) eq_refl) as H8. pose proof (H 16 24 ltac:(lia) eq_refl) as H16.
  pose proof (H 24 32 ltac:(lia) eq_refl) as H24. pose proof (H 32 40 ltac:(lia) eq_refl) as H32.
  pose proof (H 40 48 ltac:(lia) eq_refl) as H40. pose proof (H 48 56 ltac:(lia) eq_refl) as H48.
  pose proof (H 56 64 ltac:(lia) eq_refl) as H56. pose proof (H 0 8 ltac:(lia) eq_refl) as H0.
  change (2 ^ 0) with 1 in H0. rewrite Z.div_1_r in H0.
  rewrite (Z.div_small n (2 ^ 64)) in H56 by done. lia.
Qed.

(** The header of a frame is read off its first bytes. *)
Lemma ws_header_frame bits mask n rest :
  mask_ok mask -> 0 <= n < 2 ^ 63 ->
  ws_header (ws_head bits mask n ++ rest)
  = Some (length (ws_head bits mask n), n, mask_size mask).
Proof.
  intros Hm Hn. unfold ws_head, ws_len_field. set (mbit := match mask with Some _ => 128 | None => 0 end).
  assert (forall k, 0 <= k < 128 -> Z.land (mbit + k) 127 = k /\
    (if Z.land (mbit + k) 128 =? 0 then 0%nat else 4%nat) = mask_size mask) as Hb.
  { intros k Hk. destruct (len_byte k Hk) as (E1 & E2 & E3 & E4). unfold mbit.
    destruct mask; cbn [mask_size]; [by rewrite E3, E4|]. rewrite Z.add_0_l. by rewrite E1, E2. }
  assert (length (default [] mask) = mask_size mask) as Hml by (by destruct mask).
  set (b := default [] mask) in *.
  destruct (Z.leb_spec n 125) as [H1|H1]; [|destruct (Z.leb_spec n 65535) as [H2|H2]].
  - change ((bits :: [mbit + n] ++ b) ++ rest) with (bits :: mbit + n :: (b ++ rest)).
    unfold ws_header. cbn [length app]. rewrite ?at_S, ?at_0.
    destruct (Hb n ltac:(lia)) as [-> ->]. rewrite !length_app, Hml.
    destruct (Nat.ltb_spec (S (S (mask_size mask + length rest))) 2); [lia|].
    destruct (Z.ltb_spec n 126); [|lia].
    destruct (Nat.leb_spec (mask_size mask) (S (S (mask_size mask + length rest)))); [|lia].
    done.
  - change ((bits :: [mbit + 126; n / 256; n mod 256] ++ b) ++ rest)
      with (bits :: mbit + 126 :: n / 256 :: n mod 256 :: (b ++ rest)).
    unfold ws_header. cbn [length app]. rewrite ?at_S, ?at_0.
    destruct (Hb 126 ltac:(lia)) as [-> ->]. rewrite !length_app, Hml.
    destruct (Nat.ltb_spec (S (S (S (S (mask_size mask + length rest))))) 2); [lia|].
    cbn [Z.ltb Z.eqb Z.compare Pos.compare Pos.compare_cont andb Pos.eqb].
    destruct (Nat.leb_spec (4 + mask_size mask) (S (S (S (S (mask_size mask + length rest)))))); [|lia].
    rewrite Z.shiftl_mul_pow2 by lia. do 3 f_equal. pose proof (Z.div_mod n 256). lia.
  - match goal with |- ws_header ((bits :: ?l ++ b) ++ rest) = _ =>
      change ((bits :: l ++ b) ++ rest) with (bits :: l ++ (b ++ rest)) end.
    unfold ws_header. cbn [length app Nat.add]. rewrite ?at_S, ?at_0.
    destruct (Hb 127 ltac:(lia)) as [-> ->]. rewrite !length_app, Hml.
    match goal with |- context [(?k <? 2)%nat] => destruct (Nat.ltb_spec k 2); [lia|] end.
    cbn [Z.ltb Z.eqb Z.compare Pos.compare Pos.compare_cont andb Pos.eqb].
    match goal with |- context [(?j <=? ?k)%nat] => destruct (Nat.leb_spec j k); [|lia] end.
    by rewrite be64 by lia.
Qed.

(** ** Incomplete frames *)

(** A client can abort the whole server: when the first four or five bytes of a
    masked frame with a short payload arrive alone, [read_websocket] takes the header
    as complete (it compares the length with the mask alone, not with the two bytes
    before it) and the assertion that follows fails. *)
Theorem ws_short_frame_aborts junk handler fuel mem w b0 b1 rest :
  ws_body (cn w) = b0 :: b1 :: rest -> (2 <= length rest <= 3)%nat ->
  128 <= b1 < 254 -> content_len (cn w) = 0 -> Z.of_nat (length mem) = 4096 ->
  read_websocket junk handler (S fuel) mem w = None.
Proof.
  intros Hbody Hrest Hb1 Hcl Hmem.
  destruct (len_byte (b1 - 128)) as (_ & _ & E3 & E4); [lia|].
  replace (128 + (b1 - 128)) with b1 in * by lia.
  unfold read_websocket, mbind, M_bind, get_conn. rewrite Hcl. cbn [Z.eqb assert_ mret M_ret].
  unfold mret, M_ret. cbn [read_websocket_loop]. unfold mbind, M_bind, get_conn.
  assert (ws_header (ws_body (cn w)) = Some (6%nat, b1 - 128, 4%nat)) as ->.
  { rewrite Hbody. unfold ws_header. rewrite at_S, at_0, E3, E4. change (128 =? 0) with false.
    cbv iota. cbn [length].
    destruct (Nat.ltb_spec (S (S (length rest))) 2); [lia|].
    destruct (Z.ltb_spec (b1 - 128) 126); [|lia].
    destruct (Nat.leb_spec 4 (S (S (length rest)))); [done|lia]. }
  unfold ws_payload, mbind, M_bind, get_conn.
  destruct (Z.ltb_spec (Z.of_nat (length mem)) (b1 - 128)); [lia|].
  unfold mret, M_ret. cbn [negb]. rewrite Hbody. cbn [length].
  destruct (Z.leb_spec (Z.of_nat 6) (Z.of_nat (S (S (length rest))))); [lia|]. done.
Qed.

Definition ws_conn (body : bytes) : conn :=
  Conn (RequestInfo (Some (B "GET")) (Some (B "/echo")) (Some (B "1.1")) None None 0 0 false [])
    [] inhabitant 0 0 0 0 (B "HDR" ++ body ++ replicate 40 0) None false 3
    (3 + Z.of_nat (length body)) 101 0 0 0.

Definition a_mem : bytes := replicate (Z.to_nat 4096) 0.

Lemma ws_short_frame_aborts_witness :
  read_websocket (fun n => replicate n 0) websocket_data_handler 10 a_mem
    (quiet (ws_conn [0x81; 0x85; 1; 2]) []) = None.
Proof.
  apply (ws_short_frame_aborts (fun n => replicate n 0) websocket_data_handler 9 a_mem
    (quiet (ws_conn [0x81; 0x85; 1; 2]) []) 0x81 0x85 [1; 2]).
  - by_eval.
  - simpl. lia.
  - lia.
  - done.
  - by_eval.
Defined.

(** ** Complete frames *)

Definition ws_stream (w : world) : bytes := ws_body (cn w) ++ stream (rx w).

Lemma ws_body_length c :
  conn_ok c -> Z.of_nat (length (ws_body c)) = Conn.data_len c - request_len c.
Proof. intros (Hr & Hd & _). unfold ws_body. rewrite length_drop, length_take. lia. Qed.

(** The buffer after a frame of [len] bytes has been moved out of it. *)
Lemma ws_body_move c len :
  conn_ok c -> (len <= length (ws_body c))%nat ->
  let r := Z.to_nat (request_len c) in
  let c' := set_data (splice (buf c) r (drop len (ws_body c))) (Conn.data_len c - Z.of_nat len) c in
  ws_body c' = drop len (ws_body c) /\ conn_ok c'.
Proof.
  intros Hok Hlen r c'. pose proof (ws_body_length c Hok) as Hbl. destruct Hok as (Hr & Hd & Hc).
  set (X := drop len (ws_body c)) in *.
  assert (length X = (length (ws_body c) - len)%nat) as HX by (unfold X; by rewrite length_drop).
  split.
  - unfold ws_body at 1, c'. cbn [request_len Conn.data_len buf set_data]. fold r.
    rewrite splice_take_eq by (unfold r; lia).
    rewrite drop_app_length' by (rewrite length_take; unfold r; lia). done.
  - unfold conn_ok, c'. cbn [request_len Conn.data_len buf set_data consumed_content].
    rewrite splice_length by (unfold r; lia). lia.
Qed.

(** Unmasking the payload at the start of a buffer. *)
Lemma unmask_buffer (mask : option bytes) payload data :
  mask_ok mask ->
  take (length payload) data
    = match mask with Some m => unmask (length payload) 0 m payload | None => payload end ->
  let data' := if (0 <? mask_size mask)%nat then unmask (length payload) 0 (default [] mask) data
               else data in
  take (length payload) data' = payload /\ length data' = length data.
Proof.
  intros Hm E data'. destruct mask as [m|]; cbn [mask_size Nat.ltb Nat.leb default] in *; [|done].
  unfold data'. rewrite <- (take_drop (length payload) data), E.
  rewrite unmask_app, unmask_twice by (by rewrite unmask_length).
  rewrite take_app_length, !length_app, unmask_length. done.
Qed.

(** The frame that the client's bytes start with reaches the handler unmasked, and the
    bytes after it are next. *)
(** [w'] is [w] with less to read; nothing else has happened. *)
Record ws_kept (w w' : world) : Prop := {
  wk_ok : conn_ok (cn w');
  wk_clean : rx_clean (rx w');
  wk_stops : stops w' = [];
  wk_mallocs : mallocs w' = [];
  wk_info : request_info (cn w') = request_info (cn w);
  wk_sent : sent w' = sent w;
  wk_tx : tx w' = tx w
}.

(** The rest of a payload comes from the socket. *)
Lemma ws_data_pulled data0 hd body1 enc rest w :
  conn_ok (cn w) -> rx_clean (rx w) -> stops w = [] -> mallocs w = [] ->
  ws_body (cn w) = hd ++ body1 -> body1 ++ stream (rx w) = enc ++ rest ->
  (length body1 < length enc <= length data0)%nat -> Z.of_nat (length enc) < 2 ^ 31 ->
  exists data w', ws_data data0 (length hd) (Z.of_nat (length enc)) w = Some (data, w') /\
    length data = length data0 /\ take (length enc) data = enc /\ ws_stream w' = rest /\ ws_kept w w'.
Proof.
  intros Hok Hc Hst Hma Eb Hs [Hlt Hd0] Hn. unfold ws_data, mbind, M_bind, get_conn. rewrite Eb, length_app.
  destruct (Z.ltb_spec (Z.of_nat (length hd + length body1)) (Z.of_nat (length enc) + Z.of_nat (length hd))); [|lia].
  rewrite drop_app_length, int32_small by lia. unfold pull_all.
  replace (Z.to_nat (Z.of_nat (length enc) - Z.of_nat (length body1))) with (length enc - length body1)%nat by lia.
  set (k := (length enc - length body1)%nat).
  destruct (pull_all_spec k k [] w) as (d & w2 & -> & Hd & Hs2 & Hc2 & Hcn2 & Hse2 & Hst2 & Htx2 & Hma2 & _);
    [done|done|done|]. cbn [app]. unfold modify, mret, M_ret. cbv beta iota.
  assert (enc = body1 ++ d /\ rest = drop k (stream (rx w))) as [Ee Er].
  { rewrite Hd. apply (app_inj_1 enc); [|by rewrite <- Hs, <- app_assoc, take_drop].
    rewrite length_app, length_take. apply (f_equal length) in Hs. rewrite !length_app in Hs. lia. }
  pose proof (f_equal length Ee) as Hle. rewrite length_app in Hle.
  eexists _, _. split; [reflexivity|]. split_and!.
  - rewrite !splice_length; rewrite ?splice_length; lia.
  - rewrite Hle, splice_take_eq by (rewrite ?splice_length; lia). by rewrite splice_take_eq by lia.
  - unfold ws_stream, ws_body. cbn [cn set_cn set_data rx request_len Conn.data_len buf].
    rewrite drop_ge by (rewrite length_take; lia). by rewrite Hs2, Er.
  - constructor; cbn [set_cn cn rx stops mallocs sent tx]; try congruence; try done.
    + rewrite Hcn2. destruct Hok as (? & ? & ?). unfold conn_ok. simpl. lia.
    + by rewrite Hcn2.
Qed.

(** The whole payload is in the connection's buffer. *)
Lemma ws_data_moved data0 hd body1 enc rest w :
  conn_ok (cn w) -> rx_clean (rx w) -> stops w = [] -> mallocs w = [] ->
  ws_body (cn w) = hd ++ body1 -> body1 ++ stream (rx w) = enc ++ rest ->
  (length enc <= length body1)%nat -> (length enc <= length data0)%nat ->
  exists data w', ws_data data0 (length hd) (Z.of_nat (length enc)) w = Some (data, w') /\
    length data = length data0 /\ take (length enc) data = enc /\ ws_stream w' = rest /\ ws_kept w w'.
Proof.
  intros Hok Hc Hst Hma Eb Hs Hge Hd0. unfold ws_data, mbind, M_bind, get_conn.
  destruct (ws_body_move (cn w) (length enc + length hd) Hok) as [Hb2 Hok2]; [rewrite Eb, length_app; lia|].
  rewrite Eb in Hb2, Hok2 |- *. rewrite length_app.
  destruct (Z.ltb_spec (Z.of_nat (length hd + length body1)) (Z.of_nat (length enc) + Z.of_nat (length hd))); [lia|].
  rewrite Nat2Z.id, drop_app_length. unfold modify, mret, M_ret. cbv beta iota.
  assert (enc = take (length enc) body1 /\ rest = drop (length enc) body1 ++ stream (rx w)) as [Ee Er].
  { apply app_inj_1; [rewrite length_take; lia|]. by rewrite app_assoc, take_drop. }
  eexists _, _. split; [reflexivity|]. split_and!.
  - rewrite splice_length; rewrite ?length_take; lia.
  - rewrite <- Ee. by rewrite splice_take_eq by lia.
  - unfold ws_stream. cbn [cn set_cn rx]. rewrite Hb2, Nat.add_comm, <- drop_drop, drop_app_length. done.
  - by constructor.
Qed.

Lemma ws_data_frame data0 hd body1 enc rest w :
  conn_ok (cn w) -> rx_clean (rx w) -> stops w = [] -> mallocs w = [] ->
  ws_body (cn w) = hd ++ body1 -> body1 ++ stream (rx w) = enc ++ rest ->
  (length enc <= length data0)%nat -> Z.of_nat (length enc) < 2 ^ 31 ->
  exists data w', ws_data data0 (length hd) (Z.of_nat (length enc)) w = Some (data, w') /\
    length data = length data0 /\ take (length enc) data = enc /\ ws_stream w' = rest /\ ws_kept w w'.
Proof.
  intros. destruct (Nat.le_gt_cases (length enc) (length body1)).
  - by apply (ws_data_moved data0 hd body1).
  - by apply (ws_data_pulled data0 hd body1).
Qed.

(** The header of a frame in front of the input, and its mask. *)
Lemma ws_frame_body bits mask payload rest w :
  let hd := ws_head bits mask (Z.of_nat (length payload)) in
  let enc := match mask with Some m => unmask (length payload) 0 m payload | None => payload end in
  mask_ok mask -> ws_stream w = ws_frame bits mask payload ++ rest ->
  (length hd <= length (ws_body (cn w)))%nat ->
  exists body1, ws_body (cn w) = hd ++ body1 /\ body1 ++ stream (rx w) = enc ++ rest /\
    take (mask_size mask) (drop (length hd - mask_size mask) (ws_body (cn w))) = default [] mask.
Proof.
  intros hd enc Hm Hs Hhd. set (body := ws_body (cn w)) in *.
  assert (body ++ stream (rx w) = hd ++ enc ++ rest) as Hs' by (rewrite (app_assoc hd); exact Hs).
  assert (body = hd ++ drop (length hd) body) as Eb.
  { rewrite <- (take_drop (length hd) body) at 1. f_equal.
    transitivity (take (length hd) (body ++ stream (rx w))); [by rewrite take_app_le|].
    by rewrite Hs', take_app_length. }
  exists (drop (length hd) body). split; [done|]. split.
  - rewrite Eb, <- app_assoc in Hs'. by apply app_inv_head in Hs'.
  - rewrite Eb. unfold hd, ws_head. destruct mask as [m|]; [|done]. cbn [mask_size default] in *.
    set (lf := ws_len_field _ _). rewrite app_comm_cons, length_app, Hm, <- app_assoc.
    rewrite drop_app_length' by lia. by rewrite take_app_length'.
Qed.

Lemma ws_payload_frame junk mem w bits mask payload rest :
  let n := Z.of_nat (length payload) in
  let head := ws_head bits mask n in
  mask_ok mask -> conn_ok (cn w) -> rx_clean (rx w) -> stops w = [] -> mallocs w = [] ->
  n < 2 ^ 31 -> length (junk (length payload)) = length payload ->
  ws_stream w = ws_frame bits mask payload ++ rest ->
  (length head <= length (ws_body (cn w)))%nat ->
  exists data w', ws_payload junk mem (length head) n (mask_size mask) w = Some (Some data, w') /\
    take (length payload) data = payload /\ ws_stream w' = rest /\
    conn_ok (cn w') /\ rx_clean (rx w') /\ stops w' = [] /\ mallocs w' = [] /\
    request_info (cn w') = request_info (cn w) /\ sent w' = sent w /\ tx w' = tx w /\
    (n <= Z.of_nat (length mem) -> length data = length mem).
Proof.
  intros n hd Hm Hok Hc Hst Hma Hn Hj Hs Hhd.
  destruct (ws_frame_body bits mask payload rest w Hm Hs Hhd) as (body1 & Eb & Hs1 & Emask).
  change (ws_head bits mask (Z.of_nat (length payload))) with hd in Eb, Emask.
  set (enc := match mask with Some m => _ | None => payload end) in Hs1.
  assert (length enc = length payload) as Henc by (unfold enc; destruct mask; rewrite ?unmask_length; done).
  unfold ws_payload, mbind, M_bind, get_conn. set (small := Z.of_nat (length mem) <? n).
  assert (exists w1, (if small then malloc else mret true) w = Some (true, w1) /\ cn w1 = cn w /\
    rx w1 = rx w /\ stops w1 = [] /\ mallocs w1 = [] /\ sent w1 = sent w /\ tx w1 = tx w)
    as (w1 & -> & Hcn1 & Hrx1 & Hst1 & Hma1 & Hse1 & Htx1).
  { destruct small; [|by eexists]. unfold malloc. rewrite Hma. eexists. by split. }
  replace (Z.to_nat n) with (length payload) by lia. cbn [negb]. set (data0 := if small then _ else mem).
  rewrite Emask.
  assert (length payload <= length data0)%nat as Hd0
    by (unfold data0, small; destruct (Z.ltb_spec (Z.of_nat (length mem)) n); lia).
  destruct (Z.leb_spec (Z.of_nat (length hd)) (Z.of_nat (length (ws_body (cn w))))); [|lia].
  cbn [assert_]. unfold mret at 1, M_ret at 1. cbv beta iota.
  destruct (ws_data_frame data0 hd body1 enc rest w1) as (data & w2 & E2 & Hl & Ht & Hr & [K1 K2 K3 K4 K5 K6 K7]);
    rewrite ?Hcn1, ?Hrx1, ?Henc; try done. rewrite Henc in E2, Ht.
  unfold n at 1. rewrite E2. destruct (unmask_buffer mask payload data Hm Ht) as [F1 F2].
  eexists _, w2. split; [reflexivity|]. split_and!; try done; try congruence.
  intros Hle. rewrite F2, Hl. unfold data0, small. destruct (Z.ltb_spec (Z.of_nat (length mem)) n); [lia|done].
Qed.


Definition ping_world : world :=
  quiet (ws_conn (take 8 (ws_frame 0x81 (Some [1; 2; 3; 4]) (B "hello"))))
    [RxData (drop 8 (ws_frame 0x81 (Some [1; 2; 3; 4]) (B "hello")) ++ [0x89; 0])].


(** ** The echo *)

(** What [websocket_data] sends, whatever the frame. *)
Lemma websocket_data_sends flags data n w :
  sends_ok w -> 0 <= n <= 65536 -> n <= Z.of_nat (length data) ->
  Z.land flags 0x0f <> 8 -> starts_with data (B ".close") = false ->
  let op := Z.lor 0x80 (Z.land flags 0x0f) in
  exists w', websocket_data flags data n w = Some (1, w') /\
    sent w' = sent w ++ (if n <=? 125 then [op; n] else [op; 126; wrap8 (n / 256); wrap8 (n mod 256)])
              ++ take (Z.to_nat n) data.
Proof.
  intros Hok Hn Hdata Hop Hcl op. unfold websocket_data.
  destruct (Z.ltb_spec 65536 n); [lia|]. apply Z.eqb_neq in Hop. rewrite Hop, Hcl. cbn [orb].
  unfold mbind at 1, M_bind at 1, emit at 1. set (w0 := World _ _ _ _ _ _ _ _).
  assert (sends_ok w0) as Hok0 by done. change (sent w) with (sent w0). clearbody w0.
  set (reply := if n <=? 125 then [op; n] else [op; 126; wrap8 (n / 256); wrap8 (n mod 256)]).
  assert (exists r, (if n <=? 125 then mret ([Z.lor 0x80 (Z.land flags 0x0f); wrap8 n], 1)
    else mret ([Z.lor 0x80 (Z.land flags 0x0f); 126; wrap8 (n / 256); wrap8 (n mod 256)], 1) : M (bytes * Z)) w0
    = Some ((r, 1), w0) /\ r = reply /\ (length r <= 4)%nat) as (r & Er & -> & Hlr).
  { unfold reply. destruct (Z.leb_spec n 125); (eexists; split; [reflexivity|]; split; [|simpl; lia]).
    - unfold wrap8. rewrite Z.mod_small by lia. done.
    - done. }
  unfold mbind, M_bind. rewrite Er.
  destruct (mg_write_all reply w0 Hok0) as (w1 & -> & Hs1 & Hok1 & _); [lia|].
  destruct (Z.ltb_spec 0 n) as [Hpos|Hz].
  - destruct (mg_write_all (take (Z.to_nat n) data) w1 Hok1) as (w2 & -> & Hs2 & _);
      [rewrite length_take; lia|]. exists w2. split; [done|]. by eapply sent_app.
  - replace n with 0 in * by lia. exists w1. split; [done|]. simpl. by rewrite app_nil_r.
Qed.

(** The echo is a well-formed frame: for a payload of at most 65535 bytes that is
    not a close request, [websocket_data] sends back one unmasked frame with the FIN
    bit, the opcode of the request and the same payload. *)
Theorem websocket_data_echo flags data n w :
  sends_ok w -> 0 <= n <= 65535 -> n <= Z.of_nat (length data) ->
  Z.land flags 0x0f <> 8 -> starts_with data (B ".close") = false ->
  exists w', websocket_data flags data n w = Some (1, w') /\
    sent w' = sent w ++ ws_frame (Z.lor 0x80 (Z.land flags 0x0f)) None (take (Z.to_nat n) data).
Proof.
  intros Hok Hn Hdata Hop Hcl.
  destruct (websocket_data_sends flags data n w) as (w' & E & Hs); [done|lia|done..|].
  exists w'. split; [done|]. rewrite Hs. unfold ws_frame, ws_head, ws_len_field. cbn [default].
  rewrite length_take, Nat.min_l, Z2Nat.id by lia. cbn [Z.add].
  destruct (Z.leb_spec n 125); [done|]. destruct (Z.leb_spec n 65535); [|lia].
  unfold wrap8. change (2 ^ 8) with 256. rewrite Z.mod_mod by lia.
  rewrite (Z.mod_small (n / 256)); [done|].
  split; [apply Z.div_pos; lia|apply Z.div_lt_upper_bound; lia].
Qed.

Lemma websocket_data_echo_witness :
  exists w', websocket_data 0x81 (B "hi" ++ a_mem) 2 (quiet (ws_conn []) []) = Some (1, w') /\
    sent w' = ws_frame 0x81 None (B "hi").
Proof.
  apply (websocket_data_echo 0x81 (B "hi" ++ a_mem) 2 (quiet (ws_conn []) []));
    try (split_and!; done); try done; by_eval.
Defined.

(** A payload of 65536 bytes, which [websocket_data] means to echo in full, is sent
    after a header that announces a payload of length 0. *)
Theorem websocket_data_64k flags data w :
  sends_ok w -> 65536 <= Z.of_nat (length data) ->
  Z.land flags 0x0f <> 8 -> starts_with data (B ".close") = false ->
  exists w' head, websocket_data flags data 65536 w = Some (1, w') /\
    sent w' = sent w ++ head ++ take (Z.to_nat 65536) data /\
    ws_header head = Some (4%nat, 0, 0%nat).
Proof.
  intros Hok Hdata Hop Hcl.
  destruct (websocket_data_sends flags data 65536 w) as (w' & E & Hs); [done|lia|done..|].
  eexists w', _. split; [done|]. split; [exact Hs|]. done.
Qed.

Lemma websocket_data_64k_witness :
  exists w' head,
    websocket_data 0x82 (replicate (Z.to_nat 65536) 7) 65536 (quiet (ws_conn []) []) = Some (1, w') /\
    sent w' = [] ++ head ++ take (Z.to_nat 65536) (replicate (Z.to_nat 65536) 7) /\
    ws_header head = Some (4%nat, 0, 0%nat).
Proof.
  apply (websocket_data_64k 0x82 (replicate (Z.to_nat 65536) 7) (quiet (ws_conn []) [])).
  - by split_and!.
  - rewrite length_replicate. lia.
  - done.
  - by_eval.
Defined.

(** ** The accept key *)

(** The handshake answers the key as RFC 6455 prescribes: for a key of at most 63
    bytes the reply carries the base64 text of the SHA-1 digest of the key and the
    protocol's constant, 28 characters, which fit the 40 bytes reserved for them. *)
Theorem ws_handshake_accept big sb w key :
  sends_ok w -> length sb = 64%nat -> Forall is_byte sb ->
  header_of (cn w) (B "Sec-WebSocket-Key") = Some key -> Forall is_byte key ->
  (length key <= 63)%nat ->
  exists w', send_websocket_handshake big sb w = Some (tt, w') /\
    sent w' = sent w ++ ws_reply (base64_encode (fips_sha1 (key ++ ws_magic))) /\
    length (base64_encode (fips_sha1 (key ++ ws_magic))) = 28%nat.
Proof.
  intros Hok Hl Hb Hk Hkb Hkl. unfold send_websocket_handshake, mbind, M_bind, get_conn.
  rewrite Hk. change (default (B "(null)") (Some key)) with key.
  assert (length ws_magic = 36%nat) as Hml by done.
  assert (ws_accept_text key = key ++ ws_magic) as Et
    by (unfold ws_accept_text, mg_snprintf; apply take_ge; rewrite length_app; lia).
  rewrite Et, sha1_digest_fips; [|done|done|].
  2: { apply Forall_singleton. split; [|rewrite length_app; lia].
       rewrite Forall_app. split; [done|]. by_decide. }
  cbn [concat]. rewrite app_nil_r.
  assert (length (base64_encode (fips_sha1 (key ++ ws_magic))) = 28%nat) as H28
    by (rewrite base64_length, fips_sha1_length; reflexivity).
  set (acc := base64_encode _) in *.
  assert (length (ws_reply acc) = 127%nat) as Hlr
    by (unfold ws_reply; rewrite !length_app, H28; reflexivity).
  unfold mg_printf, alloc_vprintf, mbind, M_bind. rewrite Hlr.
  destruct (Nat.ltb_spec MG_BUF_LEN 127) as [H|_]; [unfold MG_BUF_LEN in H; lia|].
  destruct (Nat.eqb_spec 127 MG_BUF_LEN) as [H|_]; [unfold MG_BUF_LEN in H; lia|].
  unfold mret at 1, M_ret at 1. rewrite Hlr. cbn [Nat.ltb Nat.leb].
  destruct (mg_write_all (ws_reply acc) w Hok) as (w' & -> & Hs & _); [lia|].
  by exists w'.
Qed.

Definition key_conn : conn :=
  set_request_info (RequestInfo (Some (B "GET")) (Some (B "/")) (Some (B "1.1")) None None 0 0 false
    [(B "Sec-WebSocket-Key", B "dGhlIHNhbXBsZSBub25jZQ==")]) (ws_conn []).

(** The example of RFC 6455. *)
Example ws_accept_rfc :
  base64_encode (fips_sha1 (B "dGhlIHNhbXBsZSBub25jZQ==" ++ ws_magic))
  = B "s3pPLMBiTxaQ9kYGzzhZRbK+xOo=".
Proof. by_eval. Qed.

Lemma ws_handshake_accept_witness :
  exists w', send_websocket_handshake false (replicate 64 0) (quiet key_conn []) = Some (tt, w') /\
    sent w' = [] ++ ws_reply (base64_encode (fips_sha1 (B "dGhlIHNhbXBsZSBub25jZQ==" ++ ws_magic))) /\
    length (base64_encode (fips_sha1 (B "dGhlIHNhbXBsZSBub25jZQ==" ++ ws_magic))) = 28%nat.
Proof.
  apply (ws_handshake_accept false (replicate 64 0) (quiet key_conn [])).
  - by split_and!.
  - done.
  - apply Forall_replicate. by_eval.
  - by_eval.
  - by_decide.
  - simpl. lia.
Defined.
