(* ===== verification/Os.v ===== *)
(** * The system interface

    What the request handlers use of the operating system and of the parts of the C
    library that depend on it, as a class; no claim is made about it.  A handler sees
    the files as they are when the request starts.  [mg_stat] and [mg_fopen] of
    src/mongoose.c with no callback for files in memory; [cry] with the callback
    [log_message] of src/tinyweb.c. *)

From S2P Require Import Prelude CString Options SocketQueue HttpRequest Scanf Conn.

Record file_stat := FileStat { st_size : Z; st_mtime : Z; st_isdir : bool }.

(** How the attempt to run a CGI program ends: no pipe, no process, no stream for the
    pipe, or a process and what each [read] of its output delivers when it has been
    given some input. *)
Inductive cgi_process :=
  | NoPipe | NoFork | NoStream | Running (output : bytes -> list bytes).

Class OS := {
  os_stat : bytes -> option file_stat;
  os_read : bytes -> option bytes;             (* fopen for reading, and the contents *)
  os_readdir : bytes -> option (list bytes);   (* opendir and the names in it *)
  os_create : bytes -> bool;                   (* fopen for writing *)
  os_append : bytes -> bool;                   (* fopen for appending *)
  os_writable : bytes -> bool;                 (* fwrite to the file: all of it, or an error *)
  os_mkdir : bytes -> bool;
  os_remove : bytes -> bool;                   (* remove of a file *)
  os_realpath : bytes -> option bytes;         (* readlink of a symbolic link *)
  os_popen : bytes -> option bytes;            (* popen, and the output of the command *)
  os_getenv : bytes -> option bytes;
  os_cgi : list bytes -> bytes -> bytes -> cgi_process;
                                               (* environment, directory, program *)
  os_strerror : bytes;                         (* strerror(errno) *)
  os_http_date : Z -> bytes;                   (* strftime of gmtime, HTTP date format *)
  os_list_date : Z -> bytes;                   (* the format of directory listings *)
  os_log_date : Z -> bytes                     (* the format of the access log *)
}.

Definition PATH_MAX : nat := Z.to_nat 4096.

Section os.
Context `{OS}.

(** The result and [*filep]: a file whose modification time is 0 counts as missing. *)
Definition mg_stat (path : bytes) : bool * file_stat :=
  match os_stat path with
  | Some st => (negb (st_mtime st =? 0), st)
  | None => (false, FileStat 0 0 false)
  end.

(** [mg_fopen(conn, path, "r", filep)]: the contents of the file, when it can be
    opened. *)
Definition mg_fopen (path : bytes) : option bytes := os_read path.
End os.

(** [inet_ntop] for IPv4 *)
Definition inet_ntoa (ip : Z) : bytes :=
  dec (wrap8 (Z.shiftr ip 24)) ++ B "." ++ dec (wrap8 (Z.shiftr ip 16)) ++ B "."
  ++ dec (wrap8 (Z.shiftr ip 8)) ++ B "." ++ dec (wrap8 ip).
Definition sockaddr_to_string (len : nat) (usa : Z * Z) : bytes :=
  if (length (inet_ntoa (fst usa)) <? len)%nat then inet_ntoa (fst usa) else [].

(** [%0<width>lu] *)
Definition dec_pad (width : nat) (n : Z) : bytes :=
  replicate (width - length (dec n)) 48 ++ dec n.

(** The message is given to [log_message], which prints it and returns 0, and added to
    the error log, if there is one. *)
Definition cry `{OS} (text : bytes) : M unit :=
  let buf := take (MG_BUF_LEN - 1) text in
  _ ← emit (FxLog buf);
  c ← get_conn;
  match cfg (config_of c) ERROR_LOG_FILE with
  | None => mret tt
  | Some log =>
      if os_append log then
        timestamp ← time;
        emit (FxAppend log
          (B "[" ++ dec_pad 10 (wrap64 timestamp) ++ B "] [error] [client "
           ++ sockaddr_to_string 20 (rsa (client c)) ++ B "] "
           ++ match request_method (request_info c) with
              | Some m => m ++ B " " ++ default (B "(null)") (uri (request_info c)) ++ B ": "
              | None => []
              end
           ++ buf ++ [c_lf]))
      else mret tt
  end.

(** [w'] is [w] after some messages. *)
Definition is_log (e : effect) : bool :=
  match e with FxLog _ | FxAppend _ _ => true | _ => false end.

Record logged (w w' : world) : Prop := {
  lg_cn : cn w' = cn w;
  lg_rx : rx w' = rx w;
  lg_tx : tx w' = tx w;
  lg_sent : sent w' = sent w;
  lg_mallocs : mallocs w' = mallocs w;
  lg_stops : stops w' = stops w;
  lg_fx : exists l, fx w' = fx w ++ l /\ Forall (fun e => is_log e = true) l
}.

Lemma logged_refl w : logged w w.
Proof. constructor; try done. exists []. by rewrite app_nil_r. Qed.

Lemma cry_spec `{OS} text w : exists w', cry text w = Some (tt, w') /\ logged w w'.
Proof.
  unfold cry, emit, get_conn, time, mbind, M_bind, mret, M_ret. cbn [cn].
  destruct (cfg (config_of (cn w)) ERROR_LOG_FILE) as [log|]; [destruct (os_append log)|];
    (eexists; split; [reflexivity|]; constructor; try done; cbn [fx]).
  - eexists [_; _]. rewrite <- app_assoc. by repeat constructor.
  - eexists [_]. by repeat constructor.
  - eexists [_]. by repeat constructor.
Qed.

Lemma total_cry `{OS} text : total (cry text).
Proof. intros w. destruct (cry_spec text w) as (w' & -> & _). by eexists _, _. Qed.
#[export] Hint Resolve total_cry : total.

(** A system with some files and directories, for examples. *)
Definition find_file (files : list (bytes * bytes)) (path : bytes) : option bytes :=
  snd <$> List.find (fun f => streq (fst f) path) files.

Definition small_os (files : list (bytes * bytes)) (dirs : list bytes) : OS := {|
  os_stat path :=
    match find_file files path with
    | Some content => Some (FileStat (Z.of_nat (length content)) 1000000000 false)
    | None => if existsb (streq path) dirs then Some (FileStat 4096 1000000000 true) else None
    end;
  os_read := find_file files;
  os_readdir path := if existsb (streq path) dirs then Some [] else None;
  os_create _ := true;
  os_append _ := true;
  os_writable _ := true;
  os_mkdir _ := true;
  os_remove _ := true;
  os_realpath _ := None;
  os_popen _ := None;
  os_getenv _ := None;
  os_cgi _ _ _ := NoFork;
  os_strerror := B "No such file or directory";
  os_http_date _ := B "Sun, 09 Sep 2001 01:46:40 GMT";
  os_list_date _ := B "09-Sep-2001 01:46";
  os_log_date _ := B "09/Sep/2001:01:46:40 +0000"
|}.

(** The same with programs to run. *)
Definition with_cgi (os : OS) (cgi : list bytes -> bytes -> bytes -> cgi_process) : OS := {|
  os_stat := @os_stat os; os_read := @os_read os; os_readdir := @os_readdir os; os_create := @os_create os;
  os_append := @os_append os; os_writable := @os_writable os; os_mkdir := @os_mkdir os; os_remove := @os_remove os;
  os_realpath := @os_realpath os; os_popen := @os_popen os; os_getenv := @os_getenv os; os_cgi := cgi;
  os_strerror := @os_strerror os; os_http_date := @os_http_date os; os_list_date := @os_list_date os;
  os_log_date := @os_log_date os
|}.

(** What successive calls of [fgets(line, size, fp)] deliver. *)
Fixpoint fgets_from (size : nat) (room : nat) (acc content : bytes) : list bytes :=
  match content with
  | [] => match acc with [] => [] | _ => [acc] end
  | c :: content' =>
      if c =? c_lf then (acc ++ [c]) :: fgets_from size size [] content'
      else match room with
           | O | 1%nat => (acc ++ [c]) :: fgets_from size size [] content'
           | S room' => fgets_from size room' (acc ++ [c]) content'
           end
  end.
Definition fgets_lines (size : nat) (content : bytes) : list bytes :=
  fgets_from (size - 1) (size - 1) [] content.

Example fgets_1 : fgets_lines 4 (B "abcde" ++ [10] ++ B "f") = [B "abc"; B "de" ++ [10]; B "f"].
Proof. by_eval. Qed.
Example fgets_2 : fgets_lines 4 (B "ab" ++ [10; 10] ++ B "cd") = [B "ab" ++ [10]; [10]; B "cd"].
Proof. by_eval. Qed.

(** Lines that fit are delivered whole. *)
Lemma fgets_from_line size room acc l rest :
  c_lf ∉ l -> (length l < room)%nat ->
  fgets_from size room acc (l ++ c_lf :: rest)
  = (acc ++ l ++ [c_lf]) :: fgets_from size size [] rest.
Proof.
  revert room acc. induction l as [|c l IH]; intros room acc Hl Hr; [done|].
  rewrite not_elem_of_cons in Hl. destruct Hl as [Hc Hl]. simpl in Hr. cbn [app fgets_from].
  rewrite (proj2 (Z.eqb_neq c c_lf)) by congruence. destruct room as [|[|room]]; [lia|lia|].
  rewrite IH by (done || lia). by rewrite <- app_assoc.
Qed.

Lemma fgets_lines_concat size ls :
  Forall (fun l => (c_lf ∉ l) /\ (S (length l) < size)%nat) ls ->
  fgets_lines size (concat (map (fun l => l ++ [c_lf]) ls)) = map (fun l => l ++ [c_lf]) ls.
Proof.
  intros H. unfold fgets_lines. induction H as [|l ls [Hl Hs] _ IH]; [done|].
  cbn [map concat]. rewrite <- app_assoc. cbn [app].
  rewrite fgets_from_line by (done || lia). by rewrite IH.
Qed.
