(* ===== verification/Auth.v ===== *)
(** * Digest authentication

    [open_auth_file], [parse_auth_header], [authorize], [check_authorization],
    [send_authorization_request], [is_authorized_for_put] and
    [mg_modify_passwords_file] of src/mongoose.c.  A client that knows the password
    entered with [mg_modify_passwords_file] is let in, and nobody is let in past a
    password file without a digest over the file's hash. *)

From S2P Require Import Prelude CString Options UrlCodec Md5 SocketQueue HttpRequest Scanf Conn Pattern Os.

(** [struct ah] *)
Record ah := Ah {
  ah_user : option bytes; ah_uri : option bytes; ah_cnonce : option bytes;
  ah_response : option bytes; ah_qop : option bytes; ah_nc : option bytes;
  ah_nonce : option bytes
}.
Definition no_ah : ah := Ah None None None None None None None.

Definition set_field (name value : bytes) (a : ah) : ah :=
  let '(Ah u i c r q n o) := a in
  if streq name (B "username") then Ah (Some value) i c r q n o
  else if streq name (B "cnonce") then Ah u i (Some value) r q n o
  else if streq name (B "response") then Ah u i c (Some value) q n o
  else if streq name (B "uri") then Ah u (Some value) c r q n o
  else if streq name (B "qop") then Ah u i c r (Some value) n o
  else if streq name (B "nc") then Ah u i c r q (Some value) o
  else if streq name (B "nonce") then Ah u i c r q n (Some value)
  else a.

(** The value is either quoted, or ends at the first comma or space. *)
Definition auth_value (s : bytes) : bytes * bytes :=
  if chr s =? c_dquote then
    let '(value, s) := skip_quoted (tail s) [c_dquote] (B " ") c_bslash in
    (value, if chr s =? c_comma then tail s else s)
  else skip_quoted s (B ", ") (B " ") 0.

(** The [for (;;)] loop; a round with a name takes at least one byte. *)
Fixpoint auth_fields (fuel : nat) (s : bytes) (a : ah) : ah :=
  match fuel with
  | O => a
  | S fuel' =>
      let s := skip_spaces s in
      let '(name, s) := skip_quoted s (B "=") (B " ") 0 in
      let '(value, s) := auth_value s in
      if chr name =? 0 then a else auth_fields fuel' s (set_field name value a)
  end.

(** The parsed header; [None] when it is not there, another scheme or without user. *)
Definition auth_of (c : conn) : option ah :=
  match header_of c (B "Authorization") with
  | None => None
  | Some h =>
      if negb (mg_strncasecmp h (B "Digest ") 7 =? 0) then None
      else
        let s := until_nul (mg_strlcpy (drop 7 h) MG_BUF_LEN) in
        let a := auth_fields (S (length s)) s no_ah in
        match ah_user a with Some _ => Some a | None => None end
  end.

(** [None] when the result is 0. *)
Definition parse_auth_header : M (option ah) :=
  c ← get_conn;
  match auth_of c with
  | None => mret None
  | Some a =>
      ok ← malloc;
      _ ← modify (set_remote_user (if (ok : bool) then ah_user a else None));
      mret (Some a)
  end.

(** A line of a password file: user, domain and hash. *)
Definition password_line (line : bytes) : option (bytes * bytes * bytes) :=
  match sscanf (until_nul line)
          [Pnot None [c_colon] true; Lit c_colon; Pnot None [c_colon] true; Lit c_colon; Ps None true] with
  | (3, [SStr u; SStr d; SStr h]) => Some (u, d, h)
  | _ => None
  end.

(** The loop over the lines of the file. *)
Fixpoint authorize_lines (big : bool) (method : option bytes) (a : ah) (user domain : bytes)
    (lines : list bytes) : bool :=
  match lines with
  | [] => false
  | line :: lines' =>
      match password_line line with
      | None => authorize_lines big method a user domain lines'
      | Some (f_user, f_domain, ha1) =>
          if streq user f_user && streq domain f_domain then
            check_password big method ha1 (ah_uri a) (ah_nonce a) (ah_nc a) (ah_cnonce a)
              (ah_qop a) (ah_response a)
          else authorize_lines big method a user domain lines'
      end
  end.

Definition authorize (big : bool) (content : bytes) : M bool :=
  parsed ← parse_auth_header;
  match parsed with
  | None => mret false
  | Some a =>
      c ← get_conn;
      mret (authorize_lines big (request_method (request_info c)) a (default [] (ah_user a))
              (default [] (cfg (config_of c) AUTHENTICATION_DOMAIN)) (fgets_lines 256 content))
  end.

(** The offset of the last slash after the first byte, or 0. *)
Definition dir_len (path : bytes) : nat :=
  match find_last c_slash (tail path) with Some i => S i | None => 0 end.

Section auth.
Context `{OS} (big : bool).

(** The contents of the password file for [path], when there is one. *)
Definition open_auth_file (path : bytes) : M (option bytes) :=
  c ← get_conn;
  match cfg (config_of c) GLOBAL_PASSWORDS_FILE with
  | Some gpass =>
      match mg_fopen gpass with
      | Some content => mret (Some content)
      | None => _ ← cry (B "fopen(" ++ gpass ++ B "): " ++ os_strerror); mret None
      end
  | None =>
      let '(found, st) := mg_stat path in
      if found && st_isdir st then
        mret (mg_fopen (mg_snprintf PATH_MAX (path ++ B "/" ++ PASSWORDS_FILE_NAME)))
      else
        mret (mg_fopen (mg_snprintf PATH_MAX
          (take (dir_len path) path ++ B "/" ++ PASSWORDS_FILE_NAME)))
  end.

(** The loop over [protect_uri]: the file of the first entry whose URI is a prefix, if
    it opens. *)
Fixpoint protected_file (u : bytes) (rules : list (vec * option vec)) : M (option bytes) :=
  match rules with
  | [] => mret None
  | (uri_vec, filename_vec) :: rules' =>
      if starts_with u (vec_str uri_vec) then
        let fname := mg_snprintf PATH_MAX (ovec_str filename_vec) in
        match mg_fopen fname with
        | Some content => mret (Some content)
        | None =>
            _ ← cry (B "check_authorization: cannot open " ++ fname ++ B ": " ++ os_strerror);
            mret None
        end
      else protected_file u rules'
  end.

Definition check_authorization (path : bytes) : M bool :=
  c ← get_conn;
  guarded ← protected_file (default [] (uri (request_info c)))
              (option_list (cfg (config_of c) PROTECT_URI) true);
  file ← match guarded with
         | Some content => mret (Some content)
         | None => open_auth_file path
         end;
  match file with
  | Some content => authorize big content
  | None => mret true
  end.

Definition send_authorization_request : M unit :=
  _ ← modify (set_status 401);
  c ← get_conn;
  t ← time;
  _ ← mg_printf (B "HTTP/1.1 401 Unauthorized" ++ crlf ++ B "Content-Length: 0" ++ crlf
                 ++ B "WWW-Authenticate: Digest qop=" ++ [c_dquote] ++ B "auth" ++ [c_dquote]
                 ++ B ", realm=" ++ [c_dquote]
                 ++ default [] (cfg (config_of c) AUTHENTICATION_DOMAIN) ++ [c_dquote]
                 ++ B ", nonce=" ++ [c_dquote] ++ dec (wrap64 t) ++ [c_dquote] ++ crlf ++ crlf);
  mret tt.

Definition is_authorized_for_put : M bool :=
  c ← get_conn;
  match cfg (config_of c) PUT_DELETE_PASSWORDS_FILE with
  | None => mret false
  | Some passfile =>
      match mg_fopen passfile with
      | None => mret false
      | Some content => authorize big content
      end
  end.
End auth.

(** ** The password file *)

Definition password_entry (big : bool) (domain user pass : bytes) : bytes :=
  user ++ B ":" ++ domain ++ B ":" ++ mg_md5 big [user; B ":"; domain; B ":"; pass] ++ [c_lf].

(** One line copied to the temporary file: what is written, and whether it was the
    user's. *)
Definition copy_line (big : bool) (domain user : bytes) (pass : option bytes) (line : bytes)
    : bytes * bool :=
  match sscanf (until_nul line)
          [Pnot None [c_colon] true; Lit c_colon; Pnot None [c_colon] true; Lit c_colon; Ps None false] with
  | (2, [SStr u; SStr d]) =>
      if streq u user && streq d domain then
        (match pass with Some p => password_entry big domain user p | None => [] end, true)
      else (until_nul line, false)
  | _ => ([], false)
  end.

(** The contents of the temporary file that replaces the password file. *)
Definition mg_modify_passwords (big : bool) (domain user pass content : bytes) : bytes :=
  let pass := match pass with [] => None | _ => Some pass end in
  let copied := map (copy_line big domain user pass) (fgets_lines 512 content) in
  concat (map fst copied)
  ++ (if existsb snd copied then []
      else match pass with Some p => password_entry big domain user p | None => [] end).

(** The result is 0 when one of the files cannot be opened.  [pass] is empty when it is
    NULL. *)
Definition mg_modify_passwords_file `{OS} (big : bool) (fname domain user pass : bytes)
    : M bool :=
  let tmp := take (PATH_MAX - 1) (fname ++ B ".tmp") in
  (* the file is created if it does not exist *)
  content ← match os_read fname with
            | Some content => mret (Some content)
            | None => if os_append fname then _ ← emit (FxAppend fname []); mret (Some [])
                      else mret None
            end;
  match content with
  | None => mret false
  | Some content =>
      if os_create tmp then
        _ ← emit (FxCreate tmp);
        _ ← emit (FxWrite tmp (mg_modify_passwords big domain user pass content));
        _ ← emit (FxRemove fname);
        _ ← emit (FxRename tmp fname);
        mret true
      else mret false
  end.

(** ** The password file as a table *)

(** Users, domains and hashes, one per line. *)
Definition table := list (bytes * bytes * bytes).

Definition print_entry (e : bytes * bytes * bytes) : bytes :=
  let '(u, d, h) := e in u ++ [c_colon] ++ d ++ [c_colon] ++ h.
Definition print_table (t : table) : bytes := concat (map (fun e => print_entry e ++ [c_lf]) t).

Definition name_byte (c : Z) : Prop := is_char c /\ c <> c_colon /\ c <> c_lf.
Definition hash_byte (c : Z) : Prop := is_char c /\ isspace c = false.

(** A line that can be read back: it fits in the buffer of [authorize]. *)
Definition entry_ok (e : bytes * bytes * bytes) : Prop :=
  let '(u, d, h) := e in
  u <> [] /\ d <> [] /\ h <> [] /\
  Forall name_byte u /\ Forall name_byte d /\ Forall hash_byte h /\
  (S (length (print_entry e)) < 256)%nat.

#[export] Instance entry_ok_dec e : Decision (entry_ok e).
Proof. destruct e as [[u d] h]; simpl; apply _. Defined.

Definition is_entry (user domain : bytes) (e : bytes * bytes * bytes) : bool :=
  let '(u, d, _) := e in streq u user && streq d domain.

(** What a login looks up: the first entry of the user in the domain. *)
Fixpoint find_hash (user domain : bytes) (t : table) : option bytes :=
  match t with
  | [] => None
  | (u, d, h) :: t' => if streq u user && streq d domain then Some h else find_hash user domain t'
  end.

(** The entries of the user get the new hash, or go; a new user is added at the end. *)
Definition put_hash (user domain : bytes) (hash : option bytes) (t : table) : table :=
  let new := match hash with Some h => [(user, domain, h)] | None => [] end in
  flat_map (fun e => if is_entry user domain e then new else [e]) t
  ++ (if existsb (is_entry user domain) t then [] else new).

Lemma find_put_hash user domain h t : find_hash user domain (put_hash user domain (Some h) t) = Some h.
Proof.
  unfold put_hash. induction t as [|[[u d] h'] t IH].
  - simpl. by rewrite !streq_refl.
  - cbn [flat_map existsb]. cbn [is_entry]. destruct (streq u user && streq d domain) eqn:E.
    + cbn [app find_hash]. by rewrite !streq_refl.
    + cbn [app find_hash orb]. by rewrite E.
Qed.

Lemma find_put_hash_None user domain t : find_hash user domain (put_hash user domain None t) = None.
Proof.
  unfold put_hash. replace (if existsb _ t then [] else []) with (@nil (bytes * bytes * bytes))
    by (by case_match). rewrite app_nil_r.
  induction t as [|[[u d] h] t IH]; [done|]. cbn [flat_map is_entry].
  destruct (streq u user && streq d domain) eqn:E; [done|]. cbn [app find_hash]. by rewrite E.
Qed.

Lemma find_put_hash_other user domain hash t user' domain' :
  (user', domain') <> (user, domain) ->
  find_hash user' domain' (put_hash user domain hash t) = find_hash user' domain' t.
Proof.
  intros Hne. set (new := match hash with Some h => [(user, domain, h)] | None => [] end).
  assert (forall l, find_hash user' domain' (new ++ l) = find_hash user' domain' l) as Hnew.
  { intros l. unfold new. destruct hash as [h|]; [|done]. cbn [app find_hash].
    destruct (streq user user' && streq domain domain') eqn:E; [|done].
    apply andb_true_iff in E as [->%streq_true ->%streq_true]. done. }
  unfold put_hash. fold new.
  enough (forall l, find_hash user' domain' l = None ->
    find_hash user' domain' (flat_map (fun e => if is_entry user domain e then new else [e]) t ++ l)
    = find_hash user' domain' t) as Hall.
  { apply Hall. case_match; [done|]. rewrite <- (app_nil_r new), Hnew. done. }
  intros l Hl.
  induction t as [|[[u d] h'] t IH]; [exact Hl|].
  cbn [flat_map is_entry]. destruct (streq u user && streq d domain) eqn:E.
  - rewrite <- app_assoc, Hnew, IH. cbn [find_hash].
    destruct (streq u user' && streq d domain') eqn:E'; [|done].
    apply andb_true_iff in E as [->%streq_true ->%streq_true].
    apply andb_true_iff in E' as [->%streq_true ->%streq_true]. done.
  - cbn [app find_hash]. by rewrite IH.
Qed.

(** *** Reading the lines *)

Lemma entry_cstr e : entry_ok e -> cstr (print_entry e ++ [c_lf]) /\ c_lf ∉ print_entry e.
Proof.
  destruct e as [[u d] h]. intros (_ & _ & _ & Hu & Hd & Hh & _). unfold print_entry.
  assert (forall l, Forall name_byte l -> cstr l /\ c_lf ∉ l) as Hn.
  { intros l Hl. split.
    - eapply Forall_impl; [done|]. by intros c [].
    - intros Hin. rewrite Forall_forall in Hl. apply Hl in Hin as (_ & _ & []). done. }
  destruct (Hn u Hu) as [Cu Lu], (Hn d Hd) as [Cd Ld].
  assert (cstr h /\ c_lf ∉ h) as [Ch Lh].
  { split.
    - eapply Forall_impl; [done|]. by intros c [].
    - intros Hin. rewrite Forall_forall in Hh. by apply Hh in Hin as []. }
  split.
  - repeat (apply cstr_app; split); try done; apply Forall_singleton; unfold is_char; lia.
  - rewrite !elem_of_app, !list_elem_of_singleton. by intros [H|[H|[H|[H|H]]]].
Qed.

Lemma name_no_colon l : Forall name_byte l -> Forall (fun c => mem c [c_colon] = false) l.
Proof.
  intros H. eapply Forall_impl; [done|]. intros c (_ & Hc & _). apply mem_false.
  by rewrite list_elem_of_singleton.
Qed.

Lemma scan_entry e store :
  entry_ok e ->
  sscanf (print_entry e ++ [c_lf])
    [Pnot None [c_colon] true; Lit c_colon; Pnot None [c_colon] true; Lit c_colon; Ps None store]
  = let '(u, d, h) := e in
    if store then (3, [SStr u; SStr d; SStr h]) else (2, [SStr u; SStr d]).
Proof.
  destruct e as [[u d] h]. intros (Eu & Ed & Eh & Hu & Hd & Hh & _).
  unfold sscanf, print_entry. generalize (length ((u ++ [c_colon] ++ d ++ [c_colon] ++ h) ++ [c_lf])).
  intros total. rewrite <- !app_assoc. cbn [app].
  rewrite scan_Pnot; [|done|by apply name_no_colon|by intros c [= <-]].
  rewrite scan_Lit, scan_Pnot; [|done|by apply name_no_colon|by intros c [= <-]].
  rewrite scan_Lit, scan_Ps; [|done| |by intros c [= <-]].
  - destruct store; done.
  - eapply Forall_impl; [done|]. by intros c [].
Qed.

Lemma table_lines size t :
  (256 <= size)%nat -> Forall entry_ok t ->
  fgets_lines size (print_table t) = map (fun e => print_entry e ++ [c_lf]) t.
Proof.
  intros Hs Ht. unfold print_table. rewrite <- (map_map print_entry (fun l => l ++ [c_lf])).
  apply fgets_lines_concat. apply Forall_map. eapply Forall_impl; [done|].
  intros e He. split; [by apply entry_cstr|]. destruct e as [[u d] h].
  destruct He as (_ & _ & _ & _ & _ & _ & Hl). unfold compose. lia.
Qed.

Lemma password_line_entry e : entry_ok e -> password_line (print_entry e ++ [c_lf]) = Some e.
Proof.
  intros He. unfold password_line. rewrite until_nul_id by (by apply entry_cstr).
  rewrite scan_entry by done. by destruct e as [[u d] h].
Qed.

Lemma authorize_table big method a user domain t :
  Forall entry_ok t ->
  authorize_lines big method a user domain (fgets_lines 256 (print_table t))
  = match find_hash user domain t with
    | Some ha1 => check_password big method ha1 (ah_uri a) (ah_nonce a) (ah_nc a) (ah_cnonce a)
                    (ah_qop a) (ah_response a)
    | None => false
    end.
Proof.
  intros Ht. rewrite table_lines by (lia || done). induction Ht as [|e t He Ht IH]; [done|].
  cbn [map authorize_lines]. rewrite password_line_entry by done. destruct e as [[u d] h].
  cbn [find_hash]. assert (forall x y, streq x y = streq y x) as Hc.
  { intros x y. unfold streq. apply bool_decide_ext. split; congruence. }
  rewrite (Hc user u), (Hc domain d). destruct (streq u user && streq d domain); [done|]. apply IH.
Qed.

Lemma copy_entry big domain user pass e :
  entry_ok e ->
  copy_line big domain user pass (print_entry e ++ [c_lf])
  = (if is_entry user domain e
     then match pass with Some p => password_entry big domain user p | None => [] end
     else print_entry e ++ [c_lf], is_entry user domain e).
Proof.
  intros He. unfold copy_line. rewrite until_nul_id by (by apply entry_cstr).
  rewrite scan_entry by done. destruct e as [[u d] h]. cbn [is_entry]. by case_match.
Qed.

(** The hash [mg_modify_passwords_file] stores; an empty password removes the user. *)
Definition user_hash (big : bool) (domain user pass : bytes) : option bytes :=
  match pass with
  | [] => None
  | _ => Some (mg_md5 big [user; B ":"; domain; B ":"; pass])
  end.

Lemma modify_table big domain user pass t :
  Forall entry_ok t ->
  mg_modify_passwords big domain user pass (print_table t)
  = print_table (put_hash user domain (user_hash big domain user pass) t).
Proof.
  intros Ht. unfold mg_modify_passwords, put_hash.
  set (p := match pass with [] => None | _ => Some pass end).
  set (new := match user_hash _ _ _ _ with Some h => _ | None => _ end).
  assert (match p with Some p => password_entry big domain user p | None => [] end = print_table new)
    as Hnew.
  { unfold p, new, user_hash, print_table, password_entry. destruct pass as [|c pass]; [done|].
    cbn [map concat print_entry]. rewrite app_nil_r, <- !app_assoc. done. }
  rewrite Hnew, table_lines, map_map by (lia || done).
  unfold print_table at 2. rewrite map_app, concat_app. f_equal.
  - rewrite map_map. induction Ht as [|e t He _ IH]; [done|]. cbn [map concat flat_map].
    rewrite map_app, concat_app, IH. f_equal. rewrite copy_entry, Hnew by done. cbn [fst].
    destruct (is_entry user domain e); [done|]. cbn [map concat]. by rewrite app_nil_r.
  - assert (existsb snd (map (copy_line big domain user p) (map (fun e => print_entry e ++ [c_lf]) t))
      = existsb (is_entry user domain) t) as ->.
    { clear Hnew. induction Ht as [|e t He _ IH]; [done|]. cbn [map existsb]. rewrite IH.
      by rewrite copy_entry. }
    by destruct (existsb (is_entry user domain) t).
Qed.

(** ** The header of a client *)

(** A field of the header: its name, whether the value is quoted, the value. *)
Definition auth_field : Type := bytes * bool * bytes.

Definition print_field (f : auth_field) : bytes :=
  let '(name, quoted, v) := f in
  name ++ [c_eq] ++ (if quoted then [c_dquote] ++ v ++ [c_dquote] else v).
Fixpoint print_fields (fs : list auth_field) : bytes :=
  match fs with
  | [] => []
  | [f] => print_field f
  | f :: fs' => print_field f ++ B ", " ++ print_fields fs'
  end.

Definition field_ok (f : auth_field) : Prop :=
  let '(name, quoted, v) := f in
  name <> [] /\ Forall (fun c => is_char c /\ c <> c_eq /\ isspace c = false) name /\ cstr v /\
  if quoted then (c_dquote ∉ v) /\ last v <> Some c_bslash
  else (c_comma ∉ v) /\ (c_space ∉ v) /\ head v <> Some c_dquote.

#[export] Instance field_ok_dec f : Decision (field_ok f).
Proof. destruct f as [[name []] v]; simpl; apply _. Defined.

Definition set_fields (fs : list auth_field) (a : ah) : ah :=
  fold_left (fun a '(name, _, v) => set_field name v a) fs a.

Lemma not_in_mem1 d (v : bytes) : d ∉ v -> Forall (fun c => mem c [d] = false) v.
Proof.
  intros H. apply Forall_forall. intros c Hc. apply mem_false. rewrite list_elem_of_singleton.
  by intros ->.
Qed.

Lemma field_head f rest :
  field_ok f -> exists c t, print_field f ++ rest = c :: t /\ isspace c = false.
Proof.
  destruct f as [[name q] v]. intros (Hne & Hn & _). destruct name as [|c name]; [done|].
  apply Forall_cons in Hn as [(_ & _ & Hc) _]. by eexists c, _.
Qed.

(** What follows a field. *)
Definition field_end (rest : bytes) : Prop :=
  rest = [] \/ exists c t, rest = c_comma :: c_space :: c :: t /\ isspace c = false.

Lemma auth_value_quoted v rest :
  c_dquote ∉ v -> last v <> Some c_bslash -> field_end rest ->
  auth_value ([c_dquote] ++ v ++ [c_dquote] ++ rest) = (v, drop 1 rest).
Proof.
  intros Hv Hl Hrest. unfold auth_value. cbn [app tail].
  change (chr (c_dquote :: ?x)) with c_dquote. rewrite Z.eqb_refl.
  pose proof (skip_quoted_word_q v c_dquote [] rest [c_dquote] (B " ") c_bslash) as Hs.
  cbn [app] in Hs. rewrite Hs; try done.
  - destruct Hrest as [->|(c & t & -> & Hc)]; done.
  - by apply not_in_mem1.
  - destruct Hrest as [->|(c & t & -> & Hc)]; by intros ? [= <-].
Qed.

Lemma auth_value_plain v rest :
  cstr v -> c_comma ∉ v -> c_space ∉ v -> head v <> Some c_dquote -> field_end rest ->
  auth_value (v ++ rest) = (v, drop 2 rest).
Proof.
  intros Hv Hc Hsp Hq Hrest. unfold auth_value.
  assert (Forall (fun c => mem c (B ", ") = false) v) as Hd.
  { apply Forall_forall. intros x Hx. apply mem_false. change (B ", ") with [c_comma; c_space].
    rewrite elem_of_cons, list_elem_of_singleton. by intros [->| ->]. }
  replace (chr (v ++ rest) =? c_dquote) with false.
  2: { symmetry. apply Z.eqb_neq. destruct v as [|x v]; [by destruct Hrest as [->|(? & ? & -> & _)]|].
       unfold chr. simpl. intros ->. by apply Hq. }
  destruct Hrest as [->|(c & t & -> & Hc')].
  - by rewrite app_nil_r, skip_quoted_end.
  - apply (skip_quoted_word v c_comma [c_space] (c :: t)); try done.
    + by apply Forall_singleton.
    + intros ? [= <-]. apply mem_false. change (B " ") with [c_space].
      rewrite list_elem_of_singleton. by intros ->.
Qed.

(** One round of the loop. *)
Lemma auth_fields_step fuel name q v rest a :
  field_ok (name, q, v) -> field_end rest ->
  auth_fields (S fuel) (print_field (name, q, v) ++ rest) a
  = auth_fields fuel (drop (if (q : bool) then 1 else 2) rest) (set_field name v a).
Proof.
  intros Hf Hrest. destruct (field_head _ rest Hf) as (c0 & t0 & E0 & Hc0).
  destruct Hf as (Hne & Hn & Hv & Hq).
  assert (cstr name) as Hcn by (eapply Forall_impl; [done|]; by intros c []).
  assert ((chr name =? 0) = false) as Hz.
  { destruct name as [|c name]; [done|]. apply Forall_cons in Hn as [[Hc _] _].
    unfold chr, is_char in *. simpl. lia. }
  cbn [auth_fields]. replace (skip_spaces _) with (print_field (name, q, v) ++ rest)
    by (rewrite E0; simpl; by rewrite Hc0).
  unfold print_field. rewrite <- app_assoc. cbn [app].
  set (tl := (if q then _ else v) ++ rest).
  assert (auth_value tl = (v, drop (if q then 1 else 2) rest)) as Htl.
  { unfold tl. destruct q.
    - destruct Hq as [Hq1 Hq2]. cbn [app]. rewrite <- app_assoc. by apply auth_value_quoted.
    - destruct Hq as (Hq1 & Hq2 & Hq3). by apply auth_value_plain. }
  pose proof (skip_quoted_word name c_eq [] tl (B "=") (B " ")) as Hs. cbn [app] in Hs.
  rewrite Hs, Htl, Hz; try done.
  - apply not_in_mem1. intros Hin. rewrite Forall_forall in Hn. by apply Hn in Hin as (_ & [] & _).
  - unfold tl. intros c Hc. apply mem_false. change (B " ") with [c_space].
    rewrite list_elem_of_singleton. intros ->. destruct q; [done|].
    destruct Hq as (_ & Hq2 & _). destruct v as [|x v].
    + by destruct Hrest as [->|(? & ? & -> & _)].
    + simpl in Hc. simplify_eq.
Qed.

Lemma auth_fields_space fuel s a : auth_fields fuel (c_space :: s) a = auth_fields fuel s a.
Proof. by destruct fuel. Qed.

Lemma auth_fields_print fuel fs a :
  Forall field_ok fs -> (length fs < fuel)%nat ->
  auth_fields fuel (print_fields fs) a = set_fields fs a.
Proof.
  intros Hfs. revert fuel a. induction Hfs as [|[[name q] v] fs Hf Hfs IH]; intros [|fuel] a Hl;
    try (simpl in Hl; lia); [done|].
  unfold set_fields. cbn [fold_left]. fold (set_fields fs (set_field name v a)).
  destruct fs as [|f fs].
  - change (print_fields [?x]) with (print_field x). rewrite <- (app_nil_r (print_field _)).
    rewrite auth_fields_step by (done || by left). rewrite drop_nil.
    rewrite <- (IH fuel) by (simpl in *; lia). done.
  - change (print_fields (?x :: f :: fs)) with (print_field x ++ B ", " ++ print_fields (f :: fs)).
    assert (exists c t, print_fields (f :: fs) = c :: t /\ isspace c = false) as (c & t & E & Hc).
    { apply Forall_cons in Hfs as [Hf1 _]. destruct fs as [|g fs].
      - rewrite <- (app_nil_r (print_fields [f])). by apply field_head.
      - by apply field_head. }
    rewrite auth_fields_step; [|done|right; exists c, t; by rewrite E].
    rewrite <- (IH fuel) by (simpl in *; lia). destruct q.
    + change (drop 1 (B ", " ++ ?x)) with (c_space :: x). apply auth_fields_space.
    + done.
Qed.

(** ** Logging in *)

(** The digest a client sends (RFC 2617, [qop] given). *)
Definition digest_response (big : bool) (ha1 method u nonce nc cnonce qop : bytes) : bytes :=
  mg_md5 big [ha1; B ":"; nonce; B ":"; nc; B ":"; cnonce; B ":"; qop; B ":";
              mg_md5 big [method; B ":"; u]].

Lemma colon_arg : Forall is_byte (B ":") /\ Z.of_nat (length (B ":")) < 2 ^ 32.
Proof. split; [by apply Forall_singleton|done]. Qed.

Lemma mg_md5_arg big args :
  md5_args args -> Forall is_byte (mg_md5 big args) /\ Z.of_nat (length (mg_md5 big args)) < 2 ^ 32.
Proof.
  intros H. destruct (mg_md5_spec big args H) as (_ & Hl & Hb). rewrite Hl. split; [|done].
  eapply Forall_impl; [done|]. intros c []. by apply is_char_byte.
Qed.

Ltac solve_md5_args :=
  unfold md5_args; rewrite ?Forall_cons, ?Forall_nil;
  repeat match goal with
  | |- True => exact I
  | H : ?P |- ?P => exact H
  | |- Forall is_byte (B ":") /\ _ => exact colon_arg
  | |- Forall is_byte (mg_md5 _ _) /\ _ => apply mg_md5_arg; solve_md5_args
  | |- _ /\ _ => split
  end.

Lemma auth_of_print c fs :
  header_of c (B "Authorization") = Some (B "Digest " ++ print_fields fs) ->
  Forall field_ok fs -> cstr (print_fields fs) -> (length (print_fields fs) < MG_BUF_LEN)%nat ->
  auth_of c = match ah_user (set_fields fs no_ah) with
              | Some _ => Some (set_fields fs no_ah)
              | None => None
              end.
Proof.
  intros Hh Hfs Hc Hl. unfold auth_of. rewrite Hh.
  replace (mg_strncasecmp _ _ _) with 0 by (change 7%nat with (length (B "Digest ")); done).
  change (drop 7 (B "Digest " ++ ?x)) with x. cbn [Z.eqb negb].
  rewrite mg_strlcpy_fits, until_nul_cstr by done. rewrite auth_fields_print; [done|done|].
  clear Hh Hc Hl. assert (length fs <= length (print_fields fs))%nat; [|lia].
  induction Hfs as [|[[name q] v] fs Hf Hfs IH]; [done|]. destruct Hf as [Hne _].
  assert (1 <= length (print_field (name, q, v)))%nat.
  { unfold print_field. rewrite !length_app. simpl. lia. }
  destruct fs as [|f fs]; [simpl in *; lia|].
  change (print_fields (?x :: f :: fs)) with (print_field x ++ B ", " ++ print_fields (f :: fs)).
  rewrite !length_app. cbn [length] in *. lia.
Qed.



(** C33. [mg_modify_passwords_file] updates the table: on a password file with a line
    per user and domain, what it writes to the file that replaces it is the file with
    the user's entries changed to the new hash, or removed for an empty password, and
    a new user added at the end; every other user keeps his hash. *)
Theorem modify_passwords_table (big : bool) (domain user pass : bytes) (t : table) :
  Forall entry_ok t ->
  mg_modify_passwords big domain user pass (print_table t)
  = print_table (put_hash user domain (user_hash big domain user pass) t) /\
  find_hash user domain (put_hash user domain (user_hash big domain user pass) t)
  = user_hash big domain user pass /\
  forall user' domain', (user', domain') <> (user, domain) ->
    find_hash user' domain' (put_hash user domain (user_hash big domain user pass) t)
    = find_hash user' domain' t.
Proof.
  intros Ht. split_and!; [by apply modify_table| |intros; by apply find_put_hash_other].
  destruct (user_hash _ _ _ _); [apply find_put_hash|apply find_put_hash_None].
Qed.

Lemma modify_passwords_table_witness :
  let t := [(B "bob", B "d", B "00"); (B "jing", B "d", B "11")] in
  mg_modify_passwords false (B "d") (B "jing") [] (print_table t)
  = print_table (put_hash (B "jing") (B "d") (user_hash false (B "d") (B "jing") []) t) /\
  find_hash (B "jing") (B "d") (put_hash (B "jing") (B "d") None t) = None /\
  forall user' domain', (user', domain') <> (B "jing", B "d") ->
    find_hash user' domain' (put_hash (B "jing") (B "d") None t) = find_hash user' domain' t.
Proof.
  apply (modify_passwords_table false (B "d") (B "jing") []
    [(B "bob", B "d", B "00"); (B "jing", B "d", B "11")]). by_decide.
Defined.

(** ** Who is let in *)

(** The password of the first line for the user and the domain. *)
Definition line_hash (lines : list bytes) (user domain ha1 : bytes) : Prop :=
  exists pre line post, lines = pre ++ line :: post /\
    password_line line = Some (user, domain, ha1) /\
    Forall (fun l => forall h, password_line l <> Some (user, domain, h)) pre.

(** The request proves that its sender knows the hash in the file: it carries the
    digest made from that hash. *)
Definition logged_in (big : bool) (c : conn) (content : bytes) : Prop :=
  exists a user method nonce nc cnonce qop response ha1,
    auth_of c = Some a /\ ah_user a = Some user /\ ah_nonce a = Some nonce /\ ah_nc a = Some nc /\
    ah_cnonce a = Some cnonce /\ ah_qop a = Some qop /\ ah_response a = Some response /\
    request_method (request_info c) = Some method /\
    line_hash (fgets_lines 256 content) user
      (default [] (cfg (config_of c) AUTHENTICATION_DOMAIN)) ha1 /\
    length response = 32%nat /\
    mg_strcasecmp response
      (mg_md5 big [ha1; B ":"; nonce; B ":"; nc; B ":"; cnonce; B ":"; qop; B ":";
                   mg_md5 big ([method; B ":"] ++ from_option (fun u => [u]) [] (ah_uri a))]) = 0.

Lemma authorize_lines_true big method a user domain lines :
  authorize_lines big method a user domain lines = true <->
  exists ha1, line_hash lines user domain ha1 /\
    check_password big method ha1 (ah_uri a) (ah_nonce a) (ah_nc a) (ah_cnonce a) (ah_qop a)
      (ah_response a) = true.
Proof.
  induction lines as [|l lines IH]; cbn [authorize_lines].
  - split; [done|]. intros (ha1 & (pre & ? & ? & E & _) & _). by destruct pre.
  - assert (forall ha1, (forall h, password_line l <> Some (user, domain, h)) ->
      line_hash (l :: lines) user domain ha1 <-> line_hash lines user domain ha1) as Hskip.
    { intros ha1 Hno. split; intros (pre & x & post & E & Hx & Hpre).
      - destruct pre as [|y pre]; simplify_eq/=; [by destruct (Hno ha1)|].
        apply Forall_cons in Hpre as [_ Hpre]. by exists pre, x, post.
      - exists (l :: pre), x, post. simplify_eq/=. split_and!; [done|done|by constructor]. }
    destruct (password_line l) as [[[u d] h]|] eqn:El.
    + destruct (streq user u && streq domain d) eqn:E.
      * apply andb_true_iff in E as [<-%streq_true <-%streq_true]. split.
        -- intros H. exists h. split; [|done]. by exists [], l, lines.
        -- intros (ha1 & (pre & x & post & E & Hx & Hpre) & H).
           destruct pre as [|y pre]; simplify_eq/=; [done|].
           apply Forall_cons in Hpre as [Hno _]. by destruct (Hno h).
      * rewrite IH. setoid_rewrite Hskip; [done|].
        intros h' [= -> -> ->]. by rewrite !streq_refl in E.
    + rewrite IH. by setoid_rewrite Hskip.
Qed.

(** The password file that guards a request: the one [protect_uri] names for its URI,
    if that opens, else the global one or the one in the directory of the file. *)
Fixpoint protecting_file (u : bytes) (rules : list (vec * option vec)) : option bytes :=
  match rules with
  | [] => None
  | (uri_vec, filename_vec) :: rules' =>
      if starts_with u (vec_str uri_vec) then Some (mg_snprintf PATH_MAX (ovec_str filename_vec))
      else protecting_file u rules'
  end.

Definition auth_file_name `{OS} (c : conn) (path : bytes) : bytes :=
  match cfg (config_of c) GLOBAL_PASSWORDS_FILE with
  | Some gpass => gpass
  | None =>
      let dir := if fst (mg_stat path) && st_isdir (snd (mg_stat path)) then path
                 else take (dir_len path) path in
      mg_snprintf PATH_MAX (dir ++ B "/" ++ PASSWORDS_FILE_NAME)
  end.

Definition guarding_file `{OS} (c : conn) (path : bytes) : option bytes :=
  match protecting_file (default [] (uri (request_info c)))
          (option_list (cfg (config_of c) PROTECT_URI) true) ≫= mg_fopen with
  | Some content => Some content
  | None => mg_fopen (auth_file_name c path)
  end.

Lemma protected_file_spec `{OS} u rules w :
  exists w', protected_file u rules w = Some (protecting_file u rules ≫= mg_fopen, w') /\ logged w w'.
Proof.
  induction rules as [|[uv fv] rules IH]; cbn [protected_file protecting_file].
  - exists w. split; [done|apply logged_refl].
  - destruct (starts_with u (vec_str uv)); [|done]. cbn [mbind option_bind].
    destruct (mg_fopen _) as [content|] eqn:E.
    + exists w. split; [done|apply logged_refl].
    + unfold mbind, M_bind. destruct (cry_spec (B "check_authorization: cannot open "
        ++ mg_snprintf PATH_MAX (ovec_str fv) ++ B ": " ++ os_strerror) w) as (w' & -> & Hw).
      by exists w'.
Qed.

Lemma open_auth_file_spec `{OS} path w :
  exists w', open_auth_file path w = Some (mg_fopen (auth_file_name (cn w) path), w') /\ logged w w'.
Proof.
  unfold open_auth_file, auth_file_name, get_conn, mbind, M_bind, mret, M_ret.
  destruct (cfg (config_of (cn w)) GLOBAL_PASSWORDS_FILE) as [gpass|].
  - destruct (mg_fopen gpass) eqn:E; [exists w; split; [done|apply logged_refl]|].
    destruct (cry_spec (B "fopen(" ++ gpass ++ B "): " ++ os_strerror) w) as (w' & -> & Hw).
    by exists w'.
  - destruct (mg_stat path) as [found st]. cbn [fst snd].
    destruct (found && st_isdir st); exists w; (split; [done|apply logged_refl]).
Qed.

Lemma check_password_true big method ha1 u nonce nc cnonce qop response :
  check_password big method ha1 u nonce nc cnonce qop response = true <->
  exists m o n c q r, method = Some m /\ nonce = Some o /\ nc = Some n /\ cnonce = Some c /\
    qop = Some q /\ response = Some r /\ length r = 32%nat /\
    mg_strcasecmp r (mg_md5 big [ha1; B ":"; o; B ":"; n; B ":"; c; B ":"; q; B ":";
      mg_md5 big ([m; B ":"] ++ from_option (fun u => [u]) [] u)]) = 0.
Proof.
  unfold check_password. split.
  - intros H. destruct method as [m|], nonce as [o|], nc as [n|], cnonce as [c|], qop as [q|],
      response as [r|]; try done.
    destruct (Nat.eqb_spec (length r) 32); [|done]. apply Z.eqb_eq in H.
    by exists m, o, n, c, q, r.
  - intros (m & o & n & c & q & r & -> & -> & -> & -> & -> & -> & -> & H). by apply Z.eqb_eq.
Qed.

Lemma set_remote_user_same c : c = set_remote_user (remote_user (request_info c)) c.
Proof. destruct c as [ri]. unfold set_remote_user. simpl. by destruct ri. Qed.

Lemma authorize_spec big content w :
  exists b w', authorize big content w = Some (b, w') /\
    (b = true <-> logged_in big (cn w) content) /\
    (exists u, cn w' = set_remote_user u (cn w)) /\ rx w' = rx w /\ tx w' = tx w /\
    sent w' = sent w /\ stops w' = stops w /\ fx w' = fx w.
Proof.
  unfold authorize, parse_auth_header, get_conn, malloc, modify, mbind, M_bind, mret, M_ret.
  destruct (auth_of (cn w)) as [a|] eqn:Ea.
  2: { exists false, w. split_and!; try done.
       - split; [done|]. intros (? & ? & ? & ? & ? & ? & ? & ? & ? & E & _). congruence.
       - exists (remote_user (request_info (cn w))). destruct (cn w). simpl.
         unfold set_remote_user. simpl. by destruct request_info. }
  cbv beta iota. cbn [cn set_cn].
  unfold set_remote_user at 3 4. cbn [request_info set_request_info request_method config_of].
  eexists _, _. split; [reflexivity|]. split_and!; try done; [|by eexists].
  rewrite authorize_lines_true. setoid_rewrite check_password_true. unfold logged_in.
  assert (exists u, ah_user a = Some u) as (user & Hu).
  { unfold auth_of in Ea. repeat case_match; simplify_eq; by eexists. }
  rewrite Hu, Ea. cbn [default]. split.
  - intros (ha1 & Hl & m & o & n & c & q & r & H). exists a, user, m, o, n, c, q, r, ha1.
    destruct H as (? & ? & ? & ? & ? & ? & ? & ?). by split_and!.
  - intros (a' & u & m & o & n & c & q & r & ha1 & E & H). destruct H as (Eu & ? & ? & ? & ? & ? & ? & ? & ? & ?). simplify_eq.
    exists ha1. split; [done|]. by exists m, o, n, c, q, r.
Qed.

(** What [check_authorization] answers, and that it does nothing else but log. *)
Lemma check_authorization_ok `{OS} big path w :
  exists b w' u, check_authorization big path w = Some (b, w') /\
    (b = true <-> match guarding_file (cn w) path with
                  | None => True
                  | Some content => logged_in big (cn w) content
                  end) /\
    cn w' = set_remote_user u (cn w) /\ rx w' = rx w /\ tx w' = tx w /\ sent w' = sent w /\ stops w' = stops w.
Proof.
  unfold check_authorization, guarding_file, get_conn. unfold mbind at 1 2 3, M_bind.
  destruct (protected_file_spec (default [] (uri (request_info (cn w))))
    (option_list (cfg (config_of (cn w)) PROTECT_URI) true) w) as (w1 & -> & H1).
  pose proof (lg_cn _ _ H1) as Ec1.
  destruct (_ ≫= mg_fopen) as [content|].
  - unfold mret, M_ret. destruct (authorize_spec big content w1) as (b & w2 & -> & Hb & (u & Hu) & R & T & S & St & _).
    rewrite Ec1 in Hb, Hu. exists b, w2, u. destruct H1. split_and!; done || congruence.
  - destruct (open_auth_file_spec path w1) as (w2 & -> & H2). rewrite Ec1.
    pose proof (lg_cn _ _ H2) as Ec2. destruct (mg_fopen _) as [content|].
    + destruct (authorize_spec big content w2) as (b & w3 & -> & Hb & (u & Hu) & R & T & S & St & _).
      rewrite Ec2, Ec1 in Hb, Hu. exists b, w3, u. destruct H1, H2. split_and!; done || congruence.
    + exists true, w2, (remote_user (request_info (cn w))). destruct H1, H2.
      split_and!; try done; try congruence. rewrite Ec2, Ec1. apply set_remote_user_same.
Qed.

(** C5. Who is let in: [check_authorization] lets a request pass exactly when no password
    file guards it, or when it carries the digest made from the hash that the first
    line for its user and the server's domain in that file has. *)
Theorem check_authorization_spec `{OS} (big : bool) (path : bytes) (w : world) :
  exists b w', check_authorization big path w = Some (b, w') /\
    (b = true <-> match guarding_file (cn w) path with
                  | None => True
                  | Some content => logged_in big (cn w) content
                  end).
Proof.
  destruct (check_authorization_ok big path w) as (b & w' & u & E & Hb & _). by exists b, w'.
Qed.
