(* ===== verification/Files.v ===== *)
(** * Serving files

    MIME types, dates, entity tags, ranges and the reply with the contents of a file:
    [mg_get_builtin_mime_type], [get_mime_type], [parse_date_string], [send_file_data],
    [parse_range_header], [construct_etag], [handle_file_request], [mg_send_file] and
    [is_not_modified] of src/mongoose.c. *)

From S2P Require Import Prelude CString Options UrlCodec SocketQueue HttpRequest Scanf Conn Os.

(** ** MIME types *)

(** Extension, its length, MIME type. *)
Definition builtin_mime_types : list (bytes * nat * bytes) :=
  [(B ".html", 5%nat, B "text/html");
   (B ".htm", 4%nat, B "text/html");
   (B ".shtm", 5%nat, B "text/html");
   (B ".shtml", 6%nat, B "text/html");
   (B ".css", 4%nat, B "text/css");
   (B ".js", 3%nat, B "application/x-javascript");
   (B ".ico", 4%nat, B "image/x-icon");
   (B ".gif", 4%nat, B "image/gif");
   (B ".jpg", 4%nat, B "image/jpeg");
   (B ".jpeg", 5%nat, B "image/jpeg");
   (B ".png", 4%nat, B "image/png");
   (B ".svg", 4%nat, B "image/svg+xml");
   (B ".txt", 4%nat, B "text/plain");
   (B ".torrent", 8%nat, B "application/x-bittorrent");
   (B ".wav", 4%nat, B "audio/x-wav");
   (B ".mp3", 4%nat, B "audio/x-mp3");
   (B ".mid", 4%nat, B "audio/mid");
   (B ".m3u", 4%nat, B "audio/x-mpegurl");
   (B ".ogg", 4%nat, B "audio/ogg");
   (B ".ram", 4%nat, B "audio/x-pn-realaudio");
   (B ".xml", 4%nat, B "text/xml");
   (B ".json", 5%nat, B "text/json");
   (B ".xslt", 5%nat, B "application/xml");
   (B ".xsl", 4%nat, B "application/xml");
   (B ".ra", 3%nat, B "audio/x-pn-realaudio");
   (B ".doc", 4%nat, B "application/msword");
   (B ".exe", 4%nat, B "application/octet-stream");
   (B ".zip", 4%nat, B "application/x-zip-compressed");
   (B ".xls", 4%nat, B "application/excel");
   (B ".tgz", 4%nat, B "application/x-tar-gz");
   (B ".tar", 4%nat, B "application/x-tar");
   (B ".gz", 3%nat, B "application/x-gunzip");
   (B ".arj", 4%nat, B "application/x-arj-compressed");
   (B ".rar", 4%nat, B "application/x-arj-compressed");
   (B ".rtf", 4%nat, B "application/rtf");
   (B ".pdf", 4%nat, B "application/pdf");
   (B ".swf", 4%nat, B "application/x-shockwave-flash");
   (B ".mpg", 4%nat, B "video/mpeg");
   (B ".webm", 5%nat, B "video/webm");
   (B ".mpeg", 5%nat, B "video/mpeg");
   (B ".mov", 4%nat, B "video/quicktime");
   (B ".mp4", 4%nat, B "video/mp4");
   (B ".m4v", 4%nat, B "video/x-m4v");
   (B ".asf", 4%nat, B "video/x-ms-asf");
   (B ".avi", 4%nat, B "video/x-msvideo");
   (B ".bmp", 4%nat, B "image/bmp");
   (B ".ttf", 4%nat, B "application/x-font-ttf")].

Fixpoint builtin_mime_loop (path : bytes) (types : list (bytes * nat * bytes)) : bytes :=
  match types with
  | [] => B "text/plain"
  | (extension, ext_len, mime_type) :: types' =>
      if (ext_len <? length path)%nat
         && (mg_strcasecmp (drop (length path - ext_len) path) extension =? 0)
      then mime_type
      else builtin_mime_loop path types'
  end.

Definition mg_get_builtin_mime_type (path : bytes) : bytes :=
  builtin_mime_loop path builtin_mime_types.

(** An extension longer than the path makes the code read in front of the path; the
    model stops there. *)
Fixpoint extra_mime_loop (path : bytes) (types : list (vec * option vec)) : M (option bytes) :=
  match types with
  | [] => mret None
  | (ext_vec, mime_vec) :: types' =>
      if (length path <? v_len ext_vec)%nat then abort
      else if mg_strncasecmp (drop (length path - v_len ext_vec) path) (v_ptr ext_vec) (v_len ext_vec) =? 0
      then mret (Some (ovec_str mime_vec))
      else extra_mime_loop path types'
  end.

Definition get_mime_type (path : bytes) : M bytes :=
  c ← get_conn;
  extra ← extra_mime_loop path (option_list (cfg (config_of c) EXTRA_MIME_TYPES) true);
  mret (default (mg_get_builtin_mime_type path) extra).

(** ** Dates *)

Definition month_names : list bytes :=
  [B "Jan"; B "Feb"; B "Mar"; B "Apr"; B "May"; B "Jun";
   B "Jul"; B "Aug"; B "Sep"; B "Oct"; B "Nov"; B "Dec"].

Fixpoint month_loop (s : bytes) (i : Z) (names : list bytes) : Z :=
  match names with
  | [] => -1
  | name :: names' => if streq s name then i else month_loop s (i + 1) names'
  end.
Definition get_month_index (s : bytes) : Z := month_loop s 0 month_names.

(** C division truncates. *)
Definition num_leap_years (year : Z) : Z :=
  Z.quot year 4 - Z.quot year 100 + Z.quot year 400.

Definition days_before_month : list Z := [0; 31; 59; 90; 120; 151; 181; 212; 243; 273; 304; 334].

Definition clock_fmt : list directive := [Ws; Pd; Lit c_colon; Pd; Lit c_colon; Pd].
Definition date_formats : list (list directive) :=
  [[Pd; Lit c_slash; Ps (Some 3%nat) true; Lit c_slash; Pd] ++ clock_fmt;
   [Pd; Ws; Ps (Some 3%nat) true; Ws; Pd] ++ clock_fmt;
   [Ps (Some 3%nat) false; Lit c_comma; Ws; Pd; Ws; Ps (Some 3%nat) true; Ws; Pd] ++ clock_fmt;
   [Pd; Lit c_minus; Ps (Some 3%nat) true; Lit c_minus; Pd] ++ clock_fmt].

(** Day, month name, year, hour, minute, second: the first format that fits. *)
Fixpoint scan_date (formats : list (list directive)) (datetime : bytes)
    : option (Z * bytes * Z * Z * Z * Z) :=
  match formats with
  | [] => None
  | fmt :: formats' =>
      match sscanf datetime fmt with
      | (6, [SInt day; SStr month; SInt year; SInt hour; SInt minute; SInt second]) =>
          Some (day, month, year, hour, minute, second)
      | _ => scan_date formats' datetime
      end
  end.

(** The arithmetic is that of [int]. *)
Definition parse_date_string (datetime : bytes) : Z :=
  match scan_date date_formats datetime with
  | None => 0
  | Some (day, month_str, year, hour, minute, second) =>
      let month := get_month_index month_str in
      if (1970 <? year) && negb (month =? -1) then
        let leap_days := num_leap_years year - num_leap_years 1970 in
        let year := year - 1970 in
        let days := int32 (year * 365 + at_ days_before_month (Z.to_nat month) + (day - 1) + leap_days) in
        int32 (days * 24 * 3600 + hour * 3600 + minute * 60 + second)
      else 0
  end.

(** ** Files *)

(** [%lx] *)
Fixpoint hex_fuel (fuel : nat) (n : Z) : bytes :=
  match fuel with
  | O => []
  | S fuel' => (if n <? 16 then [] else hex_fuel fuel' (n / 16)) ++ [hex (n mod 16)]
  end.
Definition hex_num (n : Z) : bytes := hex_fuel (S (Z.to_nat (Z.log2 n))) n.

Definition construct_etag (buf_len : nat) (st : file_stat) : bytes :=
  take (buf_len - 1)
    ([c_dquote] ++ hex_num (wrap64 (st_mtime st)) ++ B "." ++ dec (st_size st) ++ [c_dquote]).

(** The number of values, and [*a] and [*b], 0 before. *)
Definition parse_range_header (header : bytes) : Z * Z * Z :=
  let '(n, vs) := sscanf header (map Lit (B "bytes=") ++ [Plld; Lit c_minus; Plld]) in
  match vs with
  | [SInt a; SInt b] => (n, a, b)
  | [SInt a] => (n, a, 0)
  | _ => (n, 0, 0)
  end.

(** The loop that copies the file: [rest] is what is left of it, each round reads at
    least one byte. *)
Fixpoint send_file_loop (n : nat) (rest : bytes) (len : Z) : M unit :=
  match n with
  | O => mret tt
  | S n' =>
      if 0 <? len then
        let to_read := if len <? Z.of_nat MG_BUF_LEN then Z.to_nat len else MG_BUF_LEN in
        let buf := take to_read rest in
        if (length buf =? 0)%nat then mret tt
        else
          num_written ← mg_write buf;
          if negb (num_written =? Z.of_nat (length buf)) then mret tt
          else
            _ ← modify (add_sent num_written);
            send_file_loop n' (drop (length buf) rest) (len - num_written)
      else mret tt
  end.

(** [content] is what is read from the file, [size] what [stat] said. *)
Definition send_file_data (content : bytes) (size offset len : Z) : M unit :=
  let offset := if offset <? 0 then 0 else if size <? offset then size else offset in
  if 0 <? len then
    let rest := drop (Z.to_nat offset) content in
    send_file_loop (S (length rest)) rest len
  else mret tt.

Definition http_500_error : bytes := B "Internal Server Error".

(** Status, reason, start, [cl] and the Content-Range header. *)
Definition file_range (hdr : option bytes) (size : Z) : Z * bytes * Z * Z * bytes :=
  match hdr with
  | None => (200, B "OK", 0, size, [])
  | Some h =>
      let '(n, r1, r2) := parse_range_header h in
      if (0 <? n) && (0 <=? r1) && (0 <=? r2) then
        let cl := if n =? 2 then (if size <? r2 then size else r2) - r1 + 1 else size - r1 in
        (206, B "Partial Content", r1, cl,
         mg_snprintf 64 (B "Content-Range: bytes " ++ dec r1 ++ B "-" ++ dec (r1 + cl - 1) ++ B "/"
                         ++ dec size ++ crlf))
      else (200, B "OK", r1, size, [])
  end.

Section files.
Context `{OS}.

Definition file_header (status : Z) (msg : bytes) (curtime : Z) (st : file_stat) (mime : bytes)
    (cl : Z) (connection range : bytes) : bytes :=
  B "HTTP/1.1 " ++ dec status ++ B " " ++ msg ++ crlf
  ++ B "Date: " ++ os_http_date curtime ++ crlf
  ++ B "Last-Modified: " ++ os_http_date (st_mtime st) ++ crlf
  ++ B "Etag: " ++ construct_etag 64 st ++ crlf
  ++ B "Content-Type: " ++ mime ++ crlf
  ++ B "Content-Length: " ++ dec cl ++ crlf
  ++ B "Connection: " ++ connection ++ crlf
  ++ B "Accept-Ranges: bytes" ++ crlf
  ++ range ++ crlf.

Definition handle_file_request (path : bytes) (st : file_stat) : M unit :=
  curtime ← time;
  mime ← get_mime_type path;
  _ ← modify (set_status 200);
  match mg_fopen path with
  | None =>
      send_http_error 500 http_500_error (B "fopen(" ++ path ++ B "): " ++ os_strerror)
  | Some content =>
      c ← get_conn;
      let '(status, msg, r1, cl, range) := file_range (header_of c (B "Range")) (st_size st) in
      _ ← modify (set_status status);
      c ← get_conn;
      _ ← mg_printf (file_header status msg curtime st mime cl (suggest_connection_header c) range);
      if negb (streq (default [] (request_method (request_info c))) (B "HEAD")) then
        send_file_data content (st_size st) r1 cl
      else mret tt
  end.

Definition mg_send_file (path : bytes) : M unit :=
  let '(found, st) := mg_stat path in
  if found then handle_file_request path st
  else send_http_error 404 (B "Not Found") (B "File not found").

(** Should the reply be 304 Not Modified? *)
Definition is_not_modified (c : conn) (st : file_stat) : bool :=
  match header_of c (B "If-None-Match") with
  | Some inm => mg_strcasecmp (construct_etag 64 st) inm =? 0
  | None => false
  end
  || match header_of c (B "If-Modified-Since") with
     | Some ims => st_mtime st <=? parse_date_string ims
     | None => false
     end.
End files.

Example date_rfc : parse_date_string (B "Sun, 06 Nov 1994 08:49:37 GMT") = 784111777.
Proof. by_eval. Qed.
Example date_log : parse_date_string (B "06/Nov/1994 08:49:37") = 784111777.
Proof. by_eval. Qed.
Example range_1 : parse_range_header (B "bytes=10-19") = (2, 10, 19).
Proof. by_eval. Qed.
Example range_2 : parse_range_header (B "bytes=-500") = (1, -500, 0).
Proof. by_eval. Qed.
Example etag_1 : construct_etag 64 (FileStat 1234 255 false) = [34] ++ B "ff.1234" ++ [34].
Proof. by_eval. Qed.
Example mime_1 : mg_get_builtin_mime_type (B "/a/b.HTML") = B "text/html".
Proof. by_eval. Qed.

(** ** The reply *)

Lemma add_sent_ok k w : sends_ok w -> sends_ok (set_cn (add_sent k (cn w)) w).
Proof. done. Qed.

(** The copy loop sends [len] bytes of the file, or what there is. *)
Lemma send_file_loop_spec n rest len w :
  sends_ok w -> (length rest < n)%nat ->
  exists w', send_file_loop n rest len w = Some (tt, w') /\
    sent w' = sent w ++ take (Z.to_nat len) rest /\ sends_ok w'.
Proof.
  revert rest len w. induction n as [|n IH]; intros rest len w Hok Hn; [lia|]. cbn [send_file_loop].
  destruct (Z.ltb_spec 0 len) as [Hlen|Hlen].
  2: { exists w. replace (Z.to_nat len) with 0%nat by lia. rewrite take_0, app_nil_r. done. }
  set (k := if len <? _ then _ else _).
  assert ((0 < k <= Z.to_nat len)%nat /\ (k <= Z.to_nat 8192)%nat) as [Hk Hkb]
    by (unfold k, MG_BUF_LEN in *; destruct (Z.ltb_spec len (Z.of_nat (Z.to_nat 8192))); lia).
  destruct (Nat.eqb_spec (length (take k rest)) 0) as [E0|E0].
  - exists w. assert (rest = []) as -> by (rewrite length_take in E0; destruct rest; [done|simpl in E0; lia]).
    rewrite take_nil, app_nil_r. done.
  - unfold mbind, M_bind.
    destruct (mg_write_all (take k rest) w Hok) as (w1 & -> & Hs1 & Hok1 & _);
      [rewrite length_take; lia|].
    rewrite Z.eqb_refl. cbn [negb]. unfold modify. cbv beta iota.
    destruct (IH (drop (length (take k rest)) rest) (len - Z.of_nat (length (take k rest)))
      (set_cn (add_sent (Z.of_nat (length (take k rest))) (cn w1)) w1))
      as (w2 & E & Hs2 & Hok2); [done|rewrite length_drop, length_take in *; lia|].
    exists w2. split; [exact E|]. split; [|done]. rewrite Hs2. cbn [set_cn sent]. rewrite Hs1, <- app_assoc.
    f_equal. rewrite drop_length_take, length_take.
    destruct (Nat.le_gt_cases k (length rest)).
    + rewrite Nat.min_l by done. replace (Z.to_nat (len - Z.of_nat k)) with (Z.to_nat len - k)%nat by lia.
      rewrite take_take_drop. f_equal. lia.
    + rewrite drop_ge, take_nil, app_nil_r, !take_ge by lia. done.
Qed.

Lemma total_send_file_loop n rest len : total (send_file_loop n rest len).
Proof. revert rest len. induction n as [|n IH]; intros rest len; cbn [send_file_loop]; solve_total. Qed.
#[export] Hint Resolve total_send_file_loop : total.

Lemma total_send_file_data content size offset len : total (send_file_data content size offset len).
Proof. unfold send_file_data. solve_total. Qed.
#[export] Hint Resolve total_send_file_data : total.

Lemma extra_mime_world path types w v r :
  extra_mime_loop path types w = Some (r, w) -> extra_mime_loop path types v = Some (r, v).
Proof.
  induction types as [|[e m] types IH]; cbn [extra_mime_loop]; unfold mret, M_ret.
  - by intros [= <-].
  - case_match; [done|]. case_match; [by intros [= <-]|done].
Qed.

Lemma extra_mime_same path types w r w' : extra_mime_loop path types w = Some (r, w') -> w' = w.
Proof.
  induction types as [|[e m] types IH]; cbn [extra_mime_loop]; unfold mret, M_ret.
  - by intros [= <-].
  - case_match; [done|]. case_match; [by intros [= <-]|done].
Qed.

Lemma get_mime_type_world path w v mime :
  get_mime_type path w = Some (mime, w) -> cn v = cn w -> get_mime_type path v = Some (mime, v).
Proof.
  unfold get_mime_type, get_conn, mbind, M_bind, mret, M_ret. intros E ->.
  destruct (extra_mime_loop _ _ w) as [[r w']|] eqn:El; [|done].
  pose proof (extra_mime_same _ _ _ _ _ El) as ->.
  rewrite (extra_mime_world _ _ w v r El). by simplify_eq.
Qed.

Lemma send_file_data_spec content size offset len w :
  sends_ok w -> 0 <= offset <= size ->
  exists w', send_file_data content size offset len w = Some (tt, w') /\
    sent w' = sent w ++ take (Z.to_nat len) (drop (Z.to_nat offset) content).
Proof.
  intros Hok Ho. unfold send_file_data. destruct (Z.ltb_spec offset 0); [lia|].
  destruct (Z.ltb_spec size offset); [lia|]. destruct (Z.ltb_spec 0 len).
  - destruct (send_file_loop_spec (S (length (drop (Z.to_nat offset) content)))
      (drop (Z.to_nat offset) content) len w) as (w' & E & Hs & _); [done|lia|]. by exists w'.
  - exists w. replace (Z.to_nat len) with 0%nat by lia. rewrite take_0, app_nil_r. done.
Qed.

Section reply.
Context `{OS}.

(** The body: nothing for a HEAD request. *)
Definition reply_body (method : option bytes) (content : bytes) (r1 cl : Z) : bytes :=
  if streq (default [] method) (B "HEAD") then []
  else take (Z.to_nat cl) (drop (Z.to_nat r1) content).

Lemma handle_file_request_sends path st mime content status msg r1 cl range w :
  sends_ok w -> get_mime_type path w = Some (mime, w) -> mg_fopen path = Some content ->
  file_range (header_of (cn w) (B "Range")) (st_size st) = (status, msg, r1, cl, range) ->
  0 <= r1 <= st_size st ->
  let header := file_header status msg (default 0 (head (clock w))) st mime cl
                  (suggest_connection_header (set_status status (cn w))) range in
  (length header < MG_BUF_LEN)%nat ->
  exists w', handle_file_request path st w = Some (tt, w') /\
    sent w' = sent w ++ header ++ reply_body (request_method (request_info (cn w))) content r1 cl.
Proof.
  intros Hok Hm Hf Hr Hr1 header Hl. unfold handle_file_request, mbind, M_bind, time.
  set (w1 := World _ _ _ _ _ _ _ _). rewrite (get_mime_type_world path w w1 mime) by done.
  unfold modify at 1. rewrite Hf. unfold get_conn at 1. cbv beta iota. cbn [set_cn cn].
  change (header_of (set_status 200 (cn w1))) with (header_of (cn w)). rewrite Hr.
  unfold modify, get_conn. cbv beta iota. cbn [set_cn cn].
  change (set_status status (set_status 200 (cn w1))) with (set_status status (cn w)).
  fold header. set (w2 := set_cn _ _).
  destruct (mg_printf_all header w2) as (w3 & -> & Hs3 & Hok3 & Hw3); [done|split; [|done]|].
  { unfold header, file_header. rewrite length_app. simpl. lia. }
  cbn [set_status request_info]. unfold reply_body.
  destruct (streq _ (B "HEAD")); cbn [negb].
  - exists w3. split; [done|]. by rewrite app_nil_r, Hs3.
  - destruct (send_file_data_spec content (st_size st) r1 cl w3) as (w4 & -> & Hs4); [done|done|].
    exists w4. split; [done|]. by rewrite Hs4, Hs3, <- app_assoc.
Qed.
End reply.

(** ** Ranges *)

Definition print_range (r : Z * Z) : bytes := B "bytes=" ++ dec (fst r) ++ B "-" ++ dec (snd r).

Lemma scan_Plld total fmt n rest done :
  LONG_MIN <= n <= LONG_MAX -> (forall c, head rest = Some c -> isdigit c = false) ->
  scan total (Plld :: fmt) (dec n ++ rest) done
  = let '(k, vs) := scan total fmt rest (done + 1) in (k, SInt n :: vs).
Proof.
  intros Hn Hr. destruct (dec_head n) as (c & t & E & Hc).
  pose proof (scan_number_dec n rest Hn Hr) as Hs.
  rewrite E in *. cbn [scan app skip_ws] in *. by rewrite Hc, Hs.
Qed.

Lemma parse_range_print a b :
  0 <= a <= LONG_MAX -> 0 <= b <= LONG_MAX -> parse_range_header (print_range (a, b)) = (2, a, b).
Proof.
  intros Ha Hb. unfold parse_range_header, print_range, sscanf. cbn [fst snd].
  generalize (length (B "bytes=" ++ dec a ++ B "-" ++ dec b)). intros total.
  change (map Lit (B "bytes=") ++ ?x) with
    (Lit 98 :: Lit 121 :: Lit 116 :: Lit 101 :: Lit 115 :: Lit 61 :: x).
  change (B "bytes=" ++ ?x) with (98 :: 121 :: 116 :: 101 :: 115 :: 61 :: x). rewrite !scan_Lit.
  rewrite scan_Plld; [|unfold LONG_MIN, LONG_MAX in *; lia|by intros c [= <-]].
  change (B "-" ++ ?x) with (c_minus :: x). rewrite scan_Lit.
  rewrite <- (app_nil_r (dec b)), scan_Plld; [|unfold LONG_MIN, LONG_MAX in *; lia|done].
  done.
Qed.

(** What a request asks for: the whole file, or the bytes from the first to the last. *)
Definition asks_for (c : conn) (size : Z) (first last : Z) : Prop :=
  match header_of c (B "Range") with
  | None => first = 0 /\ last = size - 1
  | Some h => h = print_range (first, last) /\ 0 <= first <= last /\ last < size
  end.

(** C26. A file is served as asked: to a GET for the whole file or for a range of bytes in
    it, the reply is the header, which announces the length of what follows, and
    exactly those bytes of the file, however the client's socket accepts them. *)
Theorem file_reply `{OS} (path content mime : bytes) (st : file_stat) (first last : Z) (w : world) :
  sends_ok w -> get_mime_type path w = Some (mime, w) ->
  mg_fopen path = Some content -> st_size st = Z.of_nat (length content) -> st_size st <= LONG_MAX ->
  request_method (request_info (cn w)) = Some (B "GET") ->
  asks_for (cn w) (st_size st) first last ->
  let len := last - first + 1 in
  let status := match header_of (cn w) (B "Range") with None => 200 | Some _ => 206 end in
  let header range := file_header status (if status =? 200 then B "OK" else B "Partial Content")
                        (default 0 (head (clock w))) st mime len
                        (suggest_connection_header (set_status status (cn w))) range in
  (forall range, (length range < 64)%nat -> (length (header range) < MG_BUF_LEN)%nat) ->
  exists w' range, handle_file_request path st w = Some (tt, w') /\
    let body := take (Z.to_nat len) (drop (Z.to_nat first) content) in
    sent w' = sent w ++ header range ++ body /\ Z.of_nat (length body) = len.
Proof.
  intros Hok Hm Hf Hsz Hmax Hget Hask len status header Hl.
  assert (exists range, file_range (header_of (cn w) (B "Range")) (st_size st)
    = (status, if status =? 200 then B "OK" else B "Partial Content", first, len, range) /\
    (length range < 64)%nat /\ 0 <= first <= st_size st /\ 0 <= len /\ first + len <= st_size st)
    as (range & Hr & Hlr & Hfirst & Hlen & Hend).
  { unfold asks_for, status, len, file_range in *. destruct (header_of _ _) as [h|].
    - destruct Hask as (-> & Hfl & Hlast). rewrite parse_range_print by lia.
      destruct (Z.leb_spec 0 first); [|lia]. destruct (Z.leb_spec 0 last); [|lia].
      cbn [Z.ltb Z.compare Pos.compare andb Z.eqb Pos.eqb]. destruct (Z.ltb_spec (st_size st) last); [lia|].
      eexists. split; [reflexivity|]. split; [|lia]. unfold mg_snprintf. rewrite length_take. lia.
    - destruct Hask as [-> ->]. exists []. replace (st_size st - 1 - 0 + 1) with (st_size st) by lia.
      split; [done|]. simpl. lia. }
  destruct (handle_file_request_sends path st mime content status _ first len range w Hok Hm Hf Hr)
    as (w' & E & Hs); [done|by apply Hl|].
  exists w', range. split; [done|]. rewrite Hs, Hget. split; [done|].
  rewrite length_take, length_drop. lia.
Qed.

(** A GET request with the given headers. *)
Definition get_conn_for (u : bytes) (headers : list (bytes * bytes)) : conn :=
  Conn (RequestInfo (Some (B "GET")) (Some u) (Some (B "1.1")) None None 0 0 false headers)
    (replicate 40 None) inhabitant 0 0 0 0 [] None false 0 0 0 0 0 0.

Lemma file_header_length `{OS} status msg t st mime cl connection range range' :
  (length range <= length range')%nat ->
  (length (file_header status msg t st mime cl connection range)
   <= length (file_header status msg t st mime cl connection range'))%nat.
Proof. intros Hl. unfold file_header. rewrite !length_app. lia. Qed.

Lemma file_reply_witness :
  let os := small_os [(B "/w/a.txt", B "hello world")] [] in
  let w := quiet (get_conn_for (B "/a.txt") [(B "Range", B "bytes=2-6")]) [] in
  let st := FileStat 11 1000000000 false in
  exists w' range, @handle_file_request os (B "/w/a.txt") st w = Some (tt, w') /\
    sent w' = [] ++ @file_header os 206 (B "Partial Content") 0 st (B "text/plain") 5
                (B "close") range ++ B "llo w" /\
    Z.of_nat (length (B "llo w")) = 5.
Proof.
  intros os w st.
  apply (@file_reply os (B "/w/a.txt") (B "hello world") (B "text/plain") st 2 6 w).
  - split_and!; [constructor|done|done].
  - by_eval.
  - done.
  - done.
  - by_eval.
  - done.
  - by_eval.
  - intros range Hr. eapply Nat.le_lt_trans; [apply (file_header_length _ _ _ _ _ _ _ _ (replicate 64 0))|].
    + rewrite length_replicate. lia.
    + apply Nat.ltb_lt. by_eval.
Defined.

(** A range that ends beyond the file makes the server announce a byte that is not
    there: for the bytes from [first] to [last] of a file with [last] not below its
    size, the reply announces one byte more than it sends. *)
Theorem range_overshoot `{OS} (path content mime : bytes) (st : file_stat) (first last : Z) (w : world) :
  sends_ok w -> get_mime_type path w = Some (mime, w) ->
  mg_fopen path = Some content -> st_size st = Z.of_nat (length content) -> st_size st < LONG_MAX ->
  request_method (request_info (cn w)) = Some (B "GET") ->
  header_of (cn w) (B "Range") = Some (print_range (first, last)) ->
  0 <= first < st_size st -> st_size st <= last <= LONG_MAX ->
  let cl := st_size st - first + 1 in
  let header range := file_header 206 (B "Partial Content") (default 0 (head (clock w))) st mime cl
                        (suggest_connection_header (set_status 206 (cn w))) range in
  (forall range, (length range < 64)%nat -> (length (header range) < MG_BUF_LEN)%nat) ->
  exists w' range body, handle_file_request path st w = Some (tt, w') /\
    sent w' = sent w ++ header range ++ body /\ Z.of_nat (length body) = cl - 1.
Proof.
  intros Hok Hm Hf Hsz Hmax Hget Hh Hfirst Hlast cl header Hl.
  assert (exists range, file_range (header_of (cn w) (B "Range")) (st_size st)
    = (206, B "Partial Content", first, cl, range) /\ (length range < 64)%nat) as (range & Hr & Hlr).
  { unfold file_range. rewrite Hh, parse_range_print by lia.
    destruct (Z.leb_spec 0 first); [|lia]. destruct (Z.leb_spec 0 last); [|lia].
    cbn [Z.ltb Z.compare Pos.compare andb Z.eqb Pos.eqb].
    replace (if st_size st <? last then st_size st else last) with (st_size st)
      by (destruct (Z.ltb_spec (st_size st) last); lia).
    eexists. split; [reflexivity|]. unfold mg_snprintf. rewrite length_take. lia. }
  destruct (handle_file_request_sends path st mime content 206 _ first cl range w Hok Hm Hf Hr)
    as (w' & E & Hs); [lia|by apply Hl|].
  exists w', range, (take (Z.to_nat cl) (drop (Z.to_nat first) content)).
  split; [done|]. rewrite Hs, Hget. split; [done|]. rewrite length_take, length_drop. lia.
Qed.

Lemma range_overshoot_witness :
  let os := small_os [(B "/w/a.txt", B "hello world")] [] in
  let w := quiet (get_conn_for (B "/a.txt") [(B "Range", B "bytes=2-100")]) [] in
  let st := FileStat 11 1000000000 false in
  exists w' range body, @handle_file_request os (B "/w/a.txt") st w = Some (tt, w') /\
    sent w' = [] ++ @file_header os 206 (B "Partial Content") 0 st (B "text/plain") 10
                (B "close") range ++ body /\
    Z.of_nat (length body) = 10 - 1.
Proof.
  intros os w st.
  apply (@range_overshoot os (B "/w/a.txt") (B "hello world") (B "text/plain") st 2 100 w).
  - split_and!; [constructor|done|done].
  - by_eval.
  - done.
  - done.
  - by_eval.
  - done.
  - by_eval.
  - by_eval.
  - by_eval.
  - intros range Hr. eapply Nat.le_lt_trans; [apply (file_header_length _ _ _ _ _ _ _ _ (replicate 64 0))|].
    + rewrite length_replicate. lia.
    + apply Nat.ltb_lt. by_eval.
Defined.

(** ** The calendar *)

Definition leap (y : Z) : bool := (y mod 4 =? 0) && (negb (y mod 100 =? 0) || (y mod 400 =? 0)).
Definition month_days (y : Z) (m : nat) : Z :=
  match m with
  | 1%nat => if leap y then 29 else 28
  | 3%nat | 5%nat | 8%nat | 10%nat => 30
  | _ => 31
  end.

(** The days from 1 January 1970 to 1 January [1970 + k]. *)
Fixpoint years_days (k : nat) : Z :=
  match k with
  | O => 0
  | S k' => years_days k' + (if leap (1970 + Z.of_nat k') then 366 else 365)
  end.
Fixpoint months_days (y : Z) (m : nat) : Z :=
  match m with O => 0 | S m' => months_days y m' + month_days y m' end.

(** Seconds since the epoch: [m] counts the months from 0. *)
Definition epoch_time (y : Z) (m : nat) (d h mi s : Z) : Z :=
  86400 * (years_days (Z.to_nat (y - 1970)) + months_days y m + (d - 1)) + 3600 * h + 60 * mi + s.

(** An HTTP date as RFC 2616 prefers it. *)
Definition two (n : Z) : bytes := [48 + n / 10; 48 + n mod 10].
Definition day_names : list bytes :=
  [B "Mon"; B "Tue"; B "Wed"; B "Thu"; B "Fri"; B "Sat"; B "Sun"].
Definition http_date (wd y : Z) (m : nat) (d h mi s : Z) : bytes :=
  nth (Z.to_nat wd) day_names [] ++ B ", " ++ two d ++ B " " ++ nth m month_names [] ++ B " " ++ dec y
  ++ B " " ++ two h ++ B ":" ++ two mi ++ B ":" ++ two s ++ B " GMT".

Lemma leap_step y :
  0 < y -> num_leap_years y = num_leap_years (y - 1) + (if leap y then 1 else 0).
Proof.
  intros Hy. unfold num_leap_years, leap. rewrite !Z.quot_div_nonneg by lia.
  destruct (Z.eqb_spec (y mod 4) 0), (Z.eqb_spec (y mod 100) 0), (Z.eqb_spec (y mod 400) 0);
    cbn [negb andb orb]; Z.div_mod_to_equations; lia.
Qed.

Lemma leap_days k :
  num_leap_years (1970 + Z.of_nat k) - num_leap_years 1970
  = years_days k - 365 * Z.of_nat k + (if leap (1970 + Z.of_nat k) then 1 else 0).
Proof.
  induction k as [|k IH]; [done|]. rewrite leap_step by lia. cbn [years_days].
  replace (1970 + Z.of_nat (S k) - 1) with (1970 + Z.of_nat k) by lia.
  destruct (leap (1970 + Z.of_nat k)); lia.
Qed.

Lemma scan_two total fmt n rest done :
  0 <= n < 100 -> (forall c, head rest = Some c -> isdigit c = false) ->
  scan total (Pd :: fmt) (two n ++ rest) done
  = let '(k, vs) := scan total fmt rest (done + 1) in (k, SInt n :: vs).
Proof.
  intros Hn Hr. unfold two. cbn [app scan skip_ws].
  assert (0 <= n / 10 < 10) by (Z.div_mod_to_equations; lia).
  pose proof (Z.mod_pos_bound n 10 ltac:(lia)).
  assert (forall x, 0 <= x < 10 -> isdigit (48 + x) = true /\ isspace (48 + x) = false) as Hd.
  { intros x Hx. unfold isdigit, isspace. split; lia. }
  destruct (Hd (n / 10)) as [D1 S1]; [done|]. destruct (Hd (n mod 10)) as [D2 S2]; [done|].
  rewrite S1. unfold scan_number. rewrite (proj2 (Z.eqb_neq _ c_minus)), (proj2 (Z.eqb_neq _ c_plus)) by lia.
  rewrite D1. cbn [digits]. rewrite D1, D2.
  assert (digits ((0 * 10 + (48 + n / 10 - 48)) * 10 + (48 + n mod 10 - 48)) rest = (n, rest)) as ->.
  { destruct rest as [|c rest]; cbn [digits]; [|rewrite (Hr c eq_refl)]; f_equal;
      Z.div_mod_to_equations; lia. }
  unfold clamp64, LONG_MIN, LONG_MAX. rewrite Z.min_r, Z.max_r by lia. by rewrite int32_small by lia.
Qed.

Lemma scan_ws total fmt s done : scan total (Ws :: fmt) s done = scan total fmt (skip_ws s) done.
Proof. done. Qed.

Lemma skip_ws_two n rest : 0 <= n < 100 -> skip_ws (B " " ++ two n ++ rest) = two n ++ rest.
Proof.
  intros Hn. unfold two. cbn [app]. simpl. assert (isspace (48 + n / 10) = false) as ->; [|done].
  unfold isspace. assert (0 <= n / 10 < 10) by (Z.div_mod_to_equations; lia). lia.
Qed.

Lemma skip_ws_dec n rest : skip_ws (B " " ++ dec n ++ rest) = dec n ++ rest.
Proof. destruct (dec_head n) as (c & t & -> & Hc). simpl. by rewrite Hc. Qed.

(** The clock at the end of a date. *)
Lemma scan_clock total h mi s rest done :
  0 <= h < 100 -> 0 <= mi < 100 -> 0 <= s < 100 ->
  (forall c, head rest = Some c -> isdigit c = false) ->
  scan total clock_fmt (B " " ++ two h ++ B ":" ++ two mi ++ B ":" ++ two s ++ rest) done
  = (done + 3, [SInt h; SInt mi; SInt s]).
Proof.
  intros Hh Hmi Hs Hr. unfold clock_fmt. rewrite scan_ws, skip_ws_two by done.
  change (B ":") with [c_colon]. cbn [app]. rewrite scan_two; [|done|by intros c [= <-]].
  rewrite scan_Lit, scan_two; [|done|by intros c [= <-]]. rewrite scan_Lit, scan_two by done.
  cbn [scan]. f_equal. lia.
Qed.

(** A word of three letters. *)
Definition three (w : bytes) : Prop :=
  exists a b c, w = [a; b; c] /\ isspace a = false /\ isspace b = false /\ isspace c = false /\
    isdigit a = false /\ a <> c_minus /\ a <> c_plus.

Lemma scan_three total fmt store w rest done :
  three w ->
  scan total (Ps (Some 3%nat) store :: fmt) (w ++ rest) done
  = if store then let '(k, vs) := scan total fmt rest (done + 1) in (k, SStr w :: vs)
    else scan total fmt rest done.
Proof.
  intros (a & b & c & -> & Sa & Sb & Sc & _). cbn [app scan skip_ws]. rewrite Sa.
  assert (field (Some 3%nat) isspace (a :: b :: c :: rest) = ([a; b; c], rest)) as ->; [|done].
  unfold field. rewrite Sa, Sb, Sc. rewrite !bool_decide_eq_false_2 by done.
  destruct rest as [|x rest]; [done|]. rewrite bool_decide_eq_true_2 by done. by destruct (isspace x).
Qed.

Lemma skip_ws_three w rest : three w -> skip_ws (B " " ++ w ++ rest) = w ++ rest.
Proof. intros (a & b & c & -> & Sa & _). simpl. by rewrite Sa. Qed.

Lemma scan_Pd_three total fmt w rest : three w -> scan total (Pd :: fmt) (w ++ rest) 0 = (0, []).
Proof.
  intros (a & b & c & -> & Sa & _ & _ & Da & Na & Pa). cbn [app scan skip_ws]. rewrite Sa.
  unfold scan_number. by rewrite (proj2 (Z.eqb_neq _ _) Na), (proj2 (Z.eqb_neq _ _) Pa), Da.
Qed.

Lemma day_three wd : 0 <= wd < 7 -> three (nth (Z.to_nat wd) day_names []).
Proof.
  intros H. assert (wd = 0 \/ wd = 1 \/ wd = 2 \/ wd = 3 \/ wd = 4 \/ wd = 5 \/ wd = 6)
    as [->|[->|[->|[->|[->|[->| ->]]]]]] by lia; by eexists _, _, _.
Qed.

Lemma month_three m : (m < 12)%nat -> three (nth m month_names []).
Proof. intros H. do 12 (destruct m as [|m]; [by eexists _, _, _|]). lia. Qed.

Lemma scan_http_date wd y m d h mi s :
  0 <= wd < 7 -> (m < 12)%nat -> 0 <= y < 2 ^ 31 -> 0 <= d < 100 -> 0 <= h < 100 -> 0 <= mi < 100 ->
  0 <= s < 100 ->
  scan_date date_formats (http_date wd y m d h mi s)
  = Some (d, nth m month_names [], y, h, mi, s).
Proof.
  intros Hwd Hm Hy Hd Hh Hmi Hs. pose proof (day_three wd Hwd) as Hw. pose proof (month_three m Hm) as Hmo.
  set (text := http_date wd y m d h mi s). unfold date_formats. cbn [scan_date].
  assert (forall fmt, sscanf text (Pd :: fmt) = (0, [])) as Hno by (intros fmt; by apply scan_Pd_three).
  cbn [app]. rewrite !Hno.
  assert (sscanf text (Ps (Some 3%nat) false :: Lit c_comma :: Ws :: Pd :: Ws :: Ps (Some 3%nat) true ::
      Ws :: Pd :: clock_fmt)
    = (6, [SInt d; SStr (nth m month_names []); SInt y; SInt h; SInt mi; SInt s])) as ->; [|done].
  unfold sscanf. generalize (length text). intros n. unfold text, http_date.
  rewrite scan_three by done. change (B ", ") with [c_comma; c_space]. cbn [app].
  rewrite scan_Lit, scan_ws. change (c_space :: ?x) with (B " " ++ x).
  rewrite skip_ws_two, scan_two by (done || by intros c [= <-]).
  rewrite scan_ws, skip_ws_three, scan_three, scan_ws, skip_ws_dec by done.
  rewrite scan_Pd; [|lia|by intros c [= <-]]. by rewrite scan_clock by (done || by intros c [= <-]).
Qed.

Lemma month_index m : (m < 12)%nat -> get_month_index (nth m month_names []) = Z.of_nat m.
Proof. intros H. do 12 (destruct m as [|m]; [done|]). lia. Qed.

(** The table of days before a month is the calendar of a common year. *)
Lemma days_before_month_spec y m :
  (m < 12)%nat ->
  months_days y m = at_ days_before_month m + (if leap y && (1 <? m)%nat then 1 else 0).
Proof.
  intros H. do 2 (destruct m as [|m]; [by rewrite andb_false_r|]). rewrite andb_true_r.
  do 10 (destruct m as [|m]; [cbn -[leap]; destruct (leap y); done|]). lia.
Qed.

(** Dates in conditional requests: an HTTP date from 1971 on that fits in 31 bits of
    seconds is read as the time it denotes, except that a date in January or February
    of a leap year is read as one day later: [num_leap_years] counts the leap day of
    the year from its first day on. *)
Theorem parse_http_date (wd y : Z) (m : nat) (d h mi s : Z) :
  0 <= wd < 7 -> 1970 < y -> (m < 12)%nat -> 1 <= d <= 31 -> 0 <= h < 24 -> 0 <= mi < 60 -> 0 <= s <= 60 ->
  epoch_time y m d h mi s < 2 ^ 31 - 86400 ->
  parse_date_string (http_date wd y m d h mi s)
  = epoch_time y m d h mi s + (if leap y && (m <? 2)%nat then 86400 else 0).
Proof.
  intros Hwd Hy Hm Hd Hh Hmi Hs Ht.
  assert (0 <= months_days y m <= 335) as Hmd.
  { rewrite days_before_month_spec by done.
    do 12 (destruct m as [|m]; [cbn -[leap]; destruct (leap y); simpl; lia|]). lia. }
  pose proof (leap_days (Z.to_nat (y - 1970))) as Hleap.
  replace (1970 + Z.of_nat (Z.to_nat (y - 1970))) with y in Hleap by lia.
  assert (365 * (y - 1970) <= years_days (Z.to_nat (y - 1970))) as Hyd.
  { assert (forall k, 365 * Z.of_nat k <= years_days k) as Hk
      by (induction k as [|k IH]; [done|]; cbn [years_days]; destruct (leap (1970 + Z.of_nat k)); lia).
    specialize (Hk (Z.to_nat (y - 1970))). lia. }
  unfold epoch_time in *. unfold parse_date_string. rewrite scan_http_date by lia.
  rewrite month_index by done. destruct (Z.ltb_spec 1970 y); [|lia].
  destruct (Z.eqb_spec (Z.of_nat m) (-1)); [lia|]. cbn [negb andb]. rewrite Nat2Z.id.
  rewrite days_before_month_spec in Ht |- * by done. rewrite days_before_month_spec in Hmd by done.
  rewrite Hleap. revert Ht Hmd. clear Hleap.
  destruct (leap y), (Nat.ltb_spec 1 m), (Nat.ltb_spec m 2); cbn [andb]; intros Ht Hmd; try lia;
    match goal with |- context [int32 ?x * 24] => rewrite (int32_small x) by lia end;
    rewrite int32_small by lia; lia.
Qed.

Lemma parse_http_date_witness :
  parse_date_string (http_date 1 2012 1 14 12 30 15)
  = epoch_time 2012 1 14 12 30 15 + 86400.
Proof. apply (parse_http_date 1 2012 1 14 12 30 15); try lia. by_eval. Defined.
