(* ===== verification/Connection.v ===== *)
(** * The life of a connection

    Reading a request into the buffer, the loop that serves one request after another
    on a connection that is kept alive, and the access log: [read_request],
    [reset_per_request_attributes], [getreq], [process_new_connection], [log_header]
    and [log_access] of src/mongoose.c.  The loop is proved against an interface for
    [handle_request]: what is said of it holds for every handler that only takes input
    from the connection. *)

From S2P Require Import Prelude CString Options SocketQueue HttpRequest Scanf Conn Os.

(** ** Reading a request *)

(** The loop of [read_request] on the buffer of the connection: the result of
    [get_request_len] and [n].  Each round reads at least one byte. *)
Fixpoint read_request_loop (fuel : nat) (request_len n : Z) : M (Z * Z) :=
  match fuel with
  | O => mret (request_len, n)
  | S fuel' =>
      c ← get_conn;
      let bufsiz := Z.of_nat (buf_size c) in
      if (data_len c <? bufsiz) && (request_len =? 0) then
        '(n, d) ← pull (Z.to_nat (bufsiz - data_len c));
        let nread := data_len c + (if 0 <? n then n else 0) in
        _ ← modify (set_data (splice (buf c) (Z.to_nat (data_len c)) d) nread);
        if 0 <? n then
          _ ← assert_ (nread <=? bufsiz);
          c ← get_conn;
          read_request_loop fuel' (get_request_len (buf c) (Z.to_nat nread)) n
        else mret (request_len, n)
      else mret (request_len, n)
  end.

Definition read_request : M Z :=
  c ← get_conn;
  '(request_len, n) ← read_request_loop (S (buf_size c))
                        (get_request_len (buf c) (Z.to_nat (data_len c))) 0;
  mret (if (request_len <=? 0) && (n <=? 0) then -1 else request_len).

Definition reset_per_request_attributes (c : conn) : conn :=
  Conn (request_info c) (config_of c) (client c) (birth_time c) 0 (content_len c) 0 (buf c) None
    false 0 (data_len c) (-1) 0 (last_throttle_time c) (last_throttle_bytes c).

(** [snprintf(ebuf, ebuf_len, ...)] with the 100 bytes of [process_new_connection] *)
Definition ebuf_print (text : bytes) : bytes := take 99 text.

(** What the parser leaves of the text [buf] of a request: blanks and the first word,
    ended by a NUL. *)
Definition first_word (buf : bytes) (ri : mg_request_info) : bytes :=
  take (length buf - length (skip_spaces buf)) buf ++ default [] (request_method ri).

(** What [ebuf] holds: nothing, if the request is valid. *)
Definition getreq : M bytes :=
  _ ← modify reset_per_request_attributes;
  request_len ← read_request;
  _ ← modify (set_request_len request_len);
  c ← get_conn;
  _ ← assert_ ((request_len <? 0) || (request_len <=? data_len c));
  if (request_len =? 0) && (data_len c =? Z.of_nat (buf_size c)) then
    mret (ebuf_print (B "Request Too Large"))
  else if request_len <=? 0 then mret (ebuf_print (B "Client closed connection"))
  else
    let '(res, ri) := parse_http_message (buf c) (buf_size c) (request_info c) in
    _ ← modify (set_request_info ri);
    if res <=? 0 then
      mret (ebuf_print (B "Bad request: [" ++ take (Z.to_nat (data_len c))
        (first_word (take (Z.to_nat (request_len - 1)) (buf c)) ri) ++ B "]"))
    else
      let method := default [] (request_method ri) in
      let content_len :=
        match get_header (http_headers ri) (B "Content-Length") with
        | Some cl => strtoll cl
        | None => if (mg_strcasecmp method (B "POST") =? 0) || (mg_strcasecmp method (B "PUT") =? 0)
                  then -1 else 0
        end in
      _ ← modify (set_content_len content_len);
      t ← time;
      _ ← modify (set_birth_time t);
      mret [].

(** ** The access log *)

Definition log_header (c : conn) (header : bytes) : bytes :=
  match header_of c header with
  | None => B " -"
  | Some v => B " " ++ [c_dquote] ++ v ++ [c_dquote]
  end.

Definition access_line `{OS} (c : conn) : bytes :=
  let ri := request_info c in
  sockaddr_to_string 20 (rsa (client c)) ++ B " - " ++ default (B "-") (remote_user ri)
  ++ B " [" ++ os_log_date (birth_time c) ++ B "] " ++ [c_dquote]
  ++ default (B "-") (request_method ri) ++ B " " ++ default (B "-") (uri ri)
  ++ B " HTTP/" ++ default (B "(null)") (http_version ri) ++ [c_dquote] ++ B " "
  ++ dec (status_code c) ++ B " " ++ dec (num_bytes_sent c)
  ++ log_header c (B "Referer") ++ log_header c (B "User-Agent") ++ [c_lf].

Definition log_access `{OS} : M unit :=
  c ← get_conn;
  match cfg (config_of c) ACCESS_LOG_FILE with
  | None => mret tt
  | Some log => if os_append log then emit (FxAppend log (access_line c)) else mret tt
  end.

(** ** Serving the requests of a connection *)

(** The discarded bytes: the request and its body, as far as they are in the buffer.
    The sum is one of [int64_t]; the cast is to [int]. *)
Definition discard_len (c : conn) : Z :=
  let sum := int64 (request_len c + content_len c) in
  if (0 <=? content_len c) && (0 <? request_len c) && (sum <? data_len c) then int32 sum
  else data_len c.

(** [memmove(conn->buf, conn->buf + discard_len, ...)] *)
Definition discard (n : Z) (c : conn) : conn :=
  set_data (splice (buf c) 0 (take (Z.to_nat (data_len c - n)) (drop (Z.to_nat n) (buf c))))
    (data_len c - n) c.

(** What serves a request that has been read. *)
Class RequestHandler := handle_request : M unit.

Section process.
Context `{OS} `{RequestHandler}.

(** The end of a round: the result is [keep_alive]. *)
Definition finish_round (keep_alive_enabled : bool) : M bool :=
  _ ← modify (set_remote_user None);
  stop ← stop_requested;
  c ← get_conn;
  let keep_alive :=
    negb stop && keep_alive_enabled && (0 <=? content_len c) && should_keep_alive c in
  let n := discard_len c in
  _ ← assert_ (0 <=? n);
  _ ← modify (discard n);
  c ← get_conn;
  _ ← assert_ (0 <=? data_len c);
  _ ← assert_ (data_len c <=? Z.of_nat (buf_size c));
  mret keep_alive.

(** What [ebuf] holds after the checks of the request. *)
Definition check_request (ebuf : bytes) : M bytes :=
  if bool_decide (ebuf <> []) then
    _ ← send_http_error 500 (B "Server Error") ebuf;
    _ ← modify (set_must_close true);
    mret ebuf
  else
    c ← get_conn;
    let u := default [] (uri (request_info c)) in
    let version := default [] (http_version (request_info c)) in
    if negb (is_valid_uri u) then
      let ebuf := ebuf_print (B "Invalid URI: [" ++ u ++ B "]") in
      _ ← send_http_error 400 (B "Bad Request") ebuf;
      mret ebuf
    else if negb (streq version (B "1.0")) && negb (streq version (B "1.1")) then
      let ebuf := ebuf_print (B "Bad HTTP version: [" ++ version ++ B "]") in
      _ ← send_http_error 505 (B "Bad HTTP version") ebuf;
      mret ebuf
    else mret [].

(** One round of the loop. *)
Definition process_round (keep_alive_enabled : bool) : M bool :=
  ebuf ← getreq;
  ebuf ← check_request ebuf;
  _ ← (if bool_decide (ebuf = []) then _ ← handle_request; log_access else mret tt);
  finish_round keep_alive_enabled.

(** The loop, for at most [fuel] rounds: whether it ended. *)
Fixpoint process_loop (fuel : nat) (keep_alive_enabled : bool) : M bool :=
  match fuel with
  | O => mret false
  | S fuel' =>
      keep_alive ← process_round keep_alive_enabled;
      if (keep_alive : bool) then process_loop fuel' keep_alive_enabled else mret true
  end.

Definition process_new_connection (fuel : nat) : M bool :=
  c ← get_conn;
  _ ← modify (fun c => set_data (buf c) 0 c);
  process_loop fuel (streq (default [] (cfg (config_of c) ENABLE_KEEP_ALIVE)) (B "yes")).
End process.

(** ** Reading, however the input arrives *)

(** What the connection has received and not yet used, and will receive. *)
Definition conn_input (w : world) : bytes :=
  take (Z.to_nat (data_len (cn w))) (buf (cn w)) ++ stream (rx w).

Definition buf_ok (c : conn) : Prop := 0 <= data_len c <= Z.of_nat (buf_size c).

(** [c'] is [c] with other data in its buffer. *)
Definition same_but_data (c c' : conn) : Prop :=
  buf_size c' = buf_size c /\ c' = set_data (buf c') (data_len c') c.

Lemma same_but_data_refl c : same_but_data c c.
Proof. split; [done|]. by destruct c. Qed.

Lemma same_but_data_trans c1 c2 c3 :
  same_but_data c1 c2 -> same_but_data c2 c3 -> same_but_data c1 c3.
Proof. intros [S1 E1] [S2 E2]. split; [congruence|]. by rewrite E2, E1. Qed.

(** What arrives is added to the data in the buffer. *)
Lemma store_input w w1 d :
  cn w1 = cn w -> stream (rx w) = d ++ stream (rx w1) -> buf_ok (cn w) ->
  data_len (cn w) + Z.of_nat (length d) <= Z.of_nat (buf_size (cn w)) ->
  let c2 := set_data (splice (buf (cn w)) (Z.to_nat (data_len (cn w))) d)
              (data_len (cn w) + Z.of_nat (length d)) (cn w1) in
  conn_input (set_cn c2 w1) = conn_input w /\ same_but_data (cn w) c2 /\ buf_ok c2.
Proof.
  intros Hcn Hs [Hb0 Hb1] Hd c2. unfold buf_size in *.
  assert (length (splice (buf (cn w)) (Z.to_nat (data_len (cn w))) d) = length (buf (cn w))) as Hl
    by (apply splice_length; lia).
  split_and!.
  - unfold conn_input. cbn [set_cn cn c2 set_data data_len buf rx].
    rewrite Z2Nat.inj_add, Nat2Z.id, splice_take, Hs, <- app_assoc by lia. done.
  - split; [by unfold buf_size|]. unfold c2. by rewrite Hcn.
  - unfold buf_ok, c2, buf_size. cbn [set_data data_len buf]. rewrite Hl. lia.
Qed.

(** One read into the buffer. *)
Lemma pull_into n w :
  rx_clean (rx w) -> stops w = [] -> (0 < n)%nat ->
  exists d w', pull n w = Some ((Z.of_nat (length d), d), w') /\
    stream (rx w) = d ++ stream (rx w') /\ (length d <= n)%nat /\ rx_clean (rx w') /\
    (d = [] -> stream (rx w) = []) /\ cn w' = cn w /\ stops w' = [] /\
    sent w' = sent w /\ tx w' = tx w /\ mallocs w' = mallocs w.
Proof.
  intros Hc Hst Hn. destruct (recv_spec n w Hc Hn)
    as (d & w1 & E & Hs & Hd & Hc1 & He & Hcn & Hsent & Hst1 & Htx & Hma & Hfx).
  unfold pull, mbind, M_bind. rewrite E. unfold stop_requested. rewrite Hst1, Hst.
  exists d. eexists. split; [reflexivity|]. done.
Qed.

Lemma get_request_len_input (l rest : bytes) n m :
  (n <= m)%nat -> (n <= length l)%nat -> get_request_len l n <> 0 ->
  get_request_len (take n l ++ rest) m = get_request_len l n.
Proof.
  intros Hnm Hl H. assert (get_request_len (take n l ++ rest) n = get_request_len l n) as E.
  { unfold get_request_len. rewrite take_app_le, take_take, Nat.min_id by (rewrite length_take; lia). done. }
  rewrite <- E in *. by apply get_request_len_mono.
Qed.

(** [w'] is [w] with more of the input in the buffer. *)
Record filled (w w' : world) : Prop := {
  fi_input : conn_input w' = conn_input w;
  fi_cn : same_but_data (cn w) (cn w');
  fi_ok : buf_ok (cn w');
  fi_clean : rx_clean (rx w');
  fi_stops : stops w' = [];
  fi_sent : sent w' = sent w;
  fi_tx : tx w' = tx w;
  fi_mallocs : mallocs w' = mallocs w
}.

Lemma filled_trans w1 w2 w3 : filled w1 w2 -> filled w2 w3 -> filled w1 w3.
Proof.
  intros [] []. constructor; try congruence; try done. by eapply same_but_data_trans.
Qed.

(** The part of the input that is in the buffer. *)
Lemma conn_input_len w :
  buf_ok (cn w) -> length (take (Z.to_nat (data_len (cn w))) (buf (cn w))) = Z.to_nat (data_len (cn w)).
Proof. intros []. unfold buf_size in *. rewrite length_take. lia. Qed.

(** Nothing more is read when the end of the request is found, the buffer is full or
    the client has closed the connection. *)
Lemma request_len_final w :
  buf_ok (cn w) ->
  get_request_len (buf (cn w)) (Z.to_nat (data_len (cn w))) <> 0 \/
    data_len (cn w) = Z.of_nat (buf_size (cn w)) \/ stream (rx w) = [] ->
  get_request_len (conn_input w) (buf_size (cn w))
  = get_request_len (buf (cn w)) (Z.to_nat (data_len (cn w))).
Proof.
  intros Hb H. pose proof (conn_input_len w Hb) as Hl. destruct Hb as [Hb0 Hb1]. unfold buf_size in *.
  destruct H as [H|[H|H]].
  - apply get_request_len_input; [lia|lia|done].
  - unfold get_request_len, conn_input. rewrite H, Nat2Z.id. f_equal.
    rewrite take_app_le, take_take, Nat.min_id by (rewrite length_take; lia). done.
  - unfold get_request_len, conn_input. rewrite H, app_nil_r, take_take. do 2 f_equal. lia.
Qed.

Lemma read_request_loop_spec fuel n w :
  rx_clean (rx w) -> stops w = [] -> buf_ok (cn w) ->
  (buf_size (cn w) < fuel + Z.to_nat (data_len (cn w)))%nat ->
  exists n' w', read_request_loop fuel (get_request_len (buf (cn w)) (Z.to_nat (data_len (cn w)))) n w
      = Some ((get_request_len (conn_input w) (buf_size (cn w)), n'), w') /\ filled w w' /\
    get_request_len (buf (cn w')) (Z.to_nat (data_len (cn w')))
    = get_request_len (conn_input w) (buf_size (cn w)).
Proof.
  revert n w. induction fuel as [|fuel IH]; intros n w Hc Hst Hb Hf; [destruct Hb; lia|].
  cbn [read_request_loop]. unfold mbind, M_bind, get_conn at 1.
  destruct ((data_len (cn w) <? Z.of_nat (buf_size (cn w))) && _) eqn:Ego.
  2: { assert (filled w w) as Hw by (constructor; try done; apply same_but_data_refl).
       rewrite request_len_final; [by eexists _, w|done|]. destruct Hb.
       apply andb_false_iff in Ego as [E%Z.ltb_ge|E%Z.eqb_neq]; [right; left; lia|by left]. }
  apply andb_true_iff in Ego as [Elt%Z.ltb_lt E0%Z.eqb_eq].
  destruct (pull_into (Z.to_nat (Z.of_nat (buf_size (cn w)) - data_len (cn w))) w Hc Hst)
    as (d & w1 & -> & Hs & Hd & Hc1 & He & Hcn & Hst1 & Hsent & Htx & Hma); [lia|].
  destruct (store_input w w1 d) as (Hin & Hsame & Hb2); [done|done|done|lia|].
  unfold modify at 1. cbv beta iota zeta.
  replace (data_len (cn w) + (if 0 <? Z.of_nat (length d) then Z.of_nat (length d) else 0))
    with (data_len (cn w) + Z.of_nat (length d)) by (destruct (Z.ltb_spec 0 (Z.of_nat (length d))); lia).
  rewrite Hcn in Hsame, Hb2, Hin |- *. set (c2 := set_data _ _ _) in *. set (w2 := set_cn c2 w1) in *.
  assert (filled w w2) as Hw2 by (by constructor).
  destruct (Z.ltb_spec 0 (Z.of_nat (length d))) as [Hpos|Hz].
  - unfold assert_. destruct (Z.leb_spec (data_len (cn w) + Z.of_nat (length d)) (Z.of_nat (buf_size (cn w)))); [|lia].
    unfold mret at 1, M_ret at 1, get_conn at 1. cbv beta iota.
    destruct (IH (Z.of_nat (length d)) w2) as (n' & w' & E & Hw & Hg); [done|done|done| |].
    { change (buf_size (cn w2)) with (buf_size c2). destruct Hsame as [-> _]. cbn [w2 set_cn cn c2 set_data data_len]. destruct Hb. lia. }
    exists n', w'. rewrite Hin in E, Hg. destruct Hsame as [Hbs _].
    change (buf_size (cn w2)) with (buf_size c2) in *. rewrite Hbs in E, Hg.
    split; [exact E|]. split; [by eapply filled_trans|done].
  - assert (d = []) as -> by (destruct d; [done|simpl in Hz; lia]).
    exists (Z.of_nat (length (@nil Z))), w2. rewrite (He eq_refl) in Hs.
    assert (get_request_len (conn_input w2) (buf_size (cn w2)) = get_request_len (buf (cn w2)) (Z.to_nat (data_len (cn w2)))) as Hg
      by (apply request_len_final; [done|]; right; right; symmetry; exact Hs).
    destruct Hsame as [Hbs _]. change (buf_size (cn w2)) with (buf_size c2) in Hg.
    rewrite Hin, Hbs in Hg. split; [|done].
    rewrite request_len_final by (done || (right; right; apply (He eq_refl))). done.
Qed.

Lemma read_request_spec w :
  rx_clean (rx w) -> stops w = [] -> buf_ok (cn w) ->
  0 < get_request_len (conn_input w) (buf_size (cn w)) ->
  exists w', read_request w = Some (get_request_len (conn_input w) (buf_size (cn w)), w') /\
    filled w w' /\
    get_request_len (buf (cn w')) (Z.to_nat (data_len (cn w')))
    = get_request_len (conn_input w) (buf_size (cn w)).
Proof.
  intros Hc Hst Hb Hpos. unfold read_request, mbind, M_bind, get_conn.
  destruct (read_request_loop_spec (S (buf_size (cn w))) 0 w) as (n & w' & E & Hw & Hg);
    [done|done|done|lia|].
  exists w'. rewrite E. split; [|done]. unfold mret, M_ret.
  destruct (Z.leb_spec (get_request_len (conn_input w) (buf_size (cn w))) 0); [lia|done].
Qed.

(** The length of the body that a request announces, -1 for none when there must be
    one. *)
Definition announced_len (method : bytes) (hs : list (bytes * bytes)) : Z :=
  match get_header hs (B "Content-Length") with
  | Some cl => strtoll cl
  | None => if (mg_strcasecmp method (B "POST") =? 0) || (mg_strcasecmp method (B "PUT") =? 0)
            then -1 else 0
  end.

(** A message that the parser understands, with what it makes of it. *)
Definition reads_as (text method u version : bytes) (hs : list (bytes * bytes)) : Prop :=
  (0 < length text)%nat /\
  (forall rest len, (length text <= len)%nat -> get_request_len (text ++ rest) len = Z.of_nat (length text)) /\
  (forall rest len ri, (length text <= len)%nat ->
     parse_http_message (text ++ rest) len ri
     = (Z.of_nat (length text), RequestInfo (Some method) (Some u) (Some version) (query_string ri) None
          (remote_ip ri) (remote_port ri) (ri_is_ssl ri) hs)).

Lemma request_reads_as method u version hs :
  request_ok method u version hs ->
  reads_as (request_text method u version hs) method u version (take 64 hs).
Proof.
  intros Hok. split_and!; intros.
  - unfold request_text. rewrite !length_app. simpl. lia.
  - by apply request_text_len.
  - by apply parse_request_text.
Qed.

Lemma response_reads_as version status reason hs :
  line_ok (B "HTTP/" ++ version) status reason hs ->
  reads_as (response_text version status reason hs) (B "HTTP/" ++ version) status reason (take 64 hs).
Proof.
  intros Hok. split_and!; intros.
  - unfold response_text, line_text. rewrite !length_app. simpl. lia.
  - by apply line_text_len.
  - by apply parse_response_text.
Qed.

(** The connection after a message has been read. *)
Record has_message (w w' : world) (text method u version : bytes) (hs : list (bytes * bytes)) : Prop := {
  hr_input : conn_input w' = conn_input w;
  hr_ok : buf_ok (cn w');
  hr_size : buf_size (cn w') = buf_size (cn w);
  hr_info : request_info (cn w')
    = RequestInfo (Some method) (Some u) (Some version) (query_string (request_info (cn w))) None
        (remote_ip (request_info (cn w))) (remote_port (request_info (cn w)))
        (ri_is_ssl (request_info (cn w))) hs;
  hr_len : request_len (cn w') = Z.of_nat (length text);
  hr_data : request_len (cn w') <= data_len (cn w');
  hr_content : content_len (cn w') = announced_len method hs;
  hr_consumed : consumed_content (cn w') = 0;
  hr_config : config_of (cn w') = config_of (cn w);
  hr_must_close : must_close (cn w') = false;
  hr_clean : rx_clean (rx w');
  hr_stops : stops w' = [];
  hr_sent : sent w' = sent w;
  hr_tx : tx w' = tx w
}.

Abbreviation has_request w w' method u version hs :=
  (has_message w w' (request_text method u version hs) method u version (take 64 hs)).

Lemma getreq_message w text method u version hs rest :
  rx_clean (rx w) -> stops w = [] -> buf_ok (cn w) -> reads_as text method u version hs ->
  conn_input w = text ++ rest -> (length text <= buf_size (cn w))%nat ->
  exists w', getreq w = Some ([], w') /\ has_message w w' text method u version hs.
Proof.
  intros Hc Hst Hb (Hpos & Hrl & Hparse) Hin Hlen.
  unfold getreq, mbind, M_bind, modify at 1. set (w1 := set_cn _ _).
  assert (get_request_len (conn_input w1) (buf_size (cn w1)) = Z.of_nat (length text)) as Hg.
  { change (conn_input w1) with (conn_input w). rewrite Hin. by apply Hrl. }
  destruct (read_request_spec w1) as (w2 & -> & Hw2 & Hg2); [done|done|done|lia|].
  rewrite Hg in Hg2 |- *. unfold modify at 1, get_conn at 1. cbv beta iota. cbn [set_cn cn].
  destruct Hw2 as [Hi2 [Hs2 Hc2] Hb2 Hcl2 Hst2 Hse2 Htx2 _].
  change (conn_input w1) with (conn_input w) in Hi2. rewrite Hin in Hi2.
  change (buf_size (cn w1)) with (buf_size (cn w)) in Hs2.
  pose proof (get_request_len_le (buf (cn w2)) (Z.to_nat (data_len (cn w2)))) as Hle. rewrite Hg2 in Hle.
  assert (exists junk, buf (cn w2) = text ++ junk) as (junk & Ebuf).
  { exists (drop (length text) (buf (cn w2))).
    rewrite <- (take_drop (length text) (buf (cn w2))) at 1. f_equal.
    apply (f_equal (take (length text))) in Hi2. unfold conn_input in Hi2.
    rewrite take_app_le, take_take, Nat.min_l, take_app_length in Hi2; [done|lia|].
    rewrite conn_input_len by done. lia. }
  cbn [set_request_len data_len]. unfold assert_. destruct (Z.ltb_spec (Z.of_nat (length text)) 0); [lia|].
  destruct (Z.leb_spec (Z.of_nat (length text)) (data_len (cn w2))); [|lia].
  unfold mret at 1, M_ret at 1. cbn [orb]. cbv beta iota.
  destruct (Z.eqb_spec (Z.of_nat (length text)) 0); [lia|]. cbn [andb].
  destruct (Z.leb_spec (Z.of_nat (length text)) 0); [lia|].
  cbn [set_request_len buf request_info]. unfold buf_size at 1. cbn [set_request_len buf].
  rewrite Ebuf, Hparse by (rewrite length_app; lia).
  unfold modify at 1. cbv beta iota. destruct (Z.leb_spec (Z.of_nat (length text)) 0); [lia|].
  unfold modify, time, mret, M_ret. cbv beta iota. eexists. split; [reflexivity|].
  assert (cn w2 = set_data (buf (cn w2)) (data_len (cn w2)) (reset_per_request_attributes (cn w))) as Ec by done.
  constructor; try done; cbn; try (by rewrite Ec).
  by rewrite <- Hin in Hi2.
Qed.

Lemma getreq_spec w method u version hs rest :
  rx_clean (rx w) -> stops w = [] -> buf_ok (cn w) -> request_ok method u version hs ->
  conn_input w = request_text method u version hs ++ rest ->
  (length (request_text method u version hs) <= buf_size (cn w))%nat ->
  exists w', getreq w = Some ([], w') /\ has_request w w' method u version hs.
Proof. intros Hc Hst Hb Hok%request_reads_as. by apply getreq_message. Qed.

(** ** From one request to the next *)

(** The handler has taken [k] bytes of the body, those in the buffer first. *)
Record reads_body (w w' : world) (k : nat) : Prop := {
  rb_buf : buf (cn w') = buf (cn w);
  rb_data_len : data_len (cn w') = data_len (cn w);
  rb_request_len : request_len (cn w') = request_len (cn w);
  rb_content_len : content_len (cn w') = content_len (cn w);
  rb_config : config_of (cn w') = config_of (cn w);
  rb_stream : stream (rx w')
    = drop (k - Z.to_nat (data_len (cn w) - request_len (cn w))) (stream (rx w));
  rb_clean : rx_clean (rx w');
  rb_stops : stops w' = []
}.

Lemma finish_round_spec kae w :
  buf_ok (cn w) -> stops w = [] -> 0 <= content_len (cn w) ->
  0 <= discard_len (cn w) <= data_len (cn w) ->
  exists w', finish_round kae w = Some (kae && should_keep_alive (cn w), w') /\
    conn_input w' = drop (Z.to_nat (discard_len (cn w)))
                      (take (Z.to_nat (data_len (cn w))) (buf (cn w))) ++ stream (rx w) /\
    buf_ok (cn w') /\ buf_size (cn w') = buf_size (cn w) /\ rx w' = rx w /\ stops w' = [] /\
    config_of (cn w') = config_of (cn w).
Proof.
  intros [Hb0 Hb1] Hst Hc Hn. unfold finish_round, mbind, M_bind, modify at 1, stop_requested.
  cbn [set_cn stops]. rewrite Hst. cbn [head tail default]. unfold get_conn at 1. cbv beta iota zeta.
  cbn [set_cn cn]. set (c1 := set_remote_user None (cn w)).
  change (discard_len c1) with (discard_len (cn w)). set (n := discard_len (cn w)) in *.
  unfold assert_ at 1. destruct (Z.leb_spec 0 n); [|lia].
  unfold mret at 1, M_ret at 1. cbv beta iota. unfold modify, get_conn. cbv beta iota. cbn [set_cn cn].
  unfold discard. change (data_len c1) with (data_len (cn w)). change (buf c1) with (buf (cn w)).
  cbn [set_data data_len]. unfold assert_.
  destruct (Z.leb_spec 0 (data_len (cn w) - n)); [|lia].
  unfold mret at 1, M_ret at 1. cbv beta iota. set (moved := take _ (drop _ (buf (cn w)))).
  unfold buf_size in *. assert (length moved = Z.to_nat (data_len (cn w) - n)) as Hm.
  { unfold moved. rewrite length_take, length_drop. lia. }
  assert (length (splice (buf (cn w)) 0 moved) = length (buf (cn w))) as Hl by (apply splice_length; lia).
  cbn [set_data buf]. rewrite Hl.
  destruct (Z.leb_spec (data_len (cn w) - n) (Z.of_nat (length (buf (cn w))))); [|lia].
  unfold mret, M_ret. eexists. split.
  { do 2 f_equal. cbn [negb andb]. change (content_len c1) with (content_len (cn w)).
    destruct (Z.leb_spec 0 (content_len (cn w))); [|lia]. by rewrite andb_true_r. }
  unfold conn_input, buf_ok, buf_size. cbn [set_cn cn set_data buf data_len rx stops].
  rewrite Hl. split_and!; try (done || lia).
  f_equal. rewrite <- Hm. pose proof (splice_take (buf (cn w)) 0 moved) as Hs. cbn [Nat.add] in Hs.
  rewrite Hs by lia. rewrite take_0. cbn [app]. unfold moved. rewrite take_drop_commute. do 2 f_equal. lia.
Qed.

Lemma discard_len_min c :
  buf_ok c -> Z.of_nat (buf_size c) < 2 ^ 31 -> 0 < request_len c -> 0 <= content_len c ->
  request_len c + content_len c < 2 ^ 63 ->
  discard_len c = Z.min (request_len c + content_len c) (data_len c).
Proof.
  intros [Hb0 Hb1] Hsz Hr Hc Hsum. unfold discard_len. rewrite int64_small by lia.
  destruct (Z.leb_spec 0 (content_len c)); [|lia]. destruct (Z.ltb_spec 0 (request_len c)); [|lia].
  cbn [andb]. destruct (Z.ltb_spec (request_len c + content_len c) (data_len c)); [|lia].
  rewrite int32_small; lia.
Qed.

Lemma log_access_spec `{OS} w : exists w', log_access w = Some (tt, w') /\ logged w w'.
Proof.
  unfold log_access, mbind, M_bind, get_conn, emit, mret, M_ret.
  destruct (cfg _ ACCESS_LOG_FILE) as [log|]; [destruct (os_append log)|];
    eexists; (split; [reflexivity|]); try apply logged_refl.
  constructor; try done. eexists [_]. by repeat constructor.
Qed.

Lemma check_request_ok w method u version hs w1 :
  has_request w w1 method u version hs -> is_valid_uri u = true ->
  version = B "1.0" \/ version = B "1.1" -> check_request [] w1 = Some ([], w1).
Proof.
  intros Hr Hu Hv. unfold check_request, mbind, M_bind, get_conn. rewrite bool_decide_eq_false_2 by (by intros []).
  rewrite (hr_info _ _ _ _ _ _ _ Hr). cbv zeta. cbn [uri http_version from_option id]. rewrite Hu.
  by destruct Hv as [-> | ->].
Qed.

Section next.
Context `{OS} `{RequestHandler}.
Context (w : world) (method u version body rest : bytes) (hs : list (bytes * bytes)) (k : nat).
Hypothesis Hclean : rx_clean (rx w).
Hypothesis Hstops : stops w = [].
Hypothesis Hbuf : buf_ok (cn w).
Hypothesis Hsize : buf_size (cn w) = MAX_REQUEST_SIZE.
Hypothesis Hrequest : request_ok method u version hs.
Hypothesis Huri : is_valid_uri u = true.
Hypothesis Hversion : version = B "1.0" \/ version = B "1.1".
Hypothesis Hinput : conn_input w = request_text method u version hs ++ body ++ rest.
Hypothesis Hfits : (length (request_text method u version hs) <= MAX_REQUEST_SIZE)%nat.
Hypothesis Hbody : announced_len method (take 64 hs) = Z.of_nat (length body).
Hypothesis Hhandler : forall w1, has_request w w1 method u version hs ->
  exists w2, handle_request w1 = Some (tt, w2) /\ reads_body w1 w2 k.

(** What a round leaves: the input after the part of the body that was in the buffer
    or has been read. *)
Lemma round_leftover kae :
  Z.of_nat (length body) < 2 ^ 62 -> (k <= length body)%nat ->
  exists w1 ka w', has_request w w1 method u version hs /\ getreq w = Some ([], w1) /\
    process_round kae w = Some (ka, w') /\
    conn_input w'
    = drop (Nat.max k (Nat.min (length body) (Z.to_nat (data_len (cn w1) - request_len (cn w1)))))
        (body ++ rest) /\
    buf_ok (cn w') /\ buf_size (cn w') = MAX_REQUEST_SIZE /\ rx_clean (rx w') /\ stops w' = [].
Proof.
  intros Hlb Hk. destruct (getreq_spec w method u version hs (body ++ rest)) as (w1 & E1 & H1);
    [done|done|done|done|done|by rewrite Hsize|].
  destruct (Hhandler w1 H1) as (w2 & E2 & H2). destruct (log_access_spec w2) as (w3 & E3 & H3).
  pose proof (lg_cn _ _ H3) as Hc3. pose proof (lg_rx _ _ H3) as Hrx3.
  pose proof H1 as [Hi Hbo Hs1 _ Hl Hd Hcl _ _ _ Hcl1 _ _ _]. destruct H2 as [B1 B2 B3 B4 BC B5 B6 B7].
  unfold MAX_REQUEST_SIZE in *. destruct Hbo as [Hbo0 Hbo1]. unfold buf_size in *.
  set (text := request_text method u version hs) in *.
  assert (0 < length text)%nat as Hpos by (unfold text, request_text; rewrite !length_app; simpl; lia).
  assert (discard_len (cn w3) = Z.min (request_len (cn w1) + content_len (cn w1)) (data_len (cn w1))) as Hdl.
  { rewrite discard_len_min; unfold buf_ok, buf_size; rewrite Hc3, ?B1, ?B2, ?B3, ?B4; lia. }
  destruct (finish_round_spec kae w3) as (w4 & E4 & Hin4 & Hb4 & Hs4 & Hrx4 & Hst4 & Hcf4);
    rewrite ?Hdl; unfold buf_ok, buf_size in *; rewrite ?Hc3, ?B1, ?B2, ?B4, ?(lg_stops _ _ H3);
    try lia; [done|].
  exists w1. eexists _, w4. split; [done|]. split; [done|]. split.
  { unfold process_round, mbind, M_bind. rewrite E1, (check_request_ok _ _ _ _ _ _ H1) by done.
    rewrite bool_decide_eq_true_2 by done. rewrite E2, E3. exact E4. }
  rewrite Hc3, B1, Hs1, Hsize in Hs4. split_and!; [|apply Hb4|by destruct Hb4|done|by rewrite Hrx4, Hrx3|done].
  rewrite Hin4, Hdl, Hc3, Hrx3, B1, B2, B5, Hcl, Hbody, Hl.
  rewrite Hl in Hd. rewrite Hinput in Hi. unfold conn_input in Hi.
  set (D := take _ (buf (cn w1))) in *.
  assert (length D = Z.to_nat (data_len (cn w1))) as HD by (unfold D; rewrite length_take; lia).
  replace (body ++ rest) with (drop (length text) (D ++ stream (rx w1))) by (by rewrite Hi, drop_app_length).
  rewrite drop_drop. set (b := Z.to_nat (data_len (cn w1) - Z.of_nat (length text))).
  destruct (Nat.le_gt_cases (length body) b) as [Hle|Hgt].
  - replace (k - b)%nat with 0%nat by lia. rewrite drop_0, drop_app_le by lia. do 2 f_equal. lia.
  - rewrite (drop_ge D) by lia. simpl. rewrite drop_app_ge by lia. f_equal. lia.
Qed.
End next.


(** [mg_read] is such a handler. *)
Lemma mg_read_reads_body len w :
  conn_ok (cn w) -> rx_clean (rx w) -> stops w = [] -> consumed_content (cn w) = 0 ->
  (Z.to_nat (content_len (cn w)) <= len)%nat ->
  (Z.to_nat (content_len (cn w)) <= length (body_stream w))%nat ->
  exists r w', mg_read len w = Some (r, w') /\ reads_body w w' (Z.to_nat (content_len (cn w))).
Proof.
  intros Hok Hc Hst H0 Hlen Hbody. destruct (mg_read_spec len w Hok Hc Hst)
    as (w' & E & Hb & Hcn & Hc' & Hst' & _). rewrite H0, Z.sub_0_r, Nat.min_r in * by lia.
  eexists _, w'. split; [exact E|]. set (k := Z.to_nat (content_len (cn w))) in *.
  rewrite length_take, Nat.min_l in Hcn, Hb by lia.
  constructor; rewrite ?Hcn; try done.
  pose proof (buffered_body_length _ Hok) as Hbl. rewrite H0, Z.add_0_r in Hbl.
  unfold body_stream in Hb. rewrite Hcn, buffered_body_add, Nat2Z.id in Hb by (done || lia).
  destruct Hok as (Hr & Hd & _). destruct (Nat.le_gt_cases k (length (buffered_body (cn w)))).
  - rewrite drop_app_le in Hb by done. apply app_inv_head in Hb. rewrite Hb.
    replace (k - _)%nat with 0%nat by lia. done.
  - rewrite drop_app_ge, drop_ge in Hb by lia. simpl in Hb. rewrite Hb. f_equal. lia.
Qed.

Lemma has_message_body w w1 text method u version hs body rest :
  has_message w w1 text method u version hs -> conn_input w = text ++ body ++ rest ->
  conn_ok (cn w1) /\ body_stream w1 = body ++ rest.
Proof.
  intros [Hi [Hb0 Hb1] _ _ Hl Hd _ H0 _ _ _ _ _ _] Hin. unfold buf_size in Hb1.
  split; [unfold conn_ok; lia|]. rewrite Hin in Hi. unfold conn_input in Hi.
  unfold body_stream, buffered_body. rewrite H0, Z.add_0_r.
  apply (f_equal (drop (Z.to_nat (request_len (cn w1))))) in Hi.
  rewrite drop_app_le in Hi by (rewrite length_take; lia). rewrite Hi, Hl, Nat2Z.id, drop_app_length. done.
Qed.

(** A connection that has received nothing yet. *)
Definition fresh_conn : conn :=
  Conn no_request (replicate 40 None) inhabitant 0 0 0 0 (replicate MAX_REQUEST_SIZE 0) None false 0 0 0 0 0 0.


(** ** Where the next request is lost *)

(** After the request has been read, the data in the buffer stays. *)
Lemma getreq_data w e w' :
  getreq w = Some (e, w') ->
  exists r w2, read_request (set_cn (reset_per_request_attributes (cn w)) w) = Some (r, w2) /\
    data_len (cn w') = data_len (cn w2).
Proof.
  unfold getreq, mbind, M_bind, modify at 1. destruct (read_request _) as [[r w2]|]; [|done].
  unfold modify, get_conn, assert_, time, mret, M_ret, abort. cbv beta iota. cbn [set_cn cn].
  intros E. exists r, w2. split; [done|].
  destruct ((r <? 0) || _); [|done].
  destruct ((r =? 0) && _); [by simplify_eq/=|]. destruct (r <=? 0); [by simplify_eq/=|].
  destruct (parse_http_message _ _ _) as [res ri]. destruct (res <=? 0); by simplify_eq/=.
Qed.

(** A request that arrives in one piece, with the start of its body: no more is read. *)
Lemma read_request_chunk w d rx' :
  rx w = RxData d :: rx' -> stops w = [] -> data_len (cn w) = 0 -> d <> [] ->
  (length d <= buf_size (cn w))%nat -> get_request_len d (length d) <> 0 ->
  exists r w', read_request w = Some (r, w') /\ data_len (cn w') = Z.of_nat (length d).
Proof.
  intros Hrx Hst Hd Hne Hlen Hg. unfold read_request, mbind, M_bind, get_conn at 1.
  assert (0 < length d)%nat as Hpos by (destruct d; [done|simpl; lia]).
  rewrite Hd. change (get_request_len (buf (cn w)) (Z.to_nat 0)) with 0. cbn [read_request_loop].
  unfold mbind, M_bind, get_conn at 1. rewrite Hd, Z.sub_0_r, Nat2Z.id.
  destruct (Z.ltb_spec 0 (Z.of_nat (buf_size (cn w)))); [|lia]. cbn [Z.eqb andb].
  unfold pull, recv, stop_requested, mbind, M_bind. rewrite Hrx, take_ge, drop_ge by lia.
  rewrite bool_decide_eq_true_2 by done. cbn [set_rx stops]. rewrite Hst. unfold mret at 1, M_ret at 1.
  cbn [head default]. cbv beta iota. destruct (Z.ltb_spec 0 (Z.of_nat (length d))); [|lia].
  unfold modify, assert_. cbv beta iota. rewrite !Z.add_0_l.
  destruct (Z.leb_spec (Z.of_nat (length d)) (Z.of_nat (buf_size (cn w)))); [|lia].
  unfold mret at 1, M_ret at 1. cbv beta iota. unfold get_conn at 1. cbv beta iota.
  cbn [set_cn cn set_data buf set_rx]. set (w2 := set_cn _ _).
  assert (get_request_len (splice (buf (cn w)) (Z.to_nat 0) d) (Z.to_nat (Z.of_nat (length d)))
    = get_request_len d (length d)) as ->.
  { rewrite Nat2Z.id. unfold get_request_len, splice. cbn [Z.to_nat take app Nat.add].
    rewrite take_0. cbn [app]. rewrite take_app_length, take_ge by lia. done. }
  exists (if (get_request_len d (length d) <=? 0) && (Z.of_nat (length d) <=? 0) then -1
          else get_request_len d (length d)), w2. split; [|done].
  destruct (buf_size (cn w)); cbn [read_request_loop]; [done|].
  unfold mbind, M_bind, get_conn. rewrite (proj2 (Z.eqb_neq _ 0) Hg), andb_false_r. done.
Qed.



(** ** A request that is served forever *)

(** A request whose Content-Length is 2^63 less the length of its own header is
    served again and again: the sum of the two lengths overflows, nothing is discarded
    and, on a connection that is kept alive, every round finds the same request at the
    start of the buffer, however many rounds are made. *)
Theorem endless_request `{OS} `{RequestHandler} (fuel : nat) (w : world)
    (method u version rest : bytes) (hs : list (bytes * bytes)) :
  let text := request_text method u version hs in
  rx_clean (rx w) -> stops w = [] -> buf_ok (cn w) -> buf_size (cn w) = MAX_REQUEST_SIZE ->
  request_ok method u version hs -> is_valid_uri u = true ->
  version = B "1.0" \/ version = B "1.1" ->
  conn_input w = text ++ rest -> (length text <= MAX_REQUEST_SIZE)%nat ->
  announced_len method (take 64 hs) = 2 ^ 63 - Z.of_nat (length text) ->
  (forall w0 w1, has_request w0 w1 method u version hs -> config_of (cn w0) = config_of (cn w) ->
     exists w2, handle_request w1 = Some (tt, w2) /\ reads_body w1 w2 0 /\
       should_keep_alive (cn w2) = true) ->
  exists w', process_loop fuel true w = Some (false, w').
Proof.
  intros text Hc Hst Hb Hsz Hr Hu Hv Hi Hf Ha Hh.
  remember (config_of (cn w)) as conf eqn:Hcf. revert w Hcf Hc Hst Hb Hsz Hi.
  induction fuel as [|fuel IH]; intros w Hcf Hc Hst Hb Hsz Hi; [by exists w|].
  cbn [process_loop]. unfold mbind at 1, M_bind at 1.
  destruct (getreq_spec w method u version hs rest) as (w1 & E1 & H1); try done; [fold text; lia|].
  destruct (Hh w w1 H1 (eq_sym Hcf)) as (w2 & E2 & H2 & Hka). destruct (log_access_spec w2) as (w3 & E3 & H3).
  pose proof (lg_cn _ _ H3) as Hc3. pose proof (lg_rx _ _ H3) as Hrx3.
  pose proof H1 as [Hi1 Hb1 Hs1 _ Hl Hd Hcl _ Hcf1 _ Hcl1 _ _ _]. destruct H2 as [B1 B2 B3 B4 BC B5 B6 B7].
  fold text in Hl. rewrite Ha in Hcl. unfold MAX_REQUEST_SIZE in *.
  assert (0 < length text)%nat as Hpos by (unfold text, request_text; rewrite !length_app; simpl; lia).
  assert (discard_len (cn w3) = 0) as Hdl.
  { unfold discard_len. rewrite Hc3, B2, B3, B4, Hcl, Hl.
    replace (Z.of_nat (length text) + (2 ^ 63 - Z.of_nat (length text))) with (2 ^ 63) by lia.
    destruct (Z.leb_spec 0 (2 ^ 63 - Z.of_nat (length text))); [|lia].
    destruct (Z.ltb_spec 0 (Z.of_nat (length text))); [|lia]. destruct Hb1.
    change (int64 (2 ^ 63)) with (- 2 ^ 63).
    destruct (Z.ltb_spec (- 2 ^ 63) (data_len (cn w1))); [done|lia]. }
  destruct Hb1 as [Hb10 Hb11]. unfold buf_size in *.
  destruct (finish_round_spec true w3) as (w4 & E4 & Hin4 & Hb4 & Hs4 & Hrx4 & Hst4 & Hcf4);
    rewrite ?Hdl; unfold buf_ok, buf_size; rewrite ?Hc3, ?B1, ?B2, ?B4, ?(lg_stops _ _ H3); try done; try lia.
  assert (process_round true w = Some (true, w4)) as ->.
  { unfold process_round, mbind, M_bind. rewrite E1, (check_request_ok _ _ _ _ _ _ H1) by done.
    rewrite bool_decide_eq_true_2 by done. rewrite E2, E3, E4, Hc3, Hka. done. }
  unfold buf_size in Hs4. apply IH;
    [by rewrite Hcf4, Hc3, BC, Hcf1|by rewrite Hrx4, Hrx3|done|done|by rewrite Hs4, Hc3, B1, Hs1|].
  rewrite Hin4, Hdl, Hc3, Hrx3, B1, B2, B5. cbn [Z.to_nat Nat.sub]. rewrite !drop_0.
  rewrite <- Hi, <- Hi1. done.
Qed.

(** The request of an attacker: its header has 55 bytes. *)
Definition endless_headers : list (bytes * bytes) := [(B "Content-Length", B "9223372036854775753")].
Definition kept_conn : conn :=
  set_data (replicate MAX_REQUEST_SIZE 0) 0
    (Conn no_request (<[ENABLE_KEEP_ALIVE := Some (B "yes")]> (replicate 40 None))
       inhabitant 0 0 0 0 [] None false 0 0 0 0 0 0).

Lemma endless_request_witness :
  let os := small_os [] [] in
  let handler : RequestHandler := modify (set_status 200) in
  let w := quiet kept_conn [RxData (request_text (B "GET") (B "/") (B "1.1") endless_headers)] in
  exists w', @process_loop os handler (Z.to_nat 1000000) true w = Some (false, w').
Proof.
  intros os handler w.
  apply (@endless_request os handler (Z.to_nat 1000000) w (B "GET") (B "/") (B "1.1") [] endless_headers).
  - by repeat constructor.
  - done.
  - split; by_eval.
  - by_eval.
  - constructor; [by_eval|by_decide|done|by_decide|by_decide].
  - by_eval.
  - by right.
  - by_eval.
  - apply Nat.leb_le. by_eval.
  - by_eval.
  - intros w0 w1 H1 Hcf. eexists. split; [reflexivity|]. split; [constructor; try done; apply H1|].
    unfold should_keep_alive. cbn [set_cn cn set_status must_close status_code config_of http_version request_info header_of].
    rewrite (hr_must_close _ _ _ _ _ _ _ H1), (hr_config _ _ _ _ _ _ _ H1), Hcf.
    unfold header_of. cbn [set_status request_info].
    rewrite (hr_info _ _ _ _ _ _ _ H1). by_eval.
Defined.
