(* ===== verification/Put.v ===== *)
(** * Request bodies and PUT

    [forward_body_data], which copies the body of a request to a file or to a CGI
    program, and the PUT method: [put_dir] and [put_file] of src/mongoose.c. *)

From S2P Require Import Prelude CString Options SocketQueue HttpRequest Scanf Conn Os Files.

Section put.
Context `{OS}.

(** [push(fp, ...)] on the file [path] *)
Definition push_file (path d : bytes) : M Z :=
  if (0 <? length d)%nat && os_writable path then
    _ ← emit (FxWrite path d);
    mret (Z.of_nat (length d))
  else mret 0.

(** The loop that reads the rest of the body from the socket, and [nread].  A round
    that goes on takes at least one byte from the input. *)
Fixpoint forward_loop (fuel : nat) (path : bytes) (nread : Z) : M Z :=
  match fuel with
  | O => mret nread
  | S fuel' =>
      c ← get_conn;
      let left := content_len c - consumed_content c in
      if 0 <? left then
        let to_read := if left <? Z.of_nat MG_BUF_LEN then Z.to_nat left else MG_BUF_LEN in
        '(nread, d) ← pull to_read;
        if nread <=? 0 then mret nread
        else
          n ← push_file path d;
          if negb (n =? nread) then mret nread
          else
            _ ← modify (add_consumed nread);
            forward_loop fuel' path nread
      else mret nread
  end.

(** Everything the client sends is enough fuel. *)
Definition forward_rest (path : bytes) : M Z := fun w =>
  forward_loop (S (length (stream (rx w)))) path 0 w.

(** The part of the body that came with the request. *)
Definition forward_buffer (path : bytes) : M unit :=
  c ← get_conn;
  let off := request_len c + consumed_content c in
  let buffered_len := data_len c - off in
  _ ← assert_ (0 <=? buffered_len);
  _ ← assert_ (consumed_content c =? 0);
  if 0 <? buffered_len then
    let buffered_len := if content_len c <? buffered_len then int32 (content_len c)
                        else buffered_len in
    _ ← push_file path (take (Z.to_nat buffered_len) (drop (Z.to_nat off) (buf c)));
    modify (add_consumed buffered_len)
  else mret tt.

(** The body goes to [path]; the result is [success]. *)
Definition forward_body_data (path : bytes) : M bool :=
  c ← get_conn;
  let expect := header_of c (B "Expect") in
  if content_len c =? -1 then
    _ ← send_http_error 411 (B "Length Required") [];
    mret false
  else if match expect with Some e => negb (mg_strcasecmp e (B "100-continue") =? 0) | None => false end then
    _ ← send_http_error 417 (B "Expectation Failed") [];
    mret false
  else
    _ ← match expect with
        | Some _ => _ ← mg_printf (B "HTTP/1.1 100 Continue" ++ crlf ++ crlf); mret tt
        | None => mret tt
        end;
    _ ← forward_buffer path;
    nread ← forward_rest path;
    c ← get_conn;
    let success := (consumed_content c =? content_len c) && (0 <=? nread) in
    _ ← (if success then mret tt else send_http_error 577 http_500_error []);
    mret success.

(** ** PUT *)

Inductive put_dir_result := PutError | PutIsDir | PutOk.

(** The loop over the slashes of [path] at or after offset [s]; [res] is the result so
    far.  Each round passes one slash. *)
Fixpoint put_dir_loop (fuel : nat) (path : bytes) (s : nat) (res : put_dir_result)
    : M put_dir_result :=
  match fuel with
  | O => mret res
  | S fuel' =>
      match find_byte c_slash (drop s path) with
      | None => mret res
      | Some i =>
          let len := (s + i)%nat in
          if (PATH_MAX <=? len)%nat then mret PutError
          else
            let dir := take len path in
            ok ← (if fst (mg_stat dir) then mret true
                  else if os_mkdir dir then _ ← emit (FxMkdir dir); mret true
                  else mret false);
            if negb ok then mret PutError
            else put_dir_loop fuel' path (S len) (if at_ path (S len) =? 0 then PutIsDir else res)
      end
  end.

Definition put_dir (path : bytes) : M put_dir_result :=
  put_dir_loop (S (length path)) path 2 PutOk.

Definition put_reply (status : Z) : bytes := B "HTTP/1.1 " ++ dec status ++ B " OK" ++ crlf ++ crlf.

(** The place of a Content-Range in the file. *)
Definition put_seek (path : bytes) : M unit :=
  c ← get_conn;
  match header_of c (B "Content-Range") with
  | Some range =>
      let '(n, r1, r2) := parse_range_header range in
      if 0 <? n then
        _ ← modify (set_status 206);
        (* a seek to a negative offset fails *)
        if 0 <=? r1 then emit (FxSeek path r1) else mret tt
      else mret tt
  | None => mret tt
  end.

Definition put_file (path : bytes) : M unit :=
  _ ← modify (set_status (if fst (mg_stat path) then 200 else 201));
  rc ← put_dir path;
  match rc with
  | PutIsDir =>
      c ← get_conn;
      _ ← mg_printf (put_reply (status_code c));
      mret tt
  | PutError =>
      send_http_error 500 http_500_error (B "put_dir(" ++ path ++ B "): " ++ os_strerror)
  | PutOk =>
      if negb (os_create path) then
        send_http_error 500 http_500_error (B "fopen(" ++ path ++ B "): " ++ os_strerror)
      else
        _ ← emit (FxCreate path);
        _ ← put_seek path;
        ok ← forward_body_data path;
        if (ok : bool) then
          c ← get_conn;
          _ ← mg_printf (put_reply (status_code c));
          mret tt
        else mret tt
  end.
End put.

(** ** The body arrives in the file *)

(** What is written to a file, and nothing else is done. *)
Definition write_of (path : bytes) (e : effect) : option bytes :=
  match e with FxWrite p d => if streq p path then Some d else None | _ => None end.
Fixpoint writes (path : bytes) (l : list effect) : option bytes :=
  match l with
  | [] => Some []
  | e :: l' => d ← write_of path e; d' ← writes path l'; Some (d ++ d')
  end.

Lemma writes_app path l l' d d' :
  writes path l = Some d -> writes path l' = Some d' -> writes path (l ++ l') = Some (d ++ d').
Proof.
  revert d. induction l as [|e l IH]; intros d E E'; simplify_eq/=; [done|].
  destruct (write_of path e) as [x|]; [|done]. simplify_eq/=.
  destruct (writes path l) as [y|]; [|done]. simplify_eq/=. rewrite (IH y) by done. simpl.
  by rewrite app_assoc.
Qed.

Lemma add_consumed_add a b c : add_consumed a (add_consumed b c) = add_consumed (b + a) c.
Proof. unfold add_consumed. simpl. f_equal. lia. Qed.

(** [w'] is [w] after the bytes [d] of the body have gone from the input to [path]. *)
Record forwarded `{OS} (path : bytes) (w w' : world) (d : bytes) : Prop := {
  fw_cn : cn w' = add_consumed (Z.of_nat (length d)) (cn w);
  fw_fx : exists l, fx w' = fx w ++ l /\ writes path l = Some d;
  fw_clean : rx_clean (rx w');
  fw_stops : stops w' = [];
  fw_sent : sent w' = sent w;
  fw_tx : tx w' = tx w;
  fw_mallocs : mallocs w' = mallocs w
}.

Section forward.
Context `{OS} (path : bytes).
Hypothesis Hwritable : os_writable path = true.

Lemma push_file_spec d w :
  d <> [] ->
  exists w', push_file path d w = Some (Z.of_nat (length d), w') /\
    cn w' = cn w /\ rx w' = rx w /\ stops w' = stops w /\ sent w' = sent w /\ tx w' = tx w /\
    mallocs w' = mallocs w /\ fx w' = fx w ++ [FxWrite path d].
Proof.
  intros Hd. unfold push_file. rewrite Hwritable. destruct d as [|c d]; [done|]. cbn [length].
  rewrite andb_true_r. unfold mbind, M_bind, emit, mret, M_ret. simpl. eexists. split; [reflexivity|]. done.
Qed.

Lemma forwarded_trans w1 w2 w3 d d' :
  forwarded path w1 w2 d -> forwarded path w2 w3 d' -> forwarded path w1 w3 (d ++ d').
Proof.
  intros [A1 (l & A2 & A3) A4 A5 A6 A7 A8] [B1 (l' & B2 & B3) B4 B5 B6 B7 B8].
  constructor; try congruence; try done.
  - rewrite B1, A1, add_consumed_add, length_app. f_equal. lia.
  - exists (l ++ l'). split; [by rewrite B2, A2, app_assoc|by apply writes_app].
Qed.

Lemma forwarded_nil w : rx_clean (rx w) -> stops w = [] -> forwarded path w w [].
Proof.
  intros Hc Hst. constructor; try done.
  - unfold add_consumed. rewrite Z.add_0_r. by destruct (cn w).
  - exists []. by rewrite app_nil_r.
Qed.

(** One piece of the body goes from the socket to the file. *)
Lemma forward_piece m w :
  rx_clean (rx w) -> stops w = [] -> (0 < m)%nat -> stream (rx w) <> [] ->
  exists d w1 w2, pull m w = Some ((Z.of_nat (length d), d), w1) /\ (0 < length d <= m)%nat /\
    push_file path d w1 = Some (Z.of_nat (length d), w2) /\ stream (rx w) = d ++ stream (rx w2) /\
    forwarded path w (set_cn (add_consumed (Z.of_nat (length d)) (cn w2)) w2) d.
Proof.
  intros Hc Hst Hm Hne. unfold pull, mbind, M_bind. destruct (recv_spec m w Hc Hm)
    as (d & w1 & E & Hs & Hd & Hc1 & He & Hcn & Hsent & Hst1 & Htx & Hma & Hfx).
  rewrite E. unfold stop_requested. rewrite Hst1, Hst. cbn [head tail default].
  assert (d <> []) as Hdne by (intros ->; by apply Hne, He). exists d. eexists.
  destruct (push_file_spec d (World (cn w1) (rx w1) (tx w1) (sent w1) (clock w1) (mallocs w1) [] (fx w1)) Hdne)
    as (w2 & E2 & Hcn2 & Hrx2 & Hst2 & Hse2 & Htx2 & Hma2 & Hfx2). cbn [cn rx stops sent tx mallocs fx] in *.
  exists w2. split; [reflexivity|]. split; [destruct d; [done|simpl in *; lia]|]. split; [exact E2|].
  rewrite Hrx2. split; [done|]. constructor; cbn [set_cn cn rx stops sent tx mallocs fx]; try congruence.
  exists [FxWrite path d]. rewrite Hfx2, Hfx. split; [done|]. cbn [writes write_of]. rewrite streq_refl. simpl.
  by rewrite app_nil_r.
Qed.

Lemma forward_loop_spec fuel n w :
  rx_clean (rx w) -> stops w = [] ->
  0 <= content_len (cn w) - consumed_content (cn w) <= Z.of_nat (length (stream (rx w))) ->
  (length (stream (rx w)) < fuel)%nat -> 0 <= n ->
  let k := Z.to_nat (content_len (cn w) - consumed_content (cn w)) in
  exists n' w', forward_loop fuel path n w = Some (n', w') /\ 0 <= n' /\
    forwarded path w w' (take k (stream (rx w))) /\ stream (rx w') = drop k (stream (rx w)).
Proof.
  revert n w. induction fuel as [|fuel IH]; intros n w Hc Hst Hleft Hf Hn k; [lia|].
  cbn [forward_loop]. unfold mbind, M_bind, get_conn at 1.
  destruct (Z.ltb_spec 0 (content_len (cn w) - consumed_content (cn w))) as [Hpos|Hz].
  2: { assert (k = 0)%nat as -> by lia. exists n, w. split_and!; try done. by apply forwarded_nil. }
  set (m := if _ <? Z.of_nat MG_BUF_LEN then _ else _).
  assert (0 < m <= k)%nat as Hm.
  { unfold m, k, MG_BUF_LEN. destruct (Z.ltb_spec (content_len (cn w) - consumed_content (cn w))
      (Z.of_nat (Z.to_nat 8192))); lia. }
  destruct (forward_piece m w Hc Hst ltac:(lia)) as (d & w1 & w2 & -> & Hd & E2 & Hs & Hf1).
  { intros E. rewrite E in Hleft. simpl in Hleft. lia. }
  destruct (Z.leb_spec (Z.of_nat (length d)) 0); [lia|]. rewrite E2, Z.eqb_refl. cbn [negb].
  unfold modify. cbv beta iota. set (w4 := set_cn _ _) in *.
  change (stream (rx w2)) with (stream (rx w4)) in Hs. clearbody w4. pose proof (fw_cn _ _ _ _ Hf1) as Hcn4.
  rewrite Hs, length_app in Hf, Hleft.
  destruct (IH (Z.of_nat (length d)) w4) as (n' & w' & E' & Hn' & Hf2 & Hs');
    [apply Hf1|apply Hf1|rewrite Hcn4; cbn [add_consumed content_len consumed_content]; lia|lia|lia|].
  exists n', w'. split; [exact E'|]. split; [done|].
  rewrite Hcn4 in Hf2, Hs'. cbn [add_consumed content_len consumed_content] in Hf2, Hs'.
  set (k' := Z.to_nat _) in Hf2, Hs'. assert (k = length d + k')%nat as -> by lia.
  rewrite Hs, take_app_add, drop_app_add. split; [by eapply forwarded_trans|done].
Qed.

Lemma push_file_consume d w :
  rx_clean (rx w) -> stops w = [] ->
  exists w', (_ ← push_file path d; modify (add_consumed (Z.of_nat (length d)))) w = Some (tt, w') /\
    forwarded path w w' d /\ rx w' = rx w.
Proof.
  intros Hc Hst. unfold mbind, M_bind. destruct (decide (d = [])) as [->|Hne].
  - unfold push_file, mret, M_ret, modify. simpl. eexists. split; [reflexivity|].
    split; [|done]. constructor; try done. exists []. by rewrite app_nil_r.
  - destruct (push_file_spec d w Hne) as (w1 & -> & H1 & H2 & H3 & H4 & H5 & H6 & H7).
    unfold modify. eexists. split; [reflexivity|]. split; [|done].
    constructor; cbn [set_cn cn rx stops sent tx mallocs fx]; try congruence.
    exists [FxWrite path d]. split; [done|]. cbn [writes write_of]. rewrite streq_refl. simpl.
    by rewrite app_nil_r.
Qed.

Lemma forward_buffer_spec w :
  rx_clean (rx w) -> stops w = [] -> conn_ok (cn w) -> Z.of_nat (length (buf (cn w))) < 2 ^ 31 ->
  consumed_content (cn w) = 0 -> 0 <= content_len (cn w) ->
  exists w', forward_buffer path w = Some (tt, w') /\ rx w' = rx w /\
    forwarded path w w' (take (Z.to_nat (content_len (cn w))) (buffered_body (cn w))).
Proof.
  intros Hc Hst Hok Hbuf H0 Hk. pose proof (buffered_body_length _ Hok) as Hbl.
  pose proof Hok as (Hr & Hd & _). unfold forward_buffer. unfold mbind at 1, M_bind at 1, get_conn at 1.
  rewrite H0, Z.add_0_r in *. set (k := content_len (cn w)) in *. set (bb := buffered_body (cn w)) in *.
  set (b := data_len (cn w) - request_len (cn w)) in *.
  destruct (Z.leb_spec 0 b); [|lia]. cbn [assert_ Z.eqb].
  unfold mbind at 1, M_bind at 1. unfold mret at 1, M_ret at 1.
  unfold mbind at 1, M_bind at 1. unfold mret at 1, M_ret at 1.
  destruct (Z.ltb_spec 0 b) as [Hb|Hb].
  - destruct (push_file_consume (take (Z.to_nat k) bb) w Hc Hst) as (w1 & E1 & Hf1 & Hrx1).
    exists w1. split; [|done]. rewrite <- E1.
    assert ((if k <? b then int32 k else b) = Z.of_nat (length (take (Z.to_nat k) bb))) as ->.
    { rewrite length_take. destruct (Z.ltb_spec k b); [|lia]. rewrite int32_small; lia. }
    rewrite Nat2Z.id. replace (take _ (drop _ (buf (cn w)))) with (take (Z.to_nat k) bb); [done|].
    unfold bb, buffered_body. rewrite H0, Z.add_0_r, !take_drop_commute, take_take. f_equal. f_equal.
    rewrite length_drop, !length_take. unfold bb, buffered_body in Hbl.
    rewrite length_drop, length_take in Hbl. lia.
  - exists w. assert (bb = []) as -> by (apply nil_length_inv; lia). rewrite take_nil.
    split; [done|]. split; [done|by apply forwarded_nil].
Qed.

Lemma forward_body_data_spec w :
  rx_clean (rx w) -> stops w = [] -> conn_ok (cn w) -> Z.of_nat (length (buf (cn w))) < 2 ^ 31 ->
  consumed_content (cn w) = 0 -> header_of (cn w) (B "Expect") = None ->
  0 <= content_len (cn w) <= Z.of_nat (length (body_stream w)) ->
  exists w', forward_body_data path w = Some (true, w') /\
    forwarded path w w' (take (Z.to_nat (content_len (cn w))) (body_stream w)).
Proof.
  intros Hc Hst Hok Hbuf H0 Hex Hlen. unfold body_stream in Hlen. rewrite length_app in Hlen.
  unfold forward_body_data, mbind, M_bind, get_conn at 1.
  destruct (Z.eqb_spec (content_len (cn w)) (-1)); [lia|]. rewrite Hex. unfold mret at 1, M_ret at 1.
  destruct (forward_buffer_spec w) as (w1 & -> & Hrx1 & Hf1); try done; [lia|].
  set (k := content_len (cn w)) in *. set (bb := buffered_body (cn w)) in *.
  pose proof (fw_cn _ _ _ _ Hf1) as Hcn1. unfold forward_rest.
  assert (content_len (cn w1) - consumed_content (cn w1) = k - Z.of_nat (length (take (Z.to_nat k) bb))) as Hleft.
  { rewrite Hcn1. cbn [add_consumed content_len consumed_content]. fold k. lia. }
  destruct (forward_loop_spec (S (length (stream (rx w1)))) 0 w1) as (nr & w2 & -> & Hn & Hf2 & Hs2);
    [apply Hf1|apply Hf1|rewrite Hleft, Hrx1, length_take; lia|lia|lia|].
  rewrite Hleft, Hrx1 in Hf2. set (d2 := take _ (stream (rx w))) in Hf2.
  assert (take (Z.to_nat k) (body_stream w) = take (Z.to_nat k) bb ++ d2) as Ed.
  { unfold body_stream, d2. fold bb. rewrite length_take. destruct (Nat.le_gt_cases (Z.to_nat k) (length bb)).
    - rewrite take_app_le by done.
      replace (Z.to_nat (k - Z.of_nat (Nat.min (Z.to_nat k) (length bb)))) with 0%nat by lia.
      by rewrite take_0, app_nil_r.
    - rewrite take_app_ge, (take_ge bb) by lia. do 2 f_equal. lia. }
  pose proof (forwarded_trans _ _ _ _ _ Hf1 Hf2) as Hf. rewrite <- Ed in Hf.
  unfold get_conn. rewrite (fw_cn _ _ _ _ Hf). cbn [add_consumed consumed_content content_len].
  fold k. rewrite H0. rewrite length_take. unfold body_stream. fold bb. rewrite length_app.
  destruct (Z.eqb_spec (0 + Z.of_nat (Nat.min (Z.to_nat k) (length bb + length (stream (rx w))))) k); [|lia].
  destruct (Z.leb_spec 0 nr); [|lia]. cbn [andb]. unfold mret, M_ret. by exists w2.
Qed.
End forward.

(** ** PUT stores the body *)

(** The directory in front of a slash is there, or can be made. *)
Definition dir_ok `{OS} (path : bytes) (i : nat) : bool :=
  fst (mg_stat (take i path)) || os_mkdir (take i path).

(** The path names a file: it is not too long and does not end with a slash, and every
    directory on the way to it is there or can be made. *)
Record put_path_ok `{OS} (path : bytes) : Prop := {
  pp_len : (length path <= PATH_MAX)%nat;
  pp_cstr : cstr path;
  pp_last : last path <> Some c_slash;
  pp_dirs : forall i, (2 <= i)%nat -> path !! i = Some c_slash -> dir_ok path i = true
}.

(** Only directories are made. *)
Record made_dirs (w w' : world) (l : list bytes) : Prop := {
  md_fx : fx w' = fx w ++ map FxMkdir l;
  md_cn : cn w' = cn w;
  md_rx : rx w' = rx w;
  md_tx : tx w' = tx w;
  md_sent : sent w' = sent w;
  md_stops : stops w' = stops w;
  md_mallocs : mallocs w' = mallocs w
}.

Lemma put_dir_loop_spec `{OS} fuel path s w :
  put_path_ok path -> (2 <= s)%nat -> (length path < s + fuel)%nat ->
  exists l w', put_dir_loop fuel path s PutOk w = Some (PutOk, w') /\ made_dirs w w' l.
Proof.
  intros Hp. revert s w. induction fuel as [|fuel IH]; intros s w Hs Hf; cbn [put_dir_loop].
  - exists [], w. split; [done|]. constructor; try done. by rewrite app_nil_r.
  - destruct (find_byte c_slash (drop s path)) as [i|] eqn:Ei.
    2: { exists [], w. split; [done|]. constructor; try done. by rewrite app_nil_r. }
    pose proof (find_byte_lt _ _ _ Ei) as Hlt. rewrite length_drop in Hlt.
    apply find_byte_Some in Ei as [Ei _]. rewrite lookup_drop in Ei.
    pose proof (pp_dirs _ Hp (s + i) ltac:(lia) Ei) as Hdir. pose proof (pp_len _ Hp).
    destruct (Nat.leb_spec PATH_MAX (s + i)); [lia|].
    assert (exists l w1, (if fst (mg_stat (take (s + i) path)) then mret true
      else if os_mkdir (take (s + i) path) then _ ← emit (FxMkdir (take (s + i) path)); mret true
      else mret false) w = Some (true, w1) /\ made_dirs w w1 l) as (l & w1 & E1 & Hmd).
    { unfold dir_ok in Hdir. destruct (fst (mg_stat _)); [|simpl in Hdir; rewrite Hdir].
      - exists [], w. split; [done|]. constructor; try done. by rewrite app_nil_r.
      - unfold mbind, M_bind, emit, mret, M_ret. exists [take (s + i) path]. eexists.
        split; [reflexivity|]. by constructor. }
    unfold mbind, M_bind in E1 |- *. rewrite E1. cbn [negb].
    assert ((at_ path (S (s + i)) =? 0) = false) as ->.
    { apply Z.eqb_neq. unfold at_. destruct (path !! S (s + i)) as [c|] eqn:Ec; simpl.
      - pose proof (pp_cstr _ Hp) as Hcs. rewrite Forall_forall in Hcs.
        assert (is_char c) as Hc by (apply Hcs; eapply list_elem_of_lookup_2; exact Ec).
        unfold is_char in Hc. lia.
      - exfalso. apply (pp_last _ Hp). rewrite last_lookup. apply lookup_ge_None in Ec.
        replace (pred (length path)) with (s + i)%nat by lia. done. }
    destruct (IH (S (s + i)) w1) as (l2 & w2 & -> & Hmd2); [lia|lia|].
    exists (l ++ l2), w2. split; [done|]. destruct Hmd as [A1 A2 A3 A4 A5 A6 A7], Hmd2 as [B1 B2 B3 B4 B5 B6 B7].
    constructor; try congruence. by rewrite B1, A1, map_app, app_assoc.
Qed.

(** What the Content-Range header makes of the file and the status. *)
Definition range_seek (c : conn) (path : bytes) : list effect * bool :=
  match header_of c (B "Content-Range") with
  | Some range =>
      let '(n, r1, _) := parse_range_header range in
      if 0 <? n then (if 0 <=? r1 then [FxSeek path r1] else [], true) else ([], false)
  | None => ([], false)
  end.

Definition put_status `{OS} (c : conn) (path : bytes) : Z :=
  if snd (range_seek c path) then 206 else if fst (mg_stat path) then 200 else 201.

Lemma put_seek_spec path w :
  exists w', put_seek path w = Some (tt, w') /\
    cn w' = (if snd (range_seek (cn w) path) then set_status 206 (cn w) else cn w) /\
    rx w' = rx w /\ tx w' = tx w /\ sent w' = sent w /\ stops w' = stops w /\
    fx w' = fx w ++ fst (range_seek (cn w) path).
Proof.
  unfold put_seek, range_seek, mbind, M_bind, get_conn, modify, emit, mret, M_ret.
  destruct (header_of (cn w) (B "Content-Range")) as [range|];
    [destruct (parse_range_header range) as [[n r1] r2]; destruct (0 <? n); [destruct (0 <=? r1)|]|];
    eexists; (split; [reflexivity|]); cbn [fst snd set_cn cn rx tx sent stops fx]; by rewrite ?app_nil_r.
Qed.


Definition put_conn : conn :=
  Conn (RequestInfo (Some (B "PUT")) (Some (B "/d/a")) (Some (B "1.1")) None None 0 0 false
          [(B "Content-Length", B "5")])
    (replicate 40 None) inhabitant 0 0 5 0 (B "HDRab" ++ [0; 0]) None false 3 5 0 0 0 0.

