(* ===== verification/Upload.v ===== *)
(** * Uploads of forms with files

    [mg_upload] of src/mongoose.c: the files of a [multipart/form-data] body are stored
    in a directory.  The buffer of [MG_BUF_LEN] bytes is the list of the bytes in use.
    No [upload] callback is set. *)

From S2P Require Import Prelude CString Options SocketQueue HttpRequest Scanf Conn Os Files Put.

Section upload.
Context `{OS}.

(** ** The boundary and the names *)

(** What [sscanf] stores in an array that held [old]. *)
Definition stored_str (old : bytes) (vs : list scanned) : bytes :=
  match vs with [SStr s] => s | _ => old end.

(** The boundary from the Content-Type header; [uninit] is what the array holds before.
    [sscanf] returns -1, not 0, when the header ends too early. *)
Definition upload_boundary (uninit : bytes) (content_type : option bytes) : option bytes :=
  content_type_header ← content_type;
  i ← mg_strcasestr content_type_header (B "boundary=");
  let boundary_start := drop i content_type_header in
  let '(n1, v1) := sscanf boundary_start
                     (lits (B "boundary=" ++ [c_dquote]) ++ [Pnot (Some 99%nat) [c_dquote] true; Lit c_dquote]) in
  let '(n2, v2) := sscanf boundary_start (lits (B "boundary=") ++ [Ps (Some 99%nat) true]) in
  boundary ← (if n1 =? 0 then if n2 =? 0 then None else Some (stored_str uninit v2)
              else Some (stored_str uninit v1));
  if chr boundary =? 0 then None else Some boundary.

(** The file name, if this line of the headers has one. *)
Definition line_fname (fname line : bytes) : bytes :=
  stored_str fname (snd (sscanf (until_nul line)
    (lits (B "Content-Disposition:") ++ [Ws; Ps None false; Ws; Ps None false; Ws]
     ++ lits (B "filename=" ++ [c_dquote]) ++ [Pnot (Some 1023%nat) [c_dquote] true]))).

(** The loop over the headers; [line] is what has been passed of the current line. *)
Fixpoint headers_fname (fname line headers : bytes) : bytes :=
  match headers with
  | [] => fname
  | c :: headers' =>
      match headers' with
      | c1 :: rest =>
          if (c =? c_cr) && (c1 =? c_lf) then headers_fname (line_fname fname line) [] rest
          else headers_fname fname (line ++ [c]) headers'
      | [] => fname
      end
  end.

(** From the last slash on. *)
Definition upload_path (destination_dir fname : bytes) : bytes :=
  let s := match find_last c_slash fname with Some i => drop i fname | None => fname end in
  take (PATH_MAX - 1) (destination_dir ++ B "/" ++ s).

(** ** The data *)

Definition delimiter (boundary : bytes) : bytes := crlf ++ B "--" ++ boundary.

(** The first place of the delimiter, among the first [n] bytes. *)
Fixpoint find_mark (mark : bytes) (n : nat) (b : bytes) : option nat :=
  match n with
  | O => None
  | S n' => if starts_with b mark then Some 0%nat else S <$> find_mark mark n' (drop 1 b)
  end.

(** [fwrite(buf, 1, n, fp)], the result not used *)
Definition fwrite_ (path d : bytes) : M unit := _ ← push_file path d; mret tt.

(** Pull in headers: what the buffer holds at the end.  A round adds a byte. *)
Fixpoint upload_fill (fuel : nat) (b : bytes) : M bytes :=
  match fuel with
  | O => mret b
  | S fuel' =>
      '(n, d) ← mg_read (MG_BUF_LEN - length b);
      if 0 <? n then upload_fill fuel' (b ++ d) else mret b
  end.

(** A bound for the rounds of loops that read from the body. *)
Definition body_rounds : M nat := fun w => Some (S (length (body_stream w)), w).

(** Read data and write it to the file until the boundary is found: the buffer, and
    [eof].  A round that goes on reads a byte. *)
Fixpoint upload_data (fuel : nat) (path boundary b : bytes) : M (bytes * bool) :=
  let bl := (length boundary + 4)%nat in
  match fuel with
  | O => mret (b, false)
  | S fuel' =>
      match find_mark (delimiter boundary) (length b - bl) b with
      | Some i =>
          _ ← fwrite_ path (take i b);
          mret (drop (i + bl) b, true)
      | None =>
          b ← (if (bl <? length b)%nat then
                 _ ← fwrite_ path (take (length b - bl) b);
                 mret (drop (length b - bl) b)
               else mret b);
          '(n, d) ← mg_read (MG_BUF_LEN - length b);
          if 0 <? n then upload_data fuel' path boundary (b ++ d) else mret (b, false)
      end
  end.

(** The loop over the files. *)
Fixpoint upload_loop (fuel : nat) (destination_dir boundary b : bytes) (num_uploaded_files : Z) : M Z :=
  match fuel with
  | O => mret num_uploaded_files
  | S fuel' =>
      _ ← assert_ (length b <=? MG_BUF_LEN)%nat;
      b ← upload_fill (S MG_BUF_LEN) b;
      let headers_len := get_request_len b (length b) in
      if headers_len <=? 0 then mret num_uploaded_files
      else
        let fname := headers_fname [] [] (take (Z.to_nat headers_len) b) in
        if chr fname =? 0 then mret num_uploaded_files
        else
          let b := drop (Z.to_nat headers_len) b in
          let path := upload_path destination_dir fname in
          if negb (os_create path) then mret num_uploaded_files
          else
            _ ← emit (FxCreate path);
            rounds ← body_rounds;
            '(b, eof) ← upload_data rounds path boundary b;
            upload_loop fuel' destination_dir boundary b
              (if (eof : bool) then num_uploaded_files + 1 else num_uploaded_files)
  end.

(** A round of the loop over the files uses up at least the two bytes of a blank line. *)
Definition mg_upload (uninit destination_dir : bytes) : M Z :=
  c ← get_conn;
  match upload_boundary uninit (header_of c (B "Content-Type")) with
  | None => mret 0
  | Some boundary =>
      rounds ← body_rounds;
      upload_loop rounds destination_dir boundary [] 0
  end.
End upload.

(** ** Reading the body *)

(** What is left of the body. *)
Definition unread (w : world) : bytes :=
  take (Z.to_nat (content_len (cn w) - consumed_content (cn w))) (body_stream w).

(** The connection is in order, and the client sends without errors. *)
Definition reading (w : world) : Prop := conn_ok (cn w) /\ rx_clean (rx w) /\ stops w = [].

Lemma unread_le w : (length (unread w) <= length (body_stream w))%nat.
Proof. unfold unread. rewrite length_take. lia. Qed.

Lemma mg_read_unread n w :
  reading w ->
  exists w', mg_read n w = Some ((Z.of_nat (length (take n (unread w))), take n (unread w)), w') /\
    unread w' = drop n (unread w) /\ reading w' /\ fx w' = fx w.
Proof.
  intros (Hok & Hc & Hst). destruct (mg_read_spec n w Hok Hc Hst) as (w' & E & Hb & Hcn & Hc' & Hst' & _ & _ & Hfx).
  unfold unread at 1 2. set (L := Z.to_nat (content_len (cn w) - consumed_content (cn w))) in *.
  rewrite take_take. set (d := take (Nat.min n L) (body_stream w)) in *. exists w'. split; [exact E|].
  split; [|split; [|done]].
  - unfold unread. rewrite Hcn, Hb. cbn [add_consumed content_len consumed_content]. fold L.
    rewrite <- (drop_length_take n (take L _)), take_take. fold d. rewrite take_drop_commute. f_equal.
    f_equal. assert (length d <= L)%nat by (unfold d; rewrite length_take; lia). lia.
  - split; [|done]. destruct Hok as (Hr & Hd & Hco). rewrite Hcn. unfold conn_ok. simpl. lia.
Qed.

Lemma upload_fill_spec b w :
  reading w -> (length b <= MG_BUF_LEN)%nat ->
  exists w', upload_fill (S MG_BUF_LEN) b w = Some (take MG_BUF_LEN (b ++ unread w), w') /\
    unread w' = drop (MG_BUF_LEN - length b) (unread w) /\ reading w' /\ fx w' = fx w.
Proof.
  intros Hr Hb. rewrite take_app_ge by done. set (k := (MG_BUF_LEN - length b)%nat).
  assert (exists fuel, MG_BUF_LEN = S fuel) as (fuel & Ef) by (exists (Z.to_nat 8191); unfold MG_BUF_LEN; lia).
  replace (upload_fill (S MG_BUF_LEN)) with (upload_fill (S (S fuel))) by (by rewrite Ef). cbn [upload_fill].
  fold k. unfold mbind at 1, M_bind at 1. destruct (mg_read_unread k w Hr) as (w1 & -> & Hu1 & Hr1 & Hf1).
  destruct (Z.ltb_spec 0 (Z.of_nat (length (take k (unread w))))) as [Hpos|Hz].
  2: { exists w1. assert (take k (unread w) = []) as -> by (apply nil_length_inv; lia). by rewrite app_nil_r. }
  set (k' := (MG_BUF_LEN - _)%nat). unfold mbind, M_bind.
  destruct (mg_read_unread k' w1 Hr1) as (w2 & -> & Hu2 & Hr2 & Hf2). rewrite Hu1.
  assert (take k' (drop k (unread w)) = []) as ->.
  { apply nil_length_inv. rewrite length_take, length_drop. unfold k'. rewrite length_app, length_take. lia. }
  exists w2. split; [done|]. rewrite Hu2, Hu1, Hf2, Hf1, drop_drop. split; [|done].
  destruct (Nat.le_gt_cases (length (unread w)) k).
  - by rewrite !drop_ge by lia.
  - f_equal. unfold k'. rewrite length_app, length_take. lia.
Qed.

(** ** The buffer is never overrun

    This holds in every state of the connection and whatever the network does. *)

Lemma pull_fits n w : exists k d w', pull n w = Some ((k, d), w') /\ (length d <= n)%nat /\ (0 < k -> k = Z.of_nat (length d)).
Proof.
  unfold pull, recv, stop_requested, mbind, M_bind, mret, M_ret.
  destruct (rx w) as [|[d|] rx']; cbn [stops snd set_rx]; destruct (default false _);
    (eexists _, _, _; split; [reflexivity|]); rewrite ?length_take; simpl; lia.
Qed.

Lemma pull_all_fits n len acc w :
  exists k d w', pull_all_loop n len acc w = Some ((k, acc ++ d), w') /\ (length d <= len)%nat.
Proof.
  revert len acc w. induction n as [|n IH]; intros len acc w; cbn [pull_all_loop].
  { exists (Z.of_nat (length acc)), [], w. rewrite app_nil_r. split; [done|simpl; lia]. }
  assert (exists k d w', (mret (Z.of_nat (length acc), acc) : M (Z * bytes)) w = Some ((k, acc ++ d), w') /\ (length d <= len)%nat) as Hacc.
  { exists (Z.of_nat (length acc)), [], w. rewrite app_nil_r. split; [done|simpl; lia]. }
  destruct (0 <? len)%nat; [|done]. unfold mbind, M_bind.
  destruct (pull_fits len w) as (k & d & w1 & -> & Hd & Hk).
  destruct (Z.ltb_spec k 0); [by eexists _, d, _|]. destruct (Z.eqb_spec k 0).
  { exists (Z.of_nat (length acc)), [], w1. rewrite app_nil_r. split; [done|simpl; lia]. }
  unfold modify. destruct (IH (len - Z.to_nat k)%nat (acc ++ d) (set_cn (add_consumed k (cn w1)) w1))
    as (k' & d' & w' & -> & Hd').
  exists k', (d ++ d'), w'. rewrite app_assoc. split; [done|]. rewrite length_app. lia.
Qed.

Lemma mg_read_fits n w : exists k d w', mg_read n w = Some ((k, d), w') /\ (length d <= n)%nat.
Proof.
  unfold mg_read, mbind, M_bind, get_conn, modify, mret, M_ret, pull_all.
  destruct (_ <? content_len _); [|exists 0, [], w; split; [done|simpl; lia]]. set (m := if _ <? Z.of_nat n then Z.to_nat _ else n).
  assert (m <= n)%nat as Hm by (unfold m; destruct (Z.ltb_spec (content_len (cn w) - consumed_content (cn w)) (Z.of_nat n)); lia).
  destruct (0 <? _) eqn:Eb.
  - set (k := if Z.of_nat m <? _ then _ else _). apply Z.ltb_lt in Eb.
    assert (Z.to_nat k <= m)%nat as Hk by (unfold k; case_match; [lia|]; apply Z.ltb_ge in H; lia).
    destruct (pull_all_fits (m - Z.to_nat k) (m - Z.to_nat k) [] (set_cn (add_consumed k (cn w)) w))
      as (k' & d & w' & -> & Hd). eexists _, _, _. split; [reflexivity|]. rewrite length_app, length_take. simpl. lia.
  - destruct (pull_all_fits m m [] w) as (k' & d & w' & -> & Hd). eexists _, _, _. split; [reflexivity|simpl; lia].
Qed.

Lemma upload_fill_fits fuel b w :
  (length b <= MG_BUF_LEN)%nat -> exists b' w', upload_fill fuel b w = Some (b', w') /\ (length b' <= MG_BUF_LEN)%nat.
Proof.
  revert b w. induction fuel as [|fuel IH]; intros b w Hb; cbn [upload_fill]; [by exists b, w|].
  unfold mbind, M_bind. destruct (mg_read_fits (MG_BUF_LEN - length b) w) as (k & d & w1 & -> & Hd).
  destruct (0 <? k); [|by exists b, w1]. apply IH. rewrite length_app. lia.
Qed.

Section fits.
Context `{OS}.

Lemma total_fwrite path d : total (fwrite_ path d).
Proof. unfold fwrite_, push_file. solve_total. Qed.

Lemma upload_data_fits fuel path boundary b w :
  (length b <= MG_BUF_LEN)%nat ->
  exists b' eof w', upload_data fuel path boundary b w = Some ((b', eof), w') /\ (length b' <= MG_BUF_LEN)%nat.
Proof.
  revert b w. induction fuel as [|fuel IH]; intros b w Hb; cbn [upload_data]; [by exists b, false, w|].
  set (bl := (length boundary + 4)%nat). destruct (find_mark _ _ b) as [i|].
  - unfold mbind, M_bind. destruct (total_fwrite path (take i b) w) as (u & w1 & ->).
    eexists _, _, _. split; [reflexivity|]. rewrite length_drop. lia.
  - assert (exists b1 w1, (if (bl <? length b)%nat then _ ← fwrite_ path (take (length b - bl) b);
        mret (drop (length b - bl) b) else mret b) w = Some (b1, w1) /\ (length b1 <= MG_BUF_LEN)%nat)
      as (b1 & w1 & E1 & Hb1).
    { destruct (bl <? length b)%nat; [|by exists b, w]. unfold mbind, M_bind.
      destruct (total_fwrite path (take (length b - bl) b) w) as (u & w1 & ->).
      eexists _, _. split; [reflexivity|]. rewrite length_drop. lia. }
    unfold mbind at 1, M_bind at 1. rewrite E1. unfold mbind, M_bind.
    destruct (mg_read_fits (MG_BUF_LEN - length b1) w1) as (k & d & w2 & -> & Hd).
    destruct (0 <? k); [|by exists b1, false, w2]. apply IH. rewrite length_app. lia.
Qed.

(** None of the assertions of [mg_upload] fails. *)
Lemma total_mg_upload uninit dir : total (mg_upload uninit dir).
Proof.
  unfold mg_upload. apply total_bind; [apply total_get_conn|]. intros c.
  destruct (upload_boundary uninit _) as [boundary|]; [|apply total_ret].
  apply total_bind; [by intros w; eexists _, _|]. intros fuel w.
  assert (length (A:=Z) [] <= MG_BUF_LEN)%nat as Hb by (cbn [length]; lia). revert Hb w. generalize 0, (@nil Z).
  induction fuel as [|fuel IH]; intros n b Hb w; cbn [upload_loop]; [apply total_ret|].
  unfold mbind at 1, M_bind at 1. rewrite (proj2 (Nat.leb_le _ _) Hb). cbn [assert_]. unfold mret at 1, M_ret at 1.
  unfold mbind at 1, M_bind at 1. destruct (upload_fill_fits (S MG_BUF_LEN) b w Hb) as (b1 & w1 & -> & Hb1).
  destruct (_ <=? 0); [apply total_ret|]. destruct (_ =? 0); [apply total_ret|].
  destruct (negb _); [apply total_ret|]. unfold mbind at 1, M_bind at 1, emit at 1.
  unfold mbind at 1, M_bind at 1, body_rounds. unfold mbind at 1, M_bind at 1.
  set (w2 := World _ _ _ _ _ _ _ _). set (b2 := drop _ b1). set (path := upload_path _ _).
  destruct (upload_data_fits (S (length (body_stream w2))) path boundary b2 w2) as (b3 & eof & w3 & -> & Hb3).
  { unfold b2. rewrite length_drop. lia. }
  by apply IH.
Qed.
End fits.

(** ** Finding the delimiter *)

Lemma find_mark_spec mark n b :
  match find_mark mark n b with
  | Some i => (i < n)%nat /\ starts_with (drop i b) mark = true /\
      forall j, (j < i)%nat -> starts_with (drop j b) mark = false
  | None => forall j, (j < n)%nat -> starts_with (drop j b) mark = false
  end.
Proof.
  revert b. induction n as [|n IH]; intros b; cbn [find_mark]; [intros j Hj; lia|].
  destruct (starts_with b mark) eqn:E.
  - split_and!; [lia|done|lia].
  - specialize (IH (drop 1 b)). destruct (find_mark mark n (drop 1 b)) as [i|]; simpl.
    + destruct IH as (Hi & Ht & Hm). rewrite drop_drop in Ht. split_and!; [lia|done|].
      intros [|j] Hj; [done|]. specialize (Hm j ltac:(lia)). by rewrite drop_drop in Hm.
    + intros [|j] Hj; [done|]. specialize (IH j ltac:(lia)). by rewrite drop_drop in IH.
Qed.

Lemma delimiter_length boundary : length (delimiter boundary) = (length boundary + 4)%nat.
Proof. unfold delimiter. rewrite !length_app. simpl. lia. Qed.

(** The delimiter is not in the data, nor does it start there. *)
Definition no_mark (mark data : bytes) : Prop :=
  forall i, (i < length data)%nat -> starts_with (drop i (data ++ mark)) mark = false.

(** Where the buffer [b], in front of [u], has the delimiter that ends the data. *)
Lemma find_mark_end mark data tail b u :
  b ++ u = data ++ mark ++ tail -> no_mark mark data ->
  match find_mark mark (length b - length mark) b with
  | Some i => i = length data /\ (length data + length mark < length b)%nat
  | None => (length b <= length data + length mark)%nat
  end.
Proof.
  intros Hb Hn.
  assert (forall i, (i + length mark <= length b)%nat ->
    starts_with (drop i b) mark = starts_with (drop i (data ++ mark ++ tail)) mark) as Hsame.
  { intros i Hi. rewrite <- Hb, drop_app_le by lia. rewrite starts_with_app; [done|]. rewrite length_drop. lia. }
  assert (starts_with (drop (length data) (data ++ mark ++ tail)) mark = true) as Hend.
  { rewrite drop_app_length. apply starts_with_true. by exists tail. }
  pose proof (find_mark_spec mark (length b - length mark) b) as Hf.
  destruct (find_mark mark _ b) as [i|].
  - destruct Hf as (Hi & Ht & Hm). rewrite Hsame in Ht by lia.
    destruct (lt_eq_lt_dec i (length data)) as [[Hlt|Heq]|Hgt]; [|split; [done|lia]|].
    + rewrite app_assoc, drop_app_le, starts_with_app in Ht by (rewrite ?length_drop, length_app; lia).
      by rewrite Hn in Ht by done.
    + specialize (Hm _ Hgt). by rewrite Hsame, Hend in Hm by lia.
  - destruct (Nat.le_gt_cases (length b) (length data + length mark)); [done|].
    specialize (Hf (length data) ltac:(lia)). by rewrite Hsame, Hend in Hf by lia.
Qed.

Lemma no_mark_drop mark data k : no_mark mark data -> (k <= length data)%nat -> no_mark mark (drop k data).
Proof.
  intros Hn Hk i Hi. rewrite length_drop in Hi. rewrite <- drop_app_le, drop_drop by done. apply Hn. lia.
Qed.

(** ** Storing the data *)

(** [w'] is [w] after [d] has been written to [path]. *)
Record stored (path : bytes) (w w' : world) (d : bytes) : Prop := {
  st_unread : unread w' = unread w;
  st_reading : reading w -> reading w';
  st_fx : exists l, fx w' = fx w ++ l /\ writes path l = Some d
}.

Section store.
Context `{OS} (path boundary : bytes).
Hypothesis Hwritable : os_writable path = true.

Lemma fwrite_spec d w : exists w', fwrite_ path d w = Some (tt, w') /\ stored path w w' d.
Proof.
  unfold fwrite_, mbind, M_bind. destruct (decide (d = [])) as [->|Hd].
  - exists w. split; [done|]. constructor; try done. exists []. by rewrite app_nil_r.
  - destruct (push_file_spec path Hwritable d w Hd) as (w' & -> & H1 & H2 & H3 & _ & _ & _ & H7).
    exists w'. split; [done|]. constructor.
    + unfold unread, body_stream. by rewrite H1, H2.
    + unfold reading. by rewrite H1, H2, H3.
    + exists [FxWrite path d]. split; [done|]. cbn [writes write_of]. rewrite streq_refl. simpl. by rewrite app_nil_r.
Qed.

Lemma upload_data_spec fuel data tail b w :
  reading w -> (length b <= MG_BUF_LEN)%nat -> (length (delimiter boundary) < MG_BUF_LEN)%nat ->
  b ++ unread w = data ++ delimiter boundary ++ tail -> tail <> [] -> no_mark (delimiter boundary) data ->
  (length (unread w) < fuel)%nat ->
  exists b' w' l, upload_data fuel path boundary b w = Some ((b', true), w') /\
    b' ++ unread w' = tail /\ (length b' <= MG_BUF_LEN)%nat /\ reading w' /\
    fx w' = fx w ++ l /\ writes path l = Some data.
Proof.
  revert data b w. induction fuel as [|fuel IH]; intros data b w Hr Hb Hbl Heq Htail Hn Hf; [lia|].
  cbn [upload_data]. rewrite <- delimiter_length. set (mark := delimiter boundary) in *.
  pose proof (find_mark_end _ _ _ _ _ Heq Hn) as Hm.
  pose proof (f_equal length Heq) as Hlen. rewrite !length_app in Hlen.
  assert (0 < length tail)%nat as Htl by (destruct tail; [done|simpl; lia]).
  destruct (find_mark mark _ b) as [i|].
  - destruct Hm as [-> Hlt]. unfold mbind, M_bind.
    destruct (fwrite_spec (take (length data) b) w) as (w' & -> & [Hu Hr' (l & Hfx & Hw)]).
    exists (drop (length data + length mark) b), w', l. split_and!; [done| |rewrite length_drop; lia|by apply Hr'|done|].
    + rewrite Hu, <- drop_app_le by lia. rewrite Heq, app_assoc, <- length_app. apply drop_app_length.
    + rewrite Hw. f_equal. rewrite <- (take_app_le b (unread w)) by lia. rewrite Heq. apply take_app_length.
  - set (k := (length b - length mark)%nat).
    assert (exists w1, (if (length mark <? length b)%nat then _ ← fwrite_ path (take k b); mret (drop k b) else mret b) w
      = Some (drop k b, w1) /\ stored path w w1 (take k b)) as (w1 & E1 & [Hu1 Hr1 (l1 & Hfx1 & Hw1)]).
    { destruct (Nat.ltb_spec (length mark) (length b)).
      - unfold mbind, M_bind. destruct (fwrite_spec (take k b) w) as (w1 & -> & Hst). by exists w1.
      - assert (k = 0)%nat as -> by lia. exists w. split; [done|]. constructor; try done.
        exists []. by rewrite app_nil_r. }
    unfold mbind at 1, M_bind at 1. rewrite E1. set (room := (MG_BUF_LEN - _)%nat).
    assert (0 < room)%nat as Hroom by (unfold room; rewrite length_drop; lia).
    unfold mbind at 1, M_bind at 1. destruct (mg_read_unread room w1 (Hr1 Hr)) as (w2 & -> & Hu2 & Hr2 & Hfx2).
    rewrite Hu1 in *. destruct (Z.ltb_spec 0 (Z.of_nat (length (take room (unread w))))) as [Hpos|Hz];
      [|rewrite length_take in Hz; lia].
    destruct (IH (drop k data) (drop k b ++ take room (unread w)) w2) as (b' & w' & l & E & Hb' & Hl' & Hr' & Hfx & Hw);
      [done| |done| |done|by apply no_mark_drop; [|lia]| |].
    + rewrite length_app, length_take. lia.
    + rewrite Hu2, <- app_assoc, take_drop. rewrite <- (drop_app_le b) by lia. rewrite Heq.
      by rewrite drop_app_le by lia.
    + rewrite Hu2, length_drop. rewrite length_take in Hpos. lia.
    + exists b', w', (l1 ++ l). split_and!; try done.
      * by rewrite Hfx, Hfx2, Hfx1, app_assoc.
      * replace (Some data) with (Some (take k b ++ drop k data)); [by apply writes_app|].
        f_equal. rewrite <- (take_app_le b (unread w)) by lia. rewrite Heq, take_app_le by lia. apply take_drop.
Qed.
End store.

(** ** Forms *)

(** A file in a form: the field, the name of the file, further headers, the contents. *)
Record part := Part { p_field : bytes; p_file : bytes; p_headers : list (bytes * bytes); p_data : bytes }.

Definition disposition (p : part) : bytes :=
  B "form-data;" ++ B " " ++ (B "name=" ++ [c_dquote] ++ p_field p ++ [c_dquote] ++ B ";") ++ B " "
  ++ (B "filename=" ++ [c_dquote]) ++ p_file p ++ [c_dquote].

Definition part_headers (p : part) : list (bytes * bytes) :=
  (B "Content-Disposition", disposition p) :: p_headers p.

Definition part_text (boundary : bytes) (p : part) : bytes :=
  crlf ++ headers_text (part_headers p) ++ crlf ++ p_data p ++ delimiter boundary.

(** The parts behind a delimiter. *)
Fixpoint parts_text (boundary : bytes) (parts : list part) : bytes :=
  match parts with
  | [] => B "--" ++ crlf
  | p :: parts' => part_text boundary p ++ parts_text boundary parts'
  end.

Definition form_text (boundary : bytes) (parts : list part) : bytes :=
  B "--" ++ boundary ++ parts_text boundary parts.

(** Every file is created and gets its contents, in order, and nothing else is done. *)
Fixpoint uploaded (dir : bytes) (parts : list part) (l : list effect) : Prop :=
  match parts with
  | [] => l = []
  | p :: parts' =>
      let path := upload_path dir (p_file p) in
      exists l1 l2, l = FxCreate path :: l1 ++ l2 /\ writes path l1 = Some (p_data p) /\ uploaded dir parts' l2
  end.

Definition boundary_ok (boundary : bytes) : Prop :=
  boundary <> [] /\ (length boundary <= 99)%nat /\ Forall word_byte boundary /\ chr boundary <> c_dquote.

(** A part that the server understands: the names are in one line, the name of the field
    has no blanks, the headers fit the buffer and the delimiter is not in the data. *)
Definition part_ok (boundary : bytes) (p : part) : Prop :=
  Forall word_byte (p_field p) /\ p_file p <> [] /\ Forall text_byte (p_file p) /\ (c_dquote ∉ p_file p) /\
  (length (p_file p) <= 1023)%nat /\ Forall header_ok (p_headers p) /\
  Forall (fun h => fst h <> B "Content-Disposition") (p_headers p) /\
  (length (headers_text (part_headers p)) + length boundary + 6 <= MG_BUF_LEN)%nat /\
  no_mark (delimiter boundary) (p_data p).

Definition storable `{OS} (dir : bytes) (p : part) : Prop :=
  os_create (upload_path dir (p_file p)) = true /\ os_writable (upload_path dir (p_file p)) = true.

(** ** The headers of a part *)

Lemma headers_fname_line fname line w rest :
  Forall text_byte w ->
  headers_fname fname line (w ++ crlf ++ rest) = headers_fname (line_fname fname (line ++ w)) [] rest.
Proof.
  intros Hw. revert line. induction Hw as [|c w (_ & _ & Hcr & _) _ IH]; intros line.
  - by rewrite app_nil_r.
  - assert (exists x t, w ++ crlf ++ rest = x :: t) as (x & t & E) by (destruct w; by eexists _, _).
    cbn [app]. cbn [headers_fname]. rewrite E at 1. apply Z.eqb_neq in Hcr. rewrite Hcr. cbn [andb].
    rewrite IH, <- app_assoc. done.
Qed.

(** Lines that start differently do not name a file. *)
Lemma line_fname_other fname line :
  cstr line -> starts_with line (B "Content-Disposition:") = false -> line_fname fname line = fname.
Proof.
  intros Hc Hs. unfold line_fname, sscanf. rewrite until_nul_id by done. by rewrite scan_lits_other.
Qed.

(** A word that is skipped, between blanks. *)
Lemma scan_skip_word total fmt w rest done :
  w <> [] -> Forall (fun c => isspace c = false) w ->
  scan total (Ws :: Ps None false :: fmt) (B " " ++ w ++ B " " ++ rest) done = scan total fmt (B " " ++ rest) done.
Proof.
  intros Hne Hw. rewrite scan_Ws.
  assert (skip_ws (B " " ++ w ++ B " " ++ rest) = w ++ B " " ++ rest) as ->.
  { change (skip_ws (B " " ++ ?x)) with (skip_ws x). apply skip_ws_chr.
    destruct w as [|c w]; [done|]. by apply Forall_cons in Hw as [Hc _]. }
  rewrite scan_Ps; [done|done|done|]. by intros c [= <-].
Qed.

Lemma line_fname_disposition boundary fname p :
  part_ok boundary p -> line_fname fname (B "Content-Disposition: " ++ disposition p) = p_file p.
Proof.
  intros (Hfi & Hne & Ht & Hq & Hl & _). unfold line_fname, sscanf.
  assert (Forall text_byte (B "Content-Disposition: " ++ disposition p)) as Hline.
  { unfold disposition. rewrite !Forall_app. split_and!; auto using word_text; by_decide. }
  rewrite until_nul_id by (by apply text_cstr). generalize (length (B "Content-Disposition: " ++ disposition p)).
  intros total. change (B "Content-Disposition: ") with (B "Content-Disposition:" ++ B " ").
  rewrite <- app_assoc, scan_lits. unfold disposition. cbn [app].
  rewrite (scan_skip_word _ _ (B "form-data;")) by (done || by_decide).
  rewrite (scan_skip_word _ _ (B "name=" ++ _)).
  - rewrite scan_Ws. change (skip_ws (B " " ++ ?x)) with x. rewrite scan_lits.
    rewrite scan_Pnot_max; [done|done|done| |by intros c [= <-]].
    rewrite Forall_forall. intros c Hc. apply mem_false. by intros ->%list_elem_of_singleton.
  - done.
  - repeat (rewrite Forall_app || rewrite Forall_cons). split_and!; try by_decide. eapply Forall_impl; [exact Hfi|]. apply word_no_isspace.
Qed.

(** A header with another name. *)
Lemma line_fname_header fname name value :
  header_ok (name, value) -> name <> B "Content-Disposition" ->
  line_fname fname (name ++ B ": " ++ value) = fname.
Proof.
  intros (Hn & _ & Hc & Hv & _) Hne. apply line_fname_other.
  - rewrite !cstr_app. split_and!; auto using text_cstr. by_decide.
  - apply not_true_iff_false. rewrite starts_with_true. intros (r & E). apply Hne.
    assert (length name = length (B "Content-Disposition")) as Hlen.
    { apply (f_equal (find_byte c_colon)) in E. change (B ": " ++ value) with (c_colon :: c_space :: value) in E.
      rewrite find_byte_app in E by done.
      change (B "Content-Disposition:" ++ r) with (B "Content-Disposition" ++ c_colon :: r) in E.
      rewrite find_byte_app in E by by_decide. by injection E. }
    apply (f_equal (take (length name))) in E. rewrite take_app_length in E. rewrite E, Hlen. done.
Qed.

Lemma headers_text_cons name value hs :
  headers_text ((name, value) :: hs) = (name ++ B ": " ++ value) ++ crlf ++ headers_text hs.
Proof. unfold headers_text, header_text. cbn [map concat fst snd]. by rewrite <- !app_assoc. Qed.

Lemma headers_fname_headers fname hs rest :
  Forall header_ok hs -> Forall (fun h => fst h <> B "Content-Disposition") hs ->
  headers_fname fname [] (headers_text hs ++ rest) = headers_fname fname [] rest.
Proof.
  intros Hok. induction Hok as [|[name value] hs Hh Hhs IH]; intros Hne; [done|].
  apply Forall_cons in Hne as [Hn Hne].
  rewrite headers_text_cons, <- app_assoc, <- (app_assoc crlf), headers_fname_line.
  - cbn [app]. rewrite line_fname_header by done. by apply IH.
  - destruct Hh as (Ht & _ & _ & Hv & _). rewrite !Forall_app. split_and!; [done|by_decide|done].
Qed.

Lemma part_fname boundary pre p :
  part_ok boundary p -> Forall text_byte pre -> chr pre <> 67 ->
  headers_fname [] [] (pre ++ crlf ++ headers_text (part_headers p) ++ crlf) = p_file p.
Proof.
  intros Hp Hpre Hc. pose proof (line_fname_disposition _ [] _ Hp) as Hd. pose proof Hp as (Hfi & _ & Ht & _ & _ & Hh & Hne & _).
  rewrite headers_fname_line by done. rewrite line_fname_other; [|by apply text_cstr|by apply starts_with_chr].
  unfold part_headers. rewrite headers_text_cons, <- app_assoc, <- (app_assoc crlf), headers_fname_line.
  - rewrite app_nil_l. change (B "Content-Disposition" ++ B ": " ++ ?x) with (B "Content-Disposition: " ++ x).
    rewrite Hd, headers_fname_headers by done. change crlf with ([] ++ crlf ++ []).
    rewrite headers_fname_line by constructor. by rewrite line_fname_other.
  - unfold disposition. rewrite !Forall_app. split_and!; auto using word_text; by_decide.
Qed.

(** ** The whole form *)

Lemma upload_boundary_plain uninit boundary :
  boundary_ok boundary ->
  upload_boundary uninit (Some (B "multipart/form-data; boundary=" ++ boundary)) = Some boundary.
Proof.
  intros (Hne & Hl & Hw & Hq). pose proof (word_text _ Hw) as Ht.
  assert (mg_strcasestr (B "multipart/form-data; boundary=" ++ boundary) (B "boundary=") = Some 21%nat) as E.
  { set (big := _ ++ boundary).
    assert (cstr big /\ cstr (B "boundary=")) as [Hb Hs]
      by (unfold big; rewrite cstr_app; split_and!; [by_decide|by apply text_cstr|by_decide]).
    assert (occurs_at big (B "boundary=") 21) as H21 by (split; [unfold big; rewrite length_app; simpl; lia|done]).
    destruct (mg_strcasestr big (B "boundary=")) as [i|] eqn:E.
    - apply mg_strcasestr_Some in E as [[_ Ho] Hmin]; [|done|done]. f_equal.
      destruct (lt_eq_lt_dec i 21) as [[Hlt|]|Hgt]; [|done|by destruct (Hmin _ Hgt)].
      exfalso. do 21 (destruct i as [|i]; [done|]). lia.
    - rewrite mg_strcasestr_None in E by done. by destruct (E 21%nat). }
  unfold upload_boundary. cbn [mbind option_bind]. rewrite E. cbn [mbind option_bind].
  change (drop 21 _) with (B "boundary=" ++ boundary). unfold sscanf.
  generalize (length (B "boundary=" ++ boundary)). intros total.
  assert (lits (B "boundary=" ++ [c_dquote]) = lits (B "boundary=") ++ [Lit c_dquote]) as -> by done.
  rewrite <- app_assoc, scan_lits, scan_lits. cbn [app].
  assert (scan total [Ps (Some 99%nat) true] boundary 0 = (1, [SStr boundary])) as ->.
  { rewrite <- (app_nil_r boundary) at 1.
    apply scan_Ps_max; [done|done|by eapply Forall_impl; [exact Hw|apply word_no_isspace]|done]. }
  destruct boundary as [|c boundary]; [done|]. change (chr (c :: boundary)) with c in *. apply Z.eqb_neq in Hq.
  cbn [scan]. rewrite Hq. cbn. apply Forall_cons in Ht as [(Hc & _) _]. unfold is_char in Hc.
  change (chr (c :: boundary)) with c. by rewrite (proj2 (Z.eqb_neq c 0)) by lia.
Qed.

(** The headers of a part are found complete in the buffer. *)
Lemma part_request_len boundary pre p s :
  part_ok boundary p -> Forall text_byte pre ->
  let head := pre ++ crlf ++ headers_text (part_headers p) ++ crlf in
  get_request_len (head ++ s) (length (head ++ s)) = Z.of_nat (length head).
Proof.
  intros (Hfi & _ & Ht & _ & _ & Hh & _) Hpre head. unfold get_request_len, head. rewrite take_ge by done.
  rewrite <- !app_assoc. rewrite headers_scan; [done|done|]. constructor.
  - split_and!; [by_decide|done|]. unfold disposition. rewrite !Forall_app.
    split_and!; auto using word_text; by_decide.
  - eapply Forall_impl; [exact Hh|]. intros [name value] (? & ? & _ & ? & _). done.
Qed.

Lemma upload_fill_head head rest b w :
  reading w -> (length b <= MG_BUF_LEN)%nat -> (length head <= MG_BUF_LEN)%nat -> b ++ unread w = head ++ rest ->
  exists b1 w1, upload_fill (S MG_BUF_LEN) b w = Some (head ++ b1, w1) /\ b1 ++ unread w1 = rest /\
    (length b1 <= MG_BUF_LEN)%nat /\ reading w1 /\ fx w1 = fx w.
Proof.
  intros Hr Hb Hh Heq. destruct (upload_fill_spec b w Hr Hb) as (w1 & E & Hu & Hr1 & Hf1).
  exists (take (MG_BUF_LEN - length head) rest), w1. rewrite E, Heq, take_app_ge by done. split_and!; try done.
  - apply (app_inv_head head). rewrite app_assoc, <- take_app_ge, <- Heq by done.
    by rewrite Hu, take_app_ge, <- app_assoc, take_drop by done.
  - rewrite length_take. lia.
Qed.

Lemma part_head_length boundary pre p :
  part_ok boundary p -> (length pre <= length boundary + 2)%nat ->
  (0 < length (pre ++ crlf ++ headers_text (part_headers p) ++ crlf) <= MG_BUF_LEN)%nat.
Proof.
  intros (_ & _ & _ & _ & _ & _ & _ & Hlen & _) Hpre. rewrite !length_app. change (length crlf) with 2%nat. lia.
Qed.

Lemma text_chr w : w <> [] -> Forall text_byte w -> (chr w =? 0) = false.
Proof.
  intros Hne Hw. destruct w as [|c w]; [done|]. apply Forall_cons in Hw as [(Hc & _) _]. apply Z.eqb_neq.
  change (chr (c :: w)) with c. unfold is_char in Hc. lia.
Qed.

Lemma parts_text_ne boundary parts : parts_text boundary parts <> [].
Proof. by destruct parts. Qed.

Lemma upload_loop_end `{OS} fuel dir boundary pre b n w :
  (length boundary <= 99)%nat -> reading w -> (length b <= MG_BUF_LEN)%nat -> Forall text_byte pre ->
  (length pre <= length boundary + 2)%nat -> b ++ unread w = pre ++ parts_text boundary [] ->
  exists w', upload_loop (S fuel) dir boundary b n w = Some (n, w') /\ fx w' = fx w.
Proof.
  intros Hbd Hr Hb Hpre Hlp Heq. cbn [upload_loop]. unfold mbind at 1, M_bind at 1.
  rewrite (proj2 (Nat.leb_le _ _) Hb). cbn [assert_]. unfold mret at 1, M_ret at 1.
  unfold mbind, M_bind. destruct (upload_fill_spec b w Hr Hb) as (w1 & -> & _ & _ & Hf1).
  exists w1. rewrite Heq, take_ge by (rewrite length_app; unfold MG_BUF_LEN; simpl length; lia).
  unfold get_request_len. rewrite take_ge by lia. cbn [parts_text]. rewrite app_assoc, scan_text; [done| |done].
  rewrite Forall_app. split; [done|by_decide].
Qed.

Lemma upload_loop_spec `{OS} fuel dir boundary parts pre b n w :
  (length boundary <= 99)%nat -> Forall (part_ok boundary) parts -> Forall (storable dir) parts ->
  reading w -> (length b <= MG_BUF_LEN)%nat -> Forall text_byte pre -> chr pre <> 67 ->
  (length pre <= length boundary + 2)%nat -> b ++ unread w = pre ++ parts_text boundary parts ->
  (length parts < fuel)%nat ->
  exists l w', upload_loop fuel dir boundary b n w = Some (n + Z.of_nat (length parts), w') /\
    fx w' = fx w ++ l /\ uploaded dir parts l.
Proof.
  intros Hbd Hps. revert fuel pre b n w.
  induction Hps as [|p parts Hp Hps IH]; intros fuel pre b n w Hst Hr Hb Hpre Hc Hlp Heq Hfuel;
    (destruct fuel as [|fuel]; [simpl in Hfuel; lia|]).
  { destruct (upload_loop_end fuel dir boundary pre b n w) as (w' & E & Hf); try done.
    exists [], w'. rewrite E, app_nil_r. split; [|done]. do 2 f_equal. simpl. lia. }
  apply Forall_cons in Hst as [[Hcr Hwr] Hst]. pose proof Hp as (_ & Hne & Ht & _ & _ & _ & _ & Hlen & Hn).
  set (head := pre ++ crlf ++ headers_text (part_headers p) ++ crlf).
  set (rest := p_data p ++ delimiter boundary ++ parts_text boundary parts).
  assert (b ++ unread w = head ++ rest) as E
    by (rewrite Heq; cbn [parts_text]; unfold part_text, head, rest; by rewrite <- !app_assoc).
  assert (0 < length head <= MG_BUF_LEN)%nat as [Hh1 Hh2] by (by eapply part_head_length).
  pose proof (fun s => part_request_len _ _ _ s Hp Hpre) as Hrl. cbv zeta in Hrl. fold head in Hrl.
  pose proof (part_fname _ _ _ Hp Hpre Hc) as Hfn. fold head in Hfn.
  cbn [upload_loop]. unfold mbind at 1, M_bind at 1.
  rewrite (proj2 (Nat.leb_le _ _) Hb). cbn [assert_]. unfold mret at 1, M_ret at 1.
  unfold mbind at 1, M_bind at 1. destruct (upload_fill_head head rest b w Hr Hb Hh2 E) as (b1 & w1 & -> & E1 & Hb1 & Hr1 & Hf1).
  clearbody head. rewrite Hrl. destruct (Z.leb_spec (Z.of_nat (length head)) 0); [lia|].
  rewrite Nat2Z.id, take_app_length, drop_app_length, Hfn, text_chr by done.
  rewrite Hcr. cbn [negb]. set (path := upload_path dir (p_file p)) in *.
  unfold mbind at 1, M_bind at 1, emit at 1. set (w2 := World _ _ _ _ _ _ _ _).
  unfold mbind at 1, M_bind at 1, body_rounds. unfold mbind at 1, M_bind at 1.
  destruct (upload_data_spec path boundary Hwr (S (length (body_stream w2))) (p_data p) (parts_text boundary parts)
    b1 w2) as (b' & w' & l & -> & Hb' & Hl' & Hr' & Hfx & Hw); try done.
  { rewrite delimiter_length. unfold MG_BUF_LEN. lia. }
  { apply parts_text_ne. }
  { pose proof (unread_le w2). lia. }
  destruct (IH fuel [] b' (n + 1) w') as (l2 & w3 & E3 & Hf3 & Hup); try done.
  { simpl. lia. }
  { simpl in Hfuel. lia. }
  exists (FxCreate path :: l ++ l2), w3. rewrite E3. split_and!.
  - do 2 f_equal. simpl length. lia.
  - rewrite Hf3, Hfx. cbn [w2 fx]. by rewrite Hf1, <- !app_assoc.
  - by exists l, l2.
Qed.


(** ** Examples *)

Definition upload_conn (content_len : Z) : conn :=
  Conn (RequestInfo (Some (B "POST")) (Some (B "/u")) (Some (B "1.1")) None None 0 0 false
          [(B "Content-Type", B "multipart/form-data; boundary=xYz")])
    (replicate 40 None) inhabitant 0 0 content_len 0 (B "HDR--x" ++ [0; 0]) None false 3 6 0 0 0 0.

Definition two_files : bytes :=
  form_text (B "xYz") [Part (B "f") (B "a.txt") [(B "Content-Type", B "text/plain")] (B "hello" ++ crlf ++ B "--xY");
                       Part (B "g") (B "../b") [] []].

Example upload_1 :
  (fun r => (fst r, fx (snd r)))
    <$> @mg_upload (small_os [] []) [] (B "/up")
          (quiet (upload_conn (Z.of_nat (length two_files)))
             [RxData (take 40 (drop 3 two_files)); RxData (drop 43 two_files)])
  = Some (2, [FxCreate (B "/up/a.txt"); FxWrite (B "/up/a.txt") (B "hello" ++ crlf ++ B "--xY");
              FxCreate (B "/up//b")]).
Proof. by_eval. Qed.

(** A header that ends with [boundary=] leaves the boundary uninitialised. *)
Example upload_boundary_1 : upload_boundary (B "junk") (Some (B "x; boundary=")) = Some (B "junk").
Proof. by_eval. Qed.
Example upload_boundary_2 :
  upload_boundary [] (Some (B "x; boundary=" ++ [c_dquote] ++ B "a b" ++ [c_dquote])) = Some (B "a b").
Proof. by_eval. Qed.

(** ** Where the files go *)

Lemma find_last_None c s : find_last c s = None -> c ∉ s.
Proof.
  induction s as [|d s IH]; simpl; [by intros _ ?%elem_of_nil|]. destruct (find_last c s); [done|].
  destruct (Z.eqb_spec d c); [done|]. intros _. rewrite not_elem_of_cons. split; [congruence|by apply IH].
Qed.

Lemma find_last_Some c s i : find_last c s = Some i -> exists t, drop i s = c :: t /\ c ∉ t.
Proof.
  revert i. induction s as [|d s IH]; intros i; simpl; [done|].
  destruct (find_last c s) as [j|] eqn:E.
  - intros [= <-]. by apply IH.
  - destruct (Z.eqb_spec d c) as [->|]; [|done]. intros [= <-]. exists s. split; [done|]. by apply find_last_None.
Qed.

(** The files are entries of the destination directory, whatever names the client gives:
    behind the directory the path has slashes only in front of a name without any. *)
Lemma upload_path_confined dir fname :
  (length (dir ++ B "/" ++ fname) < PATH_MAX)%nat ->
  exists sep base, upload_path dir fname = dir ++ sep ++ base /\ (sep = B "/" \/ sep = B "//") /\ c_slash ∉ base.
Proof.
  intros Hl. rewrite !length_app in Hl. change (length (B "/")) with 1%nat in Hl. unfold upload_path. change (B "/") with [c_slash]. destruct (find_last c_slash fname) as [i|] eqn:E.
  - apply find_last_Some in E as (t & E & Ht). pose proof (f_equal length E) as Hlen. rewrite length_drop in Hlen.
    rewrite take_ge by (rewrite !length_app, length_drop; cbn [length]; lia). exists (B "//"), t.
    rewrite E. split_and!; [done|by right|done].
  - rewrite take_ge by (rewrite !length_app; cbn [length]; lia). exists (B "/"), fname.
    split_and!; [done|by left|by apply find_last_None].
Qed.

