(* ===== verification/Listing.v ===== *)
(** * Directory listings

    [print_dir_entry], [compare_dir_entries], [scan_directory], [dir_scan_callback],
    [handle_directory_request] and the WebDAV listing of [handle_propfind] of
    src/mongoose.c, with [send_options]. *)

From stdpp Require Import sorting.
From S2P Require Import Prelude CString Options UrlCodec SocketQueue HttpRequest Scanf Conn Pattern Os.

(** [struct de]: a name in a directory and what [mg_stat] says of it. *)
Record de := De { de_name : bytes; de_file : file_stat }.

(** [%.1f] of a size divided by [2 ^ k]: the quotient is exact, ties go to the even
    digit. *)
Definition fmt_tenths (size k : Z) : bytes :=
  let q := size * 10 / 2 ^ k in
  let r := size * 10 mod 2 ^ k in
  let half := 2 ^ (k - 1) in
  let tenths := if (half <? r) || ((r =? half) && Z.odd q) then q + 1 else q in
  dec (tenths / 10) ++ B "." ++ dec (tenths mod 10).

Definition size_text (st : file_stat) : bytes :=
  mg_snprintf 64
    (if st_isdir st then B "[DIRECTORY]"
     else if st_size st <? 1024 then dec (int32 (st_size st))
     else if st_size st <? 0x100000 then fmt_tenths (st_size st) 10 ++ B "k"
     else if st_size st <? 0x40000000 then fmt_tenths (st_size st) 20 ++ B "M"
     else fmt_tenths (st_size st) 30 ++ B "G").

Example size_1 : size_text (FileStat 1536 0 false) = B "1.5k".
Proof. by_eval. Qed.
Example size_2 : size_text (FileStat 1280 0 false) = B "1.2k".
Proof. by_eval. Qed.
Example size_3 : size_text (FileStat 3221225472 0 false) = B "3.0G".
Proof. by_eval. Qed.

(** The text in a buffer that [mg_url_encode] has filled; a byte it steps over is
    whatever the buffer held, here a space. *)
Definition encoded_text (src : bytes) (dst_len : nat) : bytes :=
  until_nul (map (default c_space) (mg_url_encode src dst_len)).

(** [query_string] is "na" when there is none; the byte after the NUL of an empty query
    is taken to be 0. *)
Definition compare_dir_entries (query_string : option bytes) (a b : de) : Z :=
  let query_string := default (B "na") query_string in
  let sa := de_file a in
  let sb := de_file b in
  if st_isdir sa && negb (st_isdir sb) then -1
  else if negb (st_isdir sa) && st_isdir sb then 1
  else
    let cmp_result :=
      if chr query_string =? 110 then strcmp (de_name a) (de_name b)
      else if chr query_string =? 115 then
        (if st_size sa =? st_size sb then 0 else if st_size sb <? st_size sa then 1 else -1)
      else if chr query_string =? 100 then
        (if st_mtime sa =? st_mtime sb then 0 else if st_mtime sb <? st_mtime sa then 1 else -1)
      else 0 in
    if at_ query_string 1 =? 100 then - cmp_result else cmp_result.

(** [qsort]: entries that compare equal may come in any order; here they keep theirs. *)
Fixpoint insert_entry (cmp : de -> de -> Z) (e : de) (l : list de) : list de :=
  match l with
  | [] => [e]
  | x :: l' => if cmp e x <=? 0 then e :: l else x :: insert_entry cmp e l'
  end.
Definition sort_entries (cmp : de -> de -> Z) (l : list de) : list de :=
  fold_right (insert_entry cmp) [] l.

Section listing.
Context `{OS}.

(** A row of the table. *)
Definition dir_row (u : bytes) (e : de) : bytes :=
  let st := de_file e in
  let slash := if st_isdir st then B "/" else [] in
  let q := [c_dquote] in
  B "<tr><td><a href=" ++ q ++ u ++ encoded_text (de_name e) PATH_MAX ++ slash ++ q ++ B ">" ++ de_name e ++ slash
  ++ B "</a></td>" ++ B "<td>&nbsp;" ++ os_list_date (st_mtime st)
  ++ B "</td><td>&nbsp;&nbsp;" ++ size_text st ++ B "</td></tr>" ++ [c_lf].

Definition print_dir_entry (e : de) : M unit :=
  c ← get_conn;
  n ← mg_printf (dir_row (default [] (uri (request_info c))) e);
  modify (add_sent n).

(** The names that are shown, with their state. *)
Definition visible_entries (c : conn) (dir : bytes) (names : list bytes) : list de :=
  map (fun name => De name (snd (mg_stat (mg_snprintf PATH_MAX (dir ++ B "/" ++ name)))))
    (List.filter (fun name => negb (streq name (B ".") || streq name (B "..")
                                     || must_hide_file (config_of c) name)) names).

(** The callback is called for every visible name; [None] when the directory cannot be
    opened. *)
Fixpoint scan_entries {S} (cb : de -> S -> M S) (l : list de) (s : S) : M S :=
  match l with
  | [] => mret s
  | e :: l' => s' ← cb e s; scan_entries cb l' s'
  end.
Definition scan_directory {S} (dir : bytes) (cb : de -> S -> M S) (s : S) : M (option S) :=
  match os_readdir dir with
  | None => mret None
  | Some names =>
      c ← get_conn;
      s' ← scan_entries cb (visible_entries c dir names) s;
      mret (Some s')
  end.

(** [struct dir_scan_data]: the entries, when there is memory for them, and [arr_size].
    After a failed allocation the count starts again at zero. *)
Record dir_scan_data := DirScanData { dsd_entries : option (list de); dsd_arr_size : Z }.

(** A name for which there is no memory is a NULL pointer that is used later. *)
Definition dir_scan_callback (e : de) (dsd : dir_scan_data) : M dir_scan_data :=
  let grow := match dsd_entries dsd with
              | None => true
              | Some l => dsd_arr_size dsd <=? Z.of_nat (length l)
              end in
  dsd ← (if grow then
           ok ← malloc;
           let size := dsd_arr_size dsd * 2 in
           mret (DirScanData (if (ok : bool) then Some (default [] (dsd_entries dsd)) else None) size)
         else mret dsd);
  match dsd_entries dsd with
  | None => mret dsd
  | Some l =>
      ok ← malloc;
      _ ← assert_ ok;
      mret (DirScanData (Some (l ++ [e])) (dsd_arr_size dsd))
  end.

Fixpoint print_entries (l : list de) : M unit :=
  match l with [] => mret tt | e :: l' => _ ← print_dir_entry e; print_entries l' end.

(** The parts of the page around the rows. *)
Definition listing_header : bytes :=
  B "HTTP/1.1 200 OK" ++ crlf ++ B "Connection: close" ++ crlf
  ++ B "Content-Type: text/html; charset=utf-8" ++ crlf ++ crlf.

Definition listing_head (u : bytes) (query : option bytes) : bytes :=
  let sort_direction :=
    if match query with Some q => at_ q 1 =? 100 | None => false end then B "a" else B "d" in
  let link k := B "<a href=" ++ [c_dquote] ++ B "?" ++ k ++ sort_direction ++ [c_dquote] ++ B ">" in
  B "<html><head><title>Index of " ++ u ++ B "</title>"
  ++ B "<style>th {text-align: left;}</style></head>"
  ++ B "<body><h1>Index of " ++ u ++ B "</h1><pre><table cellpadding="
  ++ [c_dquote] ++ B "0" ++ [c_dquote] ++ B ">"
  ++ B "<tr><th>" ++ link (B "n") ++ B "Name</a></th>"
  ++ B "<th>" ++ link (B "d") ++ B "Modified</a></th>"
  ++ B "<th>" ++ link (B "s") ++ B "Size</a></th></tr>"
  ++ B "<tr><td colspan=" ++ [c_dquote] ++ B "3" ++ [c_dquote] ++ B "><hr></td></tr>".

Definition parent_row (u : bytes) : bytes :=
  B "<tr><td><a href=" ++ [c_dquote] ++ u ++ B ".." ++ [c_dquote] ++ B ">Parent directory</a></td>"
  ++ B "<td>&nbsp;-</td><td>&nbsp;&nbsp;-</td></tr>" ++ [c_lf].

Definition listing_end : bytes := B "</table></body></html>".

Definition handle_directory_request (dir : bytes) : M unit :=
  data ← scan_directory dir dir_scan_callback (DirScanData None 128);
  match data with
  | None =>
      send_http_error 500 (B "Cannot open directory") (B "Error: opendir(" ++ dir ++ B "): " ++ os_strerror)
  | Some data =>
      c ← get_conn;
      let query := query_string (request_info c) in
      let u := default [] (uri (request_info c)) in
      _ ← modify (set_must_close true);
      _ ← mg_printf listing_header;
      n ← mg_printf (listing_head u query);
      _ ← modify (add_sent n);
      n ← mg_printf (parent_row u);
      _ ← modify (add_sent n);
      _ ← print_entries (sort_entries (compare_dir_entries query) (default [] (dsd_entries data)));
      n ← mg_printf listing_end;
      _ ← modify (add_sent n);
      modify (set_status 200)
  end.

(** ** WebDAV *)

Definition send_options : M unit :=
  _ ← modify (set_status 200);
  _ ← mg_printf (B "HTTP/1.1 200 OK" ++ crlf
                 ++ B "Allow: GET, POST, HEAD, CONNECT, PUT, DELETE, OPTIONS" ++ crlf
                 ++ B "DAV: 1" ++ crlf ++ crlf);
  mret tt.

Definition print_props (u : bytes) (st : file_stat) : M unit :=
  n ← mg_printf (B "<d:response>" ++ B "<d:href>" ++ u ++ B "</d:href>" ++ B "<d:propstat>"
                 ++ B "<d:prop>" ++ B "<d:resourcetype>"
                 ++ (if st_isdir st then B "<d:collection/>" else []) ++ B "</d:resourcetype>"
                 ++ B "<d:getcontentlength>" ++ dec (st_size st) ++ B "</d:getcontentlength>"
                 ++ B "<d:getlastmodified>" ++ os_http_date (st_mtime st) ++ B "</d:getlastmodified>"
                 ++ B "</d:prop>" ++ B "<d:status>HTTP/1.1 200 OK</d:status>" ++ B "</d:propstat>"
                 ++ B "</d:response>" ++ [c_lf]);
  modify (add_sent n).

Definition print_dav_dir_entry (e : de) (_ : unit) : M unit :=
  c ← get_conn;
  print_props (mg_snprintf PATH_MAX (default [] (uri (request_info c)) ++ de_name e)) (de_file e).

Definition handle_propfind (path : bytes) (st : file_stat) : M unit :=
  c ← get_conn;
  let depth := header_of c (B "Depth") in
  _ ← modify (set_must_close true);
  _ ← modify (set_status 207);
  _ ← mg_printf (B "HTTP/1.1 207 Multi-Status" ++ crlf ++ B "Connection: close" ++ crlf
                 ++ B "Content-Type: text/xml; charset=utf-8" ++ crlf ++ crlf);
  n ← mg_printf (B "<?xml version=" ++ [c_dquote] ++ B "1.0" ++ [c_dquote] ++ B " encoding=" ++ [c_dquote]
                 ++ B "utf-8" ++ [c_dquote] ++ B "?>" ++ B "<d:multistatus xmlns:d='DAV:'>" ++ [c_lf]);
  _ ← modify (add_sent n);
  _ ← print_props (default [] (uri (request_info c))) st;
  _ ← (if st_isdir st
          && (mg_strcasecmp (default [] (cfg (config_of c) ENABLE_DIRECTORY_LISTING)) (B "yes") =? 0)
          && match depth with Some d => negb (streq d (B "0")) | None => true end
       then _ ← scan_directory path print_dav_dir_entry tt; mret tt
       else mret tt);
  n ← mg_printf (B "</d:multistatus>" ++ [c_lf]);
  modify (add_sent n).
End listing.

(** ** Sorting *)

Lemma strcmp_opp a b : strcmp a b = - strcmp b a.
Proof.
  revert b. induction a as [|c a IH]; intros [|d b]; simpl; try lia.
  rewrite (Z.eqb_sym d c). destruct (Z.eqb_spec c d); [apply IH|lia].
Qed.

Lemma compare_dir_entries_opp q a b : compare_dir_entries q a b = - compare_dir_entries q b a.
Proof.
  unfold compare_dir_entries. set (qs := default (B "na") q).
  assert (forall x y : Z, (if x =? y then 0 else if y <? x then 1 else -1)
    = - (if y =? x then 0 else if x <? y then 1 else -1)) as Hc.
  { intros x y. destruct (Z.eqb_spec x y), (Z.eqb_spec y x), (Z.ltb_spec x y), (Z.ltb_spec y x); lia. }
  pose proof (strcmp_opp (de_name a) (de_name b)).
  pose proof (Hc (st_size (de_file a)) (st_size (de_file b))).
  pose proof (Hc (st_mtime (de_file a)) (st_mtime (de_file b))).
  destruct (st_isdir (de_file a)), (st_isdir (de_file b)); simpl; try done;
    destruct (chr qs =? 110), (chr qs =? 115), (chr qs =? 100), (at_ qs 1 =? 100); lia.
Qed.

Lemma strcmp_trans a b c :
  cstr a -> cstr b -> cstr c -> strcmp a b <= 0 -> strcmp b c <= 0 -> strcmp a c <= 0.
Proof.
  revert b c. induction a as [|x a IH]; intros [|y b] [|z c] Ha Hb Hc; simpl; try lia;
    repeat match goal with H : cstr (_ :: _) |- _ => apply Forall_cons in H as [? H] end; unfold is_char in *; try lia.
  destruct (Z.eqb_spec x y), (Z.eqb_spec y z), (Z.eqb_spec x z); subst; try lia. by apply IH.
Qed.

(** [qsort] needs an order: this is one, on names that are C strings. *)
Lemma compare_dir_entries_trans q a b c :
  cstr (de_name a) -> cstr (de_name b) -> cstr (de_name c) ->
  compare_dir_entries q a b <= 0 -> compare_dir_entries q b c <= 0 -> compare_dir_entries q a c <= 0.
Proof.
  intros Ha Hb Hc. unfold compare_dir_entries. set (qs := default (B "na") q).
  assert (forall x y z : Z, (if x =? y then 0 else if y <? x then 1 else -1) <= 0 ->
    (if y =? z then 0 else if z <? y then 1 else -1) <= 0 -> (if x =? z then 0 else if z <? x then 1 else -1) <= 0) as Hn.
  { intros x y z. destruct (Z.eqb_spec x y), (Z.eqb_spec y z), (Z.eqb_spec x z), (Z.ltb_spec y x), (Z.ltb_spec z y), (Z.ltb_spec z x); lia. }
  assert (forall x y z : Z, 0 <= (if x =? y then 0 else if y <? x then 1 else -1) ->
    0 <= (if y =? z then 0 else if z <? y then 1 else -1) -> 0 <= (if x =? z then 0 else if z <? x then 1 else -1)) as Hp.
  { intros x y z. destruct (Z.eqb_spec x y), (Z.eqb_spec y z), (Z.eqb_spec x z), (Z.ltb_spec y x), (Z.ltb_spec z y), (Z.ltb_spec z x); lia. }
  pose proof (strcmp_trans (de_name a) (de_name b) (de_name c) Ha Hb Hc) as S1.
  pose proof (strcmp_trans (de_name c) (de_name b) (de_name a) Hc Hb Ha) as S2.
  rewrite (strcmp_opp (de_name c) (de_name b)), (strcmp_opp (de_name b) (de_name a)), (strcmp_opp (de_name c) (de_name a)) in S2.
  specialize (Hn (st_size (de_file a)) (st_size (de_file b)) (st_size (de_file c))) as N1.
  specialize (Hn (st_mtime (de_file a)) (st_mtime (de_file b)) (st_mtime (de_file c))) as N2.
  specialize (Hp (st_size (de_file a)) (st_size (de_file b)) (st_size (de_file c))) as P1.
  specialize (Hp (st_mtime (de_file a)) (st_mtime (de_file b)) (st_mtime (de_file c))) as P2.
  destruct (st_isdir (de_file a)), (st_isdir (de_file b)), (st_isdir (de_file c)); simpl; try lia;
    destruct (chr qs =? 110), (chr qs =? 115), (chr qs =? 100), (at_ qs 1 =? 100); lia.
Qed.

Section sorting.
Context (cmp : de -> de -> Z) (P : de -> Prop).
Hypothesis cmp_opp : forall a b, cmp a b = - cmp b a.
Hypothesis cmp_trans : forall a b c, P a -> P b -> P c -> cmp a b <= 0 -> cmp b c <= 0 -> cmp a c <= 0.

Lemma insert_entry_perm e l : insert_entry cmp e l ≡ₚ e :: l.
Proof.
  induction l as [|x l IH]; simpl; [done|]. case_match; [done|]. rewrite IH. apply Permutation_swap.
Qed.

Lemma sort_entries_perm l : sort_entries cmp l ≡ₚ l.
Proof. induction l as [|e l IH]; simpl; [done|]. by rewrite insert_entry_perm, IH. Qed.

Lemma insert_entry_sorted e l :
  P e -> Forall P l -> StronglySorted (fun a b => cmp a b <= 0) l ->
  StronglySorted (fun a b => cmp a b <= 0) (insert_entry cmp e l).
Proof.
  intros He Hl Hs. induction Hs as [|x l Hs IH Hx]; simpl; [by repeat constructor|].
  apply Forall_cons in Hl as [HPx Hl].
  destruct (Z.leb_spec (cmp e x) 0) as [Hle|Hgt].
  - constructor; [by constructor|]. constructor; [done|]. rewrite Forall_forall in Hx, Hl |- *.
    intros y Hy. eapply cmp_trans; [done|apply HPx|by apply Hl|done|by apply Hx].
  - constructor; [by apply IH|]. rewrite insert_entry_perm. constructor; [|done]. rewrite cmp_opp. lia.
Qed.

Lemma sort_entries_sorted l : Forall P l -> StronglySorted (fun a b => cmp a b <= 0) (sort_entries cmp l).
Proof.
  induction 1 as [|e l He Hl IH]; simpl; [constructor|]. apply insert_entry_sorted; [done| |done].
  by rewrite sort_entries_perm.
Qed.
End sorting.

(** ** The page *)

Section page.
Context `{OS}.

Lemma scan_entries_collect l acc size w :
  mallocs w = [] -> l <> [] \/ acc <> None ->
  exists size', scan_entries dir_scan_callback l (DirScanData acc size) w
    = Some (DirScanData (Some (default [] acc ++ l)) size', w).
Proof.
  intros Hm. revert acc size. induction l as [|e l IH]; intros acc size Hne; cbn [scan_entries].
  { destruct Hne as [|Hne]; [done|]. destruct acc as [acc|]; [|done]. exists size. by rewrite app_nil_r. }
  assert (exists size', dir_scan_callback e (DirScanData acc size) w
    = Some (DirScanData (Some (default [] acc ++ [e])) size', w)) as (size' & E).
  { assert (malloc w = Some (true, w)) as Ew by (unfold malloc; rewrite Hm; by destruct w; simpl in *; subst).
    unfold dir_scan_callback, mbind, M_bind, mret, M_ret. cbn [dsd_entries dsd_arr_size].
    destruct acc as [acc|]; [destruct (size <=? _)|]; rewrite ?Ew; cbn [dsd_entries default]; rewrite ?Ew;
      (eexists; reflexivity). }
  unfold mbind, M_bind. rewrite E. destruct (IH (Some (default [] acc ++ [e])) size') as (size'' & ->); [by right|].
  exists size''. cbn [from_option id]. by rewrite <- app_assoc.
Qed.

Lemma scan_directory_collect dir names w :
  os_readdir dir = Some names -> mallocs w = [] ->
  exists data, scan_directory dir dir_scan_callback (DirScanData None 128) w = Some (Some data, w) /\
    default [] (dsd_entries data) = visible_entries (cn w) dir names.
Proof.
  intros Hd Hm. unfold scan_directory. rewrite Hd. unfold mbind, M_bind, get_conn.
  destruct (visible_entries (cn w) dir names) as [|e l] eqn:Ev; [by eexists|].
  destruct (scan_entries_collect (e :: l) None 128 w Hm) as (size & ->); [by left|].
  eexists. split; [reflexivity|done].
Qed.

(** What is printed and counted. *)
Lemma print_counted text w :
  sends_ok w -> (0 < length text < MG_BUF_LEN)%nat ->
  exists w', (n ← mg_printf text; modify (add_sent n)) w = Some (tt, w') /\ sent w' = sent w ++ text /\ sends_ok w' /\
    mallocs w' = mallocs w /\ request_info (cn w') = request_info (cn w).
Proof.
  intros Hok Hl. destruct (mg_printf_all text w Hok Hl) as (w' & E & Hs & Hok' & Hw).
  unfold mbind, M_bind. rewrite E. eexists. split; [reflexivity|].
  destruct (wr_cn _ _ _ Hw) as (t & b & Hc). split_and!; [done|done|apply Hw|by rewrite Hc].
Qed.

Lemma print_entries_rows u l w :
  sends_ok w -> uri (request_info (cn w)) = Some u ->
  Forall (fun e => (0 < length (dir_row u e) < MG_BUF_LEN)%nat) l ->
  exists w', print_entries l w = Some (tt, w') /\ sent w' = sent w ++ concat (map (dir_row u) l) /\ sends_ok w' /\
    request_info (cn w') = request_info (cn w).
Proof.
  intros Hok Hu Hl. revert w Hok Hu. induction Hl as [|e l He Hl IH]; intros w Hok Hu; cbn [print_entries map concat].
  { exists w. by rewrite app_nil_r. }
  destruct (print_counted (dir_row u e) w Hok He) as (w1 & E1 & Hs1 & Hok1 & _ & Hr1).
  assert (print_dir_entry e w = Some (tt, w1)) as E.
  { unfold print_dir_entry. unfold mbind at 1, M_bind at 1, get_conn. by rewrite Hu. }
  unfold mbind, M_bind. rewrite E.
  destruct (IH w1 Hok1) as (w2 & E2 & Hs2 & Hok2 & Hr2); [by rewrite Hr1|].
  exists w2. split_and!; [done| |done|by rewrite Hr2]. by rewrite Hs2, Hs1, app_assoc.
Qed.

(** A row of the page for a name in the directory. *)
Definition shown (c : conn) (dir : bytes) (names : list bytes) (e : de) : Prop :=
  de_name e ∈ names /\ de_name e <> B "." /\ de_name e <> B ".." /\
  must_hide_file (config_of c) (de_name e) = false /\
  de_file e = snd (mg_stat (mg_snprintf PATH_MAX (dir ++ B "/" ++ de_name e))).

Lemma visible_shown c dir names e :
  e ∈ visible_entries c dir names <-> shown c dir names e.
Proof.
  unfold visible_entries, shown. rewrite list_elem_of_In, in_map_iff. setoid_rewrite filter_In.
  setoid_rewrite negb_true_iff. setoid_rewrite orb_false_iff. setoid_rewrite orb_false_iff.
  unfold streq. setoid_rewrite bool_decide_eq_false. split.
  - intros (name & <- & Hin & (H1 & H2) & H3). rewrite list_elem_of_In. done.
  - intros (Hin & H1 & H2 & H3 & H4). exists (de_name e). rewrite list_elem_of_In in Hin.
    split; [|done]. destruct e. simpl in *. by rewrite H4.
Qed.

Lemma counted_then {B} text (k : M B) w w1 :
  (n ← mg_printf text; modify (add_sent n)) w = Some (tt, w1) ->
  (n ← mg_printf text; _ ← modify (add_sent n); k) w = k w1.
Proof. unfold mbind, M_bind. destruct (mg_printf text w) as [[n w2]|]; [|done]. by intros [= <-]. Qed.

Lemma set_must_close_sends w : sends_ok w -> sends_ok (set_cn (set_must_close true (cn w)) w).
Proof. done. Qed.

Lemma listing_head_length u q :
  (length u <= 3000)%nat ->
  (0 < length (listing_head u q) < MG_BUF_LEN)%nat /\ (0 < length (parent_row u) < MG_BUF_LEN)%nat.
Proof.
  intros Hu. unfold listing_head, parent_row, MG_BUF_LEN.
  destruct (match q with Some _ => _ | None => _ end); rewrite !length_app; simpl length; lia.
Qed.

Lemma dir_row_pos u e : (0 < length (dir_row u e))%nat.
Proof. unfold dir_row. rewrite length_app. simpl length. lia. Qed.

End page.

(** A directory with a password file. *)
Definition listing_os : OS :=
  let os := small_os [(B "/w/b", B "12345"); (B "/w/a", B "1"); (B "/w/.htpasswd", B "x")] [B "/w/d"] in
  {| os_stat := os_stat; os_read := os_read;
     os_readdir _ := Some [B "."; B ".."; B "b"; B ".htpasswd"; B "a"; B "d"];
     os_create := os_create; os_append := os_append; os_writable := os_writable; os_mkdir := os_mkdir;
     os_remove := os_remove; os_realpath := os_realpath; os_popen := os_popen; os_getenv := os_getenv;
     os_cgi := os_cgi; os_strerror := os_strerror; os_http_date := os_http_date; os_list_date := os_list_date;
     os_log_date := os_log_date |}.

