(* ===== verification/Ssi.v ===== *)
(** * Server side includes

    [do_ssi_include], [do_ssi_exec], [send_ssi_file] and [handle_ssi_file_request] of
    src/mongoose.c.  The automaton that looks for tags keeps its text in a buffer of
    [MG_BUF_LEN] bytes; a store outside of it stops the model. *)

From S2P Require Import Prelude CString Options SocketQueue HttpRequest Scanf Conn Pattern Os Files.

(** [buf[len++] = c] *)
Definition store_byte (buf : bytes) (c : Z) : M bytes :=
  if (length buf <? MG_BUF_LEN)%nat then mret (buf ++ [c]) else abort.

Definition ssi_open : bytes := B "<!--#".

(** A format: white space, a name and one quoted field. *)
Definition ssi_fmt (name : bytes) : list directive :=
  Ws :: map Lit name ++ [Lit c_dquote; Pnot None [c_dquote] true; Lit c_dquote].
Definition scan_quoted (name tag : bytes) : option bytes :=
  match sscanf tag (ssi_fmt name) with (1, [SStr s]) => Some s | _ => None end.

Section ssi.
Context `{OS}.

(** The path of the file to include. *)
Definition ssi_path (c : conn) (ssi tag : bytes) : option bytes :=
  match scan_quoted (B "virtual=") tag with
  | Some file_name =>
      Some (mg_snprintf PATH_MAX (default [] (cfg (config_of c) DOCUMENT_ROOT) ++ B "/" ++ file_name))
  | None =>
      match scan_quoted (B "file=") tag with
      | Some file_name => Some (mg_snprintf PATH_MAX file_name)
      | None =>
          match scan_quoted [] tag with
          | Some file_name =>
              let path := mg_snprintf PATH_MAX ssi in
              let path := match find_last c_slash path with Some i => take (S i) path | None => path end in
              Some (path ++ mg_snprintf (PATH_MAX - length path) file_name)
          | None => None
          end
      end
  end.

(** [rec] is [send_ssi_file] one level deeper. *)
Definition do_ssi_include (rec : bytes -> bytes -> M unit) (ssi tag : bytes) : M unit :=
  c ← get_conn;
  match ssi_path c ssi tag with
  | None => cry (B "Bad SSI #include: [" ++ tag ++ B "]")
  | Some path =>
      match mg_fopen path with
      | None =>
          cry (B "Cannot open SSI #include: [" ++ tag ++ B "]: fopen(" ++ path ++ B "): " ++ os_strerror)
      | Some content =>
          if 0 <? match_prefix (default [] (cfg (config_of c) SSI_EXTENSIONS)) path
          then rec path content
          else send_file_data content 0 0 INT64_MAX
      end
  end.

Definition do_ssi_exec (tag : bytes) : M unit :=
  match scan_quoted [] tag with
  | None => cry (B "Bad SSI #exec: [" ++ tag ++ B "]")
  | Some cmd =>
      _ ← emit (FxCommand cmd);
      match os_popen cmd with
      | None => cry (B "Cannot SSI #exec: [" ++ cmd ++ B "]: " ++ os_strerror)
      | Some output => send_file_data output 0 0 INT64_MAX
      end
  end.

(** What is done with [buf] when [>] ends a tag. *)
Definition ssi_tag (rec : bytes -> bytes -> M unit) (path buf : bytes) : M unit :=
  if (length buf <? 6)%nat || negb (starts_with buf ssi_open) then
    _ ← mg_write buf; mret tt
  else if starts_with (drop 5 buf) (B "include") then
    do_ssi_include rec path (until_nul (drop 12 buf))
  else if starts_with (drop 5 buf) (B "exec") then do_ssi_exec (until_nul (drop 9 buf))
  else cry (path ++ B ": unknown SSI command: " ++ [c_dquote] ++ until_nul buf ++ [c_dquote]).

(** One character: the new [in_ssi_tag] and [buf]. *)
Definition ssi_char (rec : bytes -> bytes -> M unit) (path : bytes) (in_ssi_tag : bool) (buf : bytes) (ch : Z)
    : M (bool * bytes) :=
  if in_ssi_tag && (ch =? c_gt) then
    buf ← store_byte buf ch;
    _ ← store_byte buf 0;
    _ ← assert_ (length buf <=? MG_BUF_LEN)%nat;
    _ ← ssi_tag rec path buf;
    mret (false, [])
  else if in_ssi_tag then
    if (length buf =? 5)%nat && negb (starts_with buf ssi_open) then
      buf ← store_byte buf ch;
      mret (false, buf)
    else if (length buf =? MG_BUF_LEN - 2)%nat then
      _ ← cry (path ++ B ": SSI tag is too large");
      buf ← store_byte [] ch;
      mret (true, buf)
    else
      buf ← store_byte buf ch;
      mret (true, buf)
  else if ch =? c_lt then
    _ ← (if (0 <? length buf)%nat then _ ← mg_write buf; mret tt else mret tt);
    buf ← store_byte [] ch;
    mret (true, buf)
  else
    buf ← store_byte buf ch;
    if (length buf =? MG_BUF_LEN)%nat then
      _ ← mg_write buf;
      mret (false, [])
    else mret (false, buf).

Fixpoint ssi_loop (rec : bytes -> bytes -> M unit) (path : bytes) (in_ssi_tag : bool) (buf content : bytes)
    : M unit :=
  match content with
  | [] => if (0 <? length buf)%nat then _ ← mg_write buf; mret tt else mret tt
  | ch :: content' =>
      '(in_ssi_tag, buf) ← ssi_char rec path in_ssi_tag buf ch;
      ssi_loop rec path in_ssi_tag buf content'
  end.

(** [levels] more levels are allowed: 11 less [include_level]. *)
Fixpoint send_ssi_file (levels : nat) (path content : bytes) : M unit :=
  match levels with
  | O => cry (B "SSI #include level is too deep (" ++ path ++ B ")")
  | S levels' => ssi_loop (send_ssi_file levels') path false [] content
  end.

Definition handle_ssi_file_request (path : bytes) : M unit :=
  match mg_fopen path with
  | None => send_http_error 500 http_500_error (B "fopen(" ++ path ++ B "): " ++ os_strerror)
  | Some content =>
      _ ← modify (set_must_close true);
      c ← get_conn;
      _ ← mg_printf (B "HTTP/1.1 200 OK" ++ crlf ++ B "Content-Type: text/html" ++ crlf
                     ++ B "Connection: " ++ suggest_connection_header c ++ crlf ++ crlf);
      send_ssi_file 11 path content
  end.
End ssi.

Definition ssi_os : OS :=
  small_os [(B "/w/foot.html", B "bye"); (B "/w/self.shtml", B "x<!--#include virtual='' -->")] [].
Definition ssi_conn : conn :=
  Conn no_request (<[SSI_EXTENSIONS := Some (B "**.shtml$")]> (<[DOCUMENT_ROOT := Some (B "/w")]> (replicate 40 None)))
    inhabitant 0 0 0 0 [] None false 0 0 0 0 0 0.
Definition quoted (s : bytes) : bytes := [c_dquote] ++ s ++ [c_dquote].

Example ssi_include :
  (sent ∘ snd <$> @send_ssi_file ssi_os 11 (B "/w/a.shtml")
     (B "<p>hi</p><!--#include virtual=" ++ quoted (B "foot.html") ++ B " --> <!--#exec-->.")
     (quiet ssi_conn [])) = Some (B "<p>hi</p>bye .").
Proof. by_eval. Qed.

(** ** The buffer is large enough *)

Definition ssi_inv (in_ssi_tag : bool) (buf : bytes) : Prop :=
  (if in_ssi_tag then S (S (length buf)) <= MG_BUF_LEN else S (length buf) <= MG_BUF_LEN)%nat.

Section bounds.
Context `{OS}.

Lemma total_ssi_tag rec path buf :
  (forall p c, total (rec p c)) -> total (ssi_tag rec path buf).
Proof.
  intros Hrec. unfold ssi_tag, do_ssi_include, do_ssi_exec. solve_total.
Qed.

Lemma store_byte_ok buf c w :
  (length buf < MG_BUF_LEN)%nat -> store_byte buf c w = Some (buf ++ [c], w).
Proof. intros Hl. unfold store_byte. by rewrite (proj2 (Nat.ltb_lt _ _) Hl). Qed.

Lemma ssi_char_total rec path in_ssi_tag buf ch w :
  (forall p c, total (rec p c)) -> ssi_inv in_ssi_tag buf ->
  exists r w', ssi_char rec path in_ssi_tag buf ch w = Some (r, w') /\ ssi_inv (fst r) (snd r).
Proof.
  intros Hrec Hinv. unfold ssi_inv in Hinv. unfold ssi_char.
  assert (6 < MG_BUF_LEN)%nat as H6 by (unfold MG_BUF_LEN; lia).
  destruct in_ssi_tag; cbn [andb].
  - destruct (ch =? c_gt).
    + unfold mbind, M_bind. rewrite store_byte_ok by lia. rewrite store_byte_ok by (rewrite length_app; simpl; lia).
      unfold assert_. rewrite (proj2 (Nat.leb_le _ _)) by (rewrite length_app; simpl; lia).
      unfold mret at 1, M_ret at 1. destruct (total_ssi_tag rec path (buf ++ [ch]) Hrec w) as ([] & w' & ->).
      eexists _, w'. split; [reflexivity|]. cbn. lia.
    + destruct (Nat.eqb_spec (length buf) 5), (starts_with buf ssi_open); cbn [andb negb];
        try (destruct (Nat.eqb_spec (length buf) (MG_BUF_LEN - 2))); unfold mbind, M_bind;
        try (destruct (total_cry (path ++ B ": SSI tag is too large") w) as ([] & w' & ->));
        rewrite store_byte_ok by (simpl; lia); eexists _, _; (split; [reflexivity|]);
        cbn [fst snd]; unfold ssi_inv; rewrite ?length_app; simpl; lia.
  - destruct (ch =? c_lt).
    + unfold mbind, M_bind. destruct (0 <? length buf)%nat.
      * destruct (total_mg_write buf w) as (r & w' & ->). unfold mret at 1, M_ret at 1.
        rewrite store_byte_ok by (simpl; lia). eexists _, _. split; [reflexivity|]. cbn. lia.
      * unfold mret at 1, M_ret at 1. rewrite store_byte_ok by (simpl; lia).
        eexists _, _. split; [reflexivity|]. cbn. lia.
    + unfold mbind, M_bind. rewrite store_byte_ok by lia.
      destruct (Nat.eqb_spec (length (buf ++ [ch])) MG_BUF_LEN) as [E|E].
      * destruct (total_mg_write (buf ++ [ch]) w) as (r & w' & ->). eexists _, _. split; [reflexivity|]. cbn. lia.
      * eexists _, _. split; [reflexivity|]. cbn. rewrite length_app in *. simpl in *. lia.
Qed.

Lemma total_ssi_loop rec path in_ssi_tag buf content :
  (forall p c, total (rec p c)) -> ssi_inv in_ssi_tag buf -> total (ssi_loop rec path in_ssi_tag buf content).
Proof.
  intros Hrec. revert in_ssi_tag buf. induction content as [|ch content IH]; intros in_ssi_tag buf Hinv w; cbn [ssi_loop].
  - destruct (0 <? length buf)%nat; [|by eexists _, _]. unfold mbind, M_bind.
    destruct (total_mg_write buf w) as (r & w' & ->). by eexists _, _.
  - unfold mbind, M_bind. destruct (ssi_char_total rec path in_ssi_tag buf ch w Hrec Hinv) as ([b buf'] & w' & -> & Hinv').
    by apply IH.
Qed.

(** C36. Whatever a file with server side includes holds, sending it ends normally: the
    includes stop at the eleventh level, no store leaves the buffer that collects a
    tag, and the assertion on its length holds. *)
Theorem send_ssi_file_total (levels : nat) (path content : bytes) (w : world) :
  exists w', send_ssi_file levels path content w = Some (tt, w').
Proof.
  enough (total (send_ssi_file levels path content)) as Ht by (destruct (Ht w) as ([] & w' & E); eauto).
  revert path content. induction levels as [|levels IH]; intros path content; cbn [send_ssi_file].
  - apply total_cry.
  - apply total_ssi_loop; [done|]. unfold ssi_inv, MG_BUF_LEN. simpl. lia.
Qed.

(** ** Text without tags *)

Definition no_tag (s : bytes) : Prop := forall pre post, s <> pre ++ ssi_open ++ post.

Lemma no_tag_suffix a b : no_tag (a ++ b) -> no_tag b.
Proof. intros Hn pre post E. apply (Hn (a ++ pre) post). by rewrite E, app_assoc. Qed.

Lemma no_tag_start a b : no_tag (a ++ b) -> starts_with a ssi_open = false.
Proof.
  intros Hn. destruct (starts_with a ssi_open) eqn:E; [|done].
  apply starts_with_true in E as (r & ->). destruct (Hn [] (r ++ b)). by rewrite <- app_assoc.
Qed.

Lemma mg_write_buf buf w :
  sends_ok w -> (length buf <= MG_BUF_LEN)%nat ->
  exists w', (if (0 <? length buf)%nat then _ ← mg_write buf; mret tt else mret tt) w = Some (tt, w') /\
    sent w' = sent w ++ buf /\ sends_ok w'.
Proof.
  intros Hok Hl. unfold MG_BUF_LEN in Hl. destruct (Nat.ltb_spec 0 (length buf)) as [Hp|Hp].
  - unfold mbind, M_bind. destruct (mg_write_all buf w Hok) as (w' & -> & Hs & Hok' & _); [lia|]. by exists w'.
  - assert (buf = []) as -> by (apply nil_length_inv; lia). exists w. by rewrite app_nil_r.
Qed.

(** The characters in the buffer and those that follow. *)
Definition plain_inv (in_ssi_tag : bool) (buf : bytes) : Prop :=
  if in_ssi_tag then (length buf <= 5)%nat else (length buf < MG_BUF_LEN)%nat.

Lemma ssi_char_plain rec path in_ssi_tag buf ch rest w :
  sends_ok w -> plain_inv in_ssi_tag buf -> no_tag (buf ++ ch :: rest) ->
  exists b buf' w', ssi_char rec path in_ssi_tag buf ch w = Some ((b, buf'), w') /\
    plain_inv b buf' /\ sends_ok w' /\ no_tag (buf' ++ rest) /\
    sent w' ++ buf' = sent w ++ buf ++ [ch].
Proof.
  intros Hok Hinv Hn. assert (8 < MG_BUF_LEN)%nat as H8 by (unfold MG_BUF_LEN; lia).
  assert (no_tag ((buf ++ [ch]) ++ rest)) as Hn' by (by rewrite <- app_assoc).
  pose proof (no_tag_start _ _ Hn) as Hst. pose proof (no_tag_start _ _ Hn') as Hst'.
  pose proof (no_tag_suffix _ _ Hn') as Hnr.
  unfold plain_inv in Hinv. unfold ssi_char. destruct in_ssi_tag; cbn [andb].
  - destruct (ch =? c_gt).
    + unfold mbind, M_bind. rewrite store_byte_ok by lia. rewrite store_byte_ok by (rewrite length_app; simpl; lia).
      unfold assert_. rewrite (proj2 (Nat.leb_le _ _)) by (rewrite length_app; simpl; lia).
      unfold mret at 1, M_ret at 1. unfold ssi_tag. rewrite Hst', orb_true_r. unfold mbind, M_bind.
      destruct (mg_write_all (buf ++ [ch]) w Hok) as (w' & -> & Hs & Hok' & _); [rewrite length_app; simpl; lia|].
      eexists _, _, w'. split; [reflexivity|]. split_and!; [simpl; lia|done|done|].
      by rewrite app_nil_r.
    + rewrite Hst. cbn [negb]. rewrite andb_true_r.
      destruct (Nat.eqb_spec (length buf) 5); [|destruct (Nat.eqb_spec (length buf) (MG_BUF_LEN - 2)); [lia|]];
        unfold mbind, M_bind; rewrite store_byte_ok by lia; eexists _, _, w; (split; [reflexivity|]);
        split_and!; try done; unfold plain_inv; rewrite length_app; simpl; lia.
  - destruct (ch =? c_lt).
    + unfold mbind at 1, M_bind at 1.
      destruct (mg_write_buf buf w Hok) as (w' & -> & Hs & Hok'); [lia|].
      unfold mbind, M_bind. rewrite store_byte_ok by (simpl; lia). eexists _, _, w'. split; [reflexivity|].
      split_and!; [simpl; lia|done|by eapply no_tag_suffix|by rewrite Hs, <- app_assoc].
    + unfold mbind, M_bind. rewrite store_byte_ok by lia.
      destruct (Nat.eqb_spec (length (buf ++ [ch])) MG_BUF_LEN) as [E|E].
      * destruct (mg_write_all (buf ++ [ch]) w Hok) as (w' & -> & Hs & Hok' & _);
          [rewrite E; unfold MG_BUF_LEN; lia|].
        eexists _, _, w'. split; [reflexivity|]. split_and!; [simpl; lia|done|done|by rewrite app_nil_r].
      * eexists _, _, w. split; [reflexivity|]. split_and!; [|done|done|done].
        unfold plain_inv. rewrite length_app in *. simpl in *. lia.
Qed.

Lemma ssi_loop_plain rec path in_ssi_tag buf content w :
  sends_ok w -> plain_inv in_ssi_tag buf -> no_tag (buf ++ content) ->
  exists w', ssi_loop rec path in_ssi_tag buf content w = Some (tt, w') /\
    sent w' = sent w ++ buf ++ content.
Proof.
  revert in_ssi_tag buf w. induction content as [|ch content IH]; intros in_ssi_tag buf w Hok Hinv Hn; cbn [ssi_loop].
  - destruct (mg_write_buf buf w Hok) as (w' & -> & Hs & _).
    + unfold plain_inv, MG_BUF_LEN in *. destruct in_ssi_tag; lia.
    + exists w'. by rewrite app_nil_r.
  - unfold mbind, M_bind.
    destruct (ssi_char_plain rec path in_ssi_tag buf ch content w Hok Hinv Hn)
      as (b & buf' & w1 & -> & Hinv' & Hok1 & Hn1 & Hs1).
    destruct (IH b buf' w1 Hok1 Hinv' Hn1) as (w2 & -> & Hs2). exists w2. split; [done|].
    by rewrite Hs2, app_assoc, Hs1, <- !app_assoc.
Qed.

(** A file without tags is sent as it is: if [<!--#] does not occur in the text, the
    client gets exactly the text, whatever other markup it has. *)
Theorem send_ssi_file_plain (levels : nat) (path content : bytes) (w : world) :
  (0 < levels)%nat -> sends_ok w -> no_tag content ->
  exists w', send_ssi_file levels path content w = Some (tt, w') /\ sent w' = sent w ++ content.
Proof.
  intros Hl Hok Hn. destruct levels as [|levels]; [lia|]. cbn [send_ssi_file].
  apply ssi_loop_plain; [done| |done]. unfold plain_inv, MG_BUF_LEN. simpl. lia.
Qed.
End bounds.

Lemma send_ssi_file_plain_witness :
  let os := small_os [] [] in
  exists w', @send_ssi_file os 11 (B "/a.shtml") (B "<b>x</b>") (quiet ssi_conn []) = Some (tt, w') /\
    sent w' = [] ++ B "<b>x</b>".
Proof.
  intros os. apply (@send_ssi_file_plain os 11 (B "/a.shtml") (B "<b>x</b>") (quiet ssi_conn [])).
  - lia.
  - split_and!; [constructor|done|done].
  - intros pre post E. assert (In 35 (B "<b>x</b>")) as Hin.
    { rewrite E. apply in_or_app. right. apply in_or_app. left. simpl. tauto. }
    simpl in Hin. lia.
Defined.
