(* ===== verification/Cgi.v ===== *)
(** * CGI programs

    The environment block of [addenv] and [prepare_cgi_environment], [spawn_process]
    and [handle_cgi_request] of src/mongoose.c.  What a program answers is a parameter:
    it may depend on the environment, the directory and the request body it gets. *)

From S2P Require Import Prelude CString Options SocketQueue HttpRequest Scanf Conn Os Files Put.

(** ** The environment *)

Definition CGI_ENVIRONMENT_SIZE : Z := 4096.
Definition MAX_CGI_ENVIR_VARS : nat := 64.

(** [struct cgi_env_block]: the used bytes of [buf] and the strings in it that [vars]
    points to. *)
Record cgi_env_block := CgiEnv { blk_len : Z; blk_vars : list bytes }.

Section cgi.
Context `{OS}.

(** [fmt] is the format, [text] what it prints; [upcase] what is done to the string
    after it has been added. *)
Definition addenv (fmt text : bytes) (upcase : bytes -> bytes) (blk : cgi_env_block) : M cgi_env_block :=
  let space := CGI_ENVIRONMENT_SIZE - blk_len blk - 2 in
  _ ← assert_ (0 <=? space);
  let n := if space <? 1 then 0 else Z.min (Z.of_nat (length text)) (space - 1) in
  if (0 <? n) && (n + 1 <? space) && (length (blk_vars blk) <? MAX_CGI_ENVIR_VARS - 2)%nat then
    mret (CgiEnv (blk_len blk + n + 1) (blk_vars blk ++ [upcase text]))
  else
    _ ← cry (B "addenv: CGI env buffer truncated for [" ++ fmt ++ B "]");
    mret blk.

(** Names with the conversion in the format, and values. *)
Fixpoint addenvs (l : list (bytes * bytes * bytes)) (blk : cgi_env_block) : M cgi_env_block :=
  match l with
  | [] => mret blk
  | (name, conversion, value) :: l' =>
      blk ← addenv (name ++ conversion) (name ++ value) id blk;
      addenvs l' blk
  end.

(** A header variable: dashes to underscores and upper case, up to the first [=]. *)
Fixpoint upcase_name (s : bytes) : bytes :=
  match s with
  | [] => []
  | c :: s' => if c =? c_eq then s else toupper (if c =? c_minus then 95 else c) :: upcase_name s'
  end.

Fixpoint add_headers (hs : list (bytes * bytes)) (blk : cgi_env_block) : M cgi_env_block :=
  match hs with
  | [] => mret blk
  | (name, value) :: hs' =>
      blk ← addenv (B "HTTP_%s=%s") (B "HTTP_" ++ name ++ B "=" ++ value) upcase_name blk;
      add_headers hs' blk
  end.

Fixpoint add_user_vars (l : list (vec * option vec)) (blk : cgi_env_block) : M cgi_env_block :=
  match l with
  | [] => mret blk
  | (var_vec, _) :: l' =>
      blk ← addenv (B "%.*s") (vec_str var_vec) id blk;
      add_user_vars l' blk
  end.

Definition opt_var (name : bytes) (value : option bytes) : list (bytes * bytes * bytes) :=
  match value with Some v => [(name, B "%s", v)] | None => [] end.

(** The variables in front of SCRIPT_NAME, and the others. *)
Definition server_vars (c : conn) : list (bytes * bytes * bytes) :=
  let root := default (B "(null)") (cfg (config_of c) DOCUMENT_ROOT) in
  let ri := request_info c in
  [(B "SERVER_NAME=", B "%s", default (B "(null)") (cfg (config_of c) AUTHENTICATION_DOMAIN));
   (B "SERVER_ROOT=", B "%s", root); (B "DOCUMENT_ROOT=", B "%s", root);
   ([], B "%s", B "GATEWAY_INTERFACE=CGI/1.1"); ([], B "%s", B "SERVER_PROTOCOL=HTTP/1.1");
   ([], B "%s", B "REDIRECT_STATUS=200");
   (B "SERVER_PORT=", B "%d", dec (snd (lsa (client c))));
   (B "REQUEST_METHOD=", B "%s", default (B "(null)") (request_method ri));
   (B "REMOTE_ADDR=", B "%s", sockaddr_to_string 20 (rsa (client c)));
   (B "REMOTE_PORT=", B "%d", dec (remote_port ri));
   (B "REQUEST_URI=", B "%s", default (B "(null)") (uri ri))].

Definition script_vars (c : conn) (prog : bytes) : list (bytes * bytes * bytes) :=
  let ri := request_info c in
  let u := default [] (uri ri) in
  let slash := default 0%nat (find_last c_slash u) in
  let s := match find_last c_slash prog with Some i => drop i prog | None => prog end in
  [(B "SCRIPT_NAME=", B "%.*s%s", take slash u ++ s); (B "SCRIPT_FILENAME=", B "%s", prog); (B "PATH_TRANSLATED=", B "%s", prog);
   (B "HTTPS=", B "%s", if is_ssl (client c) then B "on" else B "off")]
  ++ opt_var (B "CONTENT_TYPE=") (header_of c (B "Content-Type"))
  ++ opt_var (B "QUERY_STRING=") (query_string ri)
  ++ opt_var (B "CONTENT_LENGTH=") (header_of c (B "Content-Length"))
  ++ opt_var (B "PATH=") (os_getenv (B "PATH"))
  ++ opt_var (B "PATH_INFO=") (path_info c)
  ++ opt_var (B "LD_LIBRARY_PATH=") (os_getenv (B "LD_LIBRARY_PATH"))
  ++ opt_var (B "PERLLIB=") (os_getenv (B "PERLLIB"))
  ++ match remote_user ri with
     | Some u => [(B "REMOTE_USER=", B "%s", u); ([], B "%s", B "AUTH_TYPE=Digest")]
     | None => []
     end.

(** The environment; the last pointer of [vars] is NULL and the last byte of [buf] 0. *)
Definition prepare_cgi_environment (prog : bytes) : M (list bytes) :=
  c ← get_conn;
  blk ← addenvs (server_vars c) (CgiEnv 0 []);
  _ ← assert_ (chr (default [] (uri (request_info c))) =? c_slash);
  blk ← addenvs (script_vars c prog) blk;
  blk ← add_headers (http_headers (request_info c)) blk;
  blk ← add_user_vars (option_list (cfg (config_of c) CGI_ENVIRONMENT) false) blk;
  let len := blk_len blk + 1 in
  _ ← assert_ (length (blk_vars blk) + 1 <? MAX_CGI_ENVIR_VARS)%nat;
  _ ← assert_ (0 <? len);
  _ ← assert_ (len <? CGI_ENVIRONMENT_SIZE);
  mret (blk_vars blk).

(** ** The program *)

(** [pull(fp, ...)]: a read from the program's output, of which [chunks] is left. *)
Definition pull_file (n : nat) (chunks : list bytes) : M (Z * bytes * list bytes) :=
  let '(d, rest) := match chunks with
                    | [] => ([], [])
                    | d :: rest =>
                        (take n d, if bool_decide (drop n d = []) then rest else drop n d :: rest)
                    end in
  stop ← stop_requested;
  mret (if (stop : bool) then -1 else Z.of_nat (length d), d, rest).

(** [read_request(out, conn, buf, bufsiz, &data_len)]: the loop, with what has been read
    and what is left. *)
Fixpoint read_reply_loop (fuel : nat) (bufsiz : nat) (data : bytes) (n : Z) (chunks : list bytes)
    : M (Z * bytes * list bytes) :=
  let request_len := get_request_len data (length data) in
  let result := if (request_len <=? 0) && (n <=? 0) then -1 else request_len in
  match fuel with
  | O => mret (result, data, chunks)
  | S fuel' =>
      if (length data <? bufsiz)%nat && (request_len =? 0) then
        '(n, d, chunks) ← pull_file (bufsiz - length data) chunks;
        if 0 <? n then read_reply_loop fuel' bufsiz (data ++ d) n chunks
        else mret (if request_len <=? 0 then -1 else request_len, data, chunks)
      else mret (result, data, chunks)
  end.

Fixpoint send_headers (hs : list (bytes * bytes)) : M unit :=
  match hs with
  | [] => mret tt
  | (name, value) :: hs' => _ ← mg_printf (name ++ B ": " ++ value ++ crlf); send_headers hs'
  end.

Fixpoint skip_status (s : bytes) : bytes :=
  match s with
  | c :: s' => if isdigit c || (c =? c_space) then skip_status s' else s
  | [] => []
  end.

(** The reply to the client, made of what the program has written.  When the program
    sends no header, the number of headers has no value. *)
Definition send_cgi_reply (headers_len : Z) (data : bytes) (chunks : list bytes) : M unit :=
  let hs := parse_http_headers max_headers (take (Z.to_nat (headers_len - 1)) data) in
  match hs with
  | [] => abort
  | _ =>
      let status := get_header hs (B "Status") in
      _ ← modify (set_status match status with
                             | Some s => atoi s
                             | None => match get_header hs (B "Location") with
                                       | Some _ => 302
                                       | None => 200
                                       end
                             end);
      _ ← (if match get_header hs (B "Connection") with
              | Some v => mg_strcasecmp v (B "keep-alive") =? 0
              | None => false
              end
           then modify (set_must_close true) else mret tt);
      c ← get_conn;
      let status_text := match status with Some s => skip_status s | None => B "OK" end in
      _ ← mg_printf (B "HTTP/1.1 " ++ dec (status_code c) ++ B " " ++ status_text ++ crlf);
      _ ← send_headers hs;
      _ ← mg_write crlf;
      n ← mg_write (drop (Z.to_nat headers_len) data);
      _ ← modify (add_sent n);
      send_file_data (concat chunks) 0 0 INT64_MAX
  end.

(** The pipe to the program. *)
Definition cgi_stdin (prog : bytes) : bytes := B "|" ++ prog.
Definition num_effects : M nat := fun w => Some (length (fx w), w).
Definition written_since (n : nat) (path : bytes) : M bytes := fun w =>
  Some (flat_map (fun e => default [] (write_of path e)) (drop n (fx w)), w).

(** The parent's side: whether there is a child, which executes the program or the
    interpreter in the directory.  What the child then does is part of [proc]. *)
Definition spawn_process (proc : cgi_process) (p : bytes) (env : list bytes) (dir : bytes) : M bool :=
  match proc with
  | NoFork =>
      _ ← send_http_error 500 http_500_error (B "fork(): " ++ os_strerror);
      mret false
  | _ =>
      c ← get_conn;
      let argv := match cfg (config_of c) CGI_INTERPRETER with Some interp => [interp; p] | None => [p] end in
      _ ← emit (FxExec argv env dir);
      mret true
  end.

(** The body of a POST goes to the program: what it is given, or [None] if that fails. *)
Definition feed_cgi (p : bytes) : M (option bytes) :=
  c ← get_conn;
  k ← num_effects;
  ok ← (if streq (default [] (request_method (request_info c))) (B "POST")
        then forward_body_data (cgi_stdin p) else mret true);
  if negb ok then mret None
  else
    input ← written_since k (cgi_stdin p);
    mret (Some input).

(** The reply of the program goes to the client. *)
Definition answer_cgi (chunks : list bytes) : M unit :=
  '(headers_len, data, chunks) ← read_reply_loop (Z.to_nat 16384) (Z.to_nat 16384) [] 0 chunks;
  if headers_len <=? 0 then
    send_http_error 500 http_500_error
      (B "CGI program sent malformed or too big (>16384 bytes) HTTP headers: [" ++ until_nul data ++ B "]")
  else send_cgi_reply headers_len data chunks.

Definition talk_to_cgi (p : bytes) (output : bytes -> list bytes) : M unit :=
  input ← feed_cgi p;
  match input with
  | None => mret tt
  | Some input => answer_cgi (output input)
  end.

(** The directory in which the program is executed, and its name there. *)
Definition cgi_place (prog : bytes) : bytes * bytes :=
  let path := mg_snprintf PATH_MAX prog in
  match find_last c_slash path with
  | Some i => (take i path, drop (S i) path)
  | None => (B ".", prog)
  end.

(** What is done once it is known whether there are pipes, a child and streams. *)
Definition run_cgi (proc : cgi_process) (prog : bytes) (env : list bytes) (dir p : bytes) : M unit :=
  match proc with
  | NoPipe => send_http_error 500 http_500_error (B "Cannot create CGI pipe: " ++ os_strerror)
  | proc =>
      spawned ← spawn_process proc p env dir;
      if negb spawned then
        send_http_error 500 http_500_error (B "Cannot spawn CGI process [" ++ prog ++ B "]: " ++ os_strerror)
      else match proc with
           | Running output => talk_to_cgi p output
           | _ => send_http_error 500 http_500_error (B "fopen: " ++ os_strerror)
           end
  end.

Definition handle_cgi_request (prog : bytes) : M unit :=
  env ← prepare_cgi_environment prog;
  let '(dir, p) := cgi_place prog in
  run_cgi (os_cgi env dir p) prog env dir p.
End cgi.

(** ** The environment fits *)

(** The bytes of the strings with their NULs. *)
Definition env_bytes (vars : list bytes) : Z := foldr (fun v n => Z.of_nat (length v) + 1 + n) 0 vars.

Lemma env_bytes_snoc vars v : env_bytes (vars ++ [v]) = env_bytes vars + Z.of_nat (length v) + 1.
Proof. unfold env_bytes. induction vars; simpl in *; lia. Qed.

Definition blk_inv (blk : cgi_env_block) : Prop :=
  blk_len blk = env_bytes (blk_vars blk) /\ 0 <= blk_len blk <= CGI_ENVIRONMENT_SIZE - 3 /\
  (length (blk_vars blk) <= MAX_CGI_ENVIR_VARS - 2)%nat.

Lemma upcase_name_length s : length (upcase_name s) = length s.
Proof. induction s as [|c s IH]; simpl; [done|]. case_match; simpl; lia. Qed.

Section env.
Context `{OS}.

Lemma addenv_ok fmt text up blk w :
  blk_inv blk -> (forall s, length (up s) = length s) ->
  exists blk' w', addenv fmt text up blk w = Some (blk', w') /\ blk_inv blk' /\ logged w w'.
Proof.
  intros (Hl & Hb & Hn) Hup. unfold addenv. set (space := CGI_ENVIRONMENT_SIZE - blk_len blk - 2).
  unfold CGI_ENVIRONMENT_SIZE in *. unfold mbind at 1, M_bind at 1, assert_.
  destruct (Z.leb_spec 0 space); [|lia]. unfold mret at 1, M_ret at 1.
  set (n := if space <? 1 then 0 else _).
  destruct ((0 <? n) && (n + 1 <? space) && (length (blk_vars blk) <? MAX_CGI_ENVIR_VARS - 2)%nat) eqn:E.
  - apply andb_true_iff in E as [[E1%Z.ltb_lt E2%Z.ltb_lt]%andb_true_iff E3%Nat.ltb_lt].
    eexists _, w. split; [reflexivity|]. split; [|apply logged_refl].
    assert (n = Z.of_nat (length text)) as En.
    { unfold n in *. destruct (Z.ltb_spec space 1); lia. }
    unfold blk_inv, CGI_ENVIRONMENT_SIZE. cbn [blk_len blk_vars]. rewrite env_bytes_snoc, Hup, length_app. simpl.
    unfold space, MAX_CGI_ENVIR_VARS in *. split_and!; lia.
  - unfold mbind, M_bind. destruct (cry_spec (B "addenv: CGI env buffer truncated for [" ++ fmt ++ B "]") w)
      as (w' & -> & Hw). by exists blk, w'.
Qed.

Lemma logged_trans w1 w2 w3 : logged w1 w2 -> logged w2 w3 -> logged w1 w3.
Proof.
  intros [A1 A2 A3 A4 A5 A6 (l & A7 & A8)] [B1 B2 B3 B4 B5 B6 (l' & B7 & B8)].
  constructor; try congruence. exists (l ++ l'). split; [by rewrite B7, A7, app_assoc|by apply Forall_app].
Qed.

(** A computation on the block that keeps it consistent and only logs. *)
Definition grows (f : cgi_env_block -> M cgi_env_block) : Prop :=
  forall blk w, blk_inv blk -> exists blk' w', f blk w = Some (blk', w') /\ blk_inv blk' /\ logged w w'.

Lemma grows_step fmt text up (f : cgi_env_block -> M cgi_env_block) :
  (forall s, length (up s) = length s) -> grows f ->
  grows (fun blk => blk ← addenv fmt text up blk; f blk).
Proof.
  intros Hup Hf blk w Hb. unfold mbind, M_bind.
  destruct (addenv_ok fmt text up blk w Hb Hup) as (blk1 & w1 & -> & Hb1 & Hw1).
  destruct (Hf blk1 w1 Hb1) as (blk2 & w2 & -> & Hb2 & Hw2).
  exists blk2, w2. split_and!; [done|done|by eapply logged_trans].
Qed.

Lemma grows_ret : grows mret.
Proof. intros blk w Hb. exists blk, w. split_and!; [done|done|apply logged_refl]. Qed.

Lemma grows_addenvs l : grows (addenvs l).
Proof.
  induction l as [|[[name conv] value] l IH]; [apply grows_ret|]. by apply grows_step.
Qed.
Lemma grows_headers hs : grows (add_headers hs).
Proof.
  induction hs as [|[name value] hs IH]; [apply grows_ret|]. apply grows_step; [apply upcase_name_length|done].
Qed.
Lemma grows_user_vars l : grows (add_user_vars l).
Proof. induction l as [|[v o] l IH]; [apply grows_ret|]. by apply grows_step. Qed.

(** C35. The environment of a CGI program fits: for a URI that starts with a slash, and
    whatever headers, options and variables there are, none of the assertions of
    [addenv] and [prepare_cgi_environment] fails; the strings with their NULs and the
    final NUL take less than the 4096 bytes of the block, and there are fewer than 64
    pointers with the final NULL. *)
Theorem cgi_environment_fits (prog : bytes) (w : world) :
  chr (default [] (uri (request_info (cn w)))) = c_slash ->
  exists env w', prepare_cgi_environment prog w = Some (env, w') /\
    env_bytes env + 1 < CGI_ENVIRONMENT_SIZE /\ (length env + 1 < MAX_CGI_ENVIR_VARS)%nat /\
    cn w' = cn w /\ sent w' = sent w.
Proof.
  intros Hu. unfold prepare_cgi_environment, mbind, M_bind, get_conn.
  destruct (grows_addenvs (server_vars (cn w)) (CgiEnv 0 []) w) as (b1 & w1 & -> & I1 & L1);
    [unfold blk_inv, CGI_ENVIRONMENT_SIZE, MAX_CGI_ENVIR_VARS; cbn; lia|].
  rewrite Hu. unfold assert_ at 1. cbn [Z.eqb Pos.eqb]. unfold mret at 1, M_ret at 1.
  destruct (grows_addenvs (script_vars (cn w) prog) b1 w1 I1) as (b2 & w2 & -> & I2 & L2).
  destruct (grows_headers (http_headers (request_info (cn w))) b2 w2 I2) as (b3 & w3 & -> & I3 & L3).
  destruct (grows_user_vars (option_list (cfg (config_of (cn w)) CGI_ENVIRONMENT) false) b3 w3 I3)
    as (b4 & w4 & -> & (E4 & B4 & N4) & L4).
  pose proof (logged_trans _ _ _ L1 (logged_trans _ _ _ L2 (logged_trans _ _ _ L3 L4))) as L.
  unfold CGI_ENVIRONMENT_SIZE, MAX_CGI_ENVIR_VARS in *. unfold assert_.
  rewrite (proj2 (Nat.ltb_lt _ _)), (proj2 (Z.ltb_lt 0 _)), (proj2 (Z.ltb_lt _ 4096)) by lia.
  unfold mret, M_ret. exists (blk_vars b4), w4.
  split_and!; [done|lia|lia|apply (lg_cn _ _ L)|apply (lg_sent _ _ L)].
Qed.
End env.

Lemma cgi_environment_fits_witness :
  let os := small_os [] [] in
  let w := quiet (get_conn_for (B "/x.cgi") [(B "X-Long", replicate (Z.to_nat 5000) 65); (B "Host", B "h")]) [] in
  exists env w', @prepare_cgi_environment os (B "/w/x.cgi") w = Some (env, w') /\
    env_bytes env + 1 < CGI_ENVIRONMENT_SIZE /\ (length env + 1 < MAX_CGI_ENVIR_VARS)%nat /\
    cn w' = cn w /\ sent w' = sent w.
Proof.
  intros os w. apply (@cgi_environment_fits os (B "/w/x.cgi") w). by_eval.
Defined.
