(* ===== verification/Server.v ===== *)
(** * Dispatching requests

    [convert_uri_to_file_name], [substitute_index_file], [redirect_to_https_port] and
    [handle_request] of src/mongoose.c, with the callbacks of src/tinyweb.c: the
    handler that the connection loop calls.  No file is changed for a client that has
    not logged in for it, and a request that a password file guards gets nothing but a
    challenge without the right digest. *)

From S2P Require Import Prelude CString Options Pattern UriPath UrlCodec Md5 SocketQueue HttpRequest Scanf Access Conn WebSocket Os Auth Files Connection Put Listing Ssi Cgi.

(** ** From the URI to a file *)

(** The memory of the URI after decoding and cleaning it in place; [u] is the text in
    front of the query. *)
Definition clean_uri (u : bytes) : bytes :=
  remove_double_dots_and_double_slashes
    (splice (u ++ [0]) 0 (fst (mg_url_decode u (Z.of_nat (length u) + 1) false))).

(** The URI and the query string that follows its first [?]. *)
Definition split_query (u : bytes) : bytes * option bytes :=
  match find_byte c_quest u with
  | Some i => (take i u, Some (drop (S i) u))
  | None => (u, None)
  end.

Definition set_uri (u : bytes) (query : option bytes) (c : conn) : conn :=
  let ri := request_info c in
  set_request_info (RequestInfo (request_method ri) (Some u) (http_version ri) query (remote_user ri)
    (remote_ip ri) (remote_port ri) (ri_is_ssl ri) (http_headers ri)) c.

Section paths.
Context `{OS}.

(** The first rule of [rewrite] that matches the URI gives the path. *)
Fixpoint rewrite_loop (u buf : bytes) (rules : list (vec * option vec)) : bytes :=
  match rules with
  | [] => buf
  | (a, b) :: rules' =>
      let match_len := match_prefix (vec_str a) u in
      if 0 <? match_len then mg_snprintf (PATH_MAX - 1) (ovec_str b ++ drop (Z.to_nat match_len) u)
      else rewrite_loop u buf rules'
  end.

(** The longest prefix of the path, up to a slash at offset [i] or before, that is a
    CGI program: its name, the rest and its state. *)
Fixpoint path_info_loop (i : nat) (cgi buf : bytes) : option (bytes * bytes * file_stat) :=
  match i with
  | O | 1%nat => None
  | S i' =>
      let prog := take i buf in
      if (at_ buf i =? c_slash) && (0 <? match_prefix cgi prog) && fst (mg_stat prog)
      then Some (prog, drop i buf, snd (mg_stat prog))
      else path_info_loop i' cgi buf
  end.

Definition convert_uri_to_file_name : M (bytes * file_stat) :=
  c ← get_conn;
  let u := default [] (uri (request_info c)) in
  let root := default (B "(null)") (cfg (config_of c) DOCUMENT_ROOT) in
  let buf := rewrite_loop u (mg_snprintf (PATH_MAX - 1) (root ++ u))
               (option_list (cfg (config_of c) REWRITE) true) in
  let '(found, st) := mg_stat buf in
  if found then mret (buf, st)
  else match path_info_loop (length buf) (default [] (cfg (config_of c) CGI_EXTENSIONS)) buf with
       | Some (prog, info, st) =>
           _ ← modify (set_path_info (Some info));
           mret (prog, st)
       | None => mret (buf, FileStat (st_size st) 0 (st_isdir st))
       end.

Fixpoint strip_slashes (n : nat) (path : bytes) : nat :=
  match n with
  | O => O
  | S n' => if at_ path n' =? c_slash then strip_slashes n' path else n
  end.

Fixpoint index_loop (n : nat) (path : bytes) (files : list (vec * option vec)) : option (bytes * file_stat) :=
  match files with
  | [] => None
  | (v, _) :: files' =>
      if (PATH_MAX - (n + 2) <? v_len v)%nat then index_loop n path files'
      else
        let file := take n path ++ B "/" ++ vec_str v in
        if fst (mg_stat file) then Some (file, snd (mg_stat file)) else index_loop n path files'
  end.

(** Whether an index file is found, and the path and state after the call. *)
Definition substitute_index_file (c : conn) (path : bytes) (st : file_stat) : bool * bytes * file_stat :=
  let n := strip_slashes (length path) path in
  match index_loop n path (option_list (cfg (config_of c) INDEX_FILES) false) with
  | Some (file, st') => (true, file, st')
  | None => (false, take n path, st)
  end.
End paths.

Definition is_put_or_delete_request (c : conn) : bool :=
  match request_method (request_info c) with
  | Some s => streq s (B "PUT") || streq s (B "DELETE")
  | None => false
  end.

Fixpoint get_first_ssl_listener_index (l : list socket) : option nat :=
  match l with
  | [] => None
  | so :: l' => if is_ssl so then Some 0%nat else S <$> get_first_ssl_listener_index l'
  end.

(** A Host header that is empty leaves [host] without a value. *)
Definition redirect_to_https_port (listeners : list socket) (ssl_index : nat) : M unit :=
  c ← get_conn;
  let own := sockaddr_to_string 1025 (lsa (client c)) in
  host ← match header_of c (B "Host") with
         | None => mret own
         | Some h =>
             match sscanf h [Pnot (Some (Z.to_nat 1024)) [c_colon] true] with
             | (1, [SStr host]) => mret host
             | (0, _) => mret own
             | _ => abort
             end
         end;
  let port := from_option (fun so => snd (lsa so)) 0 (listeners !! ssl_index) in
  _ ← mg_printf (B "HTTP/1.1 302 Found" ++ crlf ++ B "Location: https://" ++ host ++ B ":" ++ dec port
                 ++ default [] (uri (request_info c)) ++ crlf ++ crlf);
  mret tt.

(** ** The dispatcher *)

Section server.
Context `{OS} `{Doubles}.
(** The byte order of the machine and the listening sockets; what the websocket code
    finds in uninitialised memory, and the rounds its loop may make. *)
Context (big : bool) (listeners : list socket) (sha_buffer : bytes) (junk : nat -> bytes)
  (ws_fuel : nat) (ws_mem : bytes).

(** The URI is decoded in place, the path found, the throttle set: [path], [file] and
    the byte of the URI at [uri_len - 1]. *)
Definition prepare_request : M (bytes * file_stat * Z) :=
  c ← get_conn;
  let '(u, query) := split_query (default [] (uri (request_info c))) in
  let mem := clean_uri u in
  _ ← modify (set_uri (until_nul mem) query);
  '(path, st) ← convert_uri_to_file_name;
  match set_throttle (cfg (config_of c) THROTTLE) (fst (rsa (client c))) (until_nul mem) with
  | None => abort
  | Some t =>
      _ ← modify (set_throttle_rate t);
      mret (path, st, at_ mem (length u - 1))
  end.

Definition delete_file (path : bytes) : M unit :=
  if os_remove path then
    _ ← emit (FxRemove path);
    send_http_error 200 (B "OK") []
  else send_http_error 500 http_500_error (B "remove(" ++ path ++ B "): " ++ os_strerror).

Definition ext_match (c : conn) (option : nat) (path : bytes) : bool :=
  0 <? match_prefix (default [] (cfg (config_of c) option)) path.

(** A file or directory that is there and may be shown. *)
Definition serve_path (path : bytes) (st : file_stat) (last_byte : Z) : M unit :=
  c ← get_conn;
  let ri := request_info c in
  let method := default [] (request_method ri) in
  if st_isdir st && negb (last_byte =? c_slash) then
    _ ← mg_printf (B "HTTP/1.1 301 Moved Permanently" ++ crlf
                   ++ B "Location: " ++ default [] (uri ri) ++ B "/" ++ crlf ++ crlf);
    mret tt
  else if streq method (B "PROPFIND") then handle_propfind path st
  else
    let '(found, path, st) := if st_isdir st then substitute_index_file c path st else (true, path, st) in
    if negb found then
      if mg_strcasecmp (default [] (cfg (config_of c) ENABLE_DIRECTORY_LISTING)) (B "yes") =? 0
      then handle_directory_request path
      else send_http_error 403 (B "Directory Listing Denied") (B "Directory listing denied")
    else if ext_match c CGI_EXTENSIONS path then
      if negb (streq method (B "POST")) && negb (streq method (B "HEAD")) && negb (streq method (B "GET"))
      then send_http_error 501 (B "Not Implemented") (B "Method " ++ method ++ B " is not implemented")
      else handle_cgi_request path
    else if ext_match c SSI_EXTENSIONS path then handle_ssi_file_request path
    else if is_not_modified c st then send_http_error 304 (B "Not Modified") []
    else handle_file_request path st.

(** What is done for a request that may be served. *)
Definition dispatch (path : bytes) (st : file_stat) (last_byte : Z) : M unit :=
  c ← get_conn;
  let method := default [] (request_method (request_info c)) in
  if is_websocket_request c then
    handle_websocket_request big sha_buffer junk websocket_data_handler ws_fuel ws_mem
  else if streq method (B "OPTIONS") then send_options
  else match cfg (config_of c) DOCUMENT_ROOT with
  | None => send_http_error 404 (B "Not Found") (B "Not Found")
  | Some _ =>
      allowed ← (if is_put_or_delete_request c then
                   match cfg (config_of c) PUT_DELETE_PASSWORDS_FILE with
                   | None => mret false
                   | Some _ => is_authorized_for_put big
                   end
                 else mret true);
      if negb allowed then send_authorization_request
      else if streq method (B "PUT") then put_file path
      else if streq method (B "DELETE") then delete_file path
      else if (st_mtime st =? 0) || must_hide_file (config_of c) path then
        send_http_error 404 (B "Not Found") (B "File not found")
      else serve_path path st last_byte
  end.

Definition handle_request : RequestHandler :=
  '(path, st, last_byte) ← prepare_request;
  c ← get_conn;
  match (if negb (is_ssl (client c)) && ssl_redir (client c)
         then get_first_ssl_listener_index listeners else None) with
  | Some ssl_index => redirect_to_https_port listeners ssl_index
  | None =>
      authorized ← (if is_put_or_delete_request c then mret true else check_authorization big path);
      if negb authorized then send_authorization_request else dispatch path st last_byte
  end.
End server.
