(* ===== verification/Frame.v ===== *)
(** * What a request may do

    The computations of a handler follow a discipline: the effects satisfy some
    property, the headers, method and configuration stay, and input only moves from the
    socket to the buffer or is dropped.  A computation keeps the discipline when all
    its parts do.  So no file is changed for a client that has not logged in for it.
    Besides: a request for a guarded path gets a challenge and nothing else, and a
    websocket upgrade that announces a body aborts the server. *)

From S2P Require Import Prelude CString Options Pattern UrlCodec Md5 Sha1 Base64 SocketQueue HttpRequest Scanf Access Conn WebSocket Os Auth Files Connection Put Listing Ssi Cgi Server.

(** Effects on the files of the server: not the logs, the programs that are run and
    the pipes to them. *)
Definition changes_files (e : effect) : bool :=
  match e with
  | FxCreate _ | FxRemove _ | FxMkdir _ | FxRename _ _ | FxSeek _ _ => true
  | FxWrite p _ => negb (starts_with p (B "|"))
  | FxAppend _ _ | FxExec _ _ _ | FxCommand _ | FxKill _ | FxLog _ => false
  end.

(** How many bytes the client will send. *)
Definition rx_bytes (w : world) : Z := Z.of_nat (length (stream (rx w))).

(** Who asks, for what, and how much is announced. *)
Definition same_request (c c' : conn) : Prop :=
  request_method (request_info c') = request_method (request_info c) /\
  http_headers (request_info c') = http_headers (request_info c) /\
  config_of c' = config_of c /\ request_len c' = request_len c /\ content_len c' = content_len c.

(** The request is in the buffer. *)
Definition request_in (c : conn) : Prop :=
  0 <= request_len c <= data_len c /\ data_len c <= Z.of_nat (buf_size c).

(** What the client has sent and will send. *)
Definition input_bytes (w : world) : Z := data_len (cn w) + rx_bytes w.

(** The worlds that computations with effects in [P] can lead to. *)
Record calm (P : effect -> Prop) (w w' : world) : Prop := {
  ca_fx : exists l, fx w' = fx w ++ l /\ Forall P l;
  ca_rx : rx_bytes w' <= rx_bytes w;
  ca_same : same_request (cn w) (cn w');
  ca_total : request_in (cn w) ->
    request_in (cn w') /\ buf_size (cn w') = buf_size (cn w) /\ input_bytes w' <= input_bytes w
}.

Definition keeps (P : effect -> Prop) {A} (m : M A) : Prop := forall w r w', m w = Some (r, w') -> calm P w w'.

Create HintDb keeps.

Section keeps.
Context (P : effect -> Prop).
Hypothesis HP : forall e, changes_files e = false -> P e.
Local Abbreviation calm := (calm P).
Local Abbreviation keeps := (keeps P).

Lemma same_request_refl c : same_request c c.
Proof. by unfold same_request. Qed.

Lemma calm_refl w : calm w w.
Proof. constructor; [|lia|apply same_request_refl|done]. exists []. by rewrite app_nil_r. Qed.

Lemma calm_trans w1 w2 w3 : calm w1 w2 -> calm w2 w3 -> calm w1 w3.
Proof.
  intros [(l1 & F1 & P1) R1 Q1 T1] [(l2 & F2 & P2) R2 Q2 T2].
  destruct Q1 as (A1 & B1 & C1 & D1 & E1), Q2 as (A2 & B2 & C2 & D2 & E2).
  constructor; [|lia|by split_and!; etransitivity|].
  - exists (l1 ++ l2). split; [by rewrite F2, F1, app_assoc|by apply Forall_app].
  - intros I. destruct (T1 I) as (I2 & ? & ?). destruct (T2 I2) as (? & ? & ?). split_and!; [done|lia|lia].
Qed.

Lemma keeps_ret {A} (a : A) : keeps (mret a).
Proof. intros w r w' [= <- <-]. apply calm_refl. Qed.

Lemma keeps_bind {A B} (m : M A) (f : A -> M B) : keeps m -> (forall a, keeps (f a)) -> keeps (m ≫= f).
Proof.
  intros Hm Hf w r w' E. unfold mbind, M_bind in E. destruct (m w) as [[a w1]|] eqn:Em; [|done].
  eapply calm_trans; [by eapply Hm|by eapply Hf].
Qed.

Lemma keeps_abort {A} : keeps (abort : M A).
Proof. by intros w r w'. Qed.

Lemma keeps_assert b : keeps (assert_ b).
Proof. destruct b; [apply keeps_ret|apply keeps_abort]. Qed.

(** Same connection data, input and effects. *)
Lemma calm_same w w' :
  fx w' = fx w -> stream (rx w') = stream (rx w) ->
  same_request (cn w) (cn w') -> data_len (cn w') = data_len (cn w) -> buf (cn w') = buf (cn w) -> calm w w'.
Proof.
  intros F R Q D U. constructor; unfold request_in, input_bytes, rx_bytes, buf_size; rewrite ?R, ?D, ?U; [|lia|done|].
  - exists []. by rewrite app_nil_r.
  - destruct Q as (_ & _ & _ & -> & _). done.
Qed.

Lemma keeps_emit e : P e -> keeps (emit e).
Proof.
  intros He w r w' [= <- <-]. constructor; [|unfold rx_bytes; simpl; lia|apply same_request_refl|done].
  exists [e]. split; [done|by apply Forall_singleton].
Qed.

Lemma keeps_modify f :
  (forall c, same_request c (f c) /\ data_len (f c) = data_len c /\ buf (f c) = buf c) -> keeps (modify f).
Proof. intros Hf w r w' [= <- <-]. destruct (Hf (cn w)) as (? & ? & ?). by apply calm_same. Qed.

Lemma keeps_get_conn : keeps get_conn.
Proof. intros w r w' [= <- <-]. apply calm_refl. Qed.
Lemma keeps_time : keeps time.
Proof. intros w r w' [= <- <-]. apply calm_same; done || apply same_request_refl. Qed.
Lemma keeps_malloc : keeps malloc.
Proof. intros w r w' [= <- <-]. by apply calm_same. Qed.
Lemma keeps_stop : keeps stop_requested.
Proof. intros w r w' [= <- <-]. by apply calm_same. Qed.

Lemma keeps_mg_write d : keeps (mg_write d).
Proof.
  intros w r w'. unfold mg_write, mbind, M_bind. destruct (mg_write64_spec d w) as (n & k & w1 & -> & _ & Hw & _).
  intros [= <- <-]. destruct Hw as [_ (t & b & Hc) Hr _ Hf _ _].
  apply calm_same; [done|by rewrite Hr|by rewrite Hc|by rewrite Hc|by rewrite Hc].
Qed.

Lemma stream_drop n d rx' :
  (length (stream (if bool_decide (drop n d = []) then rx' else RxData (drop n d) :: rx')) + length (take n d)
   = length (stream (RxData d :: rx')))%nat.
Proof.
  pose proof (f_equal length (take_drop n d)) as L. rewrite length_app in L.
  unfold stream. case_bool_decide as E; [rewrite E in L|]; cbn in *; rewrite ?length_app; lia.
Qed.

(** A read takes what it delivers from the input. *)
Lemma recv_takes n w k d w' :
  recv n w = Some ((k, d), w') ->
  rx_bytes w' + Z.of_nat (length d) <= rx_bytes w /\ k <= Z.of_nat (length d) /\ (length d <= n)%nat /\ cn w' = cn w /\ fx w' = fx w.
Proof.
  unfold recv, rx_bytes. destruct (rx w) as [|[b|] rx'] eqn:E; intros [= <- <- <-]; rewrite ?E.
  - simpl. split_and!; done || lia.
  - pose proof (stream_drop n b rx') as Hs. cbn [set_rx rx cn fx]. rewrite length_take in *. split_and!; done || lia.
  - simpl. split_and!; done || lia.
Qed.

Lemma pull_takes n w k d w' :
  pull n w = Some ((k, d), w') ->
  rx_bytes w' + Z.of_nat (length d) <= rx_bytes w /\ k <= Z.of_nat (length d) /\ (length d <= n)%nat /\ cn w' = cn w /\ fx w' = fx w.
Proof.
  unfold pull, mbind, M_bind. destruct (recv n w) as [[[k0 d0] w1]|] eqn:E; [|done].
  apply recv_takes in E as (R & K & N & C & F). unfold stop_requested, mret, M_ret. cbv beta iota zeta.
  destruct (default false (head (stops w1))); intros [= <- <- <-]; cbn [rx_bytes rx cn fx];
    unfold rx_bytes in *; cbn [rx]; (split_and!; done || simpl; lia).
Qed.

Lemma keeps_pull n : keeps (pull n).
Proof.
  intros w [k d] w' E. apply pull_takes in E as (R & _ & _ & C & F).
  constructor; unfold input_bytes; rewrite ?C; [|lia|apply same_request_refl|intros I; split_and!; [done|done|lia]].
  exists []. by rewrite app_nil_r.
Qed.

#[local] Hint Resolve keeps_ret keeps_abort keeps_assert keeps_get_conn keeps_time keeps_malloc keeps_stop
  keeps_mg_write keeps_pull : keeps.
#[local] Hint Extern 1 (keeps (emit _)) => apply keeps_emit, HP; reflexivity : keeps.
#[local] Hint Extern 1 (keeps (modify _)) => apply keeps_modify; intros; repeat split; reflexivity : keeps.

(** Follow the structure of a computation. *)
Ltac solve_keeps :=
  repeat first
    [ solve [eauto 2 with keeps]
    | apply keeps_bind; [|intros ?]
    | match goal with |- keeps (match ?x with _ => _ end) => destruct x end
    | match goal with |- keeps (let '(_, _) := ?x in _) => destruct x end ].

Lemma keeps_mg_printf text : keeps (mg_printf text).
Proof. unfold mg_printf, alloc_vprintf. solve_keeps. Qed.
#[local] Hint Resolve keeps_mg_printf : keeps.

Lemma keeps_send_http_error status reason text : keeps (send_http_error status reason text).
Proof. unfold send_http_error. solve_keeps. Qed.
#[local] Hint Resolve keeps_send_http_error : keeps.

Context `{OS} `{Doubles}.

Lemma keeps_cry text : keeps (cry text).
Proof. unfold cry. solve_keeps. Qed.
#[local] Hint Resolve keeps_cry : keeps.

Lemma keeps_send_file_loop n rest len : keeps (send_file_loop n rest len).
Proof. revert rest len. induction n; intros rest len; cbn [send_file_loop]; solve_keeps. Qed.
#[local] Hint Resolve keeps_send_file_loop : keeps.

Lemma keeps_send_file_data content size offset len : keeps (send_file_data content size offset len).
Proof. unfold send_file_data. solve_keeps. Qed.
#[local] Hint Resolve keeps_send_file_data : keeps.

Lemma keeps_extra_mime path types : keeps (extra_mime_loop path types).
Proof. induction types as [|[e m] types IH]; cbn [extra_mime_loop]; solve_keeps. Qed.
#[local] Hint Resolve keeps_extra_mime : keeps.

Lemma keeps_handle_file_request path st : keeps (handle_file_request path st).
Proof. unfold handle_file_request, get_mime_type. solve_keeps. Qed.

(** *** Authorization *)

Lemma keeps_authorize big content : keeps (authorize big content).
Proof. unfold authorize, parse_auth_header. solve_keeps. Qed.
#[local] Hint Resolve keeps_authorize : keeps.

Lemma keeps_protected_file u rules : keeps (protected_file u rules).
Proof. induction rules as [|[a b] rules IH]; cbn [protected_file]; solve_keeps. Qed.
#[local] Hint Resolve keeps_protected_file : keeps.

Lemma keeps_check_authorization big path : keeps (check_authorization big path).
Proof. unfold check_authorization, open_auth_file. solve_keeps. Qed.

Lemma keeps_is_authorized_for_put big : keeps (is_authorized_for_put big).
Proof. unfold is_authorized_for_put. solve_keeps. Qed.

Lemma keeps_send_authorization_request : keeps send_authorization_request.
Proof. unfold send_authorization_request. solve_keeps. Qed.

(** *** Listings *)

Lemma keeps_print_dir_entry e : keeps (print_dir_entry e).
Proof. unfold print_dir_entry. solve_keeps. Qed.
#[local] Hint Resolve keeps_print_dir_entry : keeps.

Lemma keeps_print_entries l : keeps (print_entries l).
Proof. induction l; cbn [print_entries]; solve_keeps. Qed.
#[local] Hint Resolve keeps_print_entries : keeps.

Lemma keeps_scan_directory {S} dir (cb : de -> S -> M S) s :
  (forall e s, keeps (cb e s)) -> keeps (scan_directory dir cb s).
Proof.
  intros Hcb. assert (forall l s, keeps (scan_entries cb l s)) as Hs
    by (induction l; intros; cbn [scan_entries]; solve_keeps).
  unfold scan_directory. solve_keeps.
Qed.

Lemma keeps_dir_scan_callback e dsd : keeps (dir_scan_callback e dsd).
Proof. unfold dir_scan_callback. solve_keeps. Qed.

Lemma keeps_handle_directory_request dir : keeps (handle_directory_request dir).
Proof.
  unfold handle_directory_request. apply keeps_bind; [apply keeps_scan_directory, keeps_dir_scan_callback|].
  intros ?. solve_keeps.
Qed.

Lemma keeps_print_props u st : keeps (print_props u st).
Proof. unfold print_props. solve_keeps. Qed.
#[local] Hint Resolve keeps_print_props : keeps.

Lemma keeps_print_dav_dir_entry e s : keeps (print_dav_dir_entry e s).
Proof. unfold print_dav_dir_entry. solve_keeps. Qed.

Lemma keeps_handle_propfind path st : keeps (handle_propfind path st).
Proof.
  unfold handle_propfind. pose proof (fun s => keeps_scan_directory path print_dav_dir_entry s keeps_print_dav_dir_entry).
  solve_keeps.
Qed.

Lemma keeps_send_options : keeps send_options.
Proof. unfold send_options. solve_keeps. Qed.

(** *** Server side includes *)

Lemma keeps_store_byte buf c : keeps (store_byte buf c).
Proof. unfold store_byte. solve_keeps. Qed.
#[local] Hint Resolve keeps_store_byte : keeps.

Lemma keeps_ssi_loop rec path in_ssi_tag buf content :
  (forall p c, keeps (rec p c)) -> keeps (ssi_loop rec path in_ssi_tag buf content).
Proof.
  intros Hrec. revert in_ssi_tag buf. induction content as [|ch content IH]; intros in_ssi_tag buf; cbn [ssi_loop].
  - solve_keeps.
  - apply keeps_bind; [|intros []; apply IH].
    unfold ssi_char, ssi_tag, do_ssi_include, do_ssi_exec. solve_keeps.
Qed.

Lemma keeps_send_ssi_file levels path content : keeps (send_ssi_file levels path content).
Proof.
  revert path content. induction levels; intros path content; cbn [send_ssi_file]; [solve_keeps|].
  by apply keeps_ssi_loop.
Qed.
#[local] Hint Resolve keeps_send_ssi_file : keeps.

Lemma keeps_handle_ssi_file_request path : keeps (handle_ssi_file_request path).
Proof. unfold handle_ssi_file_request. solve_keeps. Qed.

(** *** Bodies and CGI *)

Section forward.
Context (path : bytes).
Hypothesis Hpath : forall d, P (FxWrite path d).

Lemma keeps_push_file d : keeps (push_file path d).
Proof. unfold push_file. pose proof (keeps_emit _ (Hpath d)). solve_keeps. Qed.
#[local] Hint Resolve keeps_push_file : keeps.

Lemma keeps_forward_loop fuel n : keeps (forward_loop fuel path n).
Proof. revert n. induction fuel; intros n; cbn [forward_loop]; solve_keeps. Qed.

Lemma keeps_forward_body_data : keeps (forward_body_data path).
Proof.
  assert (keeps (forward_rest path)) by (intros w r w' E; by eapply keeps_forward_loop).
  unfold forward_body_data, forward_buffer. solve_keeps.
Qed.
End forward.

Lemma keeps_cgi_body prog : keeps (forward_body_data (cgi_stdin prog)).
Proof. apply keeps_forward_body_data. intros d. by apply HP. Qed.
#[local] Hint Resolve keeps_cgi_body : keeps.

Lemma keeps_addenv fmt text up blk : keeps (addenv fmt text up blk).
Proof. unfold addenv. solve_keeps. Qed.
#[local] Hint Resolve keeps_addenv : keeps.

Lemma keeps_addenvs l blk : keeps (addenvs l blk).
Proof. revert blk. induction l as [|[[name conv] value] l IH]; intros blk; cbn [addenvs]; solve_keeps. Qed.
Lemma keeps_add_headers l blk : keeps (add_headers l blk).
Proof. revert blk. induction l as [|[name value] l IH]; intros blk; cbn [add_headers]; solve_keeps. Qed.
Lemma keeps_add_user_vars l blk : keeps (add_user_vars l blk).
Proof. revert blk. induction l as [|[v o] l IH]; intros blk; cbn [add_user_vars]; solve_keeps. Qed.
#[local] Hint Resolve keeps_addenvs keeps_add_headers keeps_add_user_vars : keeps.

Lemma keeps_read_reply_loop fuel n data k chunks : keeps (read_reply_loop fuel n data k chunks).
Proof.
  revert data k chunks. induction fuel; intros data k chunks; cbn [read_reply_loop]; unfold pull_file; solve_keeps.
Qed.
Lemma keeps_send_headers l : keeps (send_headers l).
Proof. induction l as [|[name value] l IH]; cbn [send_headers]; solve_keeps. Qed.
#[local] Hint Resolve keeps_read_reply_loop keeps_send_headers : keeps.

Lemma keeps_send_cgi_reply n data chunks : keeps (send_cgi_reply n data chunks).
Proof. unfold send_cgi_reply. solve_keeps. Qed.
Lemma keeps_prepare_cgi_environment prog : keeps (prepare_cgi_environment prog).
Proof. unfold prepare_cgi_environment. solve_keeps. Qed.
Lemma keeps_num_effects : keeps num_effects.
Proof. intros w r w' [= <- <-]. apply calm_refl. Qed.
Lemma keeps_written_since n path : keeps (written_since n path).
Proof. intros w r w' [= <- <-]. apply calm_refl. Qed.
#[local] Hint Resolve keeps_send_cgi_reply keeps_prepare_cgi_environment keeps_num_effects keeps_written_since : keeps.

Lemma keeps_handle_cgi_request prog : keeps (handle_cgi_request prog).
Proof. unfold handle_cgi_request, run_cgi, spawn_process, talk_to_cgi, feed_cgi, answer_cgi. solve_keeps. Qed.

(** *** The websocket *)

Lemma keeps_pull_all n : keeps (pull_all n).
Proof.
  assert (forall k n d, keeps (pull_all_loop k n d)) as Hl; [|apply Hl].
  induction k; intros m d; cbn [pull_all_loop]; solve_keeps.
Qed.
#[local] Hint Resolve keeps_pull_all : keeps.

Lemma keeps_websocket_data flags data n : keeps (websocket_data flags data n).
Proof. unfold websocket_data. solve_keeps. Qed.
#[local] Hint Resolve keeps_websocket_data : keeps.

Lemma keeps_websocket_data_handler flags data n : keeps (websocket_data_handler flags data n).
Proof. unfold websocket_data_handler. solve_keeps. Qed.
#[local] Hint Resolve keeps_websocket_data_handler : keeps.

Lemma keeps_websocket_ready_handler : keeps websocket_ready_handler.
Proof. unfold websocket_ready_handler. solve_keeps. Qed.

Lemma keeps_websocket_handshake big sha : keeps (send_websocket_handshake big sha).
Proof. unfold send_websocket_handshake. solve_keeps. Qed.

(** The data in the buffer may shrink to what is behind the request. *)
Lemma calm_set_data b n w w1 :
  calm w w1 ->
  (request_in (cn w1) -> length b = buf_size (cn w1) /\ request_len (cn w1) <= n <= data_len (cn w1)) ->
  calm w (set_cn (set_data b n (cn w1)) w1).
Proof.
  intros C Hf. eapply calm_trans; [done|].
  constructor; [exists []; by rewrite app_nil_r|unfold rx_bytes; simpl; lia|done|].
  intros I. destruct (Hf I) as [L G]. destruct I as [I1 I2].
  unfold request_in, input_bytes, rx_bytes, buf_size in *. cbn [set_cn set_data cn rx request_len data_len buf].
  rewrite L. split_and!; done || lia.
Qed.

Lemma ws_body_size c : request_in c -> Z.of_nat (length (ws_body c)) = data_len c - request_len c.
Proof. intros [I1 I2]. unfold ws_body, buf_size in *. rewrite length_drop, length_take. lia. Qed.

(** The rest of the body moves to the front. *)
Lemma calm_move n w w1 :
  calm w w1 -> cn w1 = cn w -> (n <= length (ws_body (cn w)))%nat ->
  calm w (set_cn (set_data (splice (buf (cn w1)) (Z.to_nat (request_len (cn w))) (drop n (ws_body (cn w))))
            (data_len (cn w1) - Z.of_nat n) (cn w1)) w1).
Proof.
  intros C E Hn. apply calm_set_data; [done|]. rewrite E. intros I.
  pose proof (ws_body_size _ I) as L. destruct I as [I1 I2].
  unfold buf_size in *. rewrite splice_length by (rewrite length_drop; lia). split; [done|lia].
Qed.

Lemma bind_inv {A B} (m : M A) (f : A -> M B) w r w' :
  (m ≫= f) w = Some (r, w') -> exists a w1, m w = Some (a, w1) /\ f a w1 = Some (r, w').
Proof. unfold mbind, M_bind. destruct (m w) as [[a w1]|]; [|done]. intros E. by exists a, w1. Qed.

Lemma malloc_if_inv (b : bool) w ok w1 :
  (if b then malloc else mret true) w = Some (ok, w1) -> calm w w1 /\ cn w1 = cn w.
Proof.
  intros E. split; [|by destruct b; injection E as <- <-].
  destruct b; [by eapply keeps_malloc|by eapply keeps_ret].
Qed.

Lemma ws_data_calm data header_len n w r w' :
  (header_len <= length (ws_body (cn w)))%nat -> ws_data data header_len n w = Some (r, w') -> calm w w'.
Proof.
  intros Hl. unfold ws_data. intros (c & w0 & [= <- <-] & E)%bind_inv. cbv zeta in E.
  destruct (Z.ltb_spec (Z.of_nat (length (ws_body (cn w)))) (n + Z.of_nat header_len)).
  - apply bind_inv in E as ([k d] & w4 & E4%keeps_pull_all & E).
    apply bind_inv in E as ([] & w5 & [= <-] & [= <- <-]).
    apply calm_set_data; [done|]. intros [I1 I2]. split; [done|lia].
  - apply bind_inv in E as ([] & w4 & [= <-] & [= <- <-]). apply calm_move; [apply calm_refl|done|lia].
Qed.

Lemma keeps_ws_payload junk mem header_len n mask_len : keeps (ws_payload junk mem header_len n mask_len).
Proof.
  intros w r w'. unfold ws_payload. intros (c & w0 & [= <- <-] & E)%bind_inv.
  apply bind_inv in E as (ok & w1 & [C1 E1]%malloc_if_inv & E).
  destruct ok; cbn [negb] in E; [|by injection E as <- <-].
  apply bind_inv in E as ([] & w2 & E2 & E). unfold assert_ in E2.
  destruct (Z.leb_spec (Z.of_nat header_len) (Z.of_nat (length (ws_body (cn w))))); [injection E2 as <-|done].
  apply bind_inv in E as (data & w3 & E3%ws_data_calm & [= <- <-]); [by eapply calm_trans|]. rewrite E1. lia.
Qed.
#[local] Hint Resolve keeps_ws_payload : keeps.

Lemma keeps_read_websocket_loop junk fuel mem : keeps (read_websocket_loop junk websocket_data_handler fuel mem).
Proof.
  revert mem. induction fuel as [|fuel IH]; intros mem; cbn [read_websocket_loop]; [solve_keeps|].
  intros w r w' (c & w0 & [= <- <-] & E)%bind_inv. destruct (ws_header (ws_body (cn w))) as [[[hl n] ml]|].
  { revert E. eapply (keeps_bind _ _ (keeps_ws_payload junk mem hl n ml)). intros p. solve_keeps. }
  apply bind_inv in E as ([n d] & w1 & E1 & E). pose proof (keeps_pull _ _ _ _ E1) as C1.
  apply pull_takes in E1 as (T & K & N & Ec & F).
  destruct (Z.leb_spec n 0); [by injection E as <- <-|].
  apply bind_inv in E as ([] & w2 & [= <-] & E). eapply calm_trans; [|by eapply IH].
  destruct C1 as [Hf Hr Hs _]. constructor; [done|done|done|]. rewrite Ec. intros [I1 I2].
  unfold request_in, input_bytes, rx_bytes, buf_size in *. cbn [set_cn set_data cn rx request_len data_len buf].
  rewrite splice_length by lia. split_and!; done || lia.
Qed.

#[local] Hint Resolve keeps_websocket_ready_handler keeps_websocket_handshake keeps_read_websocket_loop : keeps.

Lemma keeps_handle_websocket_request big sha junk fuel mem :
  keeps (handle_websocket_request big sha junk websocket_data_handler fuel mem).
Proof. unfold handle_websocket_request, read_websocket. solve_keeps. Qed.

(** *** The dispatcher *)

Lemma keeps_redirect listeners i : keeps (redirect_to_https_port listeners i).
Proof. unfold redirect_to_https_port. solve_keeps. Qed.

Lemma keeps_prepare_request : keeps prepare_request.
Proof. unfold prepare_request, convert_uri_to_file_name. solve_keeps. Qed.

#[local] Hint Resolve keeps_handle_propfind keeps_handle_directory_request keeps_handle_cgi_request
  keeps_handle_ssi_file_request keeps_handle_file_request keeps_handle_websocket_request keeps_send_options
  keeps_check_authorization keeps_send_authorization_request keeps_is_authorized_for_put
  keeps_prepare_request keeps_redirect : keeps.

Lemma keeps_serve_path path st b : keeps (serve_path path st b).
Proof. unfold serve_path. solve_keeps. Qed.
#[local] Hint Resolve keeps_serve_path : keeps.

(** PUT and DELETE have effects of their own. *)
Lemma keeps_put_file path : (forall e, P e) -> keeps (put_file path).
Proof.
  intros Hall. assert (forall e, keeps (emit e)) by (intros; by apply keeps_emit).
  assert (forall fuel s res, keeps (put_dir_loop fuel path s res)).
  { induction fuel; intros s res; cbn [put_dir_loop]; solve_keeps. }
  pose proof (keeps_forward_body_data path (fun d => Hall _)).
  unfold put_file, put_dir, put_seek. solve_keeps.
Qed.

Lemma keeps_delete_file path : (forall e, P e) -> keeps (delete_file path).
Proof. intros Hall. unfold delete_file. pose proof (keeps_emit (FxRemove path) (Hall _)). solve_keeps. Qed.

End keeps.

(** ** Who may change files *)

(** The request is a PUT or DELETE, and its sender has logged in with an entry of the
    passwords file for them. *)
Definition may_change `{OS} (big : bool) (c : conn) : Prop :=
  is_put_or_delete_request c = true /\
  exists passfile content, cfg (config_of c) PUT_DELETE_PASSWORDS_FILE = Some passfile /\
    mg_fopen passfile = Some content /\ logged_in big c content.

Lemma may_change_same `{OS} big c c' : same_request c c' -> may_change big c' -> may_change big c.
Proof.
  intros (Em & Eh & Ec & _). unfold may_change, is_put_or_delete_request, logged_in, auth_of, header_of.
  by rewrite Em, Eh, Ec.
Qed.

(** The effects that [may_change] allows. *)
Definition allowed `{OS} (big : bool) (c : conn) (e : effect) : Prop := changes_files e = true -> may_change big c.

Lemma allowed_harmless `{OS} big c e : changes_files e = false -> allowed big c e.
Proof. intros E E'. congruence. Qed.

Section login.
Context `{OS} `{Doubles} (big : bool).
Context (listeners : list socket) (sha_buffer : bytes) (junk : nat -> bytes) (ws_fuel : nat) (ws_mem : bytes).

Lemma is_authorized_for_put_true w w' :
  is_authorized_for_put big w = Some (true, w') -> is_put_or_delete_request (cn w) = true -> may_change big (cn w).
Proof.
  unfold is_authorized_for_put. intros (c & w0 & [= <- <-] & E)%bind_inv Hm. split; [done|].
  destruct (cfg _ _) as [f|]; [|done]. destruct (mg_fopen f) as [content|] eqn:Ef; [|done].
  destruct (authorize_spec big content w) as (b & w1 & E1 & [Hb _] & _). rewrite E in E1. injection E1 as <- <-.
  exists f, content. split_and!; [done|done|by apply Hb].
Qed.

Lemma is_put_or_delete_eq c :
  is_put_or_delete_request c =
  streq (default [] (request_method (request_info c))) (B "PUT")
  || streq (default [] (request_method (request_info c))) (B "DELETE").
Proof. unfold is_put_or_delete_request. by destruct (request_method _). Qed.

(** The check in front of PUT and DELETE. *)
Lemma put_check_inv w ok w1 :
  (if is_put_or_delete_request (cn w) then
     match cfg (config_of (cn w)) PUT_DELETE_PASSWORDS_FILE with
     | None => mret false
     | Some _ => is_authorized_for_put big
     end
   else mret true) w = Some (ok, w1) ->
  calm (allowed big (cn w)) w w1 /\
  (ok = true -> is_put_or_delete_request (cn w) = true -> may_change big (cn w)).
Proof.
  destruct (is_put_or_delete_request (cn w)) eqn:Em.
  2: { intros [= <- <-]. split; [apply calm_refl|done]. }
  destruct (cfg _ _) eqn:Ef.
  - intros E. split; [by eapply keeps_is_authorized_for_put|]. intros -> _. by eapply is_authorized_for_put_true.
  - intros [= <- <-]. split; [apply calm_refl|done].
Qed.

Lemma dispatch_allowed path st b w r w' :
  dispatch big sha_buffer junk ws_fuel ws_mem path st b w = Some (r, w') -> calm (allowed big (cn w)) w w'.
Proof.
  pose proof (allowed_harmless big (cn w)) as HP. unfold dispatch. intros (c' & w0 & [= <- <-] & E)%bind_inv.
  destruct (is_websocket_request (cn w)); [by eapply keeps_handle_websocket_request|].
  destruct (streq _ (B "OPTIONS")); [by eapply keeps_send_options|].
  destruct (cfg _ DOCUMENT_ROOT); [|by eapply keeps_send_http_error].
  apply bind_inv in E as (ok & w1 & [C1 Hok]%put_check_inv & E). eapply calm_trans; [apply C1|].
  destruct ok; cbn [negb] in E; [|by eapply (keeps_send_authorization_request _)].
  rewrite is_put_or_delete_eq in Hok.
  destruct (streq _ (B "PUT")).
  { refine (keeps_put_file _ path _ _ _ _ E). intros e _. by apply Hok. }
  destruct (streq _ (B "DELETE")).
  { refine (keeps_delete_file _ path _ _ _ _ E). intros e _. by apply Hok. }
  clear Hok. destruct (_ || _); [by eapply keeps_send_http_error|]. by eapply (keeps_serve_path _ HP).
Qed.

Lemma calm_weaken (P Q : effect -> Prop) w w' : (forall e, P e -> Q e) -> calm P w w' -> calm Q w w'.
Proof.
  intros HPQ [(l & F & Hl) R Q' T]. constructor; [|done|done|done].
  exists l. split; [done|by eapply Forall_impl].
Qed.

Lemma handle_request_allowed w r w' :
  handle_request big listeners sha_buffer junk ws_fuel ws_mem w = Some (r, w') -> calm (allowed big (cn w)) w w'.
Proof.
  pose proof (allowed_harmless big (cn w)) as HP. unfold handle_request.
  intros ([[path st] b] & w1 & C1%(keeps_prepare_request (allowed big (cn w))) & E)%bind_inv. eapply calm_trans; [apply C1|].
  apply bind_inv in E as (c & w0 & [= <- <-] & E). destruct (if negb (is_ssl _) && _ then get_first_ssl_listener_index listeners else None).
  { by eapply keeps_redirect. }
  apply bind_inv in E as (ok & w2 & E2 & E).
  assert (calm (allowed big (cn w)) w1 w2) as C2.
  { destruct (is_put_or_delete_request _); [injection E2 as <- <-; apply calm_refl|].
    by eapply keeps_check_authorization. }
  eapply calm_trans; [apply C2|]. destruct ok; cbn [negb] in E; [|by eapply (keeps_send_authorization_request _)].
  eapply calm_weaken; [|by eapply dispatch_allowed]. intros e He Hch. apply He in Hch.
  pose proof (ca_same _ _ _ (calm_trans _ _ _ _ C1 C2)) as Hs. by eapply may_change_same.
Qed.

(** C1. Files are changed only for those who may: if serving a request creates, writes,
    renames or removes a file or a directory, then the request is a PUT or a DELETE, a
    passwords file for these methods is configured and opens, and the request carries
    the digest of an entry in it. *)
Theorem changes_need_login (w w' : world) (r : unit) :
  handle_request big listeners sha_buffer junk ws_fuel ws_mem w = Some (r, w') ->
  exists done_, fx w' = fx w ++ done_ /\
    (Exists (fun e => changes_files e = true) done_ -> may_change big (cn w)).
Proof.
  intros [(l & F & Hl) _ _ _]%handle_request_allowed. exists l. split; [done|].
  intros (e & Hin & He)%Exists_exists. by eapply (proj1 (Forall_forall _ _) Hl e).
Qed.
End login.

(** A DELETE request with the digest of an entry of the passwords file. *)
Definition delete_conn : conn :=
  let ha1 := mg_md5 false [B "jing"; B ":"; B "tinyweb"; B ":"; B "secret"] in
  let response := digest_response false ha1 (B "DELETE") (B "/f") (B "1") (B "2") (B "3") (B "auth") in
  let fs := [(B "username", true, B "jing"); (B "nonce", true, B "1"); (B "uri", true, B "/f");
             (B "qop", false, B "auth"); (B "nc", false, B "2");
             (B "cnonce", true, B "3"); (B "response", true, response)] in
  Conn (RequestInfo (Some (B "DELETE")) (Some (B "/f")) (Some (B "1.1")) None None 0 0 false
         [(B "Authorization", B "Digest " ++ print_fields fs)])
    (<[AUTHENTICATION_DOMAIN:=Some (B "tinyweb")]> (<[DOCUMENT_ROOT:=Some (B "/w")]>
       (<[PUT_DELETE_PASSWORDS_FILE:=Some (B "/p")]> (replicate 40 None))))
    inhabitant 0 0 0 0 [] None false 0 0 0 0 0 0.

Definition delete_os : OS :=
  small_os [(B "/w/f", B "x"); (B "/p", mg_modify_passwords false (B "tinyweb") (B "jing") (B "secret") [])] [].

Lemma changes_need_login_witness :
  exists w', @handle_request delete_os whole_numbers false [] [] (fun _ => []) 0 [] (quiet delete_conn [])
    = Some (tt, w') /\ fx w' = [FxRemove (B "/w/f")] /\ @may_change delete_os false delete_conn.
Proof.
  assert (fx ∘ snd <$> @handle_request delete_os whole_numbers false [] [] (fun _ => []) 0 [] (quiet delete_conn [])
          = Some [FxRemove (B "/w/f")]) as E by (vm_compute; reflexivity).
  destruct (handle_request _ _ _ _ _ _ _) as [[[] w']|] eqn:Eh; [|discriminate E]. injection E as E.
  destruct (@changes_need_login delete_os whole_numbers false [] [] (fun _ => []) 0%nat [] (quiet delete_conn []) w' tt Eh)
    as (l & F & Hm). exists w'. split_and!; [done|done|]. apply Hm.
  rewrite E in F. cbn [fx quiet app] in F. subst l. by constructor.
Defined.

(** ** What a guarded request gets *)

(** The reply of [send_authorization_request]. *)
Definition challenge (realm : bytes) (nonce : Z) : bytes :=
  B "HTTP/1.1 401 Unauthorized" ++ crlf ++ B "Content-Length: 0" ++ crlf
  ++ B "WWW-Authenticate: Digest qop=" ++ [c_dquote] ++ B "auth" ++ [c_dquote]
  ++ B ", realm=" ++ [c_dquote] ++ realm ++ [c_dquote]
  ++ B ", nonce=" ++ [c_dquote] ++ dec (wrap64 nonce) ++ [c_dquote] ++ crlf ++ crlf.

Lemma dec_fuel_length fuel n : (length (dec_fuel fuel n) <= fuel)%nat.
Proof.
  revert n. induction fuel as [|fuel IH]; intros n; simpl; [lia|].
  rewrite length_app. specialize (IH (n / 10)). destruct (n <? 10); simpl; lia.
Qed.

Lemma dec_length n : 0 <= n < 2 ^ 64 -> (length (dec n) <= 64)%nat.
Proof.
  intros Hn. unfold dec. destruct (Z.ltb_spec n 0); [lia|].
  etransitivity; [apply dec_fuel_length|].
  destruct (Z.eq_dec n 0) as [->|]; [simpl; lia|].
  assert (Z.log2 n < 64) by (apply Z.log2_lt_pow2; lia). pose proof (Z.log2_nonneg n). lia.
Qed.

Lemma challenge_length realm nonce :
  (length realm <= 4000)%nat -> (0 < length (challenge realm nonce) < MG_BUF_LEN)%nat.
Proof.
  intros Hr. assert (length (dec (wrap64 nonce)) <= 64)%nat as Hd.
  { apply dec_length. unfold wrap64. apply Z.mod_pos_bound. lia. }
  unfold challenge, MG_BUF_LEN. rewrite !length_app. cbn [length B]. simpl length. lia.
Qed.

Lemma send_authorization_request_ok w :
  let realm := default [] (cfg (config_of (cn w)) AUTHENTICATION_DOMAIN) in
  sends_ok w -> (length realm <= 4000)%nat ->
  exists nonce w', send_authorization_request w = Some (tt, w') /\
    sent w' = sent w ++ challenge realm nonce /\ status_code (cn w') = 401.
Proof.
  intros realm Hok Hl. unfold send_authorization_request, mbind, M_bind, modify, get_conn, time.
  set (w1 := set_cn (set_status 401 (cn w)) w). cbv beta iota.
  set (t := default 0 (head (clock w1))). set (w2 := World _ _ _ _ _ _ _ _).
  assert (sends_ok w2) as Hok2 by done.
  destruct (mg_printf_all (challenge realm t) w2 Hok2) as (w' & E & Hs & _ & Hw).
  { by apply challenge_length. }
  exists t, w'. unfold challenge in E. cbn [w1 set_cn cn set_status config_of] in *. fold realm in E |- *.
  rewrite E. split_and!; [done|done|]. destruct (wr_cn _ _ _ Hw) as (t' & b' & ->). done.
Qed.

(** Everything but the connection stays. *)
Definition only_conn (w w' : world) : Prop := exists c, w' = set_cn c w.

Lemma only_conn_refl w : only_conn w w.
Proof. exists (cn w). by destruct w. Qed.

Section guarded.
Context `{OS} `{Doubles} (big : bool).
Context (listeners : list socket) (sha_buffer : bytes) (junk : nat -> bytes) (ws_fuel : nat) (ws_mem : bytes).

Lemma prepare_request_quiet w r w1 : prepare_request w = Some (r, w1) -> only_conn w w1.
Proof.
  unfold prepare_request. intros (c & w0 & [= <- <-] & E)%bind_inv.
  destruct (split_query _) as [u q]. apply bind_inv in E as ([] & w2 & [= <-] & E).
  apply bind_inv in E as ([path st] & w3 & E3 & E).
  assert (only_conn w w3) as [c3 ->].
  { unfold convert_uri_to_file_name in E3. apply bind_inv in E3 as (c & w4 & [= <- <-] & E3).
    destruct (mg_stat _) as [found st']. destruct found; [injection E3 as _ _ <-; by eexists|].
    destruct (path_info_loop _ _ _) as [[[prog info] st2]|]; [|injection E3 as _ _ <-; by eexists].
    apply bind_inv in E3 as ([] & w5 & [= <-] & [= _ _ <-]). by eexists. }
  destruct (set_throttle _ _ _); [|done]. apply bind_inv in E as ([] & w5 & [= <-] & [= _ <-]). by eexists.
Qed.

(** C2. Guarded requests get a challenge and nothing else: when a password file guards
    the path of a request other than PUT and DELETE, and the request does not carry the
    digest of one of its entries, [handle_request] sends the 401 challenge for the
    configured realm, whatever the method, the headers and the file are. *)
Theorem guarded_request_challenged (w w1 : world) (path content : bytes) (st : file_stat) (b : Z) :
  prepare_request w = Some ((path, st, b), w1) ->
  is_ssl (client (cn w1)) || negb (ssl_redir (client (cn w1))) = true ->
  is_put_or_delete_request (cn w1) = false ->
  guarding_file (cn w1) path = Some content -> ~ logged_in big (cn w1) content ->
  sends_ok w1 ->
  let realm := default [] (cfg (config_of (cn w1)) AUTHENTICATION_DOMAIN) in
  (length realm <= 4000)%nat ->
  exists nonce w', handle_request big listeners sha_buffer junk ws_fuel ws_mem w = Some (tt, w') /\
    sent w' = sent w ++ challenge realm nonce /\ status_code (cn w') = 401.
Proof.
  intros Ep Hssl Hm Hg Hl Hok realm Hr. destruct (prepare_request_quiet _ _ _ Ep) as [c Hc].
  destruct (check_authorization_ok big path w1) as (ok & w2 & u & E2 & Hb & Hcn & Hrx & Htx & Hs & Hst).
  rewrite Hg in Hb. destruct ok; [by destruct Hl; apply Hb|].
  assert (sends_ok w2) as Hok2.
  { destruct Hok as (A1 & A2 & A3). split_and!; [by rewrite Htx|by rewrite Hst|by rewrite Hcn]. }
  destruct (send_authorization_request_ok w2 Hok2) as (nonce & w' & E & Hsent & Hstat); [by rewrite Hcn|].
  rewrite Hcn in Hsent. exists nonce, w'. unfold handle_request. unfold mbind at 1, M_bind at 1. rewrite Ep.
  unfold mbind at 1, M_bind at 1, get_conn at 1.
  replace (if negb (is_ssl (client (cn w1))) && ssl_redir (client (cn w1))
           then get_first_ssl_listener_index listeners else None) with (@None nat)
    by (destruct (is_ssl _), (ssl_redir _); done).
  rewrite Hm. unfold mbind, M_bind. rewrite E2. cbn [negb]. rewrite E.
  split_and!; [done| |done]. rewrite Hsent, Hs. assert (sent w1 = sent w) as -> by (by rewrite Hc). done.
Qed.
End guarded.

(** A request for a file in a directory with a password file, without a digest. *)
Definition secret_os : OS := small_os [(B "/w/d/f", B "x"); (B "/w/d/.htpasswd", B "u:r:0")] [].
Definition secret_conn : conn :=
  Conn (RequestInfo (Some (B "GET")) (Some (B "/d/f")) (Some (B "1.1")) None None 0 0 false [(B "Host", B "h")])
    (<[AUTHENTICATION_DOMAIN:=Some (B "r")]> (<[DOCUMENT_ROOT:=Some (B "/w")]> (replicate 40 None)))
    inhabitant 0 0 0 0 [] None false 0 0 0 0 0 0.

Lemma guarded_request_challenged_witness :
  exists nonce w', @handle_request secret_os whole_numbers false [] [] (fun _ => []) 0 [] (quiet secret_conn [])
    = Some (tt, w') /\ sent w' = [] ++ challenge (B "r") nonce /\ status_code (cn w') = 401.
Proof.
  destruct (@prepare_request secret_os whole_numbers (quiet secret_conn [])) as [[[[path st] b] w1]|] eqn:E;
    [|vm_compute in E; discriminate E].
  pose proof E as E'. vm_compute in E'. injection E' as Ep _ _ Ew.
  destruct (@guarded_request_challenged secret_os whole_numbers false [] [] (fun _ => []) 0 [] (quiet secret_conn []) w1
    path (B "u:r:0") st b E) as (nonce & w' & Eh & Hs & Hst); subst w1 path.
  - done.
  - done.
  - by_eval.
  - intros (a & user & m & nonce & nc & cnonce & qop & response & ha1 & Ha & _). vm_compute in Ha. discriminate Ha.
  - split_and!; [constructor|done|done].
  - apply Nat.leb_le. by_eval.
  - exists nonce, w'. split_and!; [exact Eh|exact Hs|exact Hst].
Defined.

(** ** A websocket upgrade with a body *)

(** A websocket upgrade that announces a body kills the server: the assertion of
    [read_websocket] that there is no content fails for every such request with a
    Content-Length other than 0, whatever the handler and the network do. *)
Theorem ws_upgrade_with_body_aborts (big : bool) (sha_buffer mem : bytes) (junk : nat -> bytes)
    (handler : Z -> bytes -> Z -> M Z) (fuel : nat) (w : world) :
  header_of (cn w) (B "Sec-WebSocket-Version") = Some (B "13") -> content_len (cn w) <> 0 ->
  handle_websocket_request big sha_buffer junk handler fuel mem w = None.
Proof.
  intros Hv Hc. destruct (handle_websocket_request _ _ _ _ _ _ w) as [[r w']|] eqn:E; [|done]. exfalso.
  unfold handle_websocket_request in E. apply bind_inv in E as (c & w0 & [= <- <-] & E).
  rewrite bool_decide_eq_true_2 in E by done.
  apply bind_inv in E as ([] & w1 & E1%(keeps_websocket_handshake (fun _ => True)) & E).
  apply bind_inv in E as ([] & w2 & E2%(keeps_websocket_ready_handler (fun _ => True)) & E).
  apply bind_inv in E as (b & w3 & E & _). unfold read_websocket in E.
  apply bind_inv in E as (c & w4 & [= <- <-] & E). apply bind_inv in E as ([] & w4 & E & _).
  pose proof (ca_same _ _ _ (calm_trans _ _ _ _ E1 E2)) as (_ & _ & _ & _ & Hcl).
  unfold assert_ in E. rewrite Hcl, (proj2 (Z.eqb_neq _ 0)) in E by done. done.
Qed.

Lemma ws_upgrade_with_body_aborts_witness :
  let c := Conn (RequestInfo (Some (B "GET")) (Some (B "/")) (Some (B "1.1")) None None 0 0 false
             [(B "Sec-WebSocket-Version", B "13"); (B "Content-Length", B "5")])
             (replicate 40 None) inhabitant 0 0 5 0 [] None false 0 0 0 0 0 0 in
  handle_websocket_request false [] (fun _ => []) websocket_data_handler 3 [] (quiet c []) = None.
Proof. intros c. apply ws_upgrade_with_body_aborts; done. Defined.
