(* ===== verification/Progress.v ===== *)
(** * Every connection ends

    The loop of [process_new_connection] makes at most one round per byte that the
    client sends, unless a request announces a body so long that the sum of its length
    and the length of the request overflows; in every round the handler is given a
    complete, checked request in a buffer of the right size.  The theorems are proved
    against what the loop needs of a handler, and hold for the dispatcher. *)

From S2P Require Import Prelude CString Options SocketQueue HttpRequest Scanf Access Conn Os Connection Server Frame.

(** What the loop relies on: a handler leaves the request in the buffer, and takes
    input without giving any back. *)
Class CalmHandler `{H : RequestHandler} := calm_handler : keeps (fun _ => True) (@Connection.handle_request H).

#[export] Instance dispatcher_calm `{OS} `{Doubles} big listeners sha_buffer junk ws_fuel ws_mem :
  @CalmHandler (handle_request big listeners sha_buffer junk ws_fuel ws_mem).
Proof. intros w r w' E. eapply calm_weaken; [|by eapply handle_request_allowed]. done. Qed.

(** The state between two rounds: the buffer has its size, and the input is what is
    left of the input. *)
Record left_of (w w' : world) : Prop := {
  lo_buf : buf_ok (cn w');
  lo_size : buf_size (cn w') = buf_size (cn w);
  lo_input : input_bytes w' <= input_bytes w
}.

Lemma left_of_trans w1 w2 w3 : left_of w1 w2 -> left_of w2 w3 -> left_of w1 w3.
Proof. intros [A1 A2 A3] [B1 B2 B3]. constructor; [done|lia|lia]. Qed.

Lemma left_of_same w w' :
  buf_ok (cn w) -> data_len (cn w') = data_len (cn w) -> buf (cn w') = buf (cn w) -> rx w' = rx w -> left_of w w'.
Proof. intros Hb Hd Hu Hr. constructor; unfold buf_ok, buf_size, input_bytes, rx_bytes in *; rewrite ?Hd, ?Hu, ?Hr; done || lia. Qed.

Lemma pull_stores n d w w1 :
  buf_ok (cn w) -> (data_len (cn w) < Z.of_nat (buf_size (cn w)))%Z ->
  pull (Z.to_nat (Z.of_nat (buf_size (cn w)) - data_len (cn w))) w = Some ((n, d), w1) ->
  left_of w (set_cn (set_data (splice (buf (cn w)) (Z.to_nat (data_len (cn w))) d)
                       (data_len (cn w) + (if 0 <? n then n else 0)) (cn w1)) w1).
Proof.
  intros Hb Hlt (R & K & N & C & _)%pull_takes. unfold buf_ok in Hb.
  constructor; unfold buf_ok, input_bytes, rx_bytes, buf_size in *; cbn [set_cn set_data cn rx data_len buf];
    rewrite ?splice_length by lia; destruct (Z.ltb_spec 0 n); lia.
Qed.

Lemma read_request_loop_left fuel rl n w r n' w' :
  read_request_loop fuel rl n w = Some ((r, n'), w') -> buf_ok (cn w) -> rl <= data_len (cn w) ->
  left_of w w' /\ r <= data_len (cn w').
Proof.
  revert rl n w. induction fuel as [|fuel IH]; intros rl n w E Hb Hrl; cbn [read_request_loop] in E.
  { injection E as <- <- <-. split; [by apply left_of_same|done]. }
  apply bind_inv in E as (c & w0 & [= <- <-] & E). destruct (_ && _) eqn:Ec.
  2: { injection E as <- <- <-. split; [by apply left_of_same|done]. }
  apply andb_true_iff in Ec as [Hlt%Z.ltb_lt _]. apply bind_inv in E as ([k d] & w1 & E1 & E).
  apply bind_inv in E as ([] & w2 & [= <-] & E). pose proof (pull_stores k d w w1 Hb Hlt E1) as L.
  destruct (Z.ltb_spec 0 k) as [Hk|Hk].
  - apply bind_inv in E as ([] & w3 & E3 & E). unfold assert_ in E3. destruct (_ <=? _); [injection E3 as <-|done].
    apply bind_inv in E as (c & w4 & [= <- <-] & E). apply IH in E as [L' Hr]; [|apply L|].
    + split; [by eapply left_of_trans|done].
    + etransitivity; [apply get_request_len_le|]. destruct L as [[L1 L2] _ _]. cbn [set_cn set_data cn data_len] in *. lia.
  - injection E as <- <- <-. split; [done|]. cbn [set_cn set_data cn data_len]. lia.
Qed.

Lemma read_request_left w rl w' : read_request w = Some (rl, w') -> buf_ok (cn w) -> left_of w w'.
Proof.
  unfold read_request. intros (c & w0 & [= <- <-] & E)%bind_inv Hb.
  apply bind_inv in E as ([r n] & w3 & E3 & [= <- <-]).
  apply read_request_loop_left in E3 as [L3 Hr]; [done|done|].
  etransitivity; [apply get_request_len_le|]. destruct Hb. lia.
Qed.

(** What only changes the request's attributes. *)
Lemma left_of_modify f w w1 :
  left_of w w1 -> data_len (f (cn w1)) = data_len (cn w1) -> buf (f (cn w1)) = buf (cn w1) ->
  left_of w (set_cn (f (cn w1)) w1).
Proof. intros L Hd Hu. eapply left_of_trans; [done|]. apply left_of_same; [apply L|done..]. Qed.

(** A request that is accepted is in the buffer. *)
Lemma getreq_left w ebuf w' :
  getreq w = Some (ebuf, w') -> buf_ok (cn w) ->
  left_of w w' /\ (ebuf = [] -> request_in (cn w') /\ 0 < request_len (cn w')).
Proof.
  unfold getreq. intros ([] & w1 & [= <-] & E)%bind_inv Hb. set (w1 := set_cn _ w) in E.
  assert (left_of w w1) as L1 by (by apply left_of_same). clearbody w1.
  apply bind_inv in E as (rl & w2 & E2 & E). apply read_request_left in E2; [|apply L1].
  pose proof (left_of_trans _ _ _ L1 E2) as L2. clear E2.
  apply bind_inv in E as ([] & w3 & [= <-] & E). set (w3 := set_cn _ w2) in E.
  assert (left_of w w3) as L3 by (by apply left_of_modify).
  assert (request_len (cn w3) = rl) as Hrl by done. clearbody w3.
  apply bind_inv in E as (c & w0 & [= <- <-] & E).
  apply bind_inv in E as ([] & w4 & E4 & E). unfold assert_ in E4.
  destruct ((rl <? 0) || (rl <=? data_len (cn w3))) eqn:Ha; [injection E4 as <-|done].
  destruct ((rl =? 0) && _); [by injection E as <- <-|].
  destruct (Z.leb_spec rl 0); [by injection E as <- <-|].
  destruct (parse_http_message _ _ _) as [res ri].
  apply bind_inv in E as ([] & w4 & [= <-] & E). set (w4 := set_cn _ w3) in E.
  assert (left_of w w4) as L4 by (by apply left_of_modify).
  destruct (res <=? 0); [by injection E as <- <-|].
  do 3 apply bind_inv in E as (? & ? & [= <- <-] & E). injection E as <- <-.
  destruct (lo_buf _ _ L3) as [B1 B2]. split.
  - eapply left_of_trans; [done|]. by apply left_of_same; [apply L4|..].
  - intros _. unfold request_in, buf_size in *.
    cbn [w4 set_cn cn set_birth_time set_content_len set_request_info request_len data_len buf]. lia.
Qed.

Section loop.
Context `{OS} `{CalmHandler}.

(** The sum of the lengths of a request and its body does not fit. *)
Definition overflows (c : conn) : Prop := 2 ^ 63 <= request_len c + content_len c.

Lemma discard_len_progress c :
  request_in c -> 0 < request_len c -> Z.of_nat (buf_size c) < 2 ^ 31 -> 0 <= content_len c -> ~ overflows c ->
  0 < discard_len c <= data_len c.
Proof.
  intros [I1 I2] Hp Hs Hc Ho. unfold discard_len, overflows in *. rewrite int64_small by lia.
  destruct (_ && _) eqn:E; [|lia]. rewrite int32_small; lia.
Qed.

Lemma discard_size n c : 0 <= n <= data_len c -> buf_ok c -> buf_size (discard n c) = buf_size c.
Proof.
  intros Hn [B1 B2]. unfold buf_size in *. cbn [discard set_data buf]. apply splice_length.
  rewrite length_take, length_drop. lia.
Qed.

(** The end of a round drops the request, at least; the assertions keep the buffer in
    order even when the lengths overflow. *)
Lemma finish_round_left ka w r w' :
  finish_round ka w = Some (r, w') -> request_in (cn w) ->
  left_of w w' /\
  (r = true -> 0 < request_len (cn w) -> Z.of_nat (buf_size (cn w)) < 2 ^ 31 -> ~ overflows (cn w) ->
   input_bytes w' < input_bytes w).
Proof.
  unfold finish_round. intros ([] & w1 & [= <-] & E)%bind_inv I.
  apply bind_inv in E as (stop & w2 & [= <- <-] & E). apply bind_inv in E as (c & w3 & [= <- <-] & E).
  cbn [set_cn cn rx] in E. set (c := set_remote_user None (cn w)) in E.
  apply bind_inv in E as ([] & w3 & E3 & E). unfold assert_ in E3.
  destruct (Z.leb_spec 0 (discard_len c)) as [Hn0|]; [injection E3 as <-|done].
  apply bind_inv in E as ([] & w4 & [= <-] & E). apply bind_inv in E as (c' & w5 & [= <- <-] & E).
  cbn [set_cn cn] in E. apply bind_inv in E as ([] & w6 & E6 & E). unfold assert_ in E6.
  destruct (Z.leb_spec 0 (data_len (discard (discard_len c) c))) as [Hn1|]; [injection E6 as <-|done].
  apply bind_inv in E as ([] & w6 & E6 & E). unfold assert_ in E6. destruct (_ <=? _); [injection E6 as <-|done].
  injection E as Er <-. destruct I as [I1 I2]. cbn [discard set_data data_len] in Hn1.
  pose proof (discard_size (discard_len c) c) as Hd. unfold buf_ok in Hd.
  assert (data_len c = data_len (cn w)) as Ec by done. assert (buf_size c = buf_size (cn w)) as Eb by done.
  rewrite Ec, Eb in *. specialize (Hd ltac:(lia) ltac:(lia)). split.
  - constructor; unfold buf_ok, input_bytes, rx_bytes; cbn [set_cn cn rx];
      rewrite ?Hd by lia; cbn [discard set_data data_len]; rewrite ?Ec; lia.
  - intros Et Hp Hs Ho. rewrite Et in Er. apply andb_true_iff in Er as [[_ Hc%Z.leb_le]%andb_true_iff _].
    destruct (discard_len_progress c) as [D1 D2]; [done|done|by rewrite Eb|done|done|].
    unfold input_bytes, rx_bytes. cbn [set_cn cn rx discard set_data data_len]. rewrite ?Ec. lia.
Qed.

Lemma keeps_log_access : keeps (fun _ => True) log_access.
Proof.
  unfold log_access. apply keeps_bind; [apply keeps_get_conn|]. intros c.
  destruct (cfg _ _); [|apply keeps_ret]. destruct (os_append _); [by apply keeps_emit|apply keeps_ret].
Qed.

Lemma keeps_check_request ebuf : keeps (fun _ => True) (check_request ebuf).
Proof.
  assert (forall status reason text, keeps (fun _ => True) (send_http_error status reason text)) as Hs
    by (intros; apply keeps_send_http_error).
  unfold check_request. case_bool_decide.
  - apply keeps_bind; [done|]. intros _. apply keeps_bind; [by apply keeps_modify|]. intros _. apply keeps_ret.
  - apply keeps_bind; [apply keeps_get_conn|]. intros c.
    destruct (negb _); [|destruct (_ && _)]; try apply keeps_ret;
      (apply keeps_bind; [done|]; intros _; apply keeps_ret).
Qed.

(** After a request that was refused the connection is closed. *)
Lemma refused_closes ka w ebuf r w2 w' :
  check_request ebuf w = Some (r, w2) -> ebuf <> [] -> r = ebuf /\ finish_round ka w2 <> Some (true, w').
Proof.
  unfold check_request. intros E Hne. rewrite bool_decide_eq_true_2 in E by done.
  apply bind_inv in E as ([] & w1 & _ & E). apply bind_inv in E as ([] & w3 & [= <-] & [= <- <-]).
  split; [done|]. unfold finish_round. intros ([] & w4 & [= <-] & E)%bind_inv.
  apply bind_inv in E as (stop & w5 & [= <- <-] & E). apply bind_inv in E as (c & w6 & [= <- <-] & E).
  do 2 apply bind_inv in E as ([] & ? & _ & E). apply bind_inv in E as (? & ? & _ & E).
  do 2 apply bind_inv in E as ([] & ? & _ & E). injection E as E _.
  by apply andb_true_iff in E as [_ E].
Qed.

(** A round after which the connection goes on leaves the buffer in order, and takes
    input unless the lengths overflow. *)
Lemma process_round_left ka w w' :
  process_round ka w = Some (true, w') -> buf_ok (cn w) -> Z.of_nat (buf_size (cn w)) < 2 ^ 31 ->
  left_of w w' /\
  (input_bytes w' < input_bytes w \/ exists ebuf w1, getreq w = Some (ebuf, w1) /\ overflows (cn w1)).
Proof.
  unfold process_round. intros (ebuf & w1 & E1 & E)%bind_inv Hb Hs.
  pose proof (getreq_left _ _ _ E1 Hb) as [L1 Hin].
  apply bind_inv in E as (ebuf' & w2 & E2 & E). apply bind_inv in E as ([] & w3 & E3 & E).
  destruct (decide (ebuf = [])) as [->|Hne].
  2: { destruct (refused_closes ka _ _ _ _ w' E2 Hne) as [-> Hf].
       rewrite bool_decide_eq_false_2 in E3 by done. by injection E3 as ->. }
  destruct (Hin eq_refl) as [I Hp].
  assert (calm (fun _ => True) w1 w3) as C.
  { eapply calm_trans; [by eapply keeps_check_request|]. case_bool_decide; [|injection E3 as <-; apply calm_refl].
    revert E3. apply keeps_bind; [apply calm_handler|]. intros _. apply keeps_log_access. }
  destruct (ca_same _ _ _ C) as (_ & _ & _ & Hrl & Hcl). destruct (ca_total _ _ _ C I) as (I3 & S3 & T3).
  pose proof (lo_size _ _ L1). pose proof (lo_input _ _ L1).
  destruct (finish_round_left ka w3 true w' E I3) as [L4 T4]. split.
  { destruct L4. constructor; [done|lia|lia]. }
  destruct (decide (2 ^ 63 <= request_len (cn w1) + content_len (cn w1))) as [Ho|Ho]; [right; by exists [], w1|left].
  enough (input_bytes w' < input_bytes w3) by lia. apply T4; [done|lia|lia|unfold overflows; lia].
Qed.

(** The worlds after some rounds. *)
Inductive rounds (ka : bool) : world -> world -> Prop :=
  | no_round w : rounds ka w w
  | next_round w1 w2 w3 : process_round ka w1 = Some (true, w2) -> rounds ka w2 w3 -> rounds ka w1 w3.

(** A request arrives whose length and Content-Length overflow. *)
Definition overflow_request (ka : bool) (w : world) : Prop :=
  exists w1 ebuf w2, rounds ka w w1 /\ getreq w1 = Some (ebuf, w2) /\ overflows (cn w2).

Lemma process_loop_ends fuel ka w r w' :
  process_loop fuel ka w = Some (r, w') -> buf_ok (cn w) -> Z.of_nat (buf_size (cn w)) < 2 ^ 31 ->
  input_bytes w < Z.of_nat fuel -> r = true \/ overflow_request ka w.
Proof.
  revert w. induction fuel as [|fuel IH]; intros w E Hb Hs Hf.
  { destruct Hb. unfold input_bytes, rx_bytes in Hf. lia. }
  cbn [process_loop] in E. apply bind_inv in E as (k & w1 & E1 & E).
  destruct k; [|injection E as <- <-; by left].
  destruct (process_round_left ka w w1 E1 Hb Hs) as [[B1 B2 B3] [L|(ebuf & w2 & E2 & Ho)]].
  - destruct (IH w1 E B1) as [?|(w2 & ebuf & w3 & R & E3 & Ho)]; [lia|lia|by left|].
    right. exists w2, ebuf, w3. split_and!; [by econstructor|done|done].
  - right. exists w, ebuf, w2. split_and!; [constructor|done|done].
Qed.

(** C7. Every connection ends: [process_new_connection] is done after at most one round
    per byte that the client sends, and one more, whatever the requests are and
    whatever reads and writes do, unless a request arrives whose Content-Length and own
    length add up to 2^63 or more; a failed assertion, the other way for the loop to
    stop, ends the server. *)
Theorem connection_ends (fuel : nat) (w w' : world) (r : bool) :
  buf_size (cn w) = MAX_REQUEST_SIZE -> rx_bytes w < Z.of_nat fuel ->
  process_new_connection fuel w = Some (r, w') ->
  let ka := streq (default [] (cfg (config_of (cn w)) ENABLE_KEEP_ALIVE)) (B "yes") in
  r = true \/ overflow_request ka (set_cn (set_data (buf (cn w)) 0 (cn w)) w).
Proof.
  intros Hs Hf E. unfold process_new_connection in E.
  apply bind_inv in E as (c & w1 & [= <- <-] & E). apply bind_inv in E as ([] & w1 & [= <-] & E).
  apply process_loop_ends in E; [done|..]; unfold buf_ok, input_bytes, rx_bytes, buf_size in *;
    cbn [set_cn cn set_data data_len buf rx]; rewrite ?Hs; unfold MAX_REQUEST_SIZE; lia.
Qed.

(** ** What a handler is given *)

(** Reading changes nothing but the data. *)
Lemma read_request_loop_data fuel rl n w r w' :
  read_request_loop fuel rl n w = Some (r, w') -> cn w' = set_data (buf (cn w')) (data_len (cn w')) (cn w).
Proof.
  assert (forall c, c = set_data (buf c) (data_len c) c) as Hc by (intros c; by destruct c).
  revert rl n w. induction fuel as [|fuel IH]; intros rl n w E; cbn [read_request_loop] in E.
  { injection E as <- <-. apply Hc. }
  apply bind_inv in E as (c & w0 & [= <- <-] & E). destruct (_ && _); [|injection E as <- <-; apply Hc].
  apply bind_inv in E as ([k d] & w1 & (_ & _ & _ & C & _)%pull_takes & E).
  apply bind_inv in E as ([] & w2 & [= <-] & E). destruct (0 <? k).
  - apply bind_inv in E as ([] & w3 & E3 & E). unfold assert_ in E3. destruct (_ <=? _); [injection E3 as <-|done].
    apply bind_inv in E as (c & w4 & [= <- <-] & E). apply IH in E. rewrite E. cbn [set_cn cn]. by rewrite C.
  - injection E as <- <-. cbn [set_cn cn]. by rewrite C.
Qed.

(** The attributes that are reset for every request. *)
Record fresh (c : conn) : Prop := {
  fr_consumed : consumed_content c = 0;
  fr_sent : num_bytes_sent c = 0;
  fr_status : status_code c = -1;
  fr_path : path_info c = None;
  fr_close : must_close c = false;
  fr_throttle : throttle c = 0
}.

Lemma read_request_fresh w rl w' :
  read_request w = Some (rl, w') -> fresh (cn w) -> fresh (cn w').
Proof.
  unfold read_request. intros (c & w0 & [= <- <-] & E)%bind_inv [].
  apply bind_inv in E as ([r n] & w3 & E3%read_request_loop_data & [= <- <-]). rewrite E3. by constructor.
Qed.

(** The length of the body that a request announces. *)
Definition announced (ri : mg_request_info) : Z :=
  match get_header (http_headers ri) (B "Content-Length") with
  | Some cl => strtoll cl
  | None => let method := default [] (request_method ri) in
            if (mg_strcasecmp method (B "POST") =? 0) || (mg_strcasecmp method (B "PUT") =? 0) then -1 else 0
  end.

(** A request that has been parsed. *)
Record parsed (c : conn) : Prop := {
  pa_method : exists m, request_method (request_info c) = Some m /\ method_ok m;
  pa_uri : uri (request_info c) <> None;
  pa_version : http_version (request_info c) <> None;
  pa_headers : (length (http_headers (request_info c)) <= 64)%nat /\
               Forall (fun h => fst h <> []) (http_headers (request_info c));
  pa_user : remote_user (request_info c) = None;
  pa_content : content_len c = announced (request_info c)
}.

Lemma ret_inv {A} (a b : A) (w w' : world) : (mret a : M A) w = Some (b, w') -> a = b /\ w = w'.
Proof. by intros [= -> ->]. Qed.

Lemma ebuf_print_ne text : text <> [] -> ebuf_print text <> [].
Proof. by destruct text. Qed.

Lemma getreq_parsed w w' : getreq w = Some ([], w') -> fresh (cn w') /\ parsed (cn w').
Proof.
  unfold getreq. intros ([] & w1 & [= <-] & E)%bind_inv.
  apply bind_inv in E as (rl & w2 & E2 & E). apply read_request_fresh in E2; [|by constructor].
  apply bind_inv in E as ([] & w3 & [= <-] & E).
  apply bind_inv in E as (c & w0 & [= <- <-] & E). apply bind_inv in E as ([] & w4 & E4 & E).
  unfold assert_ in E4. destruct ((rl <? 0) || _); [injection E4 as <-|done].
  destruct ((rl =? 0) && _); [done|]. destruct (rl <=? 0); [done|].
  destruct (parse_http_message _ _ _) as [res ri] eqn:Ep. apply bind_inv in E as ([] & w4 & [= <-] & E).
  destruct (Z.leb_spec res 0); [by injection E as E _|].
  apply parse_http_message_ok in Ep as (m & u & v & hs & -> & Hm & Hh); [|done].
  do 3 apply bind_inv in E as (? & ? & [= <- <-] & E). injection E as <-. destruct E2. split.
  - by constructor.
  - constructor; try done. by exists m.
Qed.

Lemma check_request_passed ebuf w w' :
  check_request ebuf w = Some ([], w') ->
  ebuf = [] /\ w' = w /\ is_valid_uri (default [] (uri (request_info (cn w)))) = true /\
  (http_version (request_info (cn w)) = Some (B "1.0") \/ http_version (request_info (cn w)) = Some (B "1.1")).
Proof.
  unfold check_request. cbv zeta. case_bool_decide as He.
  { intros (u & w1 & _ & E)%bind_inv. apply bind_inv in E as ([] & w2 & _ & [-> _]%ret_inv). done. }
  intros (c & w1 & [= <- <-] & E)%bind_inv. revert E.
  generalize (send_http_error 400 (B "Bad Request")). generalize (send_http_error 505 (B "Bad HTTP version")).
  intros e505 e400 E. destruct (is_valid_uri _) eqn:Eu; cbn [negb] in E.
  2: { apply bind_inv in E as (u & w2 & _ & [E _]%ret_inv). by apply ebuf_print_ne in E. }
  destruct (_ && _) eqn:Ev.
  { apply bind_inv in E as (u & w2 & _ & [E _]%ret_inv). by apply ebuf_print_ne in E. }
  apply ret_inv in E as [_ <-]. split_and!; [|done|done|].
  - destruct (decide (ebuf = [])); [done|by destruct He].
  - apply andb_false_iff in Ev. rewrite !negb_false_iff, !streq_true in Ev.
    destruct (http_version _) as [v|]; [|by destruct Ev]. change (default [] (Some v)) with v in Ev.
    by destruct Ev as [-> | ->]; [left|right].
Qed.

Lemma rounds_left ka w w' :
  rounds ka w w' -> buf_ok (cn w) -> Z.of_nat (buf_size (cn w)) < 2 ^ 31 -> left_of w w'.
Proof.
  induction 1 as [w|w1 w2 w3 E R IH]; intros Hb Hl; [by apply left_of_same|].
  destruct (process_round_left ka w1 w2 E Hb Hl) as [L _]. eapply left_of_trans; [exact L|].
  apply IH; [apply L|]. destruct L. lia.
Qed.

(** C8. What a handler is given: on a connection with the buffer of a worker, however
    many requests have been served before, with whatever lengths, every request that
    gets past the checks of [process_new_connection] is complete in the buffer, which
    has its size; its method is known or starts with [HTTP/], its URI starts with a
    slash or is a star, its version is 1.0 or 1.1, it has at most 64 headers with
    names, its body length is what it announces, and no user, counter or status is
    left over from the request before. *)
Theorem handler_is_given (ka : bool) (w w1 w2 w3 : world) (ebuf : bytes) :
  buf_size (cn w) = MAX_REQUEST_SIZE -> 0 <= data_len (cn w) <= Z.of_nat MAX_REQUEST_SIZE ->
  rounds ka w w1 -> getreq w1 = Some (ebuf, w2) -> check_request ebuf w2 = Some ([], w3) ->
  buf_size (cn w3) = MAX_REQUEST_SIZE /\
  0 < request_len (cn w3) <= data_len (cn w3) /\ data_len (cn w3) <= Z.of_nat MAX_REQUEST_SIZE /\
  fresh (cn w3) /\ parsed (cn w3) /\
  is_valid_uri (default [] (uri (request_info (cn w3)))) = true /\
  (http_version (request_info (cn w3)) = Some (B "1.0") \/ http_version (request_info (cn w3)) = Some (B "1.1")).
Proof.
  intros Hs Hd R E2 (-> & -> & Hu & Hv)%check_request_passed. destruct (getreq_parsed _ _ E2) as [Hf Hp].
  assert (left_of w w1) as L.
  { assert (buf_ok (cn w)) as Hb by (unfold buf_ok; rewrite Hs; lia).
    apply (rounds_left ka); [done|done|]. rewrite Hs. unfold MAX_REQUEST_SIZE. lia. }
  destruct (getreq_left _ _ _ E2 (lo_buf _ _ L)) as [L2 Hin]. destruct (Hin eq_refl) as [[I1 I2] Hpos].
  pose proof (lo_size _ _ L). pose proof (lo_size _ _ L2).
  assert (buf_size (cn w2) = MAX_REQUEST_SIZE) as Hs2 by lia. rewrite Hs2 in I2. split_and!; try done; lia.
Qed.
End loop.

(** Two requests on one connection. *)
Definition two_requests : world :=
  quiet (Conn (RequestInfo None None None None None 0 0 false [])
    (<[DOCUMENT_ROOT:=Some (B "/w")]> (<[ENABLE_KEEP_ALIVE:=Some (B "yes")]> (replicate 40 None)))
    inhabitant 0 0 0 0 (replicate MAX_REQUEST_SIZE 0) None false 0 0 0 0 0 0)
    [RxData (request_text (B "GET") (B "/a") (B "1.1") [(B "Host", B "h")] ++ B "GET ");
     RxData (B "/b HTTP/1.1" ++ crlf ++ crlf)].

Lemma connection_ends_witness :
  let h := @handle_request delete_os whole_numbers false [] [] (fun _ => []) 0 [] in
  exists r w', @process_new_connection delete_os h 200 two_requests = Some (r, w') /\
    (r = true \/ @overflow_request delete_os h true (set_cn (set_data (buf (cn two_requests)) 0 (cn two_requests)) two_requests)).
Proof.
  intros h.
  assert (fst <$> @process_new_connection delete_os h 200 two_requests = Some true) as E by (vm_compute; reflexivity).
  destruct (process_new_connection 200 two_requests) as [[r w']|] eqn:Ep; [|discriminate E].
  exists r, w'. split; [done|].
  refine (@connection_ends delete_os h _ 200%nat two_requests w' r _ _ Ep).
  - by_eval.
  - apply Z.ltb_lt. by_eval.
Defined.

(** The second request of that connection. *)
Lemma handler_is_given_witness :
  let h := @handle_request delete_os whole_numbers false [] [] (fun _ => []) 0 [] in
  exists w1 w2 w3, @rounds delete_os h true two_requests w1 /\ getreq w1 = Some ([], w2) /\
    check_request [] w2 = Some ([], w3) /\ uri (request_info (cn w3)) = Some (B "/b") /\
    buf_size (cn w3) = MAX_REQUEST_SIZE /\ fresh (cn w3) /\ parsed (cn w3).
Proof.
  intros h.
  assert (match @process_round delete_os h true two_requests with
          | Some (true, w1) =>
              match getreq w1 with
              | Some ([], w2) => match check_request [] w2 with
                                 | Some ([], w3) => uri (request_info (cn w3)) = Some (B "/b")
                                 | _ => False
                                 end
              | _ => False
              end
          | _ => False
          end) as E by (vm_compute; reflexivity).
  destruct (process_round true two_requests) as [[[] w1]|] eqn:E1; [|destruct E|destruct E].
  destruct (getreq w1) as [[[|] w2]|] eqn:E2; [|destruct E|destruct E].
  destruct (check_request [] w2) as [[[|] w3]|] eqn:E3; [|destruct E|destruct E].
  assert (@rounds delete_os h true two_requests w1) as R by (econstructor; [exact E1|constructor]).
  exists w1, w2, w3.
  destruct (@handler_is_given delete_os h _ true two_requests w1 w2 w3 []) as (Hs & _ & _ & Hf & Hp & _);
    [by_eval|change (data_len (cn two_requests)) with 0; lia|exact R|exact E2|exact E3|].
  exact (conj R (conj E2 (conj E3 (conj E (conj Hs (conj Hf Hp)))))).
Defined.
