(* ===== verification/GetField.v ===== *)
(** * The CGI tool that prints a form field

    [hex], [decode_query] and [main] of src/cgi-getfield.c.  The decoded fields go one
    after the other to a buffer of 256 bytes on the stack; [None] stands for a store or
    a copy outside of an array.  Any query of short fields gives the first field whose
    name starts with the key. *)

From S2P Require Import Prelude Scanf.

Definition MAX_QUERY_SIZE : nat := 1024.

Definition hex (digit : Z) : Z :=
  if isdigit digit then digit - 48
  else if (65 <=? digit) && (digit <=? 70) then 10 + digit - 65
  else if (97 <=? digit) && (digit <=? 102) then 10 + digit - 97
  else -1.

(** The variables of the loop: [buf], [k], [j], whether [name] is set (it then points to
    [buf]) and the offset [value] points to. *)
Record dq := Dq { dq_buf : bytes; dq_k : nat; dq_j : nat; dq_named : bool; dq_value : nat }.

(** [buf[k] = c] *)
Definition dq_store (buf : bytes) (k : nat) (c : Z) : option bytes :=
  if (k <? length buf)%nat then Some (<[k:=c]> buf) else None.

(** [buf[k++] = c] *)
Definition dq_put (c : Z) (s : dq) : option dq :=
  buf ← dq_store (dq_buf s) (dq_k s) c;
  Some (Dq buf (S (dq_k s)) (dq_j s) (dq_named s) (dq_value s)).

(** A result of 0 with the value, or -1. *)
Inductive dq_out := Value (pval : bytes) | NoValue.

(** The end of a field: a result, or the state for the next field. *)
Definition dq_end (pkey : bytes) (s : dq) : option (dq_out + dq) :=
  let k := dq_k s in
  buf ← dq_store (dq_buf s) k 0;
  let fresh := negb (dq_named s) && (0 <? k)%nat in
  let value := if fresh then k else dq_value s in
  if (dq_named s || fresh) && starts_with (cstr_at buf 0) pkey then
    (* [memcpy(pval, value, k - j)] *)
    if ((dq_j s <=? k) && (value + (k - dq_j s) <=? length buf))%nat
    then Some (inl (Value (take (k - dq_j s) (drop value buf))))
    else None
  else Some (inr (Dq buf 0 (dq_j s) false 0)).

Fixpoint dq_loop (pkey query : bytes) (s : dq) : option dq_out :=
  match query with
  | [] => r ← dq_end pkey s; Some (match r with inl out => out | inr _ => NoValue end)
  | c :: query' =>
      if (c =? c_eq) && negb (dq_named s) then
        if (0 <? dq_k s)%nat then
          s' ← dq_put 0 s;
          dq_loop pkey query' (Dq (dq_buf s') (dq_k s') (dq_k s') true (dq_k s'))
        else dq_loop pkey query' s
      else if c =? c_amp then
        r ← dq_end pkey s;
        match r with inl out => Some out | inr s' => dq_loop pkey query' s' end
      else if c =? c_plus then s' ← dq_put c_space s; dq_loop pkey query' s'
      else if c =? c_percent then
        match query' with
        | a :: b :: query'' =>
            if (0 <=? hex a) && (0 <=? hex b)
            then s' ← dq_put (hex a * 16 + hex b) s; dq_loop pkey query'' s'
            else s' ← dq_put c s; dq_loop pkey query' s'
        | _ => s' ← dq_put c s; dq_loop pkey query' s'
        end
      else s' ← dq_put c s; dq_loop pkey query' s'
  end.

(** [buf] is what the array holds at the call. *)
Definition decode_query (buf query pkey : bytes) : option dq_out :=
  dq_loop pkey query (Dq buf 0 0 false 0).

(** The program: [args] are the arguments after its name; the result is the exit status
    and the output. *)
Definition getfield_main (buf : bytes) (args : list bytes) (stdin : bytes) : option (Z * bytes) :=
  match args with
  | [] => Some (-1, [])
  | key :: rest =>
      let len := match rest with [] => Z.of_nat MAX_QUERY_SIZE | a :: _ => atoi a end in
      let qbuf := if len <? 0 then stdin else take (Z.to_nat len) stdin in
      if (MAX_QUERY_SIZE <=? length qbuf)%nat then None
      else if (0 <? length qbuf)%nat then
        out ← decode_query buf (until_nul qbuf) key;
        Some (match out with Value v => (0, v) | NoValue => (-1, []) end)
      else Some (-1, [])
  end.

Example getfield_1 :
  getfield_main (replicate 256 0) [B "b"] (B "a=1&b=x%2Fy+z&c") = Some (0, B "x/y z").
Proof. by_eval. Qed.
(** The key is compared with the start of a name. *)
Example getfield_2 : getfield_main (replicate 256 0) [B "a"] (B "ab=1&a=2") = Some (0, B "1").
Proof. by_eval. Qed.
(** A field without [=] uses the start of the value before it. *)
Example getfield_3 : getfield_main (replicate 256 0) [B "b"] (B "a=1&b") = None.
Proof. by_eval. Qed.

(** ** Queries of short fields *)

(** [codes raw d e]: the text [e] stands for the bytes [d]; a byte for which [raw] holds
    may stand for itself. *)
Inductive codes (raw : Z -> bool) : bytes -> bytes -> Prop :=
  | codes_nil : codes raw [] []
  | codes_raw c d e : raw c = true -> codes raw d e -> codes raw (c :: d) (c :: e)
  | codes_space d e : codes raw d e -> codes raw (c_space :: d) (c_plus :: e)
  | codes_hex a b d e :
      0 <= hex a -> 0 <= hex b -> codes raw d e -> codes raw (hex a * 16 + hex b :: d) (c_percent :: a :: b :: e).

Definition raw_value (c : Z) : bool :=
  (0 <? c) && negb ((c =? c_amp) || (c =? c_plus) || (c =? c_percent)).
Definition raw_name (c : Z) : bool := raw_value c && negb (c =? c_eq).

Lemma dq_put_eq c s :
  (dq_k s < length (dq_buf s))%nat ->
  dq_put c s = Some (Dq (<[dq_k s:=c]> (dq_buf s)) (S (dq_k s)) (dq_j s) (dq_named s) (dq_value s)).
Proof. intros H. unfold dq_put, dq_store. by rewrite (proj2 (Nat.ltb_lt _ _)). Qed.

(** [memcpy] one byte at a time. *)
Lemma splice_cons mem k c d :
  (k < length mem)%nat -> splice mem k (c :: d) = splice (<[k:=c]> mem) (S k) d.
Proof.
  intros H. unfold splice. rewrite insert_take_drop by done.
  assert (length (take k mem ++ [c]) = S k) as L by (rewrite length_app, length_take; simpl; lia).
  change (take k mem ++ c :: drop (S k) mem) with (take k mem ++ [c] ++ drop (S k) mem).
  rewrite (app_assoc (take k mem) [c] (drop (S k) mem)).
  rewrite (take_app_length' _ _ (S k)), (drop_app_ge _ _ (S k + length d)) by lia.
  rewrite L, <- app_assoc, drop_drop. simpl. do 4 f_equal. lia.
Qed.

Lemma splice_nil mem k : (k <= length mem)%nat -> splice mem k [] = mem.
Proof. intros H. unfold splice. simpl. rewrite Nat.add_0_r. apply take_drop. Qed.

Lemma dq_loop_raw pkey c query s :
  raw_value c = true -> dq_named s = true \/ c <> c_eq ->
  dq_loop pkey (c :: query) s = (s' ← dq_put c s; dq_loop pkey query s').
Proof.
  intros [_ Hm%negb_true_iff]%andb_true_iff Hn.
  rewrite !orb_false_iff in Hm. destruct Hm as ((H1 & H2) & H3). cbn [dq_loop]. rewrite H1, H2, H3.
  destruct (Z.eqb_spec c c_eq); [|done]. destruct Hn as [->|?]; done.
Qed.

(** Coded text goes to the buffer. *)
Lemma dq_text pkey raw d e query s :
  codes raw d e ->
  (forall c, raw c = true -> raw_value c = true /\ (dq_named s = true \/ c <> c_eq)) ->
  (dq_k s + length d <= length (dq_buf s))%nat ->
  dq_loop pkey (e ++ query) s =
  dq_loop pkey query (Dq (splice (dq_buf s) (dq_k s) d) (dq_k s + length d) (dq_j s) (dq_named s) (dq_value s)).
Proof.
  assert (forall c d s, (dq_k s + length (c :: d) <= length (dq_buf s))%nat ->
    forall e query, (forall s1, dq_named s1 = dq_named s -> (dq_k s1 + length d <= length (dq_buf s1))%nat ->
      dq_loop pkey (e ++ query) s1 =
      dq_loop pkey query (Dq (splice (dq_buf s1) (dq_k s1) d) (dq_k s1 + length d) (dq_j s1) (dq_named s1) (dq_value s1))) ->
    (s' ← dq_put c s; dq_loop pkey (e ++ query) s') =
    dq_loop pkey query (Dq (splice (dq_buf s) (dq_k s) (c :: d)) (dq_k s + length (c :: d)) (dq_j s) (dq_named s) (dq_value s)))
    as Hput.
  { intros c d0 s0 Hk e0 q0 IH. simpl in Hk. rewrite dq_put_eq by lia. cbn [mbind option_bind].
    rewrite IH; cbn [dq_buf dq_k dq_named dq_j dq_value]; [|done|rewrite length_insert; lia].
    rewrite splice_cons by lia. cbn [length]. by rewrite Nat.add_succ_comm. }
  intros Hc. revert s. induction Hc as [|c d e Hr Hc IH|d e Hc IH|a b d e Ha Hb Hc IH]; intros s Hraw Hk.
  - rewrite splice_nil, Nat.add_0_r by (simpl in Hk; lia). by destruct s.
  - destruct (Hraw c Hr) as [Hv He]. cbn [app]. rewrite dq_loop_raw by done.
    apply Hput; [done|]. intros s1 Hn Hk1. apply IH; [by rewrite Hn|done].
  - cbn [app dq_loop Z.eqb Pos.eqb andb]. apply Hput; [done|]. intros s1 Hn Hk1. apply IH; [by rewrite Hn|done].
  - cbn [app dq_loop Z.eqb Pos.eqb andb]. rewrite (proj2 (Z.leb_le 0 (hex a))), (proj2 (Z.leb_le 0 (hex b))) by done.
    apply Hput; [done|]. intros s1 Hn Hk1. apply IH; [by rewrite Hn|done].
Qed.

(** A form field, and how it may be written. *)
Definition field_codes (f : bytes * bytes) (text : bytes) : Prop :=
  exists en ev, text = en ++ [c_eq] ++ ev /\ codes raw_name (fst f) en /\ codes raw_value (snd f) ev.

Definition short_field (f : bytes * bytes) : Prop :=
  fst f <> [] /\ cstr (fst f) /\ (length (fst f) + 1 + length (snd f) < 256)%nat.

Fixpoint join_fields (texts : list bytes) : bytes :=
  match texts with
  | [] => []
  | [t] => t
  | t :: texts' => t ++ [c_amp] ++ join_fields texts'
  end.

(** The buffer after a field: its name and its value, each with a NUL. *)
Lemma dq_field pkey f text query buf j v :
  length buf = 256%nat -> short_field f -> field_codes f text ->
  exists buf', dq_loop pkey (text ++ query) (Dq buf 0 j false v) =
    dq_loop pkey query (Dq buf' (length (fst f) + 1 + length (snd f)) (length (fst f) + 1) true (length (fst f) + 1)) /\
    length buf' = 256%nat /\ take (length (fst f) + 1 + length (snd f)) buf' = fst f ++ [0] ++ snd f.
Proof.
  destruct f as [n val]. intros Hb (Hn & Hs & Hl) (en & ev & -> & Cn & Cv). cbn [fst snd] in *.
  assert (0 < length n)%nat as Hn0 by (destruct n; simpl; [done|lia]).
  rewrite <- !app_assoc, (dq_text pkey raw_name n); [|done|..]; cycle 1.
  { intros c [Hc Hne]%andb_true_iff. split; [done|right]. by apply Z.eqb_neq, negb_true_iff. }
  { cbn. lia. }
  cbn [dq_buf dq_k dq_j dq_named dq_value app dq_loop Z.eqb Pos.eqb andb negb].
  rewrite (proj2 (Nat.ltb_lt 0 _)) by lia. rewrite dq_put_eq by (cbn; rewrite splice_length; simpl; lia).
  cbn [mbind option_bind dq_buf dq_k Nat.add]. set (buf1 := <[length n:=0]> (splice buf 0 n)).
  assert (length buf1 = 256%nat) as L1 by (unfold buf1; rewrite length_insert, splice_length; lia).
  assert (take (length n + 1) buf1 = n ++ [0]) as T1.
  { unfold buf1, splice. simpl. rewrite insert_take_drop by (rewrite length_app, length_drop; lia).
    rewrite take_app_length, drop_app_ge by lia. rewrite drop_drop, cons_middle, app_assoc.
    apply take_app_length'. rewrite length_app. simpl. lia. }
  rewrite (dq_text pkey raw_value val); [|done|..]; cycle 1.
  { intros c Hc. split; [done|by left]. }
  { cbn. lia. }
  cbn [dq_buf dq_k dq_j dq_named dq_value]. replace (S (length n)) with (length n + 1)%nat by lia.
  eexists. split; [reflexivity|]. split; [rewrite splice_length; lia|].
  rewrite splice_take by lia. by rewrite T1, <- app_assoc.
Qed.

Lemma until_nul_app s t : cstr s -> until_nul (s ++ 0 :: t) = s.
Proof.
  induction s as [|c s IH]; simpl; [done|]. intros H. apply Forall_cons in H as [Hc Hs].
  unfold is_char in Hc. destruct (Z.eqb_spec c 0); [lia|]. by rewrite IH.
Qed.

(** The end of the field is a result exactly for a key that its name starts with. *)
Lemma dq_field_end pkey f buf :
  length buf = 256%nat -> short_field f ->
  take (length (fst f) + 1 + length (snd f)) buf = fst f ++ [0] ++ snd f ->
  exists buf', dq_end pkey (Dq buf (length (fst f) + 1 + length (snd f)) (length (fst f) + 1) true (length (fst f) + 1)) =
    Some (if starts_with (fst f) pkey then inl (Value (snd f))
          else inr (Dq buf' 0 (length (fst f) + 1) false 0)) /\ length buf' = 256%nat.
Proof.
  destruct f as [n val]. intros Hb (Hn & Hs & Hl) Ht. cbn [fst snd] in *. unfold dq_end.
  cbn [dq_buf dq_k dq_j dq_named dq_value negb andb orb]. set (k := (length n + 1 + length val)%nat) in *.
  unfold dq_store. rewrite (proj2 (Nat.ltb_lt k _)) by lia. cbn [mbind option_bind].
  exists (<[k:=0]> buf). split; [|by rewrite length_insert].
  assert (<[k:=0]> buf = (n ++ [0] ++ val) ++ 0 :: drop (S k) buf) as ->
    by (rewrite insert_take_drop by lia; by rewrite Ht).
  replace (cstr_at _ 0) with n; cycle 1.
  { unfold cstr_at. rewrite drop_0, <- !app_assoc. symmetry. by apply until_nul_app. }
  destruct (starts_with n pkey); [|done].
  rewrite (proj2 (Nat.leb_le _ k)) by lia.
  rewrite (proj2 (Nat.leb_le _ (length _))) by (rewrite !length_app; cbn [length]; rewrite length_drop; lia).
  cbn [andb]. do 3 f_equal. rewrite <- !app_assoc, (app_assoc n [0]).
  rewrite drop_app_length' by (rewrite length_app; simpl; lia). apply take_app_length'. lia.
Qed.

(** The first field whose name starts with the key. *)
Definition field_for (pkey : bytes) (fields : list (bytes * bytes)) : dq_out :=
  match List.find (fun f => starts_with (fst f) pkey) fields with
  | Some f => Value (snd f)
  | None => NoValue
  end.

Lemma dq_loop_fields pkey fields texts buf j :
  length buf = 256%nat -> Forall short_field fields -> Forall2 field_codes fields texts ->
  dq_loop pkey (join_fields texts) (Dq buf 0 j false 0) = Some (field_for pkey fields).
Proof.
  intros Hb Hs Hc. revert buf j Hb. induction Hc as [|f t fields texts Hf Hc IH]; intros buf j Hb.
  { cbn [join_fields dq_loop]. unfold dq_end, dq_store. cbn. by rewrite Hb. }
  apply Forall_cons in Hs as [Hsf Hs]. unfold field_for. cbn [List.find].
  destruct texts as [|t' texts].
  - inversion Hc; subst. cbn [join_fields]. rewrite <- (app_nil_r t).
    destruct (dq_field pkey f t [] buf j 0 Hb Hsf Hf) as (buf' & -> & Hb' & Ht).
    destruct (dq_field_end pkey f buf' Hb' Hsf Ht) as (buf'' & E & _). cbn [dq_loop]. rewrite E. cbn.
    by destruct (starts_with _ _).
  - change (join_fields (t :: t' :: texts)) with (t ++ c_amp :: join_fields (t' :: texts)).
    destruct (dq_field pkey f t (c_amp :: join_fields (t' :: texts)) buf j 0 Hb Hsf Hf) as (buf' & -> & Hb' & Ht).
    destruct (dq_field_end pkey f buf' Hb' Hsf Ht) as (buf'' & E & Hb''). cbn [dq_loop Z.eqb Pos.eqb andb]. rewrite E.
    cbn [mbind option_bind]. destruct (starts_with _ _); [done|]. by apply IH.
Qed.

(** C39. [decode_query] reads every form: for a query of fields [name=value] joined by
    [&], each byte written plainly, as [+] or as [%XX], whose decoded names and values
    fit the buffer of 256 bytes, the result is the value of the first field whose name
    starts with the key (not: is the key), or -1 if there is none. *)
Theorem decode_query_fields (buf pkey : bytes) (fields : list (bytes * bytes)) (texts : list bytes) :
  length buf = 256%nat -> Forall short_field fields -> Forall2 field_codes fields texts ->
  decode_query buf (join_fields texts) pkey = Some (field_for pkey fields).
Proof. apply dq_loop_fields. Qed.

Lemma decode_query_fields_witness :
  decode_query (replicate 256 7) (B "user=a%2Fb&us=x+y") (B "us") = Some (Value (B "a/b")).
Proof.
  apply (decode_query_fields (replicate 256 7) (B "us") [(B "user", B "a/b"); (B "us", B "x y")]
           [B "user=a%2Fb"; B "us=x+y"]).
  - done.
  - repeat constructor; try done; by_eval || by_decide.
  - repeat constructor.
    + exists (B "user"), (B "a%2Fb"). split_and!; [by_eval| |].
      * do 4 (apply codes_raw; [done|]). apply codes_nil.
      * apply codes_raw; [done|]. apply (codes_hex _ 50 70); [done|done|]. apply codes_raw; [done|]. apply codes_nil.
    + exists (B "us"), (B "x+y"). split_and!; [by_eval| |].
      * do 2 (apply codes_raw; [done|]). apply codes_nil.
      * apply codes_raw; [done|]. apply codes_space. apply codes_raw; [done|]. apply codes_nil.
Defined.

(** Text that is not escaped, longer than the buffer, is stored behind its end. *)
Lemma decode_query_overflow (buf pkey text : bytes) :
  length buf = 256%nat -> Forall (fun c => raw_name c = true) text -> (256 < length text)%nat ->
  decode_query buf text pkey = None.
Proof.
  intros Hb Ht Hl. unfold decode_query. rewrite <- (take_drop 256 text).
  rewrite (dq_text pkey raw_name (take 256 text)).
  - rewrite length_take_le by lia. destruct (drop 256 text) as [|c rest] eqn:E.
    { apply (f_equal length) in E. rewrite length_drop in E. simpl in E. lia. }
    assert (raw_name c = true) as [Hc Hne]%andb_true_iff.
    { rewrite <- (take_drop 256 text), E in Ht. apply Forall_app in Ht as [_ Ht]. by apply Forall_cons in Ht as [? _]. }
    rewrite dq_loop_raw; [|done|right; by apply Z.eqb_neq, negb_true_iff].
    unfold dq_put, dq_store. cbn [dq_k dq_buf Nat.add].
    rewrite splice_length by (rewrite length_take; lia). by rewrite Hb.
  - assert (Forall (fun c => raw_name c = true) (take 256 text)) as Ht2 by (by apply Forall_take).
    induction Ht2; constructor; done.
  - intros c [Hc Hne]%andb_true_iff. split; [done|right]. by apply Z.eqb_neq, negb_true_iff.
  - cbn [dq_k dq_buf]. rewrite length_take. lia.
Qed.
