(* ===== verification/GetCookie.v ===== *)
(** * The CGI tool that prints a cookie

    [scanspaces], [scan_cookie] and [main] of src/cgi-getcookie.c.  The NULs that
    [scan_cookie] writes are all in front of the pointer it returns, so a call is a
    function from the rest of the text. *)

From S2P Require Import Prelude.

Fixpoint scanspaces (p : bytes) : bytes :=
  match p with
  | c :: p' => if (c =? c_space) || (c =? c_tab) then scanspaces p' else p
  | [] => []
  end.

Definition is_quote (c : Z) : bool := (c =? c_dquote) || (c =? c_squote) || (c =? c_bquote).

(** [items[0]], [items[1]] and the pointer returned, if that is not 0. *)
Definition scan_cookie (p : bytes) : option (bytes * bytes * bytes) :=
  let p := scanspaces p in
  match find_byte c_eq p with
  | None | Some O => None
  | Some i =>
      let item := take i p in
      let p := drop (S i) p in
      if is_quote (chr p) then
        let quote := chr p in
        let p := drop 1 p in
        match find_byte quote p with
        | None => None
        | Some i =>
            let rest := drop (S i) p in
            Some (item, take i p, if chr rest =? c_semi then drop 1 rest else rest)
        end
      else
        let i := strcspn p [c_semi; c_space; c_tab; c_cr; c_lf] in
        Some (item, take i p, drop (S i) p)
  end.

(** The loop of [main]: the exit status and what is printed.  Every call of
    [scan_cookie] passes an [=], so the length of the text is enough fuel. *)
Fixpoint getcookie_loop (fuel : nat) (field p : bytes) : option (Z * bytes) :=
  match fuel with
  | O => None
  | S fuel' =>
      match scan_cookie p with
      | None => Some (-1, [])
      | Some (name, value, rest) =>
          if streq name field then Some (0, value) else getcookie_loop fuel' field rest
      end
  end.

(** [None] when the NUL is stored behind [buf]. *)
Definition getcookie_main (args : list bytes) (stdin : bytes) : option (Z * bytes) :=
  match args with
  | [field] =>
      let buf := take (Z.to_nat 4096) stdin in
      if (length buf =? Z.to_nat 4096)%nat then None
      else if (0 <? length buf)%nat then
        let p := until_nul buf in
        getcookie_loop (S (length p)) field p
      else Some (-1, [])
  | _ => Some (-1, [])
  end.

Example getcookie_1 : getcookie_main [B "b"] (B "a=1; b='x y'; c=3") = Some (0, B "x y").
Proof. by_eval. Qed.
Example getcookie_2 : getcookie_main [B "d"] (B "a=1; b='x y'; c=3") = Some (-1, []).
Proof. by_eval. Qed.

(** ** Termination *)

Lemma scanspaces_length p : (length (scanspaces p) <= length p)%nat.
Proof. induction p as [|c p IH]; simpl; [done|]. case_match; simpl; lia. Qed.

Lemma scan_cookie_shorter p name value rest :
  scan_cookie p = Some (name, value, rest) -> (length rest < length p)%nat.
Proof.
  unfold scan_cookie. pose proof (scanspaces_length p) as Hs.
  destruct (find_byte c_eq (scanspaces p)) as [[|i]|] eqn:E; [done| |done].
  apply find_byte_lt in E. destruct (is_quote _).
  - destruct (find_byte _ _) as [j|]; [|done]. intros [= <- <- <-].
    case_match; rewrite ?length_drop; lia.
  - intros [= <- <- <-]. rewrite !length_drop. lia.
Qed.

Lemma getcookie_loop_ends fuel field p : (length p < fuel)%nat -> is_Some (getcookie_loop fuel field p).
Proof.
  revert p. induction fuel as [|fuel IH]; intros p Hf; [lia|]. cbn [getcookie_loop].
  destruct (scan_cookie p) as [[[name value] rest]|] eqn:E; [|done].
  destruct (streq _ _); [done|]. apply IH. apply scan_cookie_shorter in E. lia.
Qed.

(** ** Cookie headers *)

(** A cookie: its name, its value and the quote around it, if any. *)
Definition cookie : Type := bytes * bytes * option Z.

Definition print_cookie (c : cookie) : bytes :=
  let '(name, value, quote) := c in
  name ++ [c_eq] ++ match quote with Some q => [q] ++ value ++ [q] | None => value end.

Fixpoint print_cookies (l : list cookie) : bytes :=
  match l with
  | [] => []
  | [c] => print_cookie c
  | c :: l' => print_cookie c ++ [c_semi; c_space] ++ print_cookies l'
  end.

Definition cookie_ok (c : cookie) : Prop :=
  let '(name, value, quote) := c in
  name <> [] /\ cstr name /\ (c_eq ∉ name) /\ scanspaces name = name /\ cstr value /\
  match quote with
  | Some q => is_quote q = true /\ q ∉ value
  | None => Forall (fun c => mem c [c_semi; c_space; c_tab; c_cr; c_lf] = false) value /\ is_quote (chr value) = false
  end.

Definition cookie_for (field : bytes) (l : list cookie) : Z * bytes :=
  match List.find (fun c => streq (fst (fst c)) field) l with
  | Some c => (0, snd (fst c))
  | None => (-1, [])
  end.

Lemma scanspaces_app n t : n <> [] -> scanspaces n = n -> scanspaces (n ++ t) = n ++ t.
Proof.
  destruct n as [|c n]; [done|]. intros _. simpl. destruct (_ || _); [|done].
  intros E. pose proof (scanspaces_length n). rewrite E in *. simpl in *. lia.
Qed.

Lemma chr_cons c s : chr (c :: s) = c.
Proof. done. Qed.

(** A cookie in front of a separator or of the end. *)
Lemma scan_cookie_print c rest :
  cookie_ok c -> rest = [] \/ (exists rest', rest = c_semi :: rest') ->
  exists name value, c.1 = (name, value) /\ scan_cookie (print_cookie c ++ rest) = Some (name, value, drop 1 rest).
Proof.
  destruct c as [[name value] quote]. intros (Hn & Hc & He & Hs & Hv & Hq) Hr. exists name, value. split; [done|].
  unfold scan_cookie, print_cookie. rewrite <- !app_assoc, scanspaces_app by done. cbn [app].
  rewrite find_byte_app by done. destruct (length name) as [|l] eqn:El; [by destruct name|].
  rewrite <- El, take_app_length.
  assert (forall t, drop (S (length name)) (name ++ c_eq :: t) = t) as Hd.
  { intros t. rewrite drop_app_ge by lia. by replace (S (length name) - length name)%nat with 1%nat by lia. }
  rewrite !Hd. destruct quote as [q|].
  - destruct Hq as [Hq Hnv]. cbn [app]. rewrite (chr_cons q), <- app_assoc. cbn [app].
    rewrite Hq. cbn [drop].
    rewrite !drop_0. rewrite find_byte_app by done. rewrite take_app_length, drop_app_ge by lia.
    replace (S (length value) - length value)%nat with 1%nat by lia. cbn [drop].
    destruct Hr as [->|[rest' ->]]; done.
  - destruct Hq as [Hm Hq]. replace (is_quote (chr (value ++ rest))) with false; cycle 1.
    { destruct value; [|done]. by destruct Hr as [->|[rest' ->]]. }
    destruct Hr as [->|[rest' ->]].
    + rewrite app_nil_r, strcspn_all by done. by rewrite take_ge, drop_ge by lia.
    + rewrite strcspn_app by done. rewrite take_app_length, drop_app_ge by lia.
      by replace (S (length value) - length value)%nat with 1%nat by lia.
Qed.

Lemma scan_space p : scan_cookie (c_space :: p) = scan_cookie p.
Proof. done. Qed.

Lemma getcookie_loop_space fuel field p : getcookie_loop fuel field (c_space :: p) = getcookie_loop fuel field p.
Proof. by destruct fuel. Qed.

Lemma getcookie_loop_print fuel field l :
  Forall cookie_ok l -> (length (print_cookies l) < fuel)%nat ->
  getcookie_loop fuel field (print_cookies l) = Some (cookie_for field l).
Proof.
  revert l. induction fuel as [|fuel IH]; intros l Hl Hf; [lia|]. unfold cookie_for.
  destruct l as [|c l]; [done|]. apply Forall_cons in Hl as [Hc Hl]. cbn [getcookie_loop List.find].
  assert (exists rest, print_cookies (c :: l) = print_cookie c ++ rest /\
    ((rest = [] /\ l = []) \/ rest = c_semi :: c_space :: print_cookies l)) as (rest & Ep & Hr).
  { destruct l as [|c' l]; [exists []; rewrite app_nil_r; auto|eexists; split; [done|by right]]. }
  destruct (scan_cookie_print c rest Hc) as (name & value & Ec & Es).
  { destruct Hr as [[-> _]| ->]; [by left|right; by eexists]. }
  pose proof (scan_cookie_shorter _ _ _ _ Es) as Hsh. rewrite Ep in *. rewrite Es, Ec. cbn [fst snd].
  destruct (streq name field); [by rewrite Ec|]. destruct Hr as [[-> ->]| ->]; [destruct fuel; [lia|done]|].
  cbn [drop] in *. rewrite getcookie_loop_space, IH; [done|done|]. simpl in Hsh. lia.
Qed.

Lemma print_cookies_cstr l : Forall cookie_ok l -> cstr (print_cookies l).
Proof.
  assert (forall c, cookie_ok c -> cstr (print_cookie c)) as Hp.
  { intros [[n v] [q|]] (_ & Hn & _ & _ & Hv & Hq); unfold print_cookie.
    - destruct Hq as [Hq _]. assert (is_char q) by (unfold is_quote, is_char in *; lia).
      apply Forall_app; split; [done|]. constructor; [done|]. constructor; [done|]. apply Forall_app. by split; [|constructor].
    - apply Forall_app. split; [done|]. by constructor. }
  induction l as [|c [|c' l] IH]; intros Hl; apply Forall_cons in Hl as [Hc Hl] || done; [by apply Hp|].
  cbn [print_cookies]. apply Forall_app. split; [by apply Hp|]. constructor; [done|]. constructor; [done|]. by apply IH.
Qed.

Lemma print_cookies_pos c l : Forall cookie_ok (c :: l) -> (0 < length (print_cookies (c :: l)))%nat.
Proof.
  intros [Hc _]%Forall_cons. destruct c as [[name value] q], Hc as (Hn & _), name as [|d name]; [done|].
  destruct l; simpl; lia.
Qed.

(** The cookie tool finds cookies: for a header of cookies joined by [; ], with
    values that may be quoted, the program prints the value of the first cookie with
    the name it is given and exits with 0, and exits with -1 without output if there is
    none. *)
Theorem getcookie_header (field : bytes) (l : list cookie) :
  Forall cookie_ok l -> Z.of_nat (length (print_cookies l)) < 4096 ->
  getcookie_main [field] (print_cookies l) = Some (cookie_for field l).
Proof.
  intros Hl Hlen. unfold getcookie_main. rewrite take_ge by lia.
  destruct (Nat.eqb_spec (length (print_cookies l)) (Z.to_nat 4096)); [lia|].
  rewrite until_nul_id by (by apply print_cookies_cstr).
  destruct (Nat.ltb_spec 0 (length (print_cookies l))).
  - apply getcookie_loop_print; [done|lia].
  - destruct l as [|c l]; [done|]. pose proof (print_cookies_pos c l Hl). lia.
Qed.

Lemma getcookie_header_witness :
  getcookie_main [B "id"] (B "a=1; id='7; 8'; id=9") = Some (0, B "7; 8").
Proof.
  apply (getcookie_header (B "id") [(B "a", B "1", None); (B "id", B "7; 8", Some c_squote); (B "id", B "9", None)]).
  - repeat constructor; try done; by_decide || by_eval.
  - by_eval.
Defined.
