(* ===== verification/Tinyweb.v ===== *)
(** * The command line and the configuration file

    [verify_document_root], [set_option], [process_command_line_arguments],
    [show_usage_and_exit] and [start_server] of src/tinyweb.c.  A function returns what
    it prints and either its result or, when it ends the process, the exit status. *)

From S2P Require Import Prelude CString Options SocketQueue HttpRequest Scanf Conn Os.

Definition MAX_OPTIONS : nat := 40.
Definition MAX_CONF_FILE_LINE_SIZE : nat := Z.to_nat 8192.

(** ** Printing and exiting *)

Definition run (A : Type) : Type := bytes * (Z + A).

#[export] Instance run_ret : MRet run := fun _ a => ([], inr a).
#[export] Instance run_bind : MBind run := fun _ _ f m =>
  match m with
  | (out, inl status) => (out, inl status)
  | (out, inr a) => let '(out', r) := f a in (out ++ out', r)
  end.
Definition print (text : bytes) : run unit := (text, inr tt).
Definition exit_ {A} (status : Z) : run A := ([], inl status).

(** The message is cut to the 200 bytes of [msg]. *)
Definition die {A} (text : bytes) : run A :=
  _ ← print (take 199 text ++ [c_lf]);
  exit_ 1.

Section tinyweb.
Context `{OS}.
(** What the compiler puts for [__DATE__]; the configuration file. *)
Context (date conf_file : bytes).

Definition show_usage_and_exit {A} : run A :=
  _ ← print (B "Tinyweb version 3.8 (c) jing wang, built on " ++ date ++ [c_lf]
             ++ B "Usage:" ++ [c_lf]
             ++ B "  tinyweb -A <htpasswd_file> <realm> <user> <passwd>" ++ [c_lf]
             ++ B "  tinyweb [config_file]" ++ [c_lf]
             ++ B "  tinyweb [-option value ...]" ++ [c_lf]
             ++ [c_lf] ++ B "OPTIONS:" ++ [c_lf]
             ++ concat (map (fun '(name, value) =>
                  B "  -" ++ name ++ B " " ++ default (B "<empty>") value ++ [c_lf]) config_options));
  exit_ 1.

Definition verify_document_root (root : bytes) : run unit :=
  let path := match find_byte c_comma root with
              | Some i => if (i <? PATH_MAX)%nat then take i root else root
              | None => root
              end in
  match os_stat path with
  | Some st => if st_isdir st then mret tt
               else die (B "Invalid root directory: [" ++ root ++ B "]: " ++ os_strerror)
  | None => die (B "Invalid root directory: [" ++ root ++ B "]: " ++ os_strerror)
  end.

(** The array of options up to its NULL. *)
Definition set_option (options : list bytes) (name value : bytes) : run (list bytes) :=
  _ ← (if streq name (B "document_root") || streq name (B "r") then verify_document_root value else mret tt);
  if (length options <? MAX_OPTIONS - 3)%nat then mret (options ++ [name; value])
  else die (B "Too many options specified").

(** A line of the configuration file. *)
Definition conf_line (line_no : nat) (line : bytes) (options : list bytes) : run (list bytes) :=
  let c := chr (skip_ws line) in
  if (c =? c_hash) || (c =? 0) then mret options
  else match sscanf line [Ps None true; Ws; Pnot None [c_cr; c_lf; c_hash] true] with
       | (2, [SStr opt; SStr val]) => set_option options opt val
       | _ =>
           _ ← print (conf_file ++ B ": line " ++ dec (Z.of_nat line_no) ++ B " is invalid, ignoring it:"
                      ++ [c_lf] ++ B " " ++ line);
           mret options
       end.

Fixpoint conf_lines (line_no : nat) (lines : list bytes) (options : list bytes) : run (list bytes) :=
  match lines with
  | [] => mret options
  | line :: lines' =>
      options ← conf_line line_no (until_nul line) options;
      conf_lines (S line_no) lines' options
  end.

(** The flags, from [argv[cmd_line_opts_start]] on. *)
Fixpoint flags_loop (args : list bytes) (options : list bytes) : run (list bytes) :=
  match args with
  | [] => mret options
  | flag :: value :: args' =>
      if negb (chr flag =? c_minus) then show_usage_and_exit
      else
        options ← set_option options (drop 1 flag) value;
        flags_loop args' options
  | _ => show_usage_and_exit
  end.
End tinyweb.

(** The name of the configuration file, and whether it is an argument. *)
Definition config_file_of (CONFIG_FILE arg0 : bytes) (args : list bytes) : bytes * bool :=
  let own := match find_last c_slash arg0 with
             | None => CONFIG_FILE
             | Some i => take i arg0 ++ B "/" ++ CONFIG_FILE
             end in
  match args with
  | a :: _ => if chr a =? c_minus then (take (PATH_MAX - 1) own, false) else (take (PATH_MAX - 1) a, true)
  | [] => (take (PATH_MAX - 1) own, false)
  end.

(** [arg0] is [argv[0]], [args] the arguments behind it. *)
Definition process_command_line_arguments `{OS} (date CONFIG_FILE arg0 : bytes) (args : list bytes)
    : run (list bytes) :=
  let '(config_file, given) := config_file_of CONFIG_FILE arg0 args in
  options ← match os_read config_file with
            | None =>
                if (given : bool)
                then die (B "Cannot open config file " ++ config_file ++ B ": " ++ os_strerror)
                else mret []
            | Some content =>
                _ ← print (B "Loading config file " ++ config_file ++ [c_lf]);
                conf_lines config_file 1 (fgets_lines MAX_CONF_FILE_LINE_SIZE content) []
            end;
  if match args with a :: _ => starts_with a (B "-psn_") | [] => false end then mret options
  else flags_loop date (if (given : bool) then drop 1 args else args) options.

(** What [start_server] is asked to do. *)
Inductive command :=
  | ModifyPasswords (fname domain user pass : bytes)
  | Start (options : list bytes).

Definition start_server `{OS} (date CONFIG_FILE arg0 : bytes) (args : list bytes) : run command :=
  if match args with a :: _ => streq a (B "-A") | [] => false end then
    match args with
    | [_; fname; domain; user; pass] => mret (ModifyPasswords fname domain user pass)
    | _ => show_usage_and_exit date
    end
  else if match args with [a] => streq a (B "-h") || streq a (B "--help") | _ => false end then
    show_usage_and_exit date
  else
    options ← process_command_line_arguments date CONFIG_FILE arg0 args;
    mret (Start options).

(** The message of [main] and what it writes to the file that [pidfile] names, once the
    server runs. *)
Definition announce (c : config) (pid : Z) : bytes * option (bytes * bytes) :=
  let option name := default (B "(null)") (mg_get_option c name) in
  (B "Tinyweb server v. 3.8 started on port(s) " ++ option (B "listening_ports")
   ++ B " with document root [" ++ option (B "document_root") ++ B "], pid [" ++ dec pid ++ B "]" ++ [c_lf],
   match mg_get_option c (B "pidfile") with
   | Some ((_ :: _) as pidfile) => Some (pidfile, dec pid)
   | _ => None
   end).

Definition example_os : OS :=
  small_os [(B "/etc/tw.conf", B "# ports" ++ [10] ++ B "listening_ports 8080" ++ [10; 10]
                               ++ B "document_root /www# here" ++ [10])] [B "/www"; B "/w2"].

Example start_1 :
  snd (@start_server example_os [] (B "mongoose.conf") (B "tinyweb")
         [B "/etc/tw.conf"; B "-document_root"; B "/w2"; B "-listening_ports"; B "80"])
  = inr (Start [B "listening_ports"; B "8080"; B "document_root"; B "/www";
                B "document_root"; B "/w2"; B "listening_ports"; B "80"]).
Proof. by_eval. Qed.

(** ** From a file and flags to options *)

(** The items of a configuration file. *)
Inductive conf_item := Comment (text : bytes) | Setting (name value : bytes).

Definition print_item (i : conf_item) : bytes :=
  match i with Comment text => c_hash :: text | Setting name value => name ++ c_space :: value end.

Definition setting_of (i : conf_item) : list (bytes * bytes) :=
  match i with Comment _ => [] | Setting name value => [(name, value)] end.

Definition flat (l : list (bytes * bytes)) : list bytes := flat_map (fun '(n, v) => [n; v]) l.

Definition print_flags (l : list (bytes * bytes)) : list bytes :=
  flat_map (fun '(n, v) => [c_minus :: n; v]) l.

(** The value of an option that names the document root is a directory. *)
Definition root_ok `{OS} (s : bytes * bytes) : Prop :=
  fst s = B "document_root" \/ fst s = B "r" -> verify_document_root (snd s) = mret tt.

Definition item_ok (i : conf_item) : Prop :=
  cstr (print_item i) /\ (c_lf ∉ print_item i) /\ (S (length (print_item i)) < MAX_CONF_FILE_LINE_SIZE)%nat /\
  match i with
  | Comment _ => True
  | Setting name value =>
      name <> [] /\ chr name <> c_hash /\ Forall (fun c => isspace c = false) name /\
      value <> [] /\ isspace (chr value) = false /\ Forall (fun c => mem c [c_cr; c_lf; c_hash] = false) value
  end.

#[export] Instance root_ok_dec `{OS} s : Decision (root_ok s).
Proof. unfold root_ok, run. apply _. Defined.
#[export] Instance item_ok_dec i : Decision (item_ok i).
Proof. unfold item_ok. destruct i; apply _. Defined.

Lemma flat_length l : length (flat l) = (2 * length l)%nat.
Proof. induction l as [|[n v] l IH]; simpl in *; lia. Qed.

Section settings.
Context `{OS}.

Lemma set_option_ok options name value :
  root_ok (name, value) -> (length options < MAX_OPTIONS - 3)%nat ->
  set_option options name value = ([], inr (options ++ [name; value])).
Proof.
  intros Hr Hl. unfold set_option. rewrite (proj2 (Nat.ltb_lt _ _)) by done.
  destruct (streq name (B "document_root") || streq name (B "r")) eqn:E; [|done].
  rewrite Hr; [done|]. rewrite orb_true_iff, !streq_true in E. done.
Qed.

Lemma flags_loop_ok date l options :
  Forall root_ok l -> (length options + length (flat l) <= MAX_OPTIONS - 2)%nat ->
  flags_loop date (print_flags l) options = ([], inr (options ++ flat l)).
Proof.
  intros Hl. revert options. induction Hl as [|[n v] l Hn Hl IH]; intros options Hs; cbn [flat flat_map print_flags].
  { by rewrite app_nil_r. }
  change (flat ((n, v) :: l)) with (n :: v :: flat l) in *. cbn [length] in Hs.
  cbn [app flags_loop]. change (chr (c_minus :: n)) with c_minus. cbn [Z.eqb Pos.eqb negb drop].
  rewrite set_option_ok by (done || (unfold MAX_OPTIONS in *; lia)).
  unfold mbind, run_bind. fold (print_flags l). rewrite IH by (rewrite length_app; cbn [length]; lia).
  by rewrite <- app_assoc.
Qed.

(** A line with a setting is scanned into its parts. *)
Lemma scan_setting name value :
  name <> [] -> Forall (fun c => isspace c = false) name ->
  value <> [] -> isspace (chr value) = false -> Forall (fun c => mem c [c_cr; c_lf; c_hash] = false) value ->
  sscanf (name ++ c_space :: value ++ [c_lf]) [Ps None true; Ws; Pnot None [c_cr; c_lf; c_hash] true]
  = (2, [SStr name; SStr value]).
Proof.
  intros Hn Hns Hv Hc Hvs. unfold sscanf. generalize (length (name ++ c_space :: value ++ [c_lf])). intros total.
  rewrite scan_Ps by (try done; by intros c [= <-]).
  rewrite scan_Ws. change (skip_ws (c_space :: value ++ [c_lf])) with (skip_ws (value ++ [c_lf])).
  rewrite (skip_ws_chr (value ++ [c_lf])) by (by destruct value).
  rewrite scan_Pnot by (try done; by intros c [= <-]). done.
Qed.

Lemma conf_line_ok file k i options :
  item_ok i -> Forall root_ok (setting_of i) ->
  (length options + length (flat (setting_of i)) <= MAX_OPTIONS - 2)%nat ->
  conf_line file k (print_item i ++ [c_lf]) options = ([], inr (options ++ flat (setting_of i))).
Proof.
  intros (Hs & _ & _ & Hi) Hr Hl. unfold conf_line. destruct i as [text|name value]; cbn [print_item setting_of flat] in *.
  { by rewrite app_nil_r. }
  destruct Hi as (Hn & Hh & Hns & Hv & Hc & Hvs). rewrite <- app_assoc. cbn [app].
  rewrite scan_setting by done. apply Forall_cons in Hr as [Hr _].
  rewrite set_option_ok by (done || (unfold MAX_OPTIONS in *; simpl in Hl; lia)).
  destruct name as [|d name]; [done|]. apply Forall_cons in Hns as [Hd _].
  rewrite skip_ws_chr by done. apply Forall_cons in Hs as [Hd0 _].
  change (chr ((d :: name) ++ c_space :: value ++ [c_lf])) with d. change (chr (d :: name)) with d in Hh.
  unfold is_char in Hd0. rewrite (proj2 (Z.eqb_neq d c_hash)), (proj2 (Z.eqb_neq d 0)) by lia. done.
Qed.

Lemma conf_lines_ok file k items options :
  Forall item_ok items -> Forall root_ok (flat_map setting_of items) ->
  (length options + length (flat (flat_map setting_of items)) <= MAX_OPTIONS - 2)%nat ->
  conf_lines file k (map (fun i => print_item i ++ [c_lf]) items) options
  = ([], inr (options ++ flat (flat_map setting_of items))).
Proof.
  intros Hi. revert k options. induction Hi as [|i items Hi His IH]; intros k options Hr Hl; cbn [map conf_lines flat_map].
  { by rewrite app_nil_r. }
  cbn [flat_map] in Hr, Hl. apply Forall_app in Hr as [Hr1 Hr2].
  unfold flat in *. rewrite flat_map_app in *. fold (flat (setting_of i)) in *. rewrite length_app in Hl.
  rewrite until_nul_id by (apply Forall_app; split; [apply Hi|by repeat constructor]).
  rewrite conf_line_ok by (done || lia). unfold mbind, run_bind.
  fold (flat (flat_map setting_of items)) in *. rewrite IH by (try done; rewrite length_app; lia).
  by rewrite <- app_assoc.
Qed.
End settings.

Lemma last_assigned_app name a b :
  last_assigned name (flat a ++ flat b) =
  match last_assigned name (flat b) with Some v => Some v | None => last_assigned name (flat a) end.
Proof.
  induction a as [|[n v] a IH]; cbn [flat flat_map app last_assigned]; [by case_match|].
  fold (flat a). rewrite IH. by destruct (last_assigned name (flat b)).
Qed.

(** Known names make a configuration. *)
Lemma set_options_known l c :
  Forall (fun s => get_option_index (fst s) <> -1) l -> exists c', set_options c (flat l) = inr c'.
Proof.
  intros Hl. revert c. induction Hl as [|[n v] l Hn Hl IH]; intros c; [by eexists|].
  change (flat ((n, v) :: l)) with (n :: v :: flat l). cbn [set_options fst] in *.
  rewrite (proj2 (Z.eqb_neq _ _)) by done. apply IH.
Qed.

Lemma streq_chr a b : chr a <> chr b -> streq a b = false.
Proof. intros H. apply not_true_iff_false. by intros ->%streq_true. Qed.

(** The options that a file and flags give. *)
Lemma start_server_options `{OS} date CONFIG_FILE arg0 file items flags :
  let settings := flat_map setting_of items in
  chr file <> c_minus -> (length file < PATH_MAX)%nat ->
  os_read file = Some (concat (map (fun i => print_item i ++ [c_lf]) items)) ->
  Forall item_ok items -> Forall root_ok (settings ++ flags) -> (length (settings ++ flags) <= 19)%nat ->
  snd (start_server date CONFIG_FILE arg0 (file :: print_flags flags)) = inr (Start (flat (settings ++ flags))).
Proof.
  intros settings Hm Hf Hread Hi Hr Hl. apply Forall_app in Hr as [Hr1 Hr2]. rewrite length_app in Hl.
  unfold start_server. rewrite !streq_chr by done. replace (match print_flags flags with [] => _ | _ => _ end) with false
    by (by destruct (print_flags flags)).
  unfold process_command_line_arguments, config_file_of. rewrite (proj2 (Z.eqb_neq _ _)) by done.
  rewrite take_ge by lia. rewrite Hread. cbn [drop].
  assert (map (fun i => print_item i ++ [c_lf]) items = map (fun l => l ++ [c_lf]) (map print_item items)) as Em
    by (by rewrite map_map).
  rewrite Em, fgets_lines_concat, <- Em; cycle 1.
  { apply Forall_fmap. eapply Forall_impl; [done|]. intros i (_ & ? & ? & _). done. }
  rewrite conf_lines_ok by (try done; rewrite flat_length; unfold MAX_OPTIONS, settings in *; simpl length; lia).
  rewrite starts_with_chr by done. unfold mbind, run_bind, print. cbv beta iota zeta.
  rewrite drop_0, flags_loop_ok by (try done; rewrite length_app, !flat_length; unfold MAX_OPTIONS, settings in *; simpl length; lia).
  cbn. unfold flat. by rewrite flat_map_app.
Qed.

(** C31. The command line wins: for a configuration file of comments and settings, given
    as first argument and followed by flags, all for known options and at most nineteen
    together, the server is started with a configuration in which every option has the
    value of its last flag, or else of its last setting in the file, or else its
    default. *)
Theorem command_line_config `{OS} (date CONFIG_FILE arg0 file : bytes) (items : list conf_item)
    (flags : list (bytes * bytes)) :
  let settings := flat_map setting_of items in
  let options := flat (settings ++ flags) in
  chr file <> c_minus -> (length file < PATH_MAX)%nat ->
  os_read file = Some (concat (map (fun i => print_item i ++ [c_lf]) items)) ->
  Forall item_ok items -> Forall root_ok (settings ++ flags) -> (length (settings ++ flags) <= 19)%nat ->
  Forall (fun s => get_option_index (fst s) <> -1) (settings ++ flags) ->
  snd (start_server date CONFIG_FILE arg0 (file :: print_flags flags)) = inr (Start options) /\
  exists c, mg_start_config options = inr c /\
    forall i name d, config_options !! i = Some (name, d) ->
      cfg c i = match last_assigned name (flat flags) with
                | Some v => Some v
                | None => match last_assigned name (flat settings) with Some v => Some v | None => d end
                end.
Proof.
  intros settings options Hm Hf Hread Hi Hr Hl Hk. split.
  - by apply start_server_options.
  - destruct (set_options_known (settings ++ flags) (replicate NUM_OPTIONS None) Hk) as (c & Ec).
    assert (mg_start_config options = inr (set_defaults config_options 0 c)) as Es
      by (unfold mg_start_config, options; by rewrite Ec).
    eexists. split; [done|]. intros i name d Hd. rewrite (start_config_cfg _ _ Es i name d Hd).
    unfold options, flat. rewrite flat_map_app. fold (flat settings) (flat flags). rewrite last_assigned_app.
    by destruct (last_assigned name (flat flags)).
Qed.

Lemma command_line_config_witness :
  let items := [Comment (B " ports"); Setting (B "listening_ports") (B "8080"); Setting (B "document_root") (B "/www")] in
  let flags := [(B "document_root", B "/w2")] in
  let os := small_os [(B "tw.conf", concat (map (fun i => print_item i ++ [c_lf]) items))] [B "/www"; B "/w2"] in
  snd (@start_server os [] (B "mongoose.conf") (B "tinyweb") [B "tw.conf"; B "-document_root"; B "/w2"])
  = inr (Start (flat [(B "listening_ports", B "8080"); (B "document_root", B "/www"); (B "document_root", B "/w2")])) /\
  exists c, mg_start_config (flat [(B "listening_ports", B "8080"); (B "document_root", B "/www");
                                   (B "document_root", B "/w2")]) = inr c /\
    cfg c DOCUMENT_ROOT = Some (B "/w2") /\ cfg c LISTENING_PORTS = Some (B "8080") /\ cfg c NUM_THREADS = Some (B "50").
Proof.
  intros items flags os.
  destruct (@command_line_config os [] (B "mongoose.conf") (B "tinyweb") (B "tw.conf") items flags) as [E (c & Ec & Hc)].
  - done.
  - apply Nat.ltb_lt. by_eval.
  - by_eval.
  - by_decide.
  - by_decide.
  - apply Nat.leb_le. by_eval.
  - by_decide.
  - split; [exact E|]. exists c. split; [exact Ec|].
    rewrite (Hc DOCUMENT_ROOT (B "document_root") (Some (B "."))), (Hc LISTENING_PORTS (B "listening_ports") (Some (B "8080"))),
      (Hc NUM_THREADS (B "num_threads") (Some (B "50"))) by done.
    split_and!; by_eval.
Defined.
