(* ===== verification/Process.v ===== *)
(** * The process

    What the functions that start and stop the server, and the SSL code, use of the
    process: blocks of memory, file descriptors, the options of sockets, the terminal
    and the logs, and the tables and locks that the SSL code keeps in static variables.
    A computation gives [None] when it misuses them: it frees a block that is not
    allocated, closes a descriptor that is not open or calls a function of the SSL
    library through a NULL pointer.  What a computation owns is followed by rules in the
    style of Hoare. *)

From S2P Require Import Prelude CString Options SocketQueue HttpRequest Scanf Conn Os.

Inductive mutex := Unlocked | LockedBy (thread : Z).

Inductive sockopt :=
  | KeepAlive | RcvTimeout (sec usec : Z) | SndTimeout (sec usec : Z) | Linger (seconds : Z)
  | ShutdownWrite | NonBlocking | CloseOnExec.

(** The static variables of the SSL code, and what it has set in the SSL library. *)
Record ssl_state := SslState {
  ssl_sw : list (bytes * option Z);         (* names and pointers *)
  crypto_sw : list (bytes * option Z);
  ssl_mutexes : option (nat * list mutex);  (* the block and what is in it *)
  locking_callback : bool;
  id_callback : bool
}.

Record proc := Proc {
  live : list nat;                          (* blocks of memory *)
  next_block : nat;
  grants : list bool;                       (* results of malloc; it succeeds at the end *)
  open_fds : list Z;                        (* sockets *)
  sockopts : list (Z * sockopt);            (* what has been set, in order *)
  p_ssl : ssl_state;
  p_clock : list Z;
  p_fx : list effect
}.

Definition P (A : Type) : Type := proc -> option (A * proc).
#[export] Instance P_ret : MRet P := fun A a p => Some (a, p).
#[export] Instance P_bind : MBind P := fun A B f m p =>
  match m p with None => None | Some (a, p') => f a p' end.

Definition misuse {A} : P A := fun _ => None.

Definition set_memory (l : list nat) (n : nat) (g : list bool) (p : proc) : proc :=
  Proc l n g (open_fds p) (sockopts p) (p_ssl p) (p_clock p) (p_fx p).
Definition set_fds (l : list Z) (p : proc) : proc :=
  Proc (live p) (next_block p) (grants p) l (sockopts p) (p_ssl p) (p_clock p) (p_fx p).
Definition set_output (clock : list Z) (fx : list effect) (p : proc) : proc :=
  Proc (live p) (next_block p) (grants p) (open_fds p) (sockopts p) (p_ssl p) clock fx.

Definition get_ssl : P ssl_state := fun p => Some (p_ssl p, p).
Definition put_ssl (v : ssl_state) : P unit := fun p =>
  Some (tt, Proc (live p) (next_block p) (grants p) (open_fds p) (sockopts p) v (p_clock p) (p_fx p)).

(** One occurrence of [x] less, if there is one. *)
Fixpoint remove_one {A} `{EqDecision A} (x : A) (l : list A) : option (list A) :=
  match l with
  | [] => None
  | y :: l' => if decide (x = y) then Some l' else cons y <$> remove_one x l'
  end.

(** [malloc] and [calloc]: the block, or NULL. *)
Definition alloc : P (option nat) := fun p =>
  if default true (head (grants p))
  then Some (Some (next_block p), set_memory (next_block p :: live p) (S (next_block p)) (tail (grants p)) p)
  else Some (None, set_memory (live p) (next_block p) (tail (grants p)) p).

Definition free_ (b : nat) : P unit := fun p =>
  match remove_one b (live p) with
  | Some l => Some (tt, set_memory l (next_block p) (grants p) p)
  | None => None
  end.
(** [free(NULL)] does nothing. *)
Definition free_opt (b : option nat) : P unit := match b with Some b => free_ b | None => mret tt end.

Definition block_list (b : option nat) : list nat := match b with Some b => [b] | None => [] end.

(** [closesocket]; of [INVALID_SOCKET] it fails without harm. *)
Definition close_fd (fd : Z) : P unit := fun p =>
  if fd <? 0 then Some (tt, p)
  else match remove_one fd (open_fds p) with
       | Some l => Some (tt, set_fds l p)
       | None => None
       end.

(** [setsockopt], [fcntl] and [shutdown] *)
Definition set_sockopt (fd : Z) (o : sockopt) : P unit := fun p =>
  Some (tt, Proc (live p) (next_block p) (grants p) (open_fds p) (sockopts p ++ [(fd, o)]) (p_ssl p)
              (p_clock p) (p_fx p)).

Definition p_emit (e : effect) : P unit := fun p => Some (tt, set_output (p_clock p) (p_fx p ++ [e]) p).

(** [cry(fc(ctx), text)]: the fake connection has no address and no request. *)
Definition cry_ctx `{OS} (c : config) (text : bytes) : P unit := fun p =>
  let buf := take (MG_BUF_LEN - 1) text in
  match cfg c ERROR_LOG_FILE with
  | Some log =>
      if os_append log then
        Some (tt, set_output (tail (p_clock p)) (p_fx p ++ [FxLog buf; FxAppend log
          (B "[" ++ dec_pad 10 (wrap64 (default 0 (head (p_clock p)))) ++ B "] [error] [client ] " ++ buf ++ [c_lf])]) p)
      else Some (tt, set_output (p_clock p) (p_fx p ++ [FxLog buf]) p)
  | None => Some (tt, set_output (p_clock p) (p_fx p ++ [FxLog buf]) p)
  end.

(** ** Ownership *)

(** [p] has the blocks and descriptors of [p0], and [bs] and [ds] besides, and the SSL
    code is in state [v]; what has been printed and written stays.  The clock and the
    options of sockets do not matter. *)
Record owns (p0 : proc) (bs : list nat) (ds : list Z) (v : ssl_state) (p : proc) : Prop := {
  ow_live : live p ≡ₚ bs ++ live p0;
  ow_fds : open_fds p ≡ₚ ds ++ open_fds p0;
  ow_ssl : p_ssl p = v;
  ow_grants : grants p0 = [] -> grants p = [];
  ow_fx : p_fx p0 `prefix_of` p_fx p
}.

(** [m] can be run in every state with [Pre], and then [Post] holds. *)
Definition triple {A} (Pre : proc -> Prop) (m : P A) (Post : A -> proc -> Prop) : Prop :=
  forall p, Pre p -> exists a p', m p = Some (a, p') /\ Post a p'.

Lemma triple_ret {A} (a : A) (Q : A -> proc -> Prop) : triple (Q a) (mret a) Q.
Proof. intros p Hp. by exists a, p. Qed.

Lemma triple_bind {A B} (m : P A) (f : A -> P B) Pre Mid Post :
  triple Pre m Mid -> (forall a, triple (Mid a) (f a) Post) -> triple Pre (m ≫= f) Post.
Proof.
  intros Hm Hf p Hp. destruct (Hm p Hp) as (a & p1 & E & H1). destruct (Hf a p1 H1) as (b & p2 & E2 & H2).
  exists b, p2. unfold mbind, P_bind. by rewrite E.
Qed.

Lemma triple_weaken {A} (m : P A) (Pre Pre' : proc -> Prop) (Post Post' : A -> proc -> Prop) :
  triple Pre m Post -> (forall p, Pre' p -> Pre p) -> (forall a p, Post a p -> Post' a p) -> triple Pre' m Post'.
Proof. intros Hm H1 H2 p Hp. destruct (Hm p (H1 p Hp)) as (a & p' & E & Hq). exists a, p'. auto. Qed.

Lemma remove_one_spec {A} `{EqDecision A} (x : A) l k :
  l ≡ₚ x :: k -> exists l', remove_one x l = Some l' /\ l' ≡ₚ k.
Proof.
  assert (forall l, x ∈ l -> exists l', remove_one x l = Some l' /\ l ≡ₚ x :: l') as Hin.
  { intros l0. induction l0 as [|y l0 IH]; [by intros ?%elem_of_nil|]. cbn [remove_one].
    destruct (decide (x = y)) as [->|Hne]; [by exists l0|]. intros [?|H]%elem_of_cons; [done|].
    destruct (IH H) as (l' & -> & Hp). exists (y :: l'). split; [done|]. rewrite Hp. solve_Permutation. }
  intros H. destruct (Hin l) as (l' & E & Hp); [rewrite H; by left|]. exists l'. split; [done|].
  apply (Permutation_cons_inv (a := x)). by rewrite <- Hp.
Qed.

(** *** Rules *)

Section rules.
Context `{OS} (p0 : proc).
Implicit Types (bs : list nat) (ds : list Z) (v : ssl_state).

Lemma owns_refl : owns p0 [] [] (p_ssl p0) p0.
Proof. by constructor. Qed.

Lemma owns_perm bs bs' ds ds' v p : bs ≡ₚ bs' -> ds ≡ₚ ds' -> owns p0 bs ds v p -> owns p0 bs' ds' v p.
Proof. intros Hb Hd [Hl Hf]. constructor; [by rewrite Hl, Hb|by rewrite Hf, Hd|done|done|done]. Qed.

(** The order of what is owned does not matter. *)
#[export] Instance owns_proper : Proper ((≡ₚ) ==> (≡ₚ) ==> eq ==> eq ==> iff) (owns p0).
Proof. intros bs bs' Hb ds ds' Hd v ? <- p ? <-. by split; apply owns_perm. Qed.

Lemma alloc_rule bs ds v :
  triple (owns p0 bs ds v) alloc
    (fun b p => match b with
                | Some b => owns p0 (b :: bs) ds v p
                | None => owns p0 bs ds v p /\ grants p0 <> []
                end).
Proof.
  intros p [Hl Hf Hv Hg Hx]. unfold alloc. destruct (default true (head (grants p))) eqn:E; eexists _, _; (split; [done|]).
  - constructor; simpl; [by rewrite Hl|done|done| |done]. intros E0. by rewrite Hg.
  - split; [|intros E0; by rewrite Hg in E]. constructor; simpl; [done|done|done| |done]. intros E0. by rewrite Hg.
Qed.

Lemma free_rule b bs bs' ds v :
  bs ≡ₚ b :: bs' -> triple (owns p0 bs ds v) (free_ b) (fun _ => owns p0 bs' ds v).
Proof.
  intros Hb p [Hl Hf Hv Hg]. rewrite Hb in Hl. destruct (remove_one_spec b (live p) (bs' ++ live p0)) as (l & E & Hp); [done|].
  unfold free_. rewrite E. eexists _, _. split; [done|]. by constructor.
Qed.

Lemma close_rule fd bs ds ds' v :
  0 <= fd -> ds ≡ₚ fd :: ds' -> triple (owns p0 bs ds v) (close_fd fd) (fun _ => owns p0 bs ds' v).
Proof.
  intros Hfd Hd p [Hl Hf Hv Hg]. rewrite Hd in Hf.
  destruct (remove_one_spec fd (open_fds p) (ds' ++ open_fds p0)) as (l & E & Hp); [done|].
  unfold close_fd. destruct (Z.ltb_spec fd 0); [lia|]. rewrite E. eexists _, _. split; [done|]. by constructor.
Qed.

Lemma put_ssl_rule bs ds v v' : triple (owns p0 bs ds v) (put_ssl v') (fun _ => owns p0 bs ds v').
Proof. intros p []. eexists _, _. split; [done|]. by constructor. Qed.

Lemma get_ssl_rule bs ds v : triple (owns p0 bs ds v) get_ssl (fun v' p => v' = v /\ owns p0 bs ds v p).
Proof. intros p Hp. eexists _, _. split; [done|]. split; [apply Hp|done]. Qed.

Lemma get_ssl_bind {A} (f : ssl_state -> P A) bs ds v Q :
  triple (owns p0 bs ds v) (f v) Q -> triple (owns p0 bs ds v) (get_ssl ≫= f) Q.
Proof. intros Hf p Hp. unfold mbind, P_bind, get_ssl. rewrite (ow_ssl _ _ _ _ _ Hp). by apply Hf. Qed.

(** What only shows outside. *)
Lemma sockopt_rule fd o bs ds v : triple (owns p0 bs ds v) (set_sockopt fd o) (fun _ => owns p0 bs ds v).
Proof. intros p []. eexists _, _. split; [done|]. by constructor. Qed.
Lemma p_emit_rule e bs ds v : triple (owns p0 bs ds v) (p_emit e) (fun _ => owns p0 bs ds v).
Proof. intros p []. eexists _, _. split; [done|]. constructor; try done. by apply prefix_app_r. Qed.
Lemma cry_rule c text bs ds v : triple (owns p0 bs ds v) (cry_ctx c text) (fun _ => owns p0 bs ds v).
Proof.
  intros p []. unfold cry_ctx. destruct (cfg _ _) as [log|]; [destruct (os_append log)|];
    (eexists _, _; split; [done|]; constructor; try done; by apply prefix_app_r).
Qed.
End rules.

(** ** Automation *)

Create HintDb rules.
#[export] Hint Resolve alloc_rule put_ssl_rule sockopt_rule p_emit_rule cry_rule : rules.

(** A precondition with facts in front of the state. *)
Lemma triple_and {A} (F : Prop) Pre (m : P A) Post :
  (F -> triple Pre m Post) -> triple (fun p => F /\ Pre p) m Post.
Proof. intros Hm p [HF Hp]. by apply (Hm HF). Qed.

Lemma triple_ex {A B} (Pre : B -> proc -> Prop) (m : P A) Post :
  (forall b, triple (Pre b) m Post) -> triple (fun p => exists b, Pre b p) m Post.
Proof. intros Hm p [b Hp]. by apply (Hm b). Qed.

(** The next call of a computation, by its rule. *)
Ltac p_step := first [apply get_ssl_bind | eapply triple_bind; [solve [eauto with rules]|intros ?]].
Ltac p_steps := repeat p_step.
