(* ===== verification/Ssl.v ===== *)
(** * The SSL library

    [load_dll], [set_ssl_option], [ssl_error], [ssl_locking_callback], [sslize] and
    [uninitialize_ssl] of src/mongoose.c, with the tables of function pointers and the
    locks that these keep for the library.  The library is a parameter; every call of it
    goes through the tables, and one through a NULL pointer is a misuse.  Setting up
    either fails and leaves at most the context behind, or leaves the tables filled and a
    lock for every number that the library may ask for. *)

From S2P Require Import Prelude CString Options SocketQueue HttpRequest Scanf Conn Os Process.

Definition SSL_LIB : bytes := B "libssl.so".
Definition CRYPTO_LIB : bytes := B "libcrypto.so".

Definition ssl_names : list bytes := [
  B "SSL_free"; B "SSL_accept"; B "SSL_connect"; B "SSL_read"; B "SSL_write"; B "SSL_get_error"; B "SSL_set_fd";
  B "SSL_new"; B "SSL_CTX_new"; B "SSLv23_server_method"; B "SSL_library_init"; B "SSL_CTX_use_PrivateKey_file";
  B "SSL_CTX_use_certificate_file"; B "SSL_CTX_set_default_passwd_cb"; B "SSL_CTX_free"; B "SSL_load_error_strings";
  B "SSL_CTX_use_certificate_chain_file"; B "SSLv23_client_method"; B "SSL_pending"; B "SSL_CTX_set_verify";
  B "SSL_shutdown"].
Definition crypto_names : list bytes := [
  B "CRYPTO_num_locks"; B "CRYPTO_set_locking_callback"; B "CRYPTO_set_id_callback"; B "ERR_get_error";
  B "ERR_error_string"].

(** The tables before anything is loaded. *)
Definition ssl_init : ssl_state :=
  SslState (map (fun n => (n, None)) ssl_names) (map (fun n => (n, None)) crypto_names) None false false.

(** What the functions of the library return, and what the loader finds. *)
Class SslLib := {
  lib_dlopen : bytes -> option Z;
  lib_dlsym : Z -> bytes -> option Z;
  lib_ctx_new : bool;                       (* SSL_CTX_new *)
  lib_use_certificate : bytes -> Z;
  lib_use_key : bytes -> Z;
  lib_num_locks : Z;
  lib_get_error : Z;
  lib_error_string : Z -> bytes;
  lib_new : bool;                           (* SSL_new *)
  lib_set_fd : Z -> Z;
  lib_accept : Z -> Z
}.

Definition set_sw (sw : list (bytes * option Z)) (v : ssl_state) : ssl_state :=
  SslState sw (crypto_sw v) (ssl_mutexes v) (locking_callback v) (id_callback v).
Definition set_crypto (sw : list (bytes * option Z)) (v : ssl_state) : ssl_state :=
  SslState (ssl_sw v) sw (ssl_mutexes v) (locking_callback v) (id_callback v).
Definition set_mutexes (m : option (nat * list mutex)) (v : ssl_state) : ssl_state :=
  SslState (ssl_sw v) (crypto_sw v) m (locking_callback v) (id_callback v).
Definition set_callbacks (lock id : bool) (v : ssl_state) : ssl_state :=
  SslState (ssl_sw v) (crypto_sw v) (ssl_mutexes v) lock id.

(** A call through [ssl_sw[i].ptr] or [crypto_sw[i].ptr]. *)
Definition loaded (sw : list (bytes * option Z)) (i : nat) : bool :=
  match sw !! i with Some (_, Some _) => true | _ => false end.
Definition call_ssl (i : nat) : P unit :=
  v ← get_ssl;
  if loaded (ssl_sw v) i then mret tt else misuse.
Definition call_crypto (i : nat) : P unit :=
  v ← get_ssl;
  if loaded (crypto_sw v) i then mret tt else misuse.

(** Their places in the tables. *)
Definition i_SSL_free : nat := 0.
Definition i_SSL_accept : nat := 1.
Definition i_SSL_set_fd : nat := 6.
Definition i_SSL_new : nat := 7.
Definition i_SSL_CTX_new : nat := 8.
Definition i_SSLv23_server_method : nat := 9.
Definition i_SSL_library_init : nat := 10.
Definition i_SSL_CTX_use_PrivateKey_file : nat := 11.
Definition i_SSL_CTX_use_certificate_file : nat := 12.
Definition i_SSL_CTX_free : nat := 14.
Definition i_SSL_load_error_strings : nat := 15.
Definition i_SSL_CTX_use_certificate_chain_file : nat := 16.
Definition i_SSL_shutdown : nat := 20.
Definition i_CRYPTO_num_locks : nat := 0.
Definition i_CRYPTO_set_locking_callback : nat := 1.
Definition i_CRYPTO_set_id_callback : nat := 2.
Definition i_ERR_get_error : nat := 3.
Definition i_ERR_error_string : nat := 4.

Section ssl.
Context `{OS} `{SslLib}.

(** The loop of [load_dll]: the table, and the name that was not found. *)
Fixpoint load_symbols (handle : Z) (sw : list (bytes * option Z)) : list (bytes * option Z) * option bytes :=
  match sw with
  | [] => ([], None)
  | (name, ptr) :: sw' =>
      match lib_dlsym handle name with
      | None => ((name, ptr) :: sw', Some name)
      | Some f => let '(sw'', missing) := load_symbols handle sw' in ((name, Some f) :: sw'', missing)
      end
  end.

(** The result and the table; [c] is the configuration of [ctx]. *)
Definition load_dll (c : config) (dll_name : bytes) (sw : list (bytes * option Z))
    : P (bool * list (bytes * option Z)) :=
  match lib_dlopen dll_name with
  | None =>
      _ ← cry_ctx c (B "load_dll: cannot load " ++ dll_name);
      mret (false, sw)
  | Some handle =>
      match load_symbols handle sw with
      | (sw', Some name) =>
          _ ← cry_ctx c (B "load_dll: " ++ dll_name ++ B ": cannot find " ++ name);
          mret (false, sw')
      | (sw', None) => mret (true, sw')
      end
  end.

Definition ssl_error : P bytes :=
  _ ← call_crypto i_ERR_get_error;
  if lib_get_error =? 0 then mret []
  else
    _ ← call_crypto i_ERR_error_string;
    mret (lib_error_string lib_get_error).

(** Both libraries are loaded, the second only after the first. *)
Definition load_libraries (c : config) : P bool :=
  v ← get_ssl;
  '(ok, sw) ← load_dll c SSL_LIB (ssl_sw v);
  _ ← put_ssl (set_sw sw v);
  if (ok : bool) then
    v ← get_ssl;
    '(ok, sw) ← load_dll c CRYPTO_LIB (crypto_sw v);
    _ ← put_ssl (set_crypto sw v);
    mret ok
  else mret false.

(** The locks and the callbacks. *)
Definition init_locks (c : config) : P bool :=
  _ ← call_crypto i_CRYPTO_num_locks;
  b ← alloc;
  v ← get_ssl;
  match b with
  | None =>
      _ ← put_ssl (set_mutexes None v);
      e ← ssl_error;
      _ ← cry_ctx c (B "set_ssl_option: cannot allocate mutexes: " ++ e);
      mret false
  | Some b =>
      _ ← put_ssl (set_mutexes (Some (b, replicate (Z.to_nat lib_num_locks) Unlocked)) v);
      _ ← call_crypto i_CRYPTO_set_locking_callback;
      _ ← call_crypto i_CRYPTO_set_id_callback;
      v ← get_ssl;
      _ ← put_ssl (set_callbacks true true v);
      mret true
  end.

(** The result and [ctx->ssl_ctx]; there is no [init_ssl] callback. *)
Definition set_ssl_option (c : config) : P (bool * option nat) :=
  match cfg c SSL_CERTIFICATE with
  | None => mret (true, None)
  | Some pem =>
      ok ← load_libraries c;
      if negb ok then mret (false, None)
      else
        _ ← call_ssl i_SSL_library_init;
        _ ← call_ssl i_SSL_load_error_strings;
        _ ← call_ssl i_SSLv23_server_method;
        _ ← call_ssl i_SSL_CTX_new;
        ssl_ctx ← (if lib_ctx_new then alloc else mret None);
        match ssl_ctx with
        | None =>
            e ← ssl_error;
            _ ← cry_ctx c (B "SSL_CTX_new (server) error: " ++ e);
            mret (false, None)
        | Some ssl_ctx =>
            _ ← call_ssl i_SSL_CTX_use_certificate_file;
            bad ← (if lib_use_certificate pem =? 0 then mret true
                   else
                     _ ← call_ssl i_SSL_CTX_use_PrivateKey_file;
                     mret (lib_use_key pem =? 0));
            if (bad : bool) then
              e ← ssl_error;
              _ ← cry_ctx c (B "set_ssl_option: cannot open " ++ pem ++ B ": " ++ e);
              mret (false, Some ssl_ctx)
            else
              _ ← call_ssl i_SSL_CTX_use_certificate_chain_file;
              ok ← init_locks c;
              mret (ok, Some ssl_ctx)
        end
  end.

(** [CRYPTO_LOCK] is 1; false when the lock is taken and the thread has to wait. *)
Definition ssl_locking_callback (thread mode mutex_num : Z) : P bool :=
  v ← get_ssl;
  match ssl_mutexes v with
  | None => misuse
  | Some (b, ms) =>
      let n := Z.to_nat mutex_num in
      let put m := put_ssl (set_mutexes (Some (b, <[n := m]> ms)) v) in
      if mutex_num <? 0 then misuse
      else match ms !! n with
      | None => misuse
      | Some m =>
          if negb (Z.land mode 1 =? 0) then
            match m with
            | Unlocked => _ ← put (LockedBy thread); mret true
            | LockedBy _ => mret false
            end
          else _ ← put Unlocked; mret true
      end
  end.

Definition uninitialize_ssl (ssl_ctx : option nat) : P unit :=
  match ssl_ctx with
  | None => mret tt
  | Some _ =>
      _ ← call_crypto i_CRYPTO_set_locking_callback;
      _ ← call_crypto i_CRYPTO_num_locks;
      v ← get_ssl;
      match ssl_mutexes v with
      | None => misuse
      | Some (b, _) =>
          _ ← put_ssl (SslState (ssl_sw v) (crypto_sw v) (Some (b, [])) false (id_callback v));
          _ ← call_crypto i_CRYPTO_set_id_callback;
          v ← get_ssl;
          put_ssl (set_callbacks false false v)
      end
  end.

(** [sslize(conn, s, SSL_accept)] on the socket [fd]: the result and [conn->ssl]. *)
Definition sslize (s : option nat) (fd : Z) : P (bool * option nat) :=
  _ ← call_ssl i_SSL_new;
  ssl ← (if lib_new && bool_decide (s <> None) then alloc else mret None);
  match ssl with
  | None => mret (false, None)
  | Some b =>
      _ ← call_ssl i_SSL_set_fd;
      if negb (lib_set_fd fd =? 1) then mret (false, Some b)
      else
        _ ← call_ssl i_SSL_accept;
        mret (lib_accept fd =? 1, Some b)
  end.
End ssl.

(** ** The tables *)

Definition full (sw : list (bytes * option Z)) : Prop := Forall (fun e => is_Some (snd e)) sw.
Definition ssl_named (v : ssl_state) : Prop := map fst (ssl_sw v) = ssl_names /\ map fst (crypto_sw v) = crypto_names.
Definition ssl_loaded (v : ssl_state) : Prop := ssl_named v /\ full (ssl_sw v) /\ full (crypto_sw v).

Lemma load_symbols_spec `{SslLib} handle sw :
  map fst (load_symbols handle sw).1 = map fst sw /\
  ((load_symbols handle sw).2 = None -> full (load_symbols handle sw).1).
Proof.
  induction sw as [|[name ptr] sw [IH1 IH2]]; [by split; [|constructor]|]. cbn [load_symbols].
  destruct (lib_dlsym handle name) as [f|] eqn:E; [|by split]. destruct (load_symbols handle sw) as [sw' m]. simpl in *.
  split; [by rewrite IH1|]. intros Hm. constructor; [by eexists|exact (IH2 Hm)].
Qed.

Lemma full_loaded sw names i : map fst sw = names -> (i < length names)%nat -> full sw -> loaded sw i = true.
Proof.
  intros <- Hi Hf. rewrite length_map in Hi. destruct (lookup_lt_is_Some_2 sw i Hi) as [[n ptr] E].
  unfold loaded. rewrite E. pose proof (Forall_lookup_1 _ _ _ _ Hf E) as [f Hp]. simpl in Hp. by subst ptr.
Qed.

(** What stays when the libraries are loaded. *)
Definition same_locks (v v' : ssl_state) : Prop :=
  ssl_mutexes v' = ssl_mutexes v /\ locking_callback v' = locking_callback v /\ id_callback v' = id_callback v.

Section rules.
Context `{OS} `{SslLib} (p0 : proc).
Implicit Types (bs : list nat) (ds : list Z) (v : ssl_state).

Lemma load_dll_rule c dll sw bs ds v :
  triple (owns p0 bs ds v) (load_dll c dll sw)
    (fun r p => (map fst r.2 = map fst sw /\ (r.1 = true -> full r.2)) /\ owns p0 bs ds v p).
Proof.
  unfold load_dll. destruct (lib_dlopen dll) as [h|].
  - destruct (load_symbols_spec h sw) as [Hm Hf]. destruct (load_symbols h sw) as [sw' [name|]]; simpl in *; p_steps;
      (intros p Hp; eexists _, _; split; [done|]; naive_solver).
  - p_steps. intros p Hp. by eexists _, _.
Qed.

Lemma load_libraries_rule c bs ds v :
  ssl_named v ->
  triple (owns p0 bs ds v) (load_libraries c)
    (fun ok p => exists v', (ssl_named v' /\ same_locks v v' /\ (ok = true -> ssl_loaded v')) /\ owns p0 bs ds v' p).
Proof.
  intros [Hn Hc]. unfold load_libraries. p_step.
  eapply triple_bind; [apply load_dll_rule|]. intros [ok sw]. apply triple_and. intros [Hm Hf]. p_step. simpl in Hm, Hf.
  destruct ok; [|intros p Hp; eexists _, _; split; [done|]; eexists; split; [|done]; by split; [split; simpl; congruence|]].
  p_step. eapply triple_bind; [apply load_dll_rule|]. intros [ok sw']. apply triple_and. intros [Hm' Hf']. p_step.
  simpl in Hm', Hf'. intros p Hp. eexists _, _. split; [done|]. eexists. split; [|done].
  assert (ssl_named (set_crypto sw' (set_sw sw v))) as Hnm by (split; simpl; congruence).
  split; [done|]. split; [done|]. intros ->. split; [done|]. simpl. auto.
Qed.

Lemma call_ssl_rule i bs ds v :
  ssl_loaded v -> (i <=? 20)%nat = true -> triple (owns p0 bs ds v) (call_ssl i) (fun _ => owns p0 bs ds v).
Proof.
  intros ((Hn & _) & Hf & _) Hi%Nat.leb_le. unfold call_ssl. p_step.
  rewrite (full_loaded _ _ _ Hn) by (done || (simpl; lia)). apply (triple_ret _ (fun _ => _)).
Qed.
Lemma call_crypto_rule i bs ds v :
  ssl_loaded v -> (i <=? 4)%nat = true -> triple (owns p0 bs ds v) (call_crypto i) (fun _ => owns p0 bs ds v).
Proof.
  intros ((_ & Hn) & _ & Hf) Hi%Nat.leb_le. unfold call_crypto. p_step.
  rewrite (full_loaded _ _ _ Hn) by (done || (simpl; lia)). apply (triple_ret _ (fun _ => _)).
Qed.
#[local] Hint Resolve call_ssl_rule call_crypto_rule : rules.

Lemma ssl_error_rule bs ds v : ssl_loaded v -> triple (owns p0 bs ds v) ssl_error (fun _ => owns p0 bs ds v).
Proof.
  intros Hv. unfold ssl_error. p_step. destruct (_ =? 0); p_steps; apply (triple_ret _ (fun _ => _)).
Qed.
#[local] Hint Resolve ssl_error_rule : rules.

(** The libraries are loaded, and [b] holds a free lock for every number. *)
Definition ssl_ready (b : nat) v : Prop :=
  ssl_loaded v /\ locking_callback v = true /\ id_callback v = true /\
  ssl_mutexes v = Some (b, replicate (Z.to_nat lib_num_locks) Unlocked).

Lemma init_locks_rule c bs ds v :
  ssl_loaded v -> ssl_mutexes v = None ->
  triple (owns p0 bs ds v) (init_locks c)
    (fun ok p => if (ok : bool) then exists b v', ssl_ready b v' /\ owns p0 (b :: bs) ds v' p
                 else owns p0 bs ds v p /\ grants p0 <> []).
Proof.
  intros Hv Hm. unfold init_locks. p_step. eapply triple_bind; [apply alloc_rule|]. intros [b|].
  - do 2 p_step. assert (ssl_loaded (set_mutexes (Some (b, replicate (Z.to_nat lib_num_locks) Unlocked)) v)) as Hv' by done.
    p_steps. intros p Hp. eexists true, _. split; [done|]. eexists b, _. split; [|exact Hp]. done.
  - intros p [Hp Hg]. revert p Hp. do 2 p_step.
    assert (set_mutexes None v = v) as -> by (destruct v; simpl in Hm; by subst).
    p_steps. intros p Hp. by eexists _, _.
Qed.

(** What [set_ssl_option] leaves. *)
Definition ssl_outcome c bs ds v (r : bool * option nat) (p : proc) : Prop :=
  match r with
  | (true, None) => cfg c SSL_CERTIFICATE = None /\ owns p0 bs ds v p
  | (true, Some s) => cfg c SSL_CERTIFICATE <> None /\ exists b v', ssl_ready b v' /\ owns p0 (b :: s :: bs) ds v' p
  | (false, s) => exists v', (ssl_named v' /\ same_locks v v' /\ (s <> None -> ssl_loaded v')) /\
                    owns p0 (block_list s ++ bs) ds v' p
  end.

Lemma set_ssl_option_rule c bs ds v :
  ssl_named v -> ssl_mutexes v = None -> triple (owns p0 bs ds v) (set_ssl_option c) (ssl_outcome c bs ds v).
Proof.
  intros Hn Hm. unfold set_ssl_option. destruct (cfg c SSL_CERTIFICATE) as [pem|] eqn:Ec.
  2: { intros p Hp. by eexists _, _. }
  eapply triple_bind; [by apply load_libraries_rule|]. intros ok. apply triple_ex. intros v1.
  apply triple_and. intros (Hn1 & Hl1 & Hok). destruct ok; cbn [negb].
  2: { intros p Hp. eexists _, _. split; [done|]. exists v1. done. }
  specialize (Hok eq_refl). p_steps. eapply (triple_bind _ _ _ (fun b p => match b with
    | Some b => owns p0 (b :: bs) ds v1 p | None => owns p0 bs ds v1 p end)).
  { destruct lib_ctx_new; [|by intros p Hp; exists None, p]. eapply triple_weaken; [apply alloc_rule|done|].
    intros [b|] p; [done|]. by intros []. }
  intros [s|].
  2: { p_steps. intros p Hp. eexists _, _. split; [done|]. exists v1. done. }
  p_step. eapply (triple_bind _ _ _ (fun _ => owns p0 (s :: bs) ds v1)).
  { destruct (_ =? 0); [apply (triple_ret true (fun _ => _))|]. p_steps. apply (triple_ret _ (fun _ => _)). }
  intros [].
  { p_steps. intros p Hp. eexists _, _. split; [done|]. exists v1. done. }
  p_step. eapply triple_bind; [apply init_locks_rule; [done|by destruct Hl1 as [-> _]]|].
  intros [] p Hp; eexists _, _; (split; [done|]); unfold ssl_outcome.
  - rewrite Ec. done.
  - destruct Hp as [Hp _]. exists v1. done.
Qed.

(** The callbacks are taken back, and the locks destroyed. *)
Lemma uninitialize_ssl_rule s b ms bs ds v :
  ssl_loaded v -> ssl_mutexes v = Some (b, ms) ->
  triple (owns p0 bs ds v) (uninitialize_ssl (Some s))
    (fun _ => owns p0 bs ds (SslState (ssl_sw v) (crypto_sw v) (Some (b, [])) false false)).
Proof.
  intros Hv Hm. unfold uninitialize_ssl. p_steps. rewrite Hm. p_step.
  assert (ssl_loaded (SslState (ssl_sw v) (crypto_sw v) (Some (b, [])) false (id_callback v))) as Hv' by done.
  p_steps. apply put_ssl_rule.
Qed.

(** The SSL object belongs to the connection, whether the handshake succeeds or not. *)
Lemma sslize_rule s fd bs ds v :
  ssl_loaded v ->
  triple (owns p0 bs ds v) (sslize s fd)
    (fun r p => owns p0 (block_list r.2 ++ bs) ds v p /\ (r.1 = true -> r.2 <> None)).
Proof.
  intros Hv. unfold sslize. p_step. eapply (triple_bind _ _ _ (fun b => owns p0 (block_list b ++ bs) ds v)).
  { destruct (lib_new && _); [|by intros p Hp; exists None, p].
    eapply triple_weaken; [apply alloc_rule|done|]. intros [b|] p; [done|]. by intros []. }
  intros [b|]; [|by intros p Hp; eexists _, _]. p_step. destruct (_ =? 1); cbn [negb]; p_steps;
    (intros p Hp; by eexists _, _).
Qed.
End rules.

(** A lock is taken by one thread at a time, and freed by an unlock. *)
Lemma ssl_locking_callback_spec (thread mode n : Z) p b ms m :
  ssl_mutexes (p_ssl p) = Some (b, ms) -> 0 <= n -> ms !! Z.to_nat n = Some m ->
  exists r p', ssl_locking_callback thread mode n p = Some (r, p') /\
    ssl_mutexes (p_ssl p') = Some (b, <[Z.to_nat n := if Z.odd mode then (if r then LockedBy thread else m) else Unlocked]> ms) /\
    r = (negb (Z.odd mode) || match m with Unlocked => true | LockedBy _ => false end).
Proof.
  intros Hm Hn Hl. assert (negb (Z.land mode 1 =? 0) = Z.odd mode) as Hodd.
  { change 1 with (Z.ones 1). rewrite (Z.land_ones mode 1) by lia. change (2 ^ 1) with 2. rewrite Zmod_odd. by destruct (Z.odd mode). }
  unfold ssl_locking_callback, mbind, P_bind, get_ssl, put_ssl. rewrite Hm. destruct (Z.ltb_spec n 0); [lia|].
  rewrite Hl, Hodd. destruct (Z.odd mode); [destruct m as [|t]|]; eexists _, _; (split; [done|]); (split; [|done]);
    simpl; [done| |done]. rewrite Hm. by rewrite list_insert_id.
Qed.
