(* ===== verification/Start.v ===== *)
(** * Starting and stopping the server

    [mg_start] with the functions that set the options up, [free_context],
    [close_all_listening_sockets], the end of [master_thread] and [mg_stop] of
    src/mongoose.c, on the process of Process.v.  Sockets, users and threads are those of
    the system: parameters.  A start that fails gives back what it has taken, but for the
    listening sockets when the last two checks fail; a start and a stop together leave
    nothing behind. *)

From S2P Require Import Prelude CString Options SocketQueue HttpRequest Scanf Access Conn Os Process Ssl.

(** What starting and accepting use of the system.  [socket] and [accept] give a
    descriptor that is not open. *)
Class Net := {
  net_fd : list Z -> Z;
  net_fd_new : forall l, 0 <= net_fd l /\ net_fd l ∉ l;
  net_socket : socket -> bool;            (* socket() works *)
  net_bind : socket -> bool;              (* setsockopt, bind and listen work *)
  net_user : bytes -> option (Z * Z);     (* getpwnam: user and group *)
  net_setgid : Z -> bool;
  net_setuid : Z -> bool;
  net_master : bool;                      (* pthread_create of the master thread *)
  net_thread : nat -> bool;               (* pthread_create of the i-th worker *)
  net_local : Z -> Z * Z                  (* getsockname *)
}.

(** [ctx->config]: the strings with the blocks they are in. *)
Abbreviation pconfig := (list (option (nat * bytes))).
Definition strings (c : pconfig) : config := map (fmap snd) c.

(** [struct mg_context], as far as it is set up here. *)
Record mg_context := Context_ {
  ctx_block : nat;                        (* the block of the structure itself *)
  config_ : pconfig;
  ssl_ctx : option nat;
  sockets_block : option nat;             (* the array of listening sockets *)
  listening_sockets : list socket;
  has_master : bool;
  num_threads : nat
}.

Definition ctx_config (ctx : mg_context) : config := strings (config_ ctx).

Section start.
Context `{OS} `{SslLib} `{Net}.

Definition open_fd : P Z := fun p =>
  Some (net_fd (open_fds p), set_fds (net_fd (open_fds p) :: open_fds p) p).

(** [ctx->config[i] = mg_strdup(value)] *)
Definition store_option (i : nat) (value : bytes) (c : pconfig) : P pconfig :=
  b ← alloc;
  mret (<[i := (fun b => (b, value)) <$> b]> c).

(** The loop over the options: whether they are accepted. *)
Fixpoint set_options_loop (options : list bytes) (c : pconfig) : P (bool * pconfig) :=
  match options with
  | [] => mret (true, c)
  | name :: rest =>
      let i := get_option_index name in
      if i =? -1 then
        _ ← cry_ctx (strings c) (B "Invalid option: " ++ name);
        mret (false, c)
      else match rest with
           | [] =>
               _ ← cry_ctx (strings c) (name ++ B ": option value cannot be NULL");
               mret (false, c)
           | value :: rest' =>
               _ ← match mjoin (c !! Z.to_nat i) with
                   | Some (b, _) =>
                       _ ← cry_ctx (strings c) (B "warning: " ++ name ++ B ": duplicate option");
                       free_ b
                   | None => mret tt
                   end;
               c ← store_option (Z.to_nat i) value c;
               set_options_loop rest' c
           end
  end.

Fixpoint set_defaults_loop (opts : list (bytes * option bytes)) (i : nat) (c : pconfig) : P pconfig :=
  match opts with
  | [] => mret c
  | (_, default_value) :: opts' =>
      c ← match mjoin (c !! i), default_value with
          | None, Some v => store_option i v c
          | _, _ => mret c
          end;
      set_defaults_loop opts' (S i) c
  end.

Definition set_gpass_option (c : config) : P bool :=
  match cfg c GLOBAL_PASSWORDS_FILE with
  | Some path =>
      if fst (mg_stat path) then mret true
      else
        _ ← cry_ctx c (B "Cannot open " ++ path ++ B ": " ++ os_strerror);
        mret false
  | None => mret true
  end.

(** [realloc] for one more entry. *)
Definition realloc (old : option nat) : P (option nat) :=
  b ← alloc;
  match b with
  | None => mret None
  | Some b =>
      _ ← free_opt old;
      mret (Some b)
  end.

Fixpoint close_sockets (l : list socket) : P unit :=
  match l with
  | [] => mret tt
  | so :: l' =>
      _ ← close_fd (sock so);
      close_sockets l'
  end.

Definition close_all_listening_sockets (blk : option nat) (l : list socket) : P unit :=
  _ ← close_sockets l;
  free_opt blk.

(** The sockets that listen so far, in the order of the option, and their array. *)
Fixpoint ports_loop (c : config) (have_ssl : bool) (vs : list (vec * option vec)) (blk : option nat)
    (acc : list socket) : P (bool * option nat * list socket) :=
  match vs with
  | [] => mret (true, blk, acc)
  | (v, _) :: vs' =>
      match parse_port_string v with
      | None =>
          _ ← cry_ctx c (B "set_ports_option: " ++ vec_str v
                         ++ B ": invalid port spec. Expecting list of: [IP_ADDRESS:]PORT[s|p]");
          mret (false, blk, acc)
      | Some so =>
          if is_ssl so && negb have_ssl then
            _ ← cry_ctx c (B "Cannot add SSL socket, is -ssl_certificate option set?");
            mret (false, blk, acc)
          else
            fd ← (if net_socket so then open_fd else mret (-1));
            if negb (net_socket so && net_bind so) then
              _ ← cry_ctx c (B "set_ports_option: cannot bind to " ++ vec_str v ++ B ": " ++ os_strerror);
              _ ← close_fd fd;
              mret (false, blk, acc)
            else
              new ← realloc blk;
              match new with
              | None =>
                  _ ← close_fd fd;
                  mret (false, blk, acc)
              | Some b =>
                  _ ← set_sockopt fd CloseOnExec;
                  ports_loop c have_ssl vs' (Some b)
                    (acc ++ [Socket fd (lsa so) (rsa so) (is_ssl so) (ssl_redir so)])
              end
      end
  end.

Definition set_ports_option (c : config) (have_ssl : bool) : P (bool * option nat * list socket) :=
  '(ok, blk, l) ← ports_loop c have_ssl (option_list (cfg c LISTENING_PORTS) false) None [];
  if (ok : bool) then mret (true, blk, l)
  else
    _ ← close_all_listening_sockets blk l;
    mret (false, blk, l).

Definition set_uid_option (c : config) : P bool :=
  match cfg c RUN_AS_USER with
  | None => mret true
  | Some uid =>
      match net_user uid with
      | None =>
          _ ← cry_ctx c (B "set_uid_option: unknown user [" ++ uid ++ B "]");
          mret false
      | Some (pw_uid, pw_gid) =>
          if negb (net_setgid pw_gid) then
            _ ← cry_ctx c (B "set_uid_option: setgid(" ++ uid ++ B "): " ++ os_strerror);
            mret false
          else if negb (net_setuid pw_uid) then
            _ ← cry_ctx c (B "set_uid_option: setuid(" ++ uid ++ B "): " ++ os_strerror);
            mret false
          else mret true
      end
  end.

(** The message of [check_acl] about a malformed list. *)
Definition acl_verdict (c : config) (remote_ip : Z) : P Z :=
  let r := check_acl c remote_ip in
  _ ← (if r =? -1 then cry_ctx c (B "check_acl: subnet must be [+|-]x.x.x.x[/x]") else mret tt);
  mret r.

Definition set_acl_option (c : config) : P bool :=
  r ← acl_verdict c 0x7f000001;
  mret (negb (r =? -1)).

Fixpoint free_config (c : pconfig) : P unit :=
  match c with
  | [] => mret tt
  | e :: c' =>
      _ ← free_opt (fst <$> e);
      free_config c'
  end.

Definition free_context (ctx : nat) (c : pconfig) (s : option nat) : P unit :=
  _ ← free_config c;
  _ ← match s with
      | Some b => _ ← call_ssl i_SSL_CTX_free; free_ b
      | None => mret tt
      end;
  v ← get_ssl;
  _ ← match ssl_mutexes v with
      | Some (b, _) => _ ← free_ b; put_ssl (set_mutexes None v)
      | None => mret tt
      end;
  free_ ctx.

(** The part behind the SSL set-up. *)
Definition setup_rest (ctx : nat) (c : pconfig) (s : option nat)
    : P (option (nat * pconfig * option nat * option nat * list socket)) :=
  let conf := strings c in
  '(ok, blk, l) ← set_ports_option conf (bool_decide (s <> None));
  if negb ok then _ ← free_context ctx c s; mret None
  else
    ok ← set_uid_option conf;
    if negb ok then _ ← free_context ctx c s; mret None
    else
      ok ← set_acl_option conf;
      if negb ok then _ ← free_context ctx c s; mret None
      else mret (Some (ctx, c, s, blk, l)).

(** What the checks in front of the threads leave; [None] when one of them fails. *)
Definition mg_setup (options : list bytes) : P (option (nat * pconfig * option nat * option nat * list socket)) :=
  ctx ← alloc;
  match ctx with
  | None => mret None
  | Some ctx =>
      '(ok, c) ← set_options_loop options (replicate NUM_OPTIONS None);
      if negb ok then _ ← free_context ctx c None; mret None
      else
        c ← set_defaults_loop config_options 0 c;
        let conf := strings c in
        ok ← set_gpass_option conf;
        if negb ok then _ ← free_context ctx c None; mret None
        else
          '(ok, s) ← set_ssl_option conf;
          if negb ok then _ ← free_context ctx c s; mret None
          else setup_rest ctx c s
  end.

(** The workers that could be started. *)
Fixpoint start_workers (c : config) (ids : list nat) : P nat :=
  match ids with
  | [] => mret 0%nat
  | i :: ids' =>
      started ← (if net_thread i then mret 1%nat
                 else
                   _ ← cry_ctx c (B "Cannot start worker thread: " ++ os_strerror);
                   mret 0%nat);
      n ← start_workers c ids';
      mret (started + n)%nat
  end.

(** The result of starting the master thread is not looked at. *)
Definition mg_start (options : list bytes) : P (option mg_context) :=
  r ← mg_setup options;
  match r with
  | None => mret None
  | Some (ctx, c, s, blk, l) =>
      match cfg (strings c) NUM_THREADS with
      | None => misuse
      | Some n =>
          n ← start_workers (strings c) (seq 0 (Z.to_nat (atoi n)));
          mret (Some (Context_ ctx c s blk l net_master n))
      end
  end.

(** The end of [master_thread], when the workers have left. *)
Definition master_end (ctx : mg_context) : P unit :=
  _ ← close_all_listening_sockets (sockets_block ctx) (listening_sockets ctx);
  uninitialize_ssl (ssl_ctx ctx).

(** Whether it returns: it waits for the master thread to set [stop_flag] to 2. *)
Definition mg_stop (ctx : mg_context) : P bool :=
  if negb (has_master ctx) then mret false
  else
    _ ← master_end ctx;
    _ ← free_context (ctx_block ctx) (config_ ctx) (ssl_ctx ctx);
    mret true.
End start.

(** ** The configuration *)

Definition config_blocks (c : pconfig) : list nat := concat (map (fun e => block_list (fst <$> e)) c).

Lemma config_blocks_insert i e (c : pconfig) :
  (i < length c)%nat ->
  config_blocks (<[i := e]> c) ++ block_list (fst <$> mjoin (c !! i))
  ≡ₚ block_list (fst <$> e) ++ config_blocks c.
Proof.
  unfold config_blocks. revert i. induction c as [|d c IH]; intros [|i] Hi; simpl in *; [lia|lia|solve_Permutation|].
  specialize (IH i ltac:(lia)). rewrite <- app_assoc, IH. solve_Permutation.
Qed.

Lemma strings_insert i e (c : pconfig) : strings (<[i := e]> c) = <[i := snd <$> e]> (strings c).
Proof. unfold strings. by rewrite list_fmap_insert. Qed.

Lemma strings_lookup i (c : pconfig) : cfg (strings c) i = snd <$> mjoin (c !! i).
Proof. unfold cfg, strings. rewrite list_lookup_fmap. by destruct (c !! i) as [[[]|]|]. Qed.

Lemma config_blocks_none n : config_blocks (replicate n None) = [].
Proof. induction n; [done|]. exact IHn. Qed.

Section rules.
Context `{OS} `{SslLib} `{Net} (p0 : proc).
Implicit Types (bs : list nat) (ds : list Z) (v : ssl_state) (c : pconfig).

(** An option is stored; its old value has been freed. *)
Lemma store_option_rule i value c bs ds v :
  (i < length c)%nat ->
  triple (owns p0 (config_blocks (<[i := None]> c) ++ bs) ds v) (store_option i value c)
    (fun c' p => (length c' = length c /\ (grants p0 = [] -> strings c' = <[i := Some value]> (strings c))) /\
                 owns p0 (config_blocks c' ++ bs) ds v p).
Proof.
  intros Hi. unfold store_option. eapply triple_bind; [apply alloc_rule|]. intros [b|].
  - intros p Hp. eexists _, _. split; [done|]. split; [by rewrite length_insert, strings_insert|].
    eapply owns_perm; [|done|exact Hp].
    pose proof (config_blocks_insert i (Some (b, value)) c Hi) as E1.
    pose proof (config_blocks_insert i None c Hi) as E2. simpl in *.
    rewrite app_comm_cons. apply Permutation_app_tail.
    apply (Permutation_app_inv_r (block_list (fst <$> mjoin (c !! i)))). rewrite E1. simpl. by rewrite E2.
  - intros p [Hp Hg]. eexists _, _. split; [done|]. split; [by rewrite length_insert|done].
Qed.

(** The old value, if there is one, is freed. *)
Lemma drop_option_rule i name c bs ds v :
  (i < length c)%nat ->
  triple (owns p0 (config_blocks c ++ bs) ds v)
    (match mjoin (c !! i) with
     | Some (b, _) =>
         _ ← cry_ctx (strings c) (B "warning: " ++ name ++ B ": duplicate option");
         free_ b
     | None => mret tt
     end)
    (fun _ => owns p0 (config_blocks (<[i := None]> c) ++ bs) ds v).
Proof.
  intros Hi. pose proof (config_blocks_insert i None c Hi) as E. destruct (mjoin (c !! i)) as [[b old]|]; simpl in E.
  - p_step. apply free_rule. rewrite <- E. solve_Permutation.
  - intros p Hp. eexists _, _. split; [done|]. rewrite app_nil_r in E. by rewrite E.
Qed.

(** The loop agrees with the option loop of Options.v when memory is granted. *)
Lemma set_options_loop_rule options c bs ds v :
  length c = NUM_OPTIONS ->
  triple (owns p0 (config_blocks c ++ bs) ds v) (set_options_loop options c)
    (fun r p => (length r.2 = NUM_OPTIONS /\
                 (grants p0 = [] -> match set_options (strings c) options with
                                    | inr conf => r.1 = true /\ strings r.2 = conf
                                    | inl _ => r.1 = false
                                    end)) /\ owns p0 (config_blocks r.2 ++ bs) ds v p).
Proof.
  remember (length options) as n eqn:Hn. assert (length options <= n)%nat as Hle by lia. clear Hn.
  revert options Hle c. induction n as [|n IH]; intros options Hle c Hc.
  { destruct options; [|simpl in Hle; lia]. intros p Hp. by eexists _, _. }
  destruct options as [|name rest]; cbn [set_options_loop set_options].
  { intros p Hp. by eexists _, _. }
  destruct (Z.eqb_spec (get_option_index name) (-1)) as [Hi|Hi].
  { p_step. intros p Hp. by eexists _, _. }
  destruct (get_option_index_inv name Hi) as (k & d & _ & Hk & Ek). rewrite Ek, Nat2Z.id.
  destruct rest as [|value rest].
  { p_step. intros p Hp. by eexists _, _. }
  eapply triple_bind; [apply drop_option_rule; lia|]. intros [].
  eapply triple_bind; [apply store_option_rule; lia|]. intros c'. apply triple_and. intros [Hl Hs].
  eapply triple_weaken; [apply IH; [simpl in Hle; lia|by rewrite Hl]|done|].
  intros r p [[Hlr Hr] Hp]. split; [|done]. split; [done|]. intros Hg. specialize (Hr Hg). by rewrite (Hs Hg) in Hr.
Qed.

Lemma set_defaults_loop_rule opts i c bs ds v :
  (i + length opts <= length c)%nat ->
  triple (owns p0 (config_blocks c ++ bs) ds v) (set_defaults_loop opts i c)
    (fun c' p => (length c' = length c /\ (grants p0 = [] -> strings c' = set_defaults opts i (strings c))) /\
                 owns p0 (config_blocks c' ++ bs) ds v p).
Proof.
  revert i c. induction opts as [|[name d] opts IH]; intros i c Hl; cbn [set_defaults_loop set_defaults length] in *.
  { intros p Hp. by eexists _, _. }
  eapply (triple_bind _ _ _ (fun c' p => (length c' = length c /\
    (grants p0 = [] -> strings c' = match cfg (strings c) i, d with
                                    | None, Some v => <[i := Some v]> (strings c)
                                    | _, _ => strings c
                                    end)) /\ owns p0 (config_blocks c' ++ bs) ds v p)).
  - rewrite strings_lookup. pose proof (config_blocks_insert i None c ltac:(lia)) as E.
    destruct (mjoin (c !! i)) as [e|]; simpl in *; [by intros p Hp; eexists _, _|].
    destruct d as [value|]; [|by intros p Hp; eexists _, _]. rewrite app_nil_r in E.
    eapply triple_weaken; [apply (store_option_rule i value c bs ds v); lia| |done].
    intros p Hp. by rewrite E.
  - intros c'. apply triple_and. intros [Hl' Hs]. eapply triple_weaken; [apply IH; lia|done|].
    intros r p [[Hlr Hr] Hp]. split; [|done]. split; [lia|]. intros Hg. by rewrite (Hr Hg), (Hs Hg).
Qed.

Lemma gpass_rule conf bs ds v : triple (owns p0 bs ds v) (set_gpass_option conf) (fun _ => owns p0 bs ds v).
Proof.
  unfold set_gpass_option. destruct (cfg _ _) as [path|]; [destruct (fst _)|]; p_steps; (intros p Hp; by eexists _, _).
Qed.
(** The process becomes the user that is asked for. *)
Definition uid_accepted (conf : config) : bool :=
  match cfg conf RUN_AS_USER with
  | None => true
  | Some uid => from_option (fun '(pw_uid, pw_gid) => net_setgid pw_gid && net_setuid pw_uid) false (net_user uid)
  end.

Lemma uid_rule conf bs ds v :
  triple (owns p0 bs ds v) (set_uid_option conf) (fun r p => r = uid_accepted conf /\ owns p0 bs ds v p).
Proof.
  unfold set_uid_option, uid_accepted. destruct (cfg _ _) as [uid|]; [destruct (net_user uid) as [[u g]|]|];
    simpl; try destruct (net_setgid g); try destruct (net_setuid u); simpl; p_steps; (intros p Hp; by eexists _, _).
Qed.
Lemma acl_verdict_rule conf ip bs ds v :
  triple (owns p0 bs ds v) (acl_verdict conf ip) (fun r p => r = check_acl conf ip /\ owns p0 bs ds v p).
Proof.
  unfold acl_verdict. eapply (triple_bind _ _ _ (fun _ => owns p0 bs ds v)).
  - destruct (_ =? -1); [apply cry_rule|apply (triple_ret tt (fun _ => _))].
  - intros [] p Hp. by eexists _, _.
Qed.
Lemma acl_rule conf bs ds v :
  triple (owns p0 bs ds v) (set_acl_option conf) (fun r p => r = acl_accepted conf /\ owns p0 bs ds v p).
Proof.
  unfold set_acl_option. eapply triple_bind; [apply acl_verdict_rule|]. intros r. apply triple_and. intros ->.
  intros p Hp. by eexists _, _.
Qed.

Lemma open_fd_rule bs ds v :
  triple (owns p0 bs ds v) open_fd (fun fd p => 0 <= fd /\ owns p0 bs (fd :: ds) v p).
Proof.
  intros p [Hl Hf Hv Hg Hx]. eexists _, _. split; [done|]. destruct (net_fd_new (open_fds p)) as [Hn _]. split; [done|].
  constructor; simpl; [done|by apply Permutation_skip|done|done|done].
Qed.

Lemma free_opt_rule b bs ds v : triple (owns p0 (block_list b ++ bs) ds v) (free_opt b) (fun _ => owns p0 bs ds v).
Proof. destruct b as [b|]; [by apply free_rule|apply (triple_ret tt (fun _ => _))]. Qed.

Lemma realloc_rule old bs ds v :
  triple (owns p0 (block_list old ++ bs) ds v) (realloc old)
    (fun b p => match b with
                | Some b => owns p0 (b :: bs) ds v p
                | None => owns p0 (block_list old ++ bs) ds v p
                end).
Proof.
  unfold realloc. eapply triple_bind; [apply alloc_rule|]. intros [b|].
  - eapply (triple_bind _ _ _ (fun _ => owns p0 (b :: bs) ds v)); [|intros [] p Hp; by eexists _, _].
    eapply triple_weaken; [apply (free_opt_rule old (b :: bs) ds v)| |done]. intros p Hp.
    by rewrite <- Permutation_middle.
  - intros p [Hp _]. by eexists _, _.
Qed.

Lemma close_sockets_rule l bs ds v :
  Forall (fun so => 0 <= sock so) l ->
  triple (owns p0 bs (map sock l ++ ds) v) (close_sockets l) (fun _ => owns p0 bs ds v).
Proof.
  induction 1 as [|so l Hs _ IH]; cbn [close_sockets map app]; [apply (triple_ret tt (fun _ => _))|].
  eapply triple_bind; [by apply close_rule|]. by intros [].
Qed.

Lemma close_all_rule blk l bs ds v :
  Forall (fun so => 0 <= sock so) l ->
  triple (owns p0 (block_list blk ++ bs) (map sock l ++ ds) v) (close_all_listening_sockets blk l)
    (fun _ => owns p0 bs ds v).
Proof.
  intros Hl. unfold close_all_listening_sockets. eapply triple_bind; [by apply close_sockets_rule|].
  intros []. apply free_opt_rule.
Qed.

(** Listening sockets have descriptors, and SSL sockets listen only if there is SSL. *)
Definition listener_ok (have_ssl : bool) (so : socket) : Prop :=
  0 <= sock so /\ (is_ssl so = true -> have_ssl = true).

Lemma ports_loop_rule conf have_ssl vs blk acc bs ds v :
  Forall (listener_ok have_ssl) acc ->
  triple (owns p0 (block_list blk ++ bs) (map sock acc ++ ds) v) (ports_loop conf have_ssl vs blk acc)
    (fun r p => Forall (listener_ok have_ssl) r.2 /\
                owns p0 (block_list r.1.2 ++ bs) (map sock r.2 ++ ds) v p).
Proof.
  revert blk acc. induction vs as [|[x e] vs IH]; intros blk acc Ha; cbn [ports_loop].
  { intros p Hp. by eexists _, _. }
  destruct (parse_port_string x) as [so|]; [|p_steps; intros p Hp; by eexists _, _].
  destruct (is_ssl so && negb have_ssl) eqn:Es; [p_steps; intros p Hp; by eexists _, _|].
  destruct (net_socket so) eqn:En; cbn [andb].
  2: { eapply (triple_bind _ _ _ (fun fd p => fd = -1 /\ owns p0 (block_list blk ++ bs) (map sock acc ++ ds) v p));
         [intros p Hp; by eexists _, _|]. intros fd. apply triple_and. intros ->. p_step.
       intros p Hp. by eexists _, _. }
  eapply triple_bind; [apply open_fd_rule|]. intros fd. apply triple_and. intros Hfd.
  destruct (net_bind so); cbn [negb].
  2: { p_step. eapply triple_bind; [by apply close_rule|]. intros [] p Hp. by eexists _, _. }
  eapply triple_bind; [apply realloc_rule|]. intros [b|].
  2: { eapply triple_bind; [by apply close_rule|]. intros [] p Hp. by eexists _, _. }
  p_step. eapply triple_weaken; [apply (IH (Some b))| |done].
  - apply Forall_app. split; [done|]. constructor; [|done]. split; [done|]. simpl. intros Hs. rewrite Hs in Es.
    by destruct have_ssl.
  - intros p Hp. eapply owns_perm; [| |exact Hp]; [done|]. rewrite map_app. simpl. solve_Permutation.
Qed.

Lemma ports_rule conf have_ssl bs ds v :
  triple (owns p0 bs ds v) (set_ports_option conf have_ssl)
    (fun r p => if r.1.1 then Forall (listener_ok have_ssl) r.2 /\ owns p0 (block_list r.1.2 ++ bs) (map sock r.2 ++ ds) v p
                else owns p0 bs ds v p).
Proof.
  unfold set_ports_option. eapply triple_bind; [by apply (ports_loop_rule _ _ _ None [])|].
  intros [[[] blk] l]; cbn [fst snd].
  - intros p Hp. by eexists _, _.
  - apply triple_and. intros Hl. eapply triple_bind; [apply close_all_rule; eapply Forall_impl; [done|by intros ? []]|].
    intros [] p Hp. by eexists _, _.
Qed.

Lemma free_config_rule c bs ds v :
  triple (owns p0 (config_blocks c ++ bs) ds v) (free_config c) (fun _ => owns p0 bs ds v).
Proof.
  unfold config_blocks. induction c as [|e c IH]; cbn [free_config map concat]; [apply (triple_ret tt (fun _ => _))|].
  rewrite <- app_assoc. eapply triple_bind; [apply free_opt_rule|]. by intros [].
Qed.

Definition mutex_block v : list nat := block_list (fst <$> ssl_mutexes v).

Lemma free_context_rule ctx c s bs ds v :
  (s <> None -> ssl_loaded v) ->
  triple (owns p0 (config_blocks c ++ block_list s ++ mutex_block v ++ ctx :: bs) ds v) (free_context ctx c s)
    (fun _ => owns p0 bs ds (set_mutexes None v)).
Proof.
  intros Hs. unfold free_context. eapply triple_bind; [apply free_config_rule|]. intros [].
  eapply (triple_bind _ _ _ (fun _ => owns p0 (mutex_block v ++ ctx :: bs) ds v)).
  { destruct s as [b|]; [|by intros p Hp; eexists _, _]. specialize (Hs ltac:(done)).
    eapply triple_bind; [by apply call_ssl_rule|]. intros []. by apply free_rule. }
  intros []. p_step. unfold mutex_block. eapply (triple_bind _ _ _ (fun _ => owns p0 (ctx :: bs) ds (set_mutexes None v))).
  { destruct (ssl_mutexes v) as [[b ms]|] eqn:E; simpl.
    - eapply triple_bind; [by apply free_rule|]. intros []. apply put_ssl_rule.
    - intros p Hp. eexists _, _. split; [done|]. by destruct v; simpl in *; subst. }
  intros []. by apply free_rule.
Qed.

(** Leaked: nothing, or the listening sockets after the last two checks. *)
Definition leak options (bs : list nat) (ds : list Z) : Prop :=
  (bs = [] /\ ds = []) \/
  exists c blk l, bs = block_list blk /\ ds = map sock l /\
    (grants p0 = [] -> mg_start_config options = inr (strings c)) /\
    (uid_accepted (strings c) = false \/ acl_accepted (strings c) = false).

(** What a set up server owns. *)
Definition server_owns (ctx : nat) c (s blk : option nat) (l : list socket) (p : proc) : Prop :=
  exists v, owns p0 (config_blocks c ++ block_list s ++ mutex_block v ++ block_list blk ++ [ctx]) (map sock l) v p /\
    match s with Some _ => exists b, ssl_ready b v | None => ssl_mutexes v = None end.

Definition setup_outcome options (r : option (nat * pconfig * option nat * option nat * list socket)) (p : proc) : Prop :=
  match r with
  | None => exists bs ds v, owns p0 bs ds v p /\ leak options bs ds /\ ssl_named v /\ ssl_mutexes v = None
  | Some (ctx, c, s, blk, l) =>
      server_owns ctx c s blk l p /\ Forall (listener_ok (bool_decide (s <> None))) l /\
      (s <> None <-> cfg (strings c) SSL_CERTIFICATE <> None) /\
      uid_accepted (strings c) = true /\ acl_accepted (strings c) = true /\
      (grants p0 = [] -> mg_start_config options = inr (strings c))
  end.

(** A check failed: the context is freed. *)
Lemma fail_rule options ctx c s bs ds v :
  (s <> None -> ssl_loaded v) -> ssl_named v -> leak options bs ds ->
  triple (owns p0 (config_blocks c ++ block_list s ++ mutex_block v ++ ctx :: bs) ds v)
    (_ ← free_context ctx c s; mret None) (setup_outcome options).
Proof.
  intros Hs Hn Hl. eapply triple_bind; [by apply free_context_rule|].
  intros [] p Hp. eexists _, _. split; [done|]. by exists bs, ds, (set_mutexes None v).
Qed.

Lemma setup_rest_rule options ctx c s v :
  ssl_named v -> (s <> None <-> cfg (strings c) SSL_CERTIFICATE <> None) ->
  match s with Some _ => exists b, ssl_ready b v | None => ssl_mutexes v = None end ->
  (grants p0 = [] -> mg_start_config options = inr (strings c)) ->
  triple (owns p0 (config_blocks c ++ block_list s ++ mutex_block v ++ [ctx]) [] v) (setup_rest ctx c s)
    (setup_outcome options).
Proof.
  intros Hn Hc Hv Hg. assert (s <> None -> ssl_loaded v) as Hs by (by destruct s as [?|]; [destruct Hv as (b & [])|]).
  unfold setup_rest. eapply triple_bind; [apply ports_rule|]. intros [[[] blk] l]; cbn [fst snd negb].
  2: { apply fail_rule; [done|done|by left]. }
  apply triple_and. intros Hl. rewrite app_nil_r.
  eapply triple_weaken with (Pre := owns p0 (config_blocks c ++ block_list s ++ mutex_block v ++ ctx :: block_list blk) (map sock l) v);
    [|intros p Hp; eapply owns_perm; [| |exact Hp]; [solve_Permutation|done]|done].
  eapply triple_bind; [apply uid_rule|]. intros ok. apply triple_and. intros Eu. destruct ok; cbn [negb].
  2: { apply fail_rule; [done|done|]. right. exists c, blk, l. split_and!; [done|done|done|by left]. }
  eapply triple_bind; [apply acl_rule|]. intros ok. apply triple_and. intros Ea. destruct ok; cbn [negb].
  2: { apply fail_rule; [done|done|]. right. exists c, blk, l. split_and!; [done|done|done|by right]. }
  intros p Hp. eexists _, _. split; [done|]. unfold setup_outcome. split_and!; try done.
  exists v. split; [|done]. eapply owns_perm; [| |exact Hp]; [solve_Permutation|done].
Qed.

(** The two loops make the configuration of Options.v. *)
Lemma loops_config options (c c' : config) ok :
  match set_options (strings (replicate NUM_OPTIONS None)) options with
  | inr conf => ok = true /\ c = conf
  | inl _ => ok = false
  end -> ok = true -> c' = set_defaults config_options 0 c -> mg_start_config options = inr c'.
Proof.
  assert (strings (replicate NUM_OPTIONS None) = replicate NUM_OPTIONS None) as -> by reflexivity.
  unfold mg_start_config. destruct (set_options (replicate NUM_OPTIONS None) options) as [e|conf].
  - intros -> [=].
  - intros [_ ->] _ ->. reflexivity.
Qed.

#[local] Opaque mg_start_config set_defaults set_options.

Lemma mg_setup_rule options v :
  ssl_named v -> ssl_mutexes v = None -> triple (owns p0 [] [] v) (mg_setup options) (setup_outcome options).
Proof.
  intros Hn Hm. assert (mutex_block v = []) as Hb by (unfold mutex_block; by rewrite Hm).
  unfold mg_setup. eapply triple_bind; [apply alloc_rule|]. intros [ctx|].
  2: { intros p [Hp _]. eexists _, _. split; [done|]. exists [], [], v. by split_and!; [|left|..]. }
  eapply triple_bind.
  { eapply triple_weaken; [apply (set_options_loop_rule options (replicate NUM_OPTIONS None) [ctx] [] v)| |done]; [done|].
    intros p Hp. rewrite (config_blocks_none NUM_OPTIONS). exact Hp. }
  intros [ok c]. apply triple_and. cbn [fst snd]. intros [Hl Hs]. destruct ok; cbn [negb].
  2: { pose proof (fail_rule options ctx c None [] [] v) as Hf. rewrite Hb in Hf. refine (Hf _ Hn (or_introl (conj eq_refl eq_refl))). intros []. reflexivity. }
  eapply triple_bind; [apply set_defaults_loop_rule; simpl; unfold NUM_OPTIONS in Hl; lia|].
  intros c'. apply triple_and. intros [Hl' Hd].
  assert (grants p0 = [] -> mg_start_config options = inr (strings c')) as Hg.
  { intros E. by apply (loops_config options (strings c) (strings c') true (Hs E)); [|apply Hd]. }
  eapply triple_bind; [apply gpass_rule|]. intros []; cbn [negb].
  2: { pose proof (fail_rule options ctx c' None [] [] v) as Hf. rewrite Hb in Hf. refine (Hf _ Hn (or_introl (conj eq_refl eq_refl))). intros []. reflexivity. }
  eapply triple_bind; [by apply set_ssl_option_rule|]. intros [[] s]; cbn [negb]; unfold ssl_outcome.
  - destruct s as [s|].
    + apply triple_and. intros Hcert. apply triple_ex. intros b. apply triple_ex. intros v'. apply triple_and. intros Hr.
      pose proof Hr as ((Hn' & _) & _ & _ & Hm').
      assert (Some s <> None <-> cfg (strings c') SSL_CERTIFICATE <> None) as Hiff by (clear -Hcert; done).
      refine (triple_weaken _ _ _ _ _ (setup_rest_rule options ctx c' (Some s) v' Hn' Hiff (ex_intro _ b Hr) Hg) _ (fun _ _ Hp => Hp)).
      intros p Hp. refine (owns_perm p0 _ _ _ _ v' p _ (Permutation_refl _) Hp). unfold mutex_block. rewrite Hm'. simpl. solve_Permutation.
    + apply triple_and. intros Hcert. assert (@None nat <> None <-> cfg (strings c') SSL_CERTIFICATE <> None) as Hiff
        by (clear -Hcert; by rewrite Hcert).
      refine (triple_weaken _ _ _ _ _ (setup_rest_rule options ctx c' None v Hn Hiff Hm Hg) _ (fun _ _ Hp => Hp)).
      intros p Hp. rewrite Hb. exact Hp.
  - apply triple_ex. intros v'. apply triple_and. intros (Hn' & (Hm' & _) & Hs'). rewrite Hm in Hm'.
    refine (triple_weaken _ _ _ _ _ (fail_rule options ctx c' s [] [] v' Hs' Hn' (or_introl (conj eq_refl eq_refl))) _ (fun _ _ Hp => Hp)).
    intros p Hp. refine (owns_perm p0 _ _ _ _ v' p _ (Permutation_refl _) Hp). unfold mutex_block. rewrite Hm'. simpl. solve_Permutation.
Qed.
End rules.

(** ** A start and a stop *)

Section lifecycle.
Context `{OS} `{SslLib} `{Net}.

(** [p] is [q] with what the server [ctx] owns. *)
Definition server (q : proc) (ctx : mg_context) (p : proc) : Prop :=
  server_owns q (ctx_block ctx) (config_ ctx) (ssl_ctx ctx) (sockets_block ctx) (listening_sockets ctx) p.

(** The SSL code is as before anything was started. *)
Definition ssl_idle (v : ssl_state) : Prop :=
  ssl_mutexes v = None /\ locking_callback v = false /\ id_callback v = false.

Lemma start_workers_rule p0 conf ids bs ds v :
  triple (owns p0 bs ds v) (start_workers conf ids) (fun n p => (n <= length ids)%nat /\ owns p0 bs ds v p).
Proof.
  induction ids as [|i ids IH]; cbn [start_workers length]; [by intros p Hp; eexists _, _|].
  eapply (triple_bind _ _ _ (fun n p => (n <= 1)%nat /\ owns p0 bs ds v p)).
  - destruct (net_thread i); p_steps; (intros p Hp; eexists _, _; split; [done|]; split; [lia|done]).
  - intros k. apply triple_and. intros Hk. eapply triple_bind; [apply IH|]. intros n. apply triple_and. intros Hn.
    intros p Hp. eexists _, _. split; [done|]. split; [lia|done].
Qed.

(** Stopping frees what the server owns, whatever else has happened to the process. *)
Lemma mg_stop_frees q ctx p :
  has_master ctx = true -> Forall (fun so => 0 <= sock so) (listening_sockets ctx) -> server q ctx p ->
  exists p' v, mg_stop ctx p = Some (true, p') /\ owns q [] [] v p' /\ ssl_mutexes v = None /\
    (ssl_ctx ctx <> None -> ssl_idle v).
Proof.
  intros Hm Hl (v & Hp & Hv). unfold mg_stop, master_end. rewrite Hm. cbn [negb].
  destruct ctx as [ctx c s blk l m n]; simpl in *. set (v' := match s with
    | Some _ => SslState (ssl_sw v) (crypto_sw v) (Some (default 0%nat (fst <$> ssl_mutexes v), [])) false false
    | None => v end).
  assert (mutex_block v' = mutex_block v) as Hmb.
  { unfold v', mutex_block. destruct s; [|done]. by destruct Hv as (b & _ & _ & _ & ->). }
  assert (s <> None -> ssl_loaded v') as Hs by (unfold v'; destruct s; [by destruct Hv as (b & [] & _)|done]).
  assert (triple (owns q (config_blocks c ++ block_list s ++ mutex_block v ++ block_list blk ++ [ctx]) (map sock l) v)
    (_ ← (_ ← close_all_listening_sockets blk l; uninitialize_ssl s); _ ← free_context ctx c s; mret true)
    (fun r p => r = true /\ owns q [] [] (set_mutexes None v') p)) as Ht.
  { eapply (triple_bind _ _ _ (fun _ => owns q (config_blocks c ++ block_list s ++ mutex_block v' ++ [ctx]) [] v')).
    - eapply (triple_bind _ _ _ (fun _ => owns q (config_blocks c ++ block_list s ++ mutex_block v ++ [ctx]) [] v)).
      + eapply triple_weaken; [apply (close_all_rule q blk l (config_blocks c ++ block_list s ++ mutex_block v ++ [ctx]) [] v Hl)| |done].
        intros p1 Hp1. eapply owns_perm; [| |exact Hp1]; [solve_Permutation|by rewrite app_nil_r].
      + intros []. rewrite Hmb. destruct s as [s|]; [|by intros p1 Hp1; eexists _, _].
        destruct Hv as (b & Hl' & _ & _ & Hb). unfold v'. rewrite Hb. simpl. exact (uninitialize_ssl_rule q s b _ _ _ v Hl' Hb).
    - intros []. eapply triple_bind; [by apply (free_context_rule q ctx c s [] [])|]. intros [] p1 Hp1. by eexists _, _. }
  destruct (Ht p Hp) as (r & p' & E & -> & Hp'). exists p', (set_mutexes None v'). split_and!; [done|done|done|].
  unfold v'. by destruct s.
Qed.

(** How a start can end. *)
Lemma mg_start_cases options p :
  ssl_named (p_ssl p) -> ssl_mutexes (p_ssl p) = None ->
  match mg_start options p with
  | None => grants p <> []
  | Some (None, p1) => exists bs ds v, owns p bs ds v p1 /\ leak p options bs ds /\ ssl_mutexes v = None
  | Some (Some ctx, p1) => server p ctx p1 /\ Forall (fun so => 0 <= sock so) (listening_sockets ctx)
  end.
Proof.
  intros Hn Hm. destruct (mg_setup_rule p options (p_ssl p) Hn Hm p (owns_refl p)) as (r & p1 & E & Hr).
  unfold mg_start, mbind at 1, P_bind at 1. rewrite E. destruct r as [[[[[ctx c] s] blk] l]|].
  2: { destruct Hr as (bs & ds & v & Ho & Hl & _ & Hv). by exists bs, ds, v. }
  destruct Hr as ((v & Ho & Hv) & Hl & _ & _ & _ & Hg). destruct (cfg (strings c) NUM_THREADS) as [n|] eqn:En.
  2: { intros Hgr. pose proof (start_config_cfg _ _ (Hg Hgr) NUM_THREADS (B "num_threads") (Some (B "50")) eq_refl) as Hc.
       rewrite En in Hc. by destruct (last_assigned _ _). }
  destruct (start_workers_rule p (strings c) (seq 0 (Z.to_nat (atoi n))) _ _ _ p1 Ho) as (k & p2 & E2 & _ & Ho2).
  unfold mbind, P_bind. rewrite E2. simpl. split; [by exists v|].
  eapply Forall_impl; [exact Hl|]. by intros so [].
Qed.

End lifecycle.

(** ** Examples *)

Lemma max_lt (l : list Z) x : x ∈ l -> x <= foldr Z.max 2 l.
Proof. induction l as [|y l IH]; [by intros ?%elem_of_nil|]. intros [->|Hx]%elem_of_cons; simpl; [lia|]. apply IH in Hx. lia. Qed.

(** A system on which everything works: descriptors are counted up. *)
#[refine] Definition simple_net : Net := {|
  net_fd l := foldr Z.max 2 l + 1;
  net_socket _ := true;
  net_bind _ := true;
  net_user _ := None;
  net_setgid _ := true;
  net_setuid _ := true;
  net_master := true;
  net_thread _ := true;
  net_local _ := (0x7f000001, 8080)
|}.
Proof.
  intros l. assert (0 <= foldr Z.max 2 l) by (induction l; simpl; lia). split; [lia|]. intros Hin%max_lt. lia.
Defined.

Definition simple_ssl : SslLib := {|
  lib_dlopen _ := Some 1; lib_dlsym _ _ := Some 2; lib_ctx_new := true; lib_use_certificate _ := 1; lib_use_key _ := 1;
  lib_num_locks := 41; lib_get_error := 0; lib_error_string _ := []; lib_new := true; lib_set_fd _ := 1; lib_accept _ := 1
|}.

Definition new_proc : proc := Proc [] 0 [] [] [] ssl_init [] [].

Definition https_options : list bytes :=
  [B "listening_ports"; B "80r,443s"; B "ssl_certificate"; B "/s.pem"; B "listening_ports"; B "8080,8443s"].


(** A port that cannot be parsed after the certificate has been loaded: the locks are
    freed, but the SSL library still has the callback that uses them. *)
Lemma failed_start_leaves_callback :
  match @mg_start (small_os [] []) simple_ssl simple_net
          [B "ssl_certificate"; B "/s.pem"; B "listening_ports"; B "http"] new_proc with
  | Some (None, p) => live p = [] /\ ssl_mutexes (p_ssl p) = None /\ locking_callback (p_ssl p) = true /\
      ssl_locking_callback 1 1 0 p = None
  | _ => False
  end.
Proof. vm_compute. done. Qed.

(** A user that does not exist: the socket stays open, and its array allocated. *)
Lemma refused_user_leaks_sockets :
  match @mg_start (small_os [] []) simple_ssl simple_net [B "run_as_user"; B "nobody"] new_proc with
  | Some (None, p) => length (live p) = 1%nat /\ open_fds p = [3]
  | _ => False
  end.
Proof. vm_compute. done. Qed.

(** Another server is running with SSL: a start that fails frees the locks it uses. *)
Lemma failed_start_frees_locks_of_other :
  match @mg_start (small_os [] []) simple_ssl simple_net https_options new_proc with
  | Some (Some ctx, p1) =>
      match @mg_start (small_os [] []) simple_ssl simple_net [B "no_such_option"; B "x"] p1 with
      | Some (None, p2) => ssl_mutexes (p_ssl p1) <> None /\ ssl_mutexes (p_ssl p2) = None /\ mg_stop ctx p2 = None
      | _ => False
      end
  | _ => False
  end.
Proof. vm_compute. done. Qed.

(** Without a master thread [mg_start] succeeds and [mg_stop] does not return. *)
Lemma no_master_no_stop `{OS} `{SslLib} `{Net} options p ctx p1 :
  net_master = false -> mg_start options p = Some (Some ctx, p1) -> mg_stop ctx p1 = Some (false, p1).
Proof.
  intros Hm. unfold mg_start, mbind, P_bind. destruct (mg_setup options p) as [[[[[[[b c] s] blk] l]|] p']|]; [|done|done].
  destruct (cfg _ _) as [n|]; [|done]. destruct (start_workers _ _ _) as [[k p2]|]; [|done].
  intros [= <- <-]. unfold mg_stop. simpl. by rewrite Hm.
Qed.
