(* ===== verification/Worker.v ===== *)
(** * Accepting and serving connections

    [set_sock_timeout], [accept_new_connection], the poll loop of [master_thread],
    [close_socket_gracefully], [close_connection] and [worker_thread] of src/mongoose.c,
    on the process and on the world of the connection together.  A client is admitted
    exactly if the access control list says so, and a worker closes every socket it is
    given, whatever is served on it. *)

From S2P Require Import Prelude CString Options SocketQueue HttpRequest Scanf Access Conn Os Connection Process Ssl Start.

(** ** The master thread *)

(** [struct timeval] for a time in milliseconds: the product is one of [int]. *)
Definition timeval (milliseconds : Z) : Z * Z :=
  (Z.quot milliseconds 1000, Z.rem (int32 (milliseconds * 1000)) 1000000).

(** The first [setsockopt] succeeds, so that the second is made. *)
Definition set_sock_timeout (fd milliseconds : Z) : P unit :=
  let '(sec, usec) := timeval milliseconds in
  _ ← set_sockopt fd (RcvTimeout sec usec);
  set_sockopt fd (SndTimeout sec usec).

(** What becomes of a connection. *)
Inductive accepted := NoConnection | Refused | Queued (so : socket).

Section master.
Context `{OS} `{Net}.

(** [remote] is the address that [accept] delivers, if there is a connection. *)
Definition accept_new_connection (listener : socket) (ctx : mg_context) (remote : option (Z * Z)) : P accepted :=
  let c := ctx_config ctx in
  match remote with
  | None => mret NoConnection
  | Some remote =>
      fd ← open_fd;
      allowed ← acl_verdict c (fst remote);
      if allowed =? 0 then
        _ ← cry_ctx c (B "accept_new_connection: " ++ sockaddr_to_string 20 remote ++ B " is not allowed to connect");
        _ ← close_fd fd;
        mret Refused
      else
        _ ← set_sockopt fd KeepAlive;
        match cfg c REQUEST_TIMEOUT with
        | None => misuse
        | Some ms =>
            _ ← set_sock_timeout fd (atoi ms);
            mret (Queued (Socket fd (net_local fd) remote (is_ssl listener) (ssl_redir listener)))
        end
  end.

(** What the loop over the listening sockets finds at one of them: [stop_flag], whether
    it is ready, and what [accept] delivers. *)
Record poll_event := PollEvent { ev_stop : bool; ev_ready : bool; ev_remote : option (Z * Z) }.

(** One round of [poll]: the sockets given to [produce_socket], in order. *)
Fixpoint poll_round (ctx : mg_context) (listeners : list socket) (events : list poll_event) : P (list socket) :=
  match listeners, events with
  | so :: listeners', ev :: events' =>
      queued ← (if negb (ev_stop ev) && ev_ready ev then
                  r ← accept_new_connection so ctx (ev_remote ev);
                  mret match r with Queued c => [c] | _ => [] end
                else mret []);
      rest ← poll_round ctx listeners' events';
      mret (queued ++ rest)
  | _, _ => mret []
  end.

Fixpoint poll_loop (ctx : mg_context) (rounds : list (list poll_event)) : P (list socket) :=
  match rounds with
  | [] => mret []
  | events :: rounds' =>
      queued ← poll_round ctx (listening_sockets ctx) events;
      rest ← poll_loop ctx rounds';
      mret (queued ++ rest)
  end.

(** The rounds are those until [stop_flag] is set.  The result of [calloc] decides
    whether there are any. *)
Definition master_thread (ctx : mg_context) (rounds : list (list poll_event)) : P (list socket) :=
  pfd ← alloc;
  queued ← match pfd with Some _ => poll_loop ctx rounds | None => mret [] end;
  _ ← free_opt pfd;
  _ ← master_end ctx;
  mret queued.
End master.

(** ** A worker and a connection *)

(** The process and the connection of the worker. *)
Definition W (A : Type) : Type := proc * world -> option (A * (proc * world)).
#[export] Instance W_ret : MRet W := fun A a s => Some (a, s).
#[export] Instance W_bind : MBind W := fun A B f m s =>
  match m s with None => None | Some (a, s') => f a s' end.
Definition on_proc {A} (m : P A) : W A := fun '(p, w) =>
  match m p with Some (a, p') => Some (a, (p', w)) | None => None end.
Definition on_world {A} (m : M A) : W A := fun '(p, w) =>
  match m w with Some (a, w') => Some (a, (p, w')) | None => None end.

Definition INVALID_SOCKET : Z := -1.

Definition set_remote (so : socket) (c : conn) : conn :=
  let ri := request_info c in
  set_request_info (RequestInfo (request_method ri) (uri ri) (http_version ri) (query_string ri) (remote_user ri)
    (fst (rsa so)) (snd (rsa so)) (is_ssl so) (http_headers ri)) c.

Definition close_socket_gracefully (fd : Z) : P unit :=
  _ ← set_sockopt fd (Linger 1);
  _ ← set_sockopt fd ShutdownWrite;
  _ ← set_sockopt fd NonBlocking;
  close_fd fd.

(** What [close_connection] does to the process: [ssl] is [conn->ssl]. *)
Definition close_descriptor (ssl : option nat) (fd : Z) : P unit :=
  _ ← match ssl with
      | Some b =>
          _ ← call_ssl i_SSL_shutdown;
          _ ← call_ssl i_SSL_shutdown;
          _ ← call_ssl i_SSL_free;
          free_ b
      | None => mret tt
      end;
  if negb (fd =? INVALID_SOCKET) then close_socket_gracefully fd else mret tt.

(** What it does to the connection. *)
Definition close_connection : M unit :=
  _ ← modify (set_must_close true);
  modify (fun c => set_client (Socket INVALID_SOCKET (lsa (client c)) (rsa (client c))
                                 (is_ssl (client c)) (ssl_redir (client c))) c).

Section worker.
Context `{OS} `{SslLib} `{RequestHandler}.

(** What is done before a request is read. *)
Definition begin_connection (so : socket) : M unit :=
  _ ← modify (set_client so);
  t ← time;
  _ ← modify (set_birth_time t);
  modify (set_remote so).

(** What a worker does with a socket from the queue; false if the rounds ran out. *)
Definition serve_socket (fuel : nat) (ctx : mg_context) (so : socket) : W bool :=
  _ ← on_world (begin_connection so);
  '(ok, ssl) ← (if negb (is_ssl so) then mret (true, None) else on_proc (sslize (ssl_ctx ctx) (sock so)));
  ended ← (if (ok : bool) then on_world (process_new_connection fuel) else mret true);
  _ ← on_world close_connection;
  _ ← on_proc (close_descriptor ssl (sock so));
  mret ended.

Fixpoint worker_loop (fuel : nat) (ctx : mg_context) (sos : list socket) : W bool :=
  match sos with
  | [] => mret true
  | so :: sos' =>
      ended ← serve_socket fuel ctx so;
      if (ended : bool) then worker_loop fuel ctx sos' else mret false
  end.

(** The structure from [calloc], with its buffer. *)
Definition worker_conn (c : config) : conn :=
  Conn no_request c (Socket 0 (0, 0) (0, 0) false false) 0 0 0 0 (replicate MAX_REQUEST_SIZE 0) None false 0 0 0 0 0 0.

(** The sockets are those that [consume_socket] delivers until the server stops. *)
Definition worker_thread (fuel : nat) (ctx : mg_context) (sos : list socket) : W bool :=
  conn ← on_proc alloc;
  match conn with
  | None =>
      _ ← on_proc (cry_ctx (ctx_config ctx) (B "Cannot create new connection struct, OOM"));
      mret true
  | Some b =>
      _ ← on_world (modify (fun _ => worker_conn (ctx_config ctx)));
      ended ← worker_loop fuel ctx sos;
      _ ← on_proc (free_ b);
      mret ended
  end.
End worker.

(** ** Time limits *)

(** Milliseconds are seconds and microseconds as long as the product does not overflow. *)
Lemma timeval_exact ms :
  0 <= ms <= 2147483 ->
  let '(sec, usec) := timeval ms in sec * 1000000 + usec = ms * 1000 /\ 0 <= usec < 1000000.
Proof.
  intros Hms. unfold timeval. assert (int32 (ms * 1000) = ms * 1000) as ->
    by (unfold int32; rewrite Z.mod_small; lia).
  rewrite Z.quot_div_nonneg, Z.rem_mod_nonneg by lia. change 1000000 with (1000 * 1000).
  rewrite Z.mul_mod_distr_r by lia. pose proof (Z.div_mod ms 1000). pose proof (Z.mod_pos_bound ms 1000). lia.
Qed.

(** Beyond, the microseconds can be negative, which [setsockopt] refuses. *)
Example timeval_overflow : timeval 2147484 = (2147, -483296).
Proof. by_eval. Qed.

(** ** Admission *)

Section accepting.
Context `{OS} `{SslLib} `{Net}.

(** What a successful start has checked. *)
Lemma mg_start_inv options p ctx p1 :
  ssl_named (p_ssl p) -> ssl_mutexes (p_ssl p) = None -> grants p = [] -> mg_start options p = Some (Some ctx, p1) ->
  mg_start_config options = inr (ctx_config ctx) /\ acl_accepted (ctx_config ctx) = true /\
  Forall (listener_ok (bool_decide (ssl_ctx ctx <> None))) (listening_sockets ctx) /\
  (ssl_ctx ctx <> None <-> cfg (ctx_config ctx) SSL_CERTIFICATE <> None).
Proof.
  intros Hn Hm Hg E. destruct (mg_setup_rule p options (p_ssl p) Hn Hm p (owns_refl p)) as (r & p2 & E2 & Hr).
  unfold mg_start, mbind at 1, P_bind at 1 in E. rewrite E2 in E. destruct r as [[[[[b c] s] blk] l]|]; [|done].
  destruct Hr as (_ & Hl & Hs & _ & Ha & Hc). destruct (cfg _ _) as [n|]; [|done].
  unfold mbind, P_bind in E. destruct (start_workers _ _ _) as [[k p3]|]; [|done]. injection E as <- _.
  split_and!; [by apply Hc|done|done|apply Hs].
Qed.

(** A connection is accepted, and its socket closed if the list does not allow it. *)
Lemma accept_rule listener ctx remote ms p :
  cfg (ctx_config ctx) REQUEST_TIMEOUT = Some ms -> check_acl (ctx_config ctx) (fst remote) <> -1 ->
  let '(sec, usec) := timeval (atoi ms) in
  exists fd p', 0 <= fd /\ (fd ∉ open_fds p) /\
    if check_acl (ctx_config ctx) (fst remote) =? 0 then
      accept_new_connection listener ctx (Some remote) p = Some (Refused, p') /\ owns p [] [] (p_ssl p) p'
    else
      accept_new_connection listener ctx (Some remote) p
      = Some (Queued (Socket fd (net_local fd) remote (is_ssl listener) (ssl_redir listener)), p') /\
      owns p [] [fd] (p_ssl p) p' /\
      sockopts p' = sockopts p ++ [(fd, KeepAlive); (fd, RcvTimeout sec usec); (fd, SndTimeout sec usec)].
Proof.
  intros Hms Hacl. destruct (timeval (atoi ms)) as [sec usec] eqn:Et.
  destruct (open_fd_rule p [] [] (p_ssl p) p (owns_refl p)) as (fd & p1 & E1 & Hfd & Ho1).
  assert ((fd ∉ open_fds p) /\ sockopts p1 = sockopts p) as [Hnew Hso].
  { injection E1 as <- <-. split; [apply net_fd_new|done]. }
  exists fd. unfold accept_new_connection, mbind, P_bind. rewrite E1. unfold acl_verdict, mbind, P_bind.
  rewrite (proj2 (Z.eqb_neq _ (-1)) Hacl). unfold mret, P_ret. destruct (check_acl _ _ =? 0).
  - destruct (cry_rule p (ctx_config ctx) (B "accept_new_connection: " ++ sockaddr_to_string 20 remote
      ++ B " is not allowed to connect") _ _ _ p1 Ho1) as ([] & p2 & -> & Ho2).
    destruct (close_rule p fd [] [fd] [] (p_ssl p) Hfd (Permutation_refl _) p2 Ho2) as ([] & p3 & -> & Ho3).
    by exists p3.
  - rewrite Hms. unfold set_sock_timeout, set_sockopt, mbind, P_bind. rewrite Et. eexists. split; [done|]. split; [done|].
    split; [done|]. split; [by destruct Ho1|]. simpl. rewrite Hso. by rewrite <- !app_assoc.
Qed.

End accepting.

(** ** A worker closes what it is given *)

(** Rules on the process for computations that also use the connection: only the code
    that serves the connection may abort. *)
Definition wtriple {A} (Abort : Prop) (Pre : proc -> Prop) (m : W A) (Post : A -> proc -> Prop) : Prop :=
  forall p w, Pre p -> match m (p, w) with
                       | Some (a, (p', _)) => Post a p'
                       | None => Abort
                       end.

Lemma wtriple_ret {A} Ab (a : A) (Q : A -> proc -> Prop) : wtriple Ab (Q a) (mret a) Q.
Proof. by intros p w Hp. Qed.

Lemma wtriple_bind {A B} Ab (m : W A) (f : A -> W B) Pre Mid Post :
  wtriple Ab Pre m Mid -> (forall a, wtriple Ab (Mid a) (f a) Post) -> wtriple Ab Pre (m ≫= f) Post.
Proof.
  intros Hm Hf p w Hp. specialize (Hm p w Hp). unfold mbind, W_bind.
  destruct (m (p, w)) as [[a [p1 w1]]|]; [|done]. by apply (Hf a p1 w1).
Qed.

Lemma wtriple_proc {A} Ab Pre (m : P A) Post : triple Pre m Post -> wtriple Ab Pre (on_proc m) Post.
Proof. intros Hm p w Hp. destruct (Hm p Hp) as (a & p' & E & Hq). unfold on_proc. by rewrite E. Qed.

Lemma wtriple_world {A} (Ab : Prop) Pre (m : M A) :
  ((exists w, m w = None) -> Ab) ->
  wtriple Ab Pre (on_world m) (fun a p => (exists w w', m w = Some (a, w')) /\ Pre p).
Proof.
  intros Ha p w Hp. unfold on_world. destruct (m w) as [[a w']|] eqn:E; [split; [by eexists _, _|done]|].
  apply Ha. by exists w.
Qed.

Lemma wtriple_and {A} Ab (F : Prop) Pre (m : W A) Post :
  (F -> wtriple Ab Pre m Post) -> wtriple Ab (fun p => F /\ Pre p) m Post.
Proof. intros Hm p w [HF Hp]. by apply (Hm HF). Qed.

Section worker.
Context `{OS} `{SslLib} `{RequestHandler} (q : proc) (fuel : nat) (ctx : mg_context).
Implicit Types (bs : list nat) (ds : list Z) (v : ssl_state).
Local Abbreviation aborts := (exists w, process_new_connection fuel w = None).
(** Some connection is still served after [fuel] requests. *)
Local Abbreviation endless := (exists w w', process_new_connection fuel w = Some (false, w')).

Lemma close_descriptor_rule ssl fd bs ds v :
  0 <= fd -> (ssl <> None -> ssl_loaded v) ->
  triple (owns q (block_list ssl ++ bs) (fd :: ds) v) (close_descriptor ssl fd) (fun _ => owns q bs ds v).
Proof.
  intros Hfd Hs. unfold close_descriptor, close_socket_gracefully, INVALID_SOCKET.
  eapply (triple_bind _ _ _ (fun _ => owns q bs (fd :: ds) v)).
  - destruct ssl as [b|]; [|by intros p Hp; eexists _, _]. specialize (Hs ltac:(done)).
    do 3 (eapply triple_bind; [by apply call_ssl_rule|intros []]). by apply free_rule.
  - intros []. rewrite (proj2 (Z.eqb_neq fd (-1))) by lia. cbn [negb]. p_steps. by apply close_rule.
Qed.

Lemma serve_socket_rule so bs ds v :
  0 <= sock so -> (is_ssl so = true -> ssl_loaded v) ->
  wtriple aborts (owns q bs (sock so :: ds) v) (serve_socket fuel ctx so)
    (fun ended p => (ended = false -> endless) /\ owns q bs ds v p).
Proof.
  intros Hfd Hs. unfold serve_socket. eapply wtriple_bind; [apply wtriple_world; by intros (w & ?)|]. intros [].
  apply wtriple_and. intros _.
  eapply (wtriple_bind _ _ _ _ (fun r p => (r.2 <> None -> ssl_loaded v) /\ owns q (block_list r.2 ++ bs) (sock so :: ds) v p)).
  - destruct (is_ssl so); cbn [negb]; [|by intros p w Hp].
    apply wtriple_proc. eapply triple_weaken; [by apply sslize_rule, Hs|done|]. intros r p [Hp _]. by split; [intros _; apply Hs|].
  - intros [ok ssl]. cbn [snd]. apply wtriple_and. intros Hl.
    eapply (wtriple_bind _ _ _ _ (fun ended p => (ended = false -> endless) /\ owns q (block_list ssl ++ bs) (sock so :: ds) v p)).
    { destruct ok; [|by intros p w Hp]. intros p w Hp. pose proof (wtriple_world aborts (fun _ => True) (process_new_connection fuel) id p w I) as Hw.
      unfold on_world in *. destruct (process_new_connection fuel w) as [[a w']|] eqn:E; [|done]. split; [|done]. intros ->. by exists w, w'. }
    intros ended. apply wtriple_and. intros He. eapply wtriple_bind; [apply wtriple_world; by intros (w & ?)|]. intros [].
    apply wtriple_and. intros _. eapply wtriple_bind; [by apply wtriple_proc, close_descriptor_rule|]. by intros [] p w Hp.
Qed.

Lemma worker_loop_rule sos bs ds v :
  Forall (fun so => 0 <= sock so /\ (is_ssl so = true -> ssl_loaded v)) sos ->
  wtriple aborts (owns q bs (map sock sos ++ ds) v) (worker_loop fuel ctx sos)
    (fun ended p => if (ended : bool) then owns q bs ds v p else endless /\ exists ds', owns q bs ds' v p).
Proof.
  induction 1 as [|so sos [Hfd Hs] _ IH]; cbn [worker_loop map app]; [by intros p w Hp|].
  eapply wtriple_bind; [by apply serve_socket_rule|]. intros ended. apply wtriple_and. intros He.
  destruct ended; [done|]. intros p w Hp. split; [by apply He|by eexists].
Qed.
End worker.


(** ** Examples *)

Definition acl_options : list bytes := [B "access_control_list"; B "+10.0.0.0/8,-10.1.0.0/16"].


Definition plain_ctx : mg_context := Context_ 0 (replicate NUM_OPTIONS None) None None [] true 1.


