(* ===== verification/CgiProcess.v ===== *)
(** * The descriptors and the child of a CGI request

    [handle_cgi_request] of src/mongoose.c with the two pipes, the child and the streams it
    makes, and the clean-up behind the label [done] that every path ends in.  It
    does to the connection what [Cgi.handle_cgi_request] does, closes each end of the
    pipes once, and kills the child. *)

From S2P Require Import Prelude CString Options SocketQueue HttpRequest Conn Os Files Put Cgi Process Ssl Start Worker.

(** ** What the system does for a request *)

Record cgi_run := CgiRun {
  pipe_stdin : bool;                (* pipe(fd_stdin) works *)
  pipe_stdout : bool;
  child : option Z;                 (* the result of fork in the parent *)
  fdopen_stdin : bool;
  fdopen_stdout : bool;
  program : bytes -> list bytes     (* what the program answers to its input *)
}.

(** As [Cgi] sees it. *)
Definition cgi_outcome (r : cgi_run) : cgi_process :=
  if negb (pipe_stdin r && pipe_stdout r) then NoPipe
  else match child r with
       | None => NoFork
       | Some _ => if fdopen_stdin r && fdopen_stdout r then Running (program r) else NoStream
       end.

(** The child that is there when the request ends. *)
Definition cgi_child (r : cgi_run) : list Z :=
  if pipe_stdin r && pipe_stdout r then match child r with Some pid => [pid] | None => [] end else [].

(** The local variables at the label [done]: [pid], the descriptors or -1, and whether
    [in] and [out] are streams. *)
Record cgi_locals := CgiLocals {
  pid : option Z;
  stdin_read : Z;
  stdin_write : Z;
  stdout_read : Z;
  stdout_write : Z;
  in_ : bool;
  out_ : bool
}.

Section process.
Context `{OS} `{Net}.

(** The ends for reading and writing, or what the variables hold before. *)
Definition pipe (works : bool) : P (Z * Z) :=
  if works then
    r ← open_fd;
    w ← open_fd;
    mret (r, w)
  else mret (-1, -1).

Definition close_end (fd : Z) : P unit := if negb (fd =? -1) then close_fd fd else mret tt.

(** The code behind [done].  [fclose] closes the descriptor of a stream. *)
Definition cgi_done (s : cgi_locals) : P unit :=
  _ ← match pid s with Some n => p_emit (FxKill n) | None => mret tt end;
  _ ← close_end (stdin_read s);
  _ ← close_end (stdout_write s);
  _ ← (if in_ s then close_fd (stdin_write s) else close_end (stdin_write s));
  if out_ s then close_fd (stdout_read s) else close_end (stdout_read s).

(** The code up to [done]. *)
Definition cgi_session (r : cgi_run) (prog : bytes) (env : list bytes) (dir p : bytes) : W cgi_locals :=
  '(in_r, in_w) ← on_proc (pipe (pipe_stdin r));
  '(out_r, out_w) ← on_proc (pipe (pipe_stdin r && pipe_stdout r));
  if negb (pipe_stdin r && pipe_stdout r) then
    _ ← on_world (send_http_error 500 http_500_error (B "Cannot create CGI pipe: " ++ os_strerror));
    mret (CgiLocals None in_r in_w out_r out_w false false)
  else
    spawned ← on_world (spawn_process (cgi_outcome r) p env dir);
    _ ← on_proc (close_fd in_r);
    _ ← on_proc (close_fd out_w);
    if negb spawned then
      _ ← on_world (send_http_error 500 http_500_error
                      (B "Cannot spawn CGI process [" ++ prog ++ B "]: " ++ os_strerror));
      mret (CgiLocals (child r) (-1) in_w out_r (-1) false false)
    else if negb (fdopen_stdin r && fdopen_stdout r) then
      _ ← on_world (send_http_error 500 http_500_error (B "fopen: " ++ os_strerror));
      mret (CgiLocals (child r) (-1) in_w out_r (-1) (fdopen_stdin r) false)
    else
      input ← on_world (feed_cgi p);
      match input with
      | None => mret (CgiLocals (child r) (-1) in_w out_r (-1) true true)
      | Some input =>
          _ ← on_proc (close_fd in_w);
          _ ← on_world (answer_cgi (program r input));
          mret (CgiLocals (child r) (-1) (-1) out_r (-1) false true)
      end.

Definition handle_cgi_process (run : list bytes -> bytes -> bytes -> cgi_run) (prog : bytes) : W unit :=
  env ← on_world (prepare_cgi_environment prog);
  let '(dir, p) := cgi_place prog in
  s ← cgi_session (run env dir p) prog env dir p;
  on_proc (cgi_done s).
End process.

(** ** Simulation *)

(** [mw] does to the connection what [m] does, and takes processes with [Pre] to such
    with [Post]. *)
Definition simulates {A B} (Pre : proc -> Prop) (mw : W A) (m : M B) (Post : A -> B -> proc -> Prop) : Prop :=
  forall q w, Pre q -> match m w with
                       | None => mw (q, w) = None
                       | Some (b, w') => exists a q', mw (q, w) = Some (a, (q', w')) /\ Post a b q'
                       end.

Lemma simulates_ret {A B} Pre (a : A) (b : B) (Post : A -> B -> proc -> Prop) :
  (forall q, Pre q -> Post a b q) -> simulates Pre (mret a) (mret b) Post.
Proof. intros HP q w Hq. exists a, q. split; [done|by apply HP]. Qed.

Lemma simulates_proc {A B C} Pre Mid (n : P C) (f : C -> W A) (m : M B) Post :
  triple Pre n Mid -> (forall c, simulates (Mid c) (f c) m Post) -> simulates Pre (on_proc n ≫= f) m Post.
Proof.
  intros Hn Hf q w Hq. destruct (Hn q Hq) as (c & q1 & E & H1). unfold mbind, W_bind, on_proc. rewrite E.
  by apply Hf.
Qed.

Lemma simulates_world {A B C} Pre (m : M C) (f : C -> W A) (g : C -> M B) Post :
  (forall c, (exists w w', m w = Some (c, w')) -> simulates Pre (f c) (g c) Post) ->
  simulates Pre (on_world m ≫= f) (m ≫= g) Post.
Proof.
  intros Hf q w Hq. unfold mbind, M_bind, W_bind, on_world. destruct (m w) as [[c w1]|] eqn:E; [|done].
  apply Hf; [by exists w, w1|done].
Qed.

Lemma simulates_and {A B} (F : Prop) Pre (mw : W A) (m : M B) Post :
  (F -> simulates Pre mw m Post) -> simulates (fun q => F /\ Pre q) mw m Post.
Proof. intros Hm q w [HF Hq]. by apply (Hm HF). Qed.

(** The last thing done to the connection. *)
Lemma simulates_last {A B} Pre (m : M B) (f : B -> W A) Post :
  (forall b, simulates Pre (f b) (mret b) Post) -> simulates Pre (on_world m ≫= f) m Post.
Proof.
  intros Hf q w Hq. pose proof (simulates_world Pre m f mret Post (fun b _ => Hf b) q w Hq) as Hs. unfold mbind at 1, M_bind in Hs.
  by destruct (m w) as [[b w']|].
Qed.

(** The process is left to the end. *)
Lemma simulates_then {A B C} Pre (mw : W C) (n : C -> P A) (m : M B) Mid (Post : A -> B -> proc -> Prop) :
  simulates Pre mw m Mid -> (forall c b, triple (Mid c b) (n c) (fun a => Post a b)) ->
  simulates Pre (mw ≫= fun c => on_proc (n c)) m Post.
Proof.
  intros Hm Hn q w Hq. specialize (Hm q w Hq). unfold mbind, W_bind. destruct (m w) as [[b w']|]; [|by rewrite Hm].
  destruct Hm as (c & q1 & -> & H1). destruct (Hn c b q1 H1) as (a & q2 & E & H2). exists a, q2. split; [|done].
  unfold on_proc. by rewrite E.
Qed.

(** ** Descriptors *)

Section balance.
Context `{OS} `{Net} (q0 : proc).

(** The descriptors [ds] are open besides those of [q0], and [fx] has been done to other
    processes. *)
Definition holds (fx : list effect) (ds : list Z) (q : proc) : Prop :=
  owns q0 [] ds (p_ssl q0) q /\ p_fx q = p_fx q0 ++ fx.

Lemma holds_perm fx ds ds' q : ds ≡ₚ ds' -> holds fx ds q -> holds fx ds' q.
Proof. intros Hd [Ho Hx]. split; [by rewrite <- Hd|done]. Qed.

Lemma open_holds fx ds : triple (holds fx ds) open_fd (fun fd q => 0 <= fd /\ holds fx (fd :: ds) q).
Proof.
  intros q [Ho Hx]. destruct (open_fd_rule q0 _ _ _ q Ho) as (fd & q' & E & Hfd & Ho'). exists fd, q'.
  split; [done|]. split; [done|]. split; [done|]. injection E as _ <-. done.
Qed.

Lemma close_holds fx fd ds ds' :
  0 <= fd -> ds ≡ₚ fd :: ds' -> triple (holds fx ds) (close_fd fd) (fun _ => holds fx ds').
Proof.
  intros Hfd Hd q [Ho Hx]. destruct (close_rule q0 fd _ _ _ _ Hfd Hd q Ho) as ([] & q' & E & Ho'). exists tt, q'.
  split; [done|]. split; [done|]. unfold close_fd in E. destruct (_ <? _); [by injection E as <-|].
  destruct (remove_one _ _); [|done]. by injection E as <-.
Qed.

Lemma emit_holds e fx ds : triple (holds fx ds) (p_emit e) (fun _ => holds (fx ++ [e]) ds).
Proof.
  intros q [Ho Hx]. destruct (p_emit_rule q0 e _ _ _ q Ho) as ([] & q' & E & Ho'). exists tt, q'.
  split; [done|]. split; [done|]. injection E as <-. simpl. by rewrite Hx, app_assoc.
Qed.

(** The descriptors among [l], which has -1 for the others. *)
Definition ends (l : list Z) : list Z := filter (fun fd => fd <> -1) l.
Definition end_ok (fd : Z) : Prop := fd = -1 \/ 0 <= fd.

Lemma ends_open fd l : fd <> -1 -> ends (fd :: l) = fd :: ends l.
Proof. intros Hfd. unfold ends. by rewrite filter_cons_True. Qed.

Lemma ends_closed l : ends (-1 :: l) = ends l.
Proof. unfold ends. by rewrite filter_cons_False by lia. Qed.

Lemma close_end_holds fx fd ds :
  end_ok fd -> triple (holds fx (ends [fd] ++ ds)) (close_end fd) (fun _ => holds fx ds).
Proof.
  intros Hfd. unfold close_end. destruct (Z.eqb_spec fd (-1)) as [->|Hne]; cbn [negb].
  - rewrite ends_closed. apply (triple_ret tt (fun _ => _)).
  - rewrite ends_open by done. apply close_holds; [destruct Hfd; lia|done].
Qed.

Lemma pipe_holds works fx ds :
  triple (holds fx ds) (pipe works)
    (fun e q => (if (works : bool) then 0 <= fst e /\ 0 <= snd e else e = (-1, -1)) /\ holds fx (ends [fst e; snd e] ++ ds) q).
Proof.
  destruct works; cbn [pipe]; [|intros q Hq; by exists (-1, -1), q].
  eapply triple_bind; [apply open_holds|]. intros r. apply triple_and. intros Hr.
  eapply triple_bind; [apply open_holds|]. intros w. apply triple_and. intros Hw q Hq. exists (r, w), q.
  split; [done|]. split; [done|]. eapply holds_perm; [|exact Hq].
  cbn [fst snd]. rewrite !ends_open by lia. apply perm_swap.
Qed.

(** What [cgi_done] closes. *)
Definition held (s : cgi_locals) : list Z := ends [stdin_read s; stdout_write s; stdin_write s; stdout_read s].
Definition locals_ok (s : cgi_locals) : Prop :=
  Forall end_ok [stdin_read s; stdout_write s; stdin_write s; stdout_read s] /\
  (in_ s = true -> stdin_write s <> -1) /\ (out_ s = true -> stdout_read s <> -1).

Definition kills (l : option Z) : list effect := match l with Some n => [FxKill n] | None => [] end.

Lemma ends_cons fd l : ends (fd :: l) = ends [fd] ++ ends l.
Proof. destruct (decide (fd = -1)) as [->|]; [by rewrite !ends_closed|by rewrite !ends_open by done]. Qed.

Lemma close_stream_holds (stream : bool) fx fd ds :
  end_ok fd -> (stream = true -> fd <> -1) ->
  triple (holds fx (ends [fd] ++ ds)) (if stream then close_fd fd else close_end fd) (fun _ => holds fx ds).
Proof.
  intros Hfd Hs. destruct stream; [|by apply close_end_holds]. specialize (Hs eq_refl).
  rewrite ends_open by done. apply close_holds; [destruct Hfd; lia|done].
Qed.

Lemma kill_holds pid ds :
  triple (holds [] ds) (match pid with Some n => p_emit (FxKill n) | None => mret tt end) (fun _ => holds (kills pid) ds).
Proof. destruct pid as [n|]; [apply (emit_holds (FxKill n) [])|apply (triple_ret tt (fun _ => _))]. Qed.

Lemma cgi_done_holds s :
  locals_ok s -> triple (holds [] (held s)) (cgi_done s) (fun _ => holds (kills (pid s)) []).
Proof.
  intros [Hf [Hi Ho]]. apply Forall_cons in Hf as [H1 Hf]. apply Forall_cons in Hf as [H2 Hf].
  apply Forall_cons in Hf as [H3 Hf]. apply Forall_cons in Hf as [H4 _].
  unfold held. rewrite ends_cons, (ends_cons (stdout_write s)), (ends_cons (stdin_write s)).
  rewrite <- (app_nil_r (ends [stdout_read s])).
  eapply triple_bind; [apply kill_holds|intros []]. eapply triple_bind; [by apply close_end_holds|intros []].
  eapply triple_bind; [by apply close_end_holds|intros []].
  eapply triple_bind; [by apply close_stream_holds|intros []]. by apply close_stream_holds.
Qed.

Lemma spawn_process_spawned r p env dir b (w w' : world) :
  pipe_stdin r && pipe_stdout r = true ->
  spawn_process (cgi_outcome r) p env dir w = Some (b, w') -> b = bool_decide (child r <> None).
Proof.
  unfold cgi_outcome. intros ->. cbn [negb]. destruct (child r) as [n|].
  - destruct (fdopen_stdin r && fdopen_stdout r); cbn [spawn_process]; unfold mbind, M_bind; by intros [= <- _].
  - cbn [spawn_process]. unfold mbind, M_bind. destruct (send_http_error _ _ _ w) as [[[] w1]|]; [|done]. by intros [= <- _].
Qed.

(** At the label [done]: the open descriptors are in the variables, and so is the child. *)
Definition at_done (r : cgi_run) (s : cgi_locals) (q : proc) : Prop :=
  locals_ok s /\ kills (pid s) = map FxKill (cgi_child r) /\ holds [] (held s) q.

Lemma simulates_done r s b ds :
  locals_ok s -> kills (pid s) = map FxKill (cgi_child r) -> ds ≡ₚ held s ->
  simulates (holds [] ds) (mret s) (mret b) (fun s (_ : unit) => at_done r s).
Proof. intros Hs Hk Hd. apply simulates_ret. intros q Hq. split_and!; [done|done|]. by eapply holds_perm. Qed.

Lemma ends_perm l l' : l ≡ₚ l' -> ends l ≡ₚ ends l'.
Proof. intros Hl. unfold ends. by rewrite Hl. Qed.

Lemma ends_app l l' : ends (l ++ l') = ends l ++ ends l'.
Proof. unfold ends. by rewrite filter_app. Qed.

Lemma end_open fd : 0 <= fd -> end_ok fd.
Proof. by right. Qed.
Lemma end_none : end_ok (-1).
Proof. by left. Qed.
#[local] Hint Resolve end_open end_none : core.

(** The descriptors of the parent are in [in_w] and [out_r], the child is there. *)
Lemma simulates_parent r in_w out_r inp out ds b :
  pipe_stdin r && pipe_stdout r = true -> 0 <= in_w -> 0 <= out_r -> ds ≡ₚ [in_w; out_r] ->
  simulates (holds [] ds) (mret (CgiLocals (child r) (-1) in_w out_r (-1) inp out)) (mret b)
    (fun s (_ : unit) => at_done r s).
Proof.
  intros Ep Hi Ho Hd. apply simulates_done.
  - split; [repeat (apply Forall_cons; split); auto|]. split; intros _; simpl; lia.
  - unfold cgi_child. rewrite Ep. by destruct (child r).
  - unfold held. cbn [stdin_read stdout_write stdin_write stdout_read]. rewrite !ends_closed, !ends_open by lia. done.
Qed.

Lemma cgi_outcome_pipes r : pipe_stdin r && pipe_stdout r = true -> cgi_outcome r <> NoPipe.
Proof. unfold cgi_outcome. intros ->. cbn [negb]. destruct (child r); [|done]. by destruct (_ && _). Qed.

Lemma cgi_outcome_streams r :
  pipe_stdin r && pipe_stdout r = true -> child r <> None ->
  cgi_outcome r = if fdopen_stdin r && fdopen_stdout r then Running (program r) else NoStream.
Proof. unfold cgi_outcome. intros ->. cbn [negb]. by destruct (child r). Qed.

Lemma run_cgi_spawns proc prog env dir p :
  proc <> NoPipe ->
  run_cgi proc prog env dir p =
    spawned ← spawn_process proc p env dir;
    if negb spawned then
      send_http_error 500 http_500_error (B "Cannot spawn CGI process [" ++ prog ++ B "]: " ++ os_strerror)
    else match proc with
         | Running output => talk_to_cgi p output
         | _ => send_http_error 500 http_500_error (B "fopen: " ++ os_strerror)
         end.
Proof. by destruct proc. Qed.

Lemma cgi_session_simulates r prog env dir p :
  simulates (holds [] []) (cgi_session r prog env dir p) (run_cgi (cgi_outcome r) prog env dir p)
    (fun s _ => at_done r s).
Proof.
  unfold cgi_session. eapply simulates_proc; [apply pipe_holds|]. intros [in_r in_w]. cbn [fst snd].
  apply simulates_and. intros Hin. eapply simulates_proc; [apply pipe_holds|]. intros [out_r out_w]. cbn [fst snd].
  apply simulates_and. intros Hout. pose proof (spawn_process_spawned r p env dir) as Hsp.
  destruct (pipe_stdin r && pipe_stdout r) eqn:Epipe; cbn [negb].
  2: { injection Hout as -> ->. assert (cgi_outcome r = NoPipe) as -> by (unfold cgi_outcome; by rewrite Epipe).
       cbn [run_cgi]. apply simulates_last. intros []. apply simulates_done.
       - split; [|done]. destruct (pipe_stdin r); [destruct Hin|injection Hin as -> ->];
           repeat (apply Forall_cons; split); auto.
       - unfold cgi_child. by rewrite Epipe.
       - rewrite !ends_closed, app_nil_r. unfold held. cbn [stdin_read stdout_write stdin_write stdout_read].
         rewrite (ends_cons in_r [in_w]), (ends_cons in_r (-1 :: _)), ends_closed, (ends_cons in_w [-1]), ends_closed.
         by rewrite app_nil_r. }
  assert (pipe_stdin r = true) as Epi by (by destruct (pipe_stdin r)). rewrite Epi in Hin. clear Epi.
  rewrite !ends_open by lia. rewrite run_cgi_spawns by (by apply cgi_outcome_pipes).
  apply simulates_world. intros spawned (w & w' & ->%Hsp); [|done].
  eapply simulates_proc; [apply (close_holds _ in_r _ [out_r; out_w; in_w]); [lia|cbn; solve_Permutation]|intros []].
  eapply simulates_proc; [apply (close_holds _ out_w _ [in_w; out_r]); [lia|solve_Permutation]|intros []].
  destruct Hin as [_ Hi], Hout as [Ho _]. cbn [fst snd] in Hi, Ho.
  destruct (bool_decide (child r <> None)) eqn:Ec; cbn [negb]; [|apply simulates_last; intros []; by apply simulates_parent].
  apply bool_decide_eq_true in Ec. rewrite cgi_outcome_streams by (exact Epipe || exact Ec).
  destruct (fdopen_stdin r && fdopen_stdout r); cbn [negb]; [|apply simulates_last; intros []; by apply simulates_parent].
  apply simulates_world. intros [input|] _; [|by apply simulates_parent].
  eapply simulates_proc; [apply (close_holds _ in_w _ [out_r]); [lia|done]|intros []].
  apply simulates_last. intros []. apply simulates_done.
  - split; [repeat (apply Forall_cons; split); auto|]. split; [done|]. intros _. simpl. lia.
  - unfold cgi_child. rewrite Epipe. cbn [pid]. by destruct (child r).
  - unfold held. cbn [stdin_read stdout_write stdin_write stdout_read]. by rewrite !ends_closed, ends_open by lia.
Qed.
End balance.

(** C15. A CGI request leaves nothing behind: the code with the pipes, the child and the
    streams does to the connection what [handle_cgi_request] does, and at its end every
    descriptor it has opened is closed, each once and none of the others, and the child
    is killed exactly if there is one: whether a pipe, the fork or a stream fails, the body
    of the request cannot be forwarded or the program answers. *)
Theorem cgi_process_balanced `{OS} `{Net} (run : list bytes -> bytes -> bytes -> cgi_run) (prog : bytes)
    (env : list bytes) (q : proc) (w w1 : world) :
  prepare_cgi_environment prog w = Some (env, w1) ->
  let '(dir, p) := cgi_place prog in
  let r := run env dir p in
  os_cgi env dir p = cgi_outcome r ->
  match handle_cgi_request prog w with
  | None => handle_cgi_process run prog (q, w) = None
  | Some (_, w') => exists q', handle_cgi_process run prog (q, w) = Some (tt, (q', w')) /\
      live q' ≡ₚ live q /\ open_fds q' ≡ₚ open_fds q /\ p_fx q' = p_fx q ++ map FxKill (cgi_child r)
  end.
Proof.
  intros Ee. destruct (cgi_place prog) as [dir p] eqn:Ep. intros r Hos.
  assert (holds q [] [] q) as Hq by (split; [apply owns_refl|by rewrite app_nil_r]).
  pose proof (simulates_then _ _ cgi_done _ _ (fun _ _ => holds q (map FxKill (cgi_child r)) [])
    (cgi_session_simulates q r prog env dir p)) as Hs.
  specialize (Hs ltac:(intros s [] q1 (Hl & Hk & Hh); rewrite <- Hk; by apply cgi_done_holds) q w1 Hq).
  assert (handle_cgi_request prog w = run_cgi (cgi_outcome r) prog env dir p w1) as ->.
  { unfold handle_cgi_request, mbind, M_bind. by rewrite Ee, Ep, Hos. }
  assert (handle_cgi_process run prog (q, w) = (cgi_session r prog env dir p ≫= fun s => on_proc (cgi_done s)) (q, w1)) as ->.
  { unfold handle_cgi_process, mbind at 1, W_bind at 1, on_world at 1. by rewrite Ee, Ep. }
  destruct (run_cgi _ _ _ _ _ w1) as [[[] w']|]; [|done].
  destruct Hs as ([] & q' & E & [Ho Hx]). exists q'. split; [done|]. split_and!; [apply Ho|apply Ho|done].
Qed.

(** A program that answers a POST. *)
Definition hello_run : cgi_run :=
  CgiRun true true (Some 77) true true (fun input => [B "Content-Type: text/plain" ++ crlf ++ crlf ++ B "hello " ++ input]).
Definition hello_os : OS := with_cgi (small_os [] []) (fun _ _ _ => cgi_outcome hello_run).
Definition hello_conn : conn :=
  Conn (RequestInfo (Some (B "POST")) (Some (B "/a.cgi")) (Some (B "1.1")) None None 0 0 false
         [(B "Content-Length", B "5")])
    (<[DOCUMENT_ROOT:=Some (B "/w")]> (replicate 40 None)) inhabitant 0 0 5 0 (B "world") None false 0 5 0 0 0 0.

Lemma cgi_process_balanced_witness :
  exists q' w', @handle_cgi_process hello_os simple_net (fun _ _ _ => hello_run) (B "/w/a.cgi") (new_proc, quiet hello_conn [])
    = Some (tt, (q', w')) /\ open_fds q' ≡ₚ [] /\ p_fx q' = [FxKill 77] /\
    sent w' = B "HTTP/1.1 200 OK" ++ crlf ++ B "Content-Type: text/plain" ++ crlf ++ crlf ++ B "hello world".
Proof.
  destruct (@prepare_cgi_environment hello_os (B "/w/a.cgi") (quiet hello_conn [])) as [[env w1]|] eqn:Ee;
    [|vm_compute in Ee; discriminate Ee].
  pose proof (@cgi_process_balanced hello_os simple_net (fun _ _ _ => hello_run) (B "/w/a.cgi") env new_proc _ w1 Ee) as Hb.
  assert (sent ∘ snd <$> @handle_cgi_request hello_os (B "/w/a.cgi") (quiet hello_conn [])
    = Some (B "HTTP/1.1 200 OK" ++ crlf ++ B "Content-Type: text/plain" ++ crlf ++ crlf ++ B "hello world")) as Es by by_eval.
  destruct (cgi_place _) as [dir p]. specialize (Hb eq_refl).
  destruct (handle_cgi_request _ _) as [[u w']|]; [|discriminate Es]. injection Es as Es.
  destruct Hb as (q' & Eq & _ & Hf & Hx). exists q', w'. split; [exact Eq|]. split; [exact Hf|]. split; [exact Hx|exact Es].
Defined.
