(* ===== verification/Main.v ===== *)
(** * The program

    [main] of src/tinyweb.c: the process forks, reads its options, starts the server,
    tells its number, waits for a signal and stops the server.  What is printed goes to
    the same list of effects as the messages of the server. *)

From S2P Require Import Prelude CString Options SocketQueue HttpRequest Scanf Access Conn Os Auth Connection Process Ssl Start Worker Tinyweb.

Section main.
Context `{OS} `{SslLib} `{Net} (big : bool).

Definition say (text : bytes) : W unit := on_proc (p_emit (FxLog text)).

(** The file that [pidfile] names; [fprintf] is given what [fopen] returns. *)
Definition write_pidfile (pidfile : option (bytes * bytes)) : P unit :=
  match pidfile with
  | None => mret tt
  | Some (path, text) =>
      if os_create path then
        _ ← p_emit (FxCreate path);
        p_emit (FxWrite path text)
      else misuse
  end.

(** The exit status, or [None] if the program never ends.  [fork] is the result of
    [fork()], [pid] of [getpid()], and [signal] the signal that arrives; what the threads
    of the server do until then is [serve]. *)
Definition main (date CONFIG_FILE arg0 : bytes) (args : list bytes) (fork pid signal : Z)
    (serve : mg_context -> P unit) : W (option Z) :=
  if fork <? 0 then
    _ ← say (B "fork failed!" ++ [c_lf]);
    mret (Some 1)
  else if 0 <? fork then mret (Some 0)
  else
    let '(out, r) := start_server date CONFIG_FILE arg0 args in
    _ ← say out;
    match r with
    | inl status => mret (Some status)
    | inr (ModifyPasswords fname domain user pass) =>
        ok ← on_world (mg_modify_passwords_file big fname domain user pass);
        mret (Some (if (ok : bool) then 0 else 1))
    | inr (Tinyweb.Start options) =>
        started ← on_proc (mg_start options);
        match started with
        | None =>
            _ ← say (B "Failed to start Tinyweb." ++ [c_lf]);
            mret (Some 1)
        | Some ctx =>
            let '(text, pidfile) := announce (ctx_config ctx) pid in
            _ ← say text;
            _ ← on_proc (write_pidfile pidfile);
            _ ← on_proc (serve ctx);
            _ ← say (B "Exiting on signal " ++ dec signal ++ B ", waiting for all threads to finish... done." ++ [c_lf]);
            returned ← on_proc (mg_stop ctx);
            mret (if (returned : bool) then Some 0 else None)
        end
    end.
End main.

(** ** From the start to the end *)

(** Another process to start from, with the same memory and sockets. *)
Lemma owns_base p q bs ds v p' :
  live q = live p -> open_fds q = open_fds p -> grants q = grants p -> p_fx p `prefix_of` p_fx q ->
  owns q bs ds v p' -> owns p bs ds v p'.
Proof.
  intros Hl Hf Hg Hx [Ol Of Ov Og Ox]. constructor; [by rewrite Ol, Hl|by rewrite Of, Hf|done|by rewrite <- Hg|].
  by etransitivity.
Qed.

(** The same state, with what has been written so far as the start. *)
Definition rebase (p p' : proc) : proc := set_output (p_clock p) (p_fx p') p.

Lemma owns_rebase p bs ds v p' p1 :
  owns p bs ds v p1 -> p_fx p' = p_fx p1 -> owns (rebase p p') bs ds v p1.
Proof. intros [Ol Of Ov Og Ox] E. constructor; try done. by simpl; rewrite E. Qed.

Section whole.
Context `{OS} `{SslLib} `{Net} (big : bool).

Lemma server_rebase q ctx p p' : server q ctx p -> p_fx p' = p_fx p -> server (rebase q p') ctx p.
Proof. intros (v & Ho & Hv) E. exists v. split; [|done]. by apply owns_rebase. Qed.

Lemma server_step {A} q ctx p (m : P A) :
  (forall bs ds v, triple (owns q bs ds v) m (fun _ => owns q bs ds v)) -> server q ctx p ->
  exists a p', m p = Some (a, p') /\ server q ctx p'.
Proof. intros Hm (v & Ho & Hv). destruct (Hm _ _ _ p Ho) as (a & p' & E & Ho'). exists a, p'. split; [done|]. by exists v. Qed.

Lemma write_pidfile_rule q path text bs ds v :
  os_create path = true ->
  triple (owns q bs ds v) (write_pidfile (Some (path, text))) (fun _ => owns q bs ds v).
Proof. intros Hc. unfold write_pidfile. rewrite Hc. p_steps. apply p_emit_rule. Qed.

Lemma write_pidfile_fx path text p p' :
  write_pidfile (Some (path, text)) p = Some (tt, p') -> FxWrite path text ∈ p_fx p'.
Proof.
  unfold write_pidfile. destruct (os_create path); [|done]. intros [= <-]. simpl.
  apply elem_of_app. right. by apply list_elem_of_singleton.
Qed.

(** What [pidfile] names, if anything. *)
Definition named_pidfile (options : list bytes) : option bytes :=
  match last_assigned (B "pidfile") options with Some (x :: path) => Some (x :: path) | _ => None end.

Lemma announce_pidfile options c pid :
  mg_start_config options = inr c -> (announce c pid).2 = (fun path => (path, dec pid)) <$> named_pidfile options.
Proof.
  intros Ec. pose proof (start_config_cfg _ _ Ec PID_FILE (B "pidfile") None eq_refl) as Hp.
  unfold announce, named_pidfile. cbn [snd]. unfold mg_get_option.
  change (get_option_index (B "pidfile")) with 24. change (Z.to_nat 24) with PID_FILE. rewrite Hp.
  generalize (last_assigned (B "pidfile") options). by intros [[|x path]|].
Qed.

(** The server part of [main], after the start. *)
Lemma main_serves q ctx pid signal serve p w path_text :
  has_master ctx = true -> Forall (fun so => 0 <= sock so) (listening_sockets ctx) ->
  (announce (ctx_config ctx) pid).2 = path_text ->
  (forall path text, path_text = Some (path, text) -> os_create path = true) ->
  (forall q p1, server q ctx p1 -> exists p2, serve ctx p1 = Some (tt, p2) /\ server q ctx p2) ->
  server q ctx p ->
  exists p' v,
    (let '(text, pidfile) := announce (ctx_config ctx) pid in
     _ ← say text;
     _ ← on_proc (write_pidfile pidfile);
     _ ← on_proc (serve ctx);
     _ ← say (B "Exiting on signal " ++ dec signal ++ B ", waiting for all threads to finish... done." ++ [c_lf]);
     returned ← on_proc (mg_stop ctx);
     mret (if (returned : bool) then Some 0 else None)) (p, w) = Some (Some 0, (p', w)) /\
    owns q [] [] v p' /\ ssl_mutexes v = None /\
    match path_text with Some (path, text) => FxWrite path text ∈ p_fx p' | None => True end.
Proof.
  intros Hm Hl Ha Hc Hserve Hs. destruct (announce (ctx_config ctx) pid) as [text pidfile]. simpl in Ha. subst pidfile.
  destruct (server_step q ctx p (p_emit (FxLog text)) (fun bs ds v => p_emit_rule q _ bs ds v) Hs) as ([] & p1 & E1 & Hs1).
  assert (exists p2, write_pidfile path_text p1 = Some (tt, p2) /\ server q ctx p2 /\
    match path_text with Some (path, t) => FxWrite path t ∈ p_fx p2 | None => True end) as (p2 & E2 & Hs2 & Hx2).
  { destruct path_text as [[path t]|]; [|by exists p1].
    destruct (server_step q ctx p1 (write_pidfile (Some (path, t)))
      (fun bs ds v => write_pidfile_rule q path t bs ds v (Hc path t eq_refl)) Hs1) as ([] & p2 & E2 & Hs2).
    exists p2. split_and!; [done|done|]. by eapply write_pidfile_fx. }
  destruct (Hserve (rebase q p2) p2) as (p3 & E3 & Hs3); [by apply server_rebase|].
  set (bye := B "Exiting on signal " ++ _).
  destruct (server_step _ ctx p3 (p_emit (FxLog bye)) (fun bs ds v => p_emit_rule _ _ bs ds v) Hs3) as ([] & p4 & E4 & Hs4).
  destruct (mg_stop_frees _ ctx p4 Hm Hl Hs4) as (p5 & v & E5 & Ho & Hv & _).
  exists p5, v. unfold mbind, W_bind, say, on_proc. rewrite E1, E2, E3, E4, E5. split_and!; [done| |done|].
  - eapply owns_base; [..|exact Ho]; try done. destruct Hs2 as (v2 & Ho2 & _). apply Ho2.
  - destruct path_text as [[path t]|]; [|done]. pose proof (ow_fx _ _ _ _ _ Ho) as [l ->]. apply elem_of_app. by left.
Qed.

End whole.

