(* ===== verification/Twins.v ===== *)
(** * Twins

    A worker serves one connection after the other with the same [struct mg_connection]:
    when it starts with a socket, the structure holds what earlier connections left in
    the buffer, the headers, the query string and the counters.  Two runs of the code that
    differ only in bytes behind the data in the buffer (and in the query string, until
    the URI is taken apart) are twins.  That a computation takes twins to twins is a
    [Proper] instance, found by following the structure of the computation; the
    handlers and the dispatcher are shown to have it. *)

From S2P Require Import Prelude CString Options Pattern UrlCodec Md5 Sha1 Base64 SocketQueue HttpRequest Scanf Access Conn WebSocket Os Auth Files Connection Put Listing Ssi Cgi Server Frame.

(** ** Twins *)

Definition set_query (q : option bytes) (c : conn) : conn :=
  let ri := request_info c in
  set_request_info (RequestInfo (request_method ri) (uri ri) (http_version ri) q (remote_user ri)
    (remote_ip ri) (remote_port ri) (ri_is_ssl ri) (http_headers ri)) c.

(** The same data in buffers of the same size: what is behind the data may differ. *)
Definition same_data (n : Z) (b1 b2 : bytes) : Prop :=
  length b2 = length b1 /\ take (Z.to_nat n) b2 = take (Z.to_nat n) b1.

(** How far a request has come: none is read; its head is in the buffer; its URI is
    taken apart. *)
Inductive stage := Open | Read | Routed.

(** [c2] is [c1] with other bytes behind the data in its buffer and, until the URI is
    taken apart, another query string. *)
Definition conn_eq (k : stage) (c1 c2 : conn) : Prop :=
  exists q, (k = Routed -> q = query_string (request_info c1)) /\
    c2 = set_data (buf c2) (data_len c1) (set_query q c1) /\ same_data (data_len c1) (buf c1) (buf c2).

(** The data, and once it is read the request, is in the buffer; the announced length
    survives its conversion to [int] if it is negative. *)
Definition data_in (k : stage) (c : conn) : Prop :=
  buf_ok c /\ (k <> Open -> request_in c /\ - 2 ^ 31 <= content_len c).

Record twins (k : stage) (w1 w2 : world) : Prop := {
  tw_rest : w2 = set_cn (cn w2) w1;
  tw_conn : conn_eq k (cn w1) (cn w2);
  tw_in : data_in k (cn w1)
}.

(** The same result, and twins again; or both abort. *)
Abbreviation twin_results k := (option_Forall2 (prod_relation eq (twins k))).
Abbreviation respects k m := (Proper (twins k ==> twin_results k) m).

#[export] Instance same_data_equiv n : Equivalence (same_data n).
Proof. split; [done|by intros b1 b2 []|]. intros b1 b2 b3 [] []. split; congruence. Qed.

(** *** Buffers *)

Lemma same_prefix n m (b1 b2 : bytes) : take n b2 = take n b1 -> (m <= n)%nat -> take m b2 = take m b1.
Proof. intros Ht Hm. apply (f_equal (take m)) in Ht. by rewrite !take_take, !Nat.min_l in Ht by done. Qed.

Lemma same_data_le n m b1 b2 : m <= n -> same_data n b1 b2 -> same_data m b1 b2.
Proof. intros Hm [Hl Ht]. split; [done|]. eapply same_prefix; [done|lia]. Qed.

(** Bytes stored behind the data are data. *)
Lemma same_data_splice n (d b1 b2 : bytes) :
  0 <= n -> n + Z.of_nat (length d) <= Z.of_nat (length b1) -> same_data n b1 b2 ->
  same_data (n + Z.of_nat (length d)) (splice b1 (Z.to_nat n) d) (splice b2 (Z.to_nat n) d).
Proof.
  intros Hn Hd [Hl Ht]. split; [rewrite !splice_length; lia|]. unfold splice. rewrite Ht, !app_assoc.
  by rewrite !(take_app_le (take _ _ ++ d)) by (rewrite length_app, length_take; lia).
Qed.

(** *** Connections *)

Lemma set_query_id c : set_query (query_string (request_info c)) c = c.
Proof. by destruct c as [[]]. Qed.

Lemma set_data_id c : set_data (buf c) (data_len c) c = c.
Proof. by destruct c. Qed.

Lemma conn_eq_routed c1 c2 :
  conn_eq Routed c1 c2 <->
  c2 = set_data (buf c2) (data_len c1) c1 /\ same_data (data_len c1) (buf c1) (buf c2).
Proof.
  split.
  - intros (q & -> & E & Hs); [|done]. by rewrite set_query_id in E.
  - intros [E Hs]. eexists. split; [done|]. by rewrite set_query_id.
Qed.

Lemma conn_eq_refl k c : conn_eq k c c.
Proof. exists (query_string (request_info c)). by rewrite set_query_id, set_data_id. Qed.

Lemma twins_read w1 w2 : twins Routed w1 w2 -> twins Read w1 w2.
Proof. intros [? (q & _ & E & Hs) [I1 I2]]. constructor; [done|by exists q|]. split; [done|]. intros _. by apply I2. Qed.

Lemma twins_open k w1 w2 : twins k w1 w2 -> twins Open w1 w2.
Proof. intros [? (q & _ & E & Hs) [I1 I2]]. constructor; [done|by exists q|done]. Qed.

(** Twins of a world, in normal form. *)
Lemma twins_intro k c1 c2 w : conn_eq k c1 c2 -> data_in k c1 -> twins k (set_cn c1 w) (set_cn c2 w).
Proof. by constructor. Qed.

Lemma twins_elim k w1 w2 :
  twins k w1 w2 -> exists c, w2 = set_cn c w1 /\ conn_eq k (cn w1) c /\ data_in k (cn w1).
Proof. intros [E C I]. by exists (cn w2). Qed.

(** ** Rules *)

Lemma bind_assert {A} b (m : unit -> M A) w : (assert_ b ≫= m) w = if b then m tt w else None.
Proof. by destruct b. Qed.

Lemma bind_get {A} (f : conn -> M A) w : (get_conn ≫= f) w = f (cn w) w.
Proof. done. Qed.

Lemma bind_modify {A} (f : conn -> conn) (m : unit -> M A) w : (modify f ≫= m) w = m tt (set_cn (f (cn w)) w).
Proof. done. Qed.

Create HintDb respects discriminated.
#[export] Hint Constants Opaque : respects.

Section rules.
Context (k : stage).

Lemma respects_ret {A} (a : A) : respects k (mret a : M A).
Proof. intros w1 w2 Hw. by constructor. Qed.

Lemma respects_abort {A} : respects k (abort : M A).
Proof. intros w1 w2 Hw. constructor. Qed.

Lemma twins_bind {A B} (k' : stage) (m : M A) (f : A -> M B) (w1 w2 : world) :
  twin_results k (m w1) (m w2) ->
  (forall a w1' w2', m w1 = Some (a, w1') -> twins k w1' w2' -> twin_results k' (f a w1') (f a w2')) ->
  twin_results k' ((m ≫= f) w1) ((m ≫= f) w2).
Proof.
  intros Hm Hf. unfold mbind, M_bind. destruct Hm as [[a1 w1'] [a2 w2'] [Ha Hw']|]; [|constructor].
  simpl in Ha, Hw'. subst a2. by apply Hf.
Qed.

Lemma respects_bind {A B} (m : M A) (f : A -> M B) :
  respects k m -> (forall a, respects k (f a)) -> respects k (m ≫= f).
Proof.
  intros Hm Hf w1 w2 Hw. apply twins_bind; [by apply Hm|]. intros a w1' w2' _. apply Hf.
Qed.

Lemma respects_assert b : respects k (assert_ b).
Proof. destruct b; [apply respects_ret|apply respects_abort]. Qed.

(** What does not look at the connection. *)
Lemma respects_blind {A} (m : M A) :
  (forall w c, m (set_cn c w) = (fun '(a, w') => (a, set_cn c w')) <$> m w) ->
  (forall w a w', m w = Some (a, w') -> cn w' = cn w) -> respects k m.
Proof.
  intros Hm Hc w1 w2 (c & -> & C & I)%twins_elim. rewrite Hm. destruct (m w1) as [[a w']|] eqn:E; [|constructor].
  constructor. split; [done|]. simpl. constructor; [done|by rewrite (Hc _ _ _ E)|by rewrite (Hc _ _ _ E)].
Qed.

Lemma respects_emit e : respects k (emit e).
Proof. apply respects_blind; [done|by intros w a w' [= _ <-]]. Qed.
Lemma respects_time : respects k time.
Proof. apply respects_blind; [done|by intros w a w' [= _ <-]]. Qed.
Lemma respects_malloc : respects k malloc.
Proof. apply respects_blind; [done|by intros w a w' [= _ <-]]. Qed.
Lemma respects_stop : respects k stop_requested.
Proof. apply respects_blind; [done|by intros w a w' [= _ <-]]. Qed.

Lemma respects_send d : respects k (send d).
Proof.
  apply respects_blind.
  - intros w c. unfold send. cbn [set_cn tx]. destruct (tx w) as [|n l]; [done|]. by destruct (n <=? 0).
  - intros w a w'. unfold send. destruct (tx w) as [|n l]; [by intros [= _ <-]|]. destruct (n <=? 0); by intros [= _ <-].
Qed.

Lemma respects_recv n : respects k (recv n).
Proof.
  apply respects_blind.
  - intros w c. unfold recv. cbn [set_cn rx]. by destruct (rx w) as [|[d|] l].
  - intros w a w'. unfold recv. destruct (rx w) as [|[d|] l]; by intros [= _ <-].
Qed.

Lemma respects_modify f :
  (forall c1 c2, conn_eq k c1 c2 -> data_in k c1 -> conn_eq k (f c1) (f c2) /\ data_in k (f c1)) ->
  respects k (modify f).
Proof.
  intros Hf w1 w2 (c & -> & C & I)%twins_elim. destruct (Hf _ _ C I) as [C' I']. constructor. split; [done|]. by constructor.
Qed.

(** An assignment to another field. *)
Lemma respects_assign f :
  (forall c b q, f (set_data b (data_len c) (set_query q c)) = set_data b (data_len c) (set_query q (f c))) ->
  (forall c, data_len (f c) = data_len c /\ buf (f c) = buf c /\ request_len (f c) = request_len c /\
     content_len (f c) = content_len c /\ query_string (request_info (f c)) = query_string (request_info c)) ->
  respects k (modify f).
Proof.
  intros Hf Hs. apply respects_modify. intros c1 c2 (q & Hq & E & Hd) I.
  destruct (Hs c1) as (D1 & B1 & R1 & K1 & Q1). unfold data_in, buf_ok, request_in, buf_size in *.
  rewrite D1, B1, R1, K1. split; [|done].
  exists q. rewrite Q1, D1, B1. split; [done|].
  assert (buf (f c2) = buf c2) as -> by (rewrite E, Hf; done). split; [by rewrite E at 1; rewrite Hf|done].
Qed.

(** A look at the connection, at what twins have in common. *)
Lemma respects_get_same {A} (f : conn -> M A) :
  (forall c1 c2, conn_eq k c1 c2 -> data_in k c1 -> f c2 = f c1) -> (forall c, respects k (f c)) ->
  respects k (get_conn ≫= f).
Proof.
  intros Hf Hr w1 w2 Hw. unfold mbind, M_bind, get_conn.
  rewrite (Hf _ _ (tw_conn _ _ _ Hw) (tw_in _ _ _ Hw)). by apply Hr.
Qed.

Lemma respects_get {A} (f : conn -> M A) :
  (forall c b q, f (set_data b (data_len c) (set_query q c)) = f c) -> (forall c, respects k (f c)) ->
  respects k (get_conn ≫= f).
Proof. intros Hf. apply respects_get_same. intros c1 c2 (q & _ & -> & _) _. apply Hf. Qed.
End rules.

(** A look at the connection when the query string is the same. *)
Lemma respects_get_query {A} (f : conn -> M A) :
  (forall c b, f (set_data b (data_len c) c) = f c) -> (forall c, respects Routed (f c)) ->
  respects Routed (get_conn ≫= f).
Proof. intros Hf. apply respects_get_same. intros c1 c2 [-> _]%conn_eq_routed _. apply Hf. Qed.

#[export] Hint Resolve respects_ret respects_abort respects_assert respects_emit respects_time respects_malloc
  respects_stop respects_send respects_recv : respects.
#[export] Hint Extern 1 (respects _ (modify _)) =>
  apply respects_assign; [intros; reflexivity|intros; repeat split; reflexivity] : respects.

(** Follow the structure of a computation. *)
Ltac solve_respects :=
  repeat first
    [ solve [eauto 2 with respects]
    | lazymatch goal with
      | |- respects _ (get_conn ≫= _) =>
          first [apply respects_get; [intros; reflexivity|] | apply respects_get_query; [intros; reflexivity|]]; intros ?
      | |- respects _ (_ ≫= _) => apply respects_bind; [|intros ?]
      end
    | match goal with |- respects _ (match ?x with _ => _ end) => destruct x end
    | match goal with |- respects _ (let '(_, _) := ?x in _) => destruct x end ].

(** ** Replies and reading *)

Section replies.
Context (k : stage).

Lemma respects_push d len : respects k (push d len).
Proof.
  assert (forall n d already, respects k (push_loop n d already)) as Hl; [|apply Hl].
  clear. induction n; intros d already; cbn [push_loop]; solve_respects.
Qed.
#[local] Hint Resolve respects_push : respects.

Lemma respects_throttled_loop n data total : respects k (throttled_loop n data total).
Proof. revert total. induction n; intros total; cbn [throttled_loop]; solve_respects. Qed.
#[local] Hint Resolve respects_throttled_loop : respects.

Lemma respects_mg_write d : respects k (mg_write d).
Proof. unfold mg_write, mg_write64. solve_respects. Qed.
#[local] Hint Resolve respects_mg_write : respects.

Lemma respects_mg_printf text : respects k (mg_printf text).
Proof. unfold mg_printf, alloc_vprintf. solve_respects. Qed.
#[local] Hint Resolve respects_mg_printf : respects.

Lemma respects_send_http_error status reason text : respects k (send_http_error status reason text).
Proof. unfold send_http_error. solve_respects. Qed.

Lemma respects_pull n : respects k (pull n).
Proof. unfold pull. solve_respects. Qed.
#[local] Hint Resolve respects_pull : respects.

Lemma respects_pull_all n : respects k (pull_all n).
Proof.
  assert (forall m n d, respects k (pull_all_loop m n d)) as Hl; [|apply Hl].
  clear. induction m; intros n d; cbn [pull_all_loop]; solve_respects.
Qed.

Context `{OS}.

Lemma respects_cry text : respects k (cry text).
Proof. unfold cry. solve_respects. Qed.

Lemma respects_log_access : respects k log_access.
Proof. unfold log_access. solve_respects. Qed.
End replies.

#[export] Hint Resolve respects_mg_write respects_mg_printf respects_send_http_error respects_pull respects_pull_all
  respects_cry respects_log_access : respects.

(** ** Handlers *)

Section handlers.
Context `{OS} `{Doubles}.
Local Abbreviation routed m := (respects Routed m).

Lemma respects_send_file_loop n rest len : routed (send_file_loop n rest len).
Proof. revert rest len. induction n; intros rest len; cbn [send_file_loop]; solve_respects. Qed.
#[local] Hint Resolve respects_send_file_loop : respects.

Lemma respects_send_file_data content size offset len : routed (send_file_data content size offset len).
Proof. unfold send_file_data. solve_respects. Qed.
#[local] Hint Resolve respects_send_file_data : respects.

Lemma respects_extra_mime path types : routed (extra_mime_loop path types).
Proof. induction types as [|[e m] types IH]; cbn [extra_mime_loop]; solve_respects. Qed.
#[local] Hint Resolve respects_extra_mime : respects.

Lemma respects_handle_file_request path st : routed (handle_file_request path st).
Proof. unfold handle_file_request, get_mime_type. solve_respects. Qed.

(** *** Authorization *)

Lemma respects_authorize big content : routed (authorize big content).
Proof. unfold authorize, parse_auth_header. solve_respects. Qed.
#[local] Hint Resolve respects_authorize : respects.

Lemma respects_protected_file u rules : routed (protected_file u rules).
Proof. induction rules as [|[a b] rules IH]; cbn [protected_file]; solve_respects. Qed.
#[local] Hint Resolve respects_protected_file : respects.

Lemma respects_check_authorization big path : routed (check_authorization big path).
Proof. unfold check_authorization, open_auth_file. solve_respects. Qed.

Lemma respects_is_authorized_for_put big : routed (is_authorized_for_put big).
Proof. unfold is_authorized_for_put. solve_respects. Qed.

Lemma respects_send_authorization_request : routed send_authorization_request.
Proof. unfold send_authorization_request. solve_respects. Qed.

(** *** Listings *)

Lemma respects_print_dir_entry e : routed (print_dir_entry e).
Proof. unfold print_dir_entry. solve_respects. Qed.
#[local] Hint Resolve respects_print_dir_entry : respects.

Lemma respects_print_entries l : routed (print_entries l).
Proof. induction l; cbn [print_entries]; solve_respects. Qed.
#[local] Hint Resolve respects_print_entries : respects.

Lemma respects_scan_directory {S} dir (cb : de -> S -> M S) s :
  (forall e s, routed (cb e s)) -> routed (scan_directory dir cb s).
Proof.
  intros Hcb. assert (forall l s, routed (scan_entries cb l s)) as Hs
    by (induction l; intros; cbn [scan_entries]; solve_respects).
  unfold scan_directory. solve_respects.
Qed.

Lemma respects_dir_scan_callback e dsd : routed (dir_scan_callback e dsd).
Proof. unfold dir_scan_callback. solve_respects. Qed.

Lemma respects_handle_directory_request dir : routed (handle_directory_request dir).
Proof.
  pose proof (fun s => respects_scan_directory dir dir_scan_callback s respects_dir_scan_callback).
  unfold handle_directory_request. solve_respects.
Qed.

Lemma respects_print_props u st : routed (print_props u st).
Proof. unfold print_props. solve_respects. Qed.
#[local] Hint Resolve respects_print_props : respects.

Lemma respects_print_dav_dir_entry e s : routed (print_dav_dir_entry e s).
Proof. unfold print_dav_dir_entry. solve_respects. Qed.

Lemma respects_handle_propfind path st : routed (handle_propfind path st).
Proof.
  pose proof (fun s => respects_scan_directory path print_dav_dir_entry s respects_print_dav_dir_entry).
  unfold handle_propfind. solve_respects.
Qed.

Lemma respects_send_options : routed send_options.
Proof. unfold send_options. solve_respects. Qed.

(** *** Server side includes *)

Lemma respects_store_byte buf c : routed (store_byte buf c).
Proof. unfold store_byte. solve_respects. Qed.
#[local] Hint Resolve respects_store_byte : respects.

Lemma respects_ssi_loop rec path in_ssi_tag buf content :
  (forall p c, routed (rec p c)) -> routed (ssi_loop rec path in_ssi_tag buf content).
Proof.
  intros Hrec. revert in_ssi_tag buf. induction content as [|ch content IH]; intros in_ssi_tag buf; cbn [ssi_loop].
  - solve_respects.
  - apply respects_bind; [|intros []; apply IH].
    unfold ssi_char, ssi_tag, do_ssi_include, do_ssi_exec. solve_respects.
Qed.

Lemma respects_send_ssi_file levels path content : routed (send_ssi_file levels path content).
Proof.
  revert path content. induction levels; intros path content; cbn [send_ssi_file]; [solve_respects|].
  by apply respects_ssi_loop.
Qed.
#[local] Hint Resolve respects_send_ssi_file : respects.

Lemma respects_handle_ssi_file_request path : routed (handle_ssi_file_request path).
Proof. unfold handle_ssi_file_request. solve_respects. Qed.
(** *** Bodies and CGI *)

Lemma respects_push_file path d : routed (push_file path d).
Proof. unfold push_file. solve_respects. Qed.
#[local] Hint Resolve respects_push_file : respects.

Lemma respects_forward_loop fuel path n : routed (forward_loop fuel path n).
Proof. revert n. induction fuel; intros n; cbn [forward_loop]; solve_respects. Qed.

Lemma respects_forward_rest path : routed (forward_rest path).
Proof. intros w1 w2 Hw. unfold forward_rest. rewrite (tw_rest _ _ _ Hw) at 1. by apply respects_forward_loop. Qed.
#[local] Hint Resolve respects_forward_rest : respects.

Lemma respects_forward_buffer path : routed (forward_buffer path).
Proof.
  unfold forward_buffer. apply respects_get_same; [|intros; solve_respects].
  intros c1 c2 [-> [_ Hd]]%conn_eq_routed [_ I]. destruct I as [[I1 I2] I3]; [done|].
  cbn [set_data request_len consumed_content data_len content_len buf].
  set (off := request_len c1 + consumed_content c1).
  destruct (Z.eqb_spec (consumed_content c1) 0) as [Hz|]; [|by destruct (_ <=? _)].
  destruct (Z.ltb_spec 0 (data_len c1 - off)) as [Hb|]; [|done].
  set (n := if _ <? _ then _ else _). assert (n <= data_len c1 - off).
  { unfold n. destruct (Z.ltb_spec (content_len c1) (data_len c1 - off)); [|lia]. 
    pose proof (int32_le (content_len c1)). lia. }
  rewrite !take_drop_commute. replace (take _ (buf c2)) with (take (Z.to_nat off + Z.to_nat n) (buf c1)); [done|].
  symmetry. eapply same_prefix; [done|lia].
Qed.
#[local] Hint Resolve respects_forward_buffer : respects.

Lemma respects_forward_body_data path : routed (forward_body_data path).
Proof. unfold forward_body_data. solve_respects. Qed.
#[local] Hint Resolve respects_forward_body_data : respects.

Lemma respects_addenv fmt text up blk : routed (addenv fmt text up blk).
Proof. unfold addenv. solve_respects. Qed.
#[local] Hint Resolve respects_addenv : respects.

Lemma respects_addenvs l blk : routed (addenvs l blk).
Proof. revert blk. induction l as [|[[name conv] value] l IH]; intros blk; cbn [addenvs]; solve_respects. Qed.
Lemma respects_add_headers l blk : routed (add_headers l blk).
Proof. revert blk. induction l as [|[name value] l IH]; intros blk; cbn [add_headers]; solve_respects. Qed.
Lemma respects_add_user_vars l blk : routed (add_user_vars l blk).
Proof. revert blk. induction l as [|[v o] l IH]; intros blk; cbn [add_user_vars]; solve_respects. Qed.
#[local] Hint Resolve respects_addenvs respects_add_headers respects_add_user_vars : respects.

Lemma respects_read_reply_loop fuel n data k chunks : routed (read_reply_loop fuel n data k chunks).
Proof.
  revert data k chunks. induction fuel; intros data k chunks; cbn [read_reply_loop]; unfold pull_file; solve_respects.
Qed.
Lemma respects_send_headers l : routed (send_headers l).
Proof. induction l as [|[name value] l IH]; cbn [send_headers]; solve_respects. Qed.
#[local] Hint Resolve respects_read_reply_loop respects_send_headers : respects.

Lemma respects_send_cgi_reply n data chunks : routed (send_cgi_reply n data chunks).
Proof. unfold send_cgi_reply. solve_respects. Qed.
Lemma respects_prepare_cgi_environment prog : routed (prepare_cgi_environment prog).
Proof. unfold prepare_cgi_environment. solve_respects. Qed.
Lemma respects_num_effects : routed num_effects.
Proof. apply respects_blind; [done|by intros w a w' [= _ <-]]. Qed.
Lemma respects_written_since n path : routed (written_since n path).
Proof. apply respects_blind; [done|by intros w a w' [= _ <-]]. Qed.
#[local] Hint Resolve respects_send_cgi_reply respects_prepare_cgi_environment respects_num_effects
  respects_written_since : respects.

Lemma respects_handle_cgi_request prog : routed (handle_cgi_request prog).
Proof. unfold handle_cgi_request, run_cgi, spawn_process, talk_to_cgi, feed_cgi, answer_cgi. solve_respects. Qed.

(** *** PUT *)

Lemma respects_put_file path : routed (put_file path).
Proof.
  assert (forall fuel s res, routed (put_dir_loop fuel path s res)).
  { induction fuel; intros s res; cbn [put_dir_loop]; solve_respects. }
  unfold put_file, put_dir, put_seek. solve_respects.
Qed.

Lemma respects_delete_file path : routed (delete_file path).
Proof. unfold delete_file. solve_respects. Qed.
(** *** The websocket *)

Lemma respects_websocket_data_handler flags data n : routed (websocket_data_handler flags data n).
Proof. unfold websocket_data_handler, websocket_data. solve_respects. Qed.

Lemma respects_websocket_ready_handler : routed websocket_ready_handler.
Proof. unfold websocket_ready_handler. solve_respects. Qed.

Lemma respects_websocket_handshake big sha : routed (send_websocket_handshake big sha).
Proof. unfold send_websocket_handshake. solve_respects. Qed.
#[local] Hint Resolve respects_websocket_data_handler respects_websocket_ready_handler
  respects_websocket_handshake : respects.

(** Twins have the same body behind the request. *)
Lemma ws_body_twins w1 w2 : twins Routed w1 w2 -> ws_body (cn w2) = ws_body (cn w1).
Proof.
  intros [_ [E [_ Hd]]%conn_eq_routed _]. unfold ws_body. rewrite E at 1 2. cbn [set_data request_len data_len buf].
  by rewrite Hd.
Qed.

(** New data for twins. *)
Lemma twins_set_data (w1 w2 : world) b1 b2 n :
  twins Routed w1 w2 -> same_data n b1 b2 -> length b1 = buf_size (cn w1) ->
  request_len (cn w1) <= n <= Z.of_nat (length b1) ->
  twins Routed (set_cn (set_data b1 n (cn w1)) w1) (set_cn (set_data b2 n (cn w2)) w2).
Proof.
  intros [E [Ec _]%conn_eq_routed [I J]] Hd Hl Hn. constructor; cbn [set_cn cn].
  - by rewrite E at 2.
  - apply conn_eq_routed. by rewrite Ec.
  - destruct J as [[J1 J2] J3]; [done|].
    unfold data_in, buf_ok, request_in, buf_size in *. cbn [set_data buf data_len request_len content_len]. lia.
Qed.

Lemma respects_drop_body : routed (modify (fun c => set_data (buf c) (request_len c) c)).
Proof.
  intros w1 w2 Hw. constructor. split; [done|]. cbn [snd].
  pose proof (tw_conn _ _ _ Hw) as [Ec Hd]%conn_eq_routed. destruct (tw_in _ _ _ Hw) as [_ J].
  destruct J as [[J1 J2] _]; [done|]. unfold buf_size in J2.
  replace (request_len (cn w2)) with (request_len (cn w1)) by (by rewrite Ec).
  apply twins_set_data; [done|eapply same_data_le; [|done]; lia|done|lia].
Qed.
#[local] Hint Resolve respects_drop_body : respects.

Lemma ws_data_twins data header_len n (w1 w2 : world) :
  (header_len <= length (ws_body (cn w1)))%nat -> twins Routed w1 w2 ->
  twin_results Routed (ws_data data header_len n w1) (ws_data data header_len n w2).
Proof.
  intros Hl Hw. unfold ws_data. rewrite !bind_get, (ws_body_twins _ _ Hw).
  destruct (Z.ltb_spec (Z.of_nat (length (ws_body (cn w1)))) (n + Z.of_nat header_len)).
  - refine ((_ : routed _) w1 w2 Hw). solve_respects.
  - rewrite !bind_modify. constructor. split; [done|]. cbn [snd].
    pose proof (tw_conn _ _ _ Hw) as [Ec Hd]%conn_eq_routed. destruct (tw_in _ _ _ Hw) as [_ J].
    destruct J as [I _]; [done|]. pose proof (ws_body_size _ I) as L. destruct I as [J1 J2]. unfold buf_size in *.
    replace (request_len (cn w2)) with (request_len (cn w1)) by (by rewrite Ec).
    replace (data_len (cn w2)) with (data_len (cn w1)) by (by rewrite Ec).
    set (rest := drop _ (ws_body (cn w1))).
    assert (data_len (cn w1) - Z.of_nat (Z.to_nat n + header_len) = request_len (cn w1) + Z.of_nat (length rest)) as ->.
    { unfold rest. rewrite length_drop. lia. }
    assert (length rest <= length (ws_body (cn w1)))%nat by (unfold rest; rewrite length_drop; lia).
    apply twins_set_data; [done|apply same_data_splice; [lia|lia|eapply same_data_le; [|done]; lia]| |].
    + rewrite splice_length; [done|lia].
    + rewrite splice_length; lia.
Qed.

Lemma respects_ws_payload junk mem header_len n mask_len : routed (ws_payload junk mem header_len n mask_len).
Proof.
  intros w1 w2 Hw. unfold ws_payload. rewrite !bind_get, (ws_body_twins _ _ Hw).
  apply twins_bind with (k := Routed); [refine ((_ : routed _) w1 w2 Hw); solve_respects|].
  intros ok w1' w2' [_ Ec]%(malloc_if_inv (fun _ => True)) Hw'. rewrite <- Ec. destruct ok; cbn [negb]; [|by constructor].
  unfold assert_. destruct (Z.leb_spec (Z.of_nat header_len) (Z.of_nat (length (ws_body (cn w1'))))); [|constructor].
  apply (twins_bind Routed Routed (ws_data _ _ _)); [apply ws_data_twins; [lia|done]|]. intros data w1'' w2'' _ Hw''. by constructor.
Qed.
#[local] Hint Resolve respects_ws_payload : respects.

Lemma respects_read_websocket_loop junk fuel mem : routed (read_websocket_loop junk websocket_data_handler fuel mem).
Proof.
  revert mem. induction fuel as [|fuel IH]; intros mem; cbn [read_websocket_loop]; [solve_respects|].
  intros w1 w2 Hw. rewrite !bind_get, (ws_body_twins _ _ Hw). 
  destruct (ws_header (ws_body (cn w1))) as [[[hl n] ml]|].
  { refine ((_ : routed _) w1 w2 Hw). solve_respects. }
  pose proof (tw_conn _ _ _ Hw) as [Ec [Hl Hd]]%conn_eq_routed.
  assert (buf_size (cn w2) = buf_size (cn w1) /\ data_len (cn w2) = data_len (cn w1)) as [-> ->].
  { unfold buf_size. rewrite Hl. split; [done|by rewrite Ec]. }
  apply twins_bind with (k := Routed); [by apply respects_pull|]. intros [n d] w1' w2' (_ & Hn & Hlen & Hc & _)%pull_takes Hw'.
  destruct (Z.leb_spec n 0); [by constructor|]. rewrite !bind_modify. apply IH.
  clear Hl Hd Ec. pose proof (tw_conn _ _ _ Hw') as [Ec Hd]%conn_eq_routed.
  destruct (tw_in _ _ _ Hw') as [_ [[I1 I2] _]]; [done|]. unfold buf_size in *. rewrite <- Hc in Hlen.
  replace (data_len (cn w2')) with (data_len (cn w1')) by (by rewrite Ec).
  apply twins_set_data; [done| | |]; rewrite ?splice_length; try done; try lia.
  eapply same_data_le; [|apply same_data_splice; [lia| |done]]; lia.
Qed.

#[local] Hint Resolve respects_read_websocket_loop : respects.

Lemma respects_handle_websocket_request big sha junk fuel mem :
  routed (handle_websocket_request big sha junk websocket_data_handler fuel mem).
Proof. unfold handle_websocket_request, read_websocket. solve_respects. Qed.

(** *** The dispatcher *)

Lemma respects_redirect listeners i : routed (redirect_to_https_port listeners i).
Proof. unfold redirect_to_https_port. solve_respects. Qed.

#[local] Hint Resolve respects_handle_propfind respects_handle_directory_request respects_handle_cgi_request
  respects_handle_ssi_file_request respects_handle_file_request respects_handle_websocket_request
  respects_send_options respects_check_authorization respects_send_authorization_request
  respects_is_authorized_for_put respects_redirect respects_put_file respects_delete_file : respects.

Lemma respects_serve_path path st b : routed (serve_path path st b).
Proof. unfold serve_path. solve_respects. Qed.
#[local] Hint Resolve respects_serve_path : respects.

Lemma respects_dispatch big sha_buffer junk ws_fuel ws_mem path st b :
  routed (dispatch big sha_buffer junk ws_fuel ws_mem path st b).
Proof. unfold dispatch. solve_respects. Qed.
#[local] Hint Resolve respects_dispatch : respects.

(** The query string is assigned. *)
Lemma prepare_request_twins (w1 w2 : world) :
  twins Read w1 w2 -> twin_results Routed (prepare_request w1) (prepare_request w2).
Proof.
  intros [E (q & _ & Ec & Hd) [I J]]. unfold prepare_request. rewrite !bind_get, Ec.
  cbn [set_data set_query set_request_info request_info uri config_of client].
  destruct (split_query _) as [u query]. rewrite !bind_modify.
  refine ((_ : routed _) _ _ _); [unfold convert_uri_to_file_name; solve_respects|].
  constructor; cbn [set_cn cn].
  - by rewrite E at 2.
  - apply conn_eq_routed. by rewrite Ec.
  - split; [done|]. intros _. by apply J.
Qed.

Lemma handle_request_twins big listeners sha_buffer junk ws_fuel ws_mem (w1 w2 : world) :
  twins Read w1 w2 ->
  twin_results Routed (handle_request big listeners sha_buffer junk ws_fuel ws_mem w1)
    (handle_request big listeners sha_buffer junk ws_fuel ws_mem w2).
Proof.
  intros Hw. unfold handle_request. apply twins_bind with (k := Routed); [by apply prepare_request_twins|].
  intros [[path st] b] w1' w2' _ Hw'. refine ((_ : routed _) _ _ Hw'). solve_respects.
Qed.
End handlers.

(** What the connection loop needs of a request handler: once the head of the request is
    read, nothing else matters. *)
Class IsolatedHandler `{H : RequestHandler} :=
  isolated_handler (w1 w2 : world) :
    twins Read w1 w2 -> twin_results Open (@Connection.handle_request H w1) (@Connection.handle_request H w2).

Lemma twin_results_open {A} k (r1 r2 : option (A * world)) : twin_results k r1 r2 -> twin_results Open r1 r2.
Proof. intros [[a w1] [b w2] [Ha Hw]|]; constructor. split; [done|by eapply twins_open]. Qed.

#[export] Instance dispatcher_isolated `{OS} `{Doubles} big listeners sha_buffer junk ws_fuel ws_mem :
  @IsolatedHandler (handle_request big listeners sha_buffer junk ws_fuel ws_mem).
Proof. intros w1 w2 Hw. apply (twin_results_open Routed). by apply handle_request_twins. Qed.
