(* ===== verification/Isolation.v ===== *)
(** * Connections do not leak into each other

    What a worker does for a connection does not depend on the connections it has served
    before, although their requests, headers and counters are still in its
    [struct mg_connection]: [read_request], [getreq], [process_new_connection] and
    [serve_socket] take connections with different leftovers to the same replies and
    effects.  The handler is behind the interface [IsolatedHandler]. *)

From S2P Require Import Prelude CString Options SocketQueue HttpRequest Access Conn Os Connection Put Server Frame Process Ssl Start Worker Twins.

(** ** Reading a request *)

(** What two connections have in common when a request is read: the settings, the
    client, the account of the throttle, and the data in the buffer. *)
Record same_start (c1 c2 : conn) : Prop := {
  ss_config : config_of c2 = config_of c1;
  ss_client : client c2 = client c1;
  ss_birth : birth_time c2 = birth_time c1;
  ss_ip : remote_ip (request_info c2) = remote_ip (request_info c1);
  ss_port : remote_port (request_info c2) = remote_port (request_info c1);
  ss_ssl : ri_is_ssl (request_info c2) = ri_is_ssl (request_info c1);
  ss_time : last_throttle_time c2 = last_throttle_time c1;
  ss_bytes : last_throttle_bytes c2 = last_throttle_bytes c1;
  ss_len : data_len c2 = data_len c1;
  ss_data : same_data (data_len c1) (buf c1) (buf c2)
}.

(** [c1] and [c2] after the same data has been stored in their buffers. *)
Record filled_alike (c1 c2 : conn) (w1 w2 : world) : Prop := {
  fa_rest : w2 = set_cn (cn w2) w1;
  fa_first : cn w1 = set_data (buf (cn w1)) (data_len (cn w1)) c1;
  fa_second : cn w2 = set_data (buf (cn w2)) (data_len (cn w1)) c2;
  fa_data : same_data (data_len (cn w1)) (buf (cn w1)) (buf (cn w2));
  fa_in : buf_ok (cn w1)
}.

Abbreviation alike_results c1 c2 := (option_Forall2 (prod_relation eq (filled_alike c1 c2))).

Lemma pull_blind n (w : world) c : pull n (set_cn c w) = (fun '(a, w') => (a, set_cn c w')) <$> pull n w.
Proof. unfold pull, recv, mbind, M_bind. cbn [set_cn rx]. by destruct (rx w) as [|[d|] l]. Qed.

Lemma get_request_len_same n b1 b2 : same_data n b1 b2 -> get_request_len b2 (Z.to_nat n) = get_request_len b1 (Z.to_nat n).
Proof. intros [_ E]. unfold get_request_len. by rewrite E. Qed.

(** [m] bytes of [d] become data. *)
Lemma alike_store c1 c2 (w1 w2 w : world) (d : bytes) m :
  filled_alike c1 c2 w1 w2 -> 0 <= m <= Z.of_nat (length d) ->
  (length d <= Z.to_nat (Z.of_nat (length (buf (cn w1))) - data_len (cn w1)))%nat ->
  let store b := splice b (Z.to_nat (data_len (cn w1))) d in
  let n := data_len (cn w1) + m in
  filled_alike c1 c2 (set_cn (set_data (store (buf (cn w1))) n (cn w1)) w)
    (set_cn (set_data (store (buf (cn w2))) n (cn w2)) w).
Proof.
  intros [E E1 E2 Hd [I1 I2]] Hm Hl store n. unfold buf_size in *. constructor; cbn [set_cn cn set_data buf data_len].
  - done.
  - by rewrite E1.
  - by rewrite E2.
  - apply (same_data_le (data_len (cn w1) + Z.of_nat (length d))); [lia|]. apply same_data_splice; [lia|lia|done].
  - unfold buf_ok, buf_size, store. cbn [set_data buf data_len]. rewrite splice_length; lia.
Qed.

Lemma read_request_loop_alike c1 c2 fuel r n (w1 w2 : world) :
  filled_alike c1 c2 w1 w2 -> alike_results c1 c2 (read_request_loop fuel r n w1) (read_request_loop fuel r n w2).
Proof.
  revert r n w1 w2. induction fuel as [|fuel IH]; intros r n w1 w2 Hw; cbn [read_request_loop]; [by constructor|].
  rewrite !bind_get. pose proof Hw as [E E1 E2 [Hl _] _].
  assert (data_len (cn w2) = data_len (cn w1)) as -> by (by rewrite E2).
  unfold buf_size. rewrite Hl. destruct ((data_len (cn w1) <? _) && _); [|by constructor].
  unfold mbind at 1 5, M_bind at 1 5. rewrite E at 1. rewrite pull_blind.
  destruct (pull _ w1) as [[[m d] w]|] eqn:Ep; [|constructor]. cbn [fmap option_fmap option_map].
  apply pull_takes in Ep as (_ & Hm & Hdl & Ec & _). rewrite !bind_modify. cbn [set_cn cn]. rewrite Ec.
  pose proof (alike_store _ _ _ _ w d (if 0 <? m then m else 0) Hw) as Ha.
  destruct (Z.ltb_spec 0 m); [|constructor; split; [done|apply Ha; [lia|done]]].
  specialize (Ha ltac:(lia) Hdl). rewrite !bind_assert. destruct (_ <=? _); [|constructor].
  rewrite !bind_get. cbn [set_cn cn set_data buf].
  apply fa_data in Ha as Hs. cbn [set_cn cn set_data buf data_len] in Hs. rewrite (get_request_len_same _ _ _ Hs).
  by apply IH.
Qed.

Lemma read_request_alike (w1 w2 : world) :
  w2 = set_cn (cn w2) w1 -> data_len (cn w2) = data_len (cn w1) ->
  same_data (data_len (cn w1)) (buf (cn w1)) (buf (cn w2)) -> buf_ok (cn w1) ->
  alike_results (cn w1) (cn w2) (read_request w1) (read_request w2).
Proof.
  intros E El Hd I. unfold read_request. rewrite !bind_get, El, (get_request_len_same _ _ _ Hd).
  unfold buf_size. rewrite (proj1 Hd). unfold mbind, M_bind.
  assert (filled_alike (cn w1) (cn w2) w1 w2) as Hf.
  { constructor; [done|by rewrite set_data_id|by rewrite <- El, set_data_id|done|done]. }
  destruct (read_request_loop_alike _ _ (S (length (buf (cn w1))))
    (get_request_len (buf (cn w1)) (Z.to_nat (data_len (cn w1)))) 0 _ _ Hf) as [[[r1 n1] w1'] [[r2 n2] w2'] [[= -> ->] Hw]|];
    by constructor.
Qed.

(** The parser looks only at the head of the request. *)
Lemma parse_alike n b1 b2 len (ri1 ri2 : mg_request_info) :
  (Z.to_nat n <= len)%nat -> n <= Z.of_nat (length b1) -> same_data n b1 b2 ->
  0 < get_request_len b1 (Z.to_nat n) <= n ->
  remote_ip ri2 = remote_ip ri1 -> remote_port ri2 = remote_port ri1 -> ri_is_ssl ri2 = ri_is_ssl ri1 ->
  exists res ri, parse_http_message b1 len ri1 = (res, ri) /\
    parse_http_message b2 len ri2 =
      (res, RequestInfo (request_method ri) (uri ri) (http_version ri) (query_string ri2) (remote_user ri)
              (remote_ip ri) (remote_port ri) (ri_is_ssl ri) (http_headers ri)).
Proof.
  intros Hlen Hb Hd Hr Hip Hport Hssl. pose proof (get_request_len_same _ _ _ Hd) as Hs. destruct Hd as [Hl Ht].
  assert (get_request_len b1 len = get_request_len b1 (Z.to_nat n)) as E1.
  { rewrite <- (take_drop (Z.to_nat n) b1) at 1. apply get_request_len_input; lia. }
  assert (get_request_len b2 len = get_request_len b1 (Z.to_nat n)) as E2.
  { rewrite <- (take_drop (Z.to_nat n) b2) at 1. rewrite get_request_len_input; [done|lia|lia|lia]. }
  unfold parse_http_message. rewrite E1, E2. set (r := get_request_len b1 _) in *.
  destruct (Z.ltb_spec 0 r); [|lia].
  rewrite (same_prefix _ (Z.to_nat (r - 1)) _ _ Ht) by lia.
  destruct (skip (skip_spaces _) _) as [method text]. destruct (skip text _) as [u text']. destruct (skip text' _) as [version rest].
  rewrite Hip, Hport, Hssl. destruct (_ || _); by eexists _, _.
Qed.

(** A request that is found is at the start of the data. *)
Lemma read_request_loop_found fuel n0 (w : world) r n (w' : world) :
  read_request_loop fuel (get_request_len (buf (cn w)) (Z.to_nat (data_len (cn w)))) n0 w = Some ((r, n), w') -> 0 < r ->
  get_request_len (buf (cn w')) (Z.to_nat (data_len (cn w'))) = r.
Proof.
  revert n0 w. induction fuel as [|fuel IH]; intros n0 w E Hr; cbn [read_request_loop] in E; [by injection E as <- _ <-|].
  rewrite bind_get in E. destruct (Z.eqb_spec (get_request_len (buf (cn w)) (Z.to_nat (data_len (cn w)))) 0) as [Hz|].
  2: { rewrite andb_false_r in E. by injection E as <- _ <-. }
  rewrite andb_true_r, Hz in E. destruct (_ <? _); [|injection E as <- _ _; lia].
  apply bind_inv in E as ([m d] & w1 & _ & E). rewrite bind_modify in E.
  destruct (0 <? m); [|injection E as <- _ _; lia]. apply bind_inv in E as ([] & w2 & E2 & E).
  unfold assert_ in E2. destruct (_ <=? _); [|done]. injection E2 as <-. rewrite bind_get in E. exact (IH _ _ E Hr).
Qed.

Lemma read_request_found (w : world) r (w' : world) :
  read_request w = Some (r, w') -> 0 < r -> get_request_len (buf (cn w')) (Z.to_nat (data_len (cn w'))) = r.
Proof.
  unfold read_request. rewrite bind_get. intros ([r' n] & w1 & E & [= <- <-])%bind_inv Hr.
  destruct ((r' <=? 0) && _); [lia|]. by eapply read_request_loop_found.
Qed.

(** The connection after a request has been read, up to the number in [r]. *)
Definition start_conn (c : conn) (b : bytes) (n r : Z) : conn :=
  set_request_len r (set_data b n (reset_per_request_attributes c)).

Lemma start_conn_eq c1 c2 b1 b2 n r :
  conn_eq Open c1 c2 -> same_data n b1 b2 -> conn_eq Open (start_conn c1 b1 n r) (start_conn c2 b2 n r).
Proof. intros (q & _ & -> & _) Hd. by exists q. Qed.

(** The parsed request replaces what was there. *)
Definition parsed_conn (c : conn) (b : bytes) (n r : Z) (ri : mg_request_info) (len t : Z) : conn :=
  set_birth_time t (set_content_len len (set_request_info ri (start_conn c b n r))).

Lemma parsed_conn_eq c1 c2 b1 b2 n r ri q len t :
  same_start c1 c2 -> same_data n b1 b2 ->
  let ri' := RequestInfo (request_method ri) (uri ri) (http_version ri) q (remote_user ri)
               (remote_ip ri) (remote_port ri) (ri_is_ssl ri) (http_headers ri) in
  conn_eq Read (parsed_conn c1 b1 n r ri len t) (parsed_conn c2 b2 n r ri' len t).
Proof.
  destruct c1 as [[]], c2 as [[]]. intros [] Hd ri'. cbn in *. subst. by exists q.
Qed.

(** Connections with the same start get the same request: nothing of what was in the
    first stays, if it is one; and twins stay twins. *)
Definition getreq_alike (w1 w2 : world) (p1 p2 : bytes * world) : Prop :=
  fst p1 = fst p2 /\
  (fst p1 = [] -> - 2 ^ 31 <= content_len (cn (snd p1)) -> twins Read (snd p1) (snd p2)) /\
  (conn_eq Open (cn w1) (cn w2) -> twins Open (snd p1) (snd p2)).

Lemma read_request_start (w1 w2 : world) :
  w2 = set_cn (cn w2) w1 -> same_start (cn w1) (cn w2) -> buf_ok (cn w1) ->
  let read w := read_request (set_cn (reset_per_request_attributes (cn w)) w) in
  let store w b n := set_data b n (reset_per_request_attributes (cn w)) in
  (read w1 = None /\ read w2 = None) \/
  exists r v b1 b2 n, read w1 = Some (r, set_cn (store w1 b1 n) v) /\ read w2 = Some (r, set_cn (store w2 b2 n) v) /\
    same_data n b1 b2 /\ 0 <= n <= Z.of_nat (length b1) /\ (0 < r -> get_request_len b1 (Z.to_nat n) = r).
Proof.
  intros E [] I read store. unfold read.
  pose proof (read_request_alike (set_cn (reset_per_request_attributes (cn w1)) w1)
    (set_cn (reset_per_request_attributes (cn w2)) w2)) as Ha.
  specialize (Ha ltac:(by rewrite E) ltac:(done) ltac:(done) I).
  destruct (read_request (set_cn _ w1)) as [[r v1]|] eqn:E1, (read_request (set_cn _ w2)) as [[r' v2]|];
    inversion Ha as [? ? [Hr Hv]|]; [right|by left].
  simpl in Hr, Hv. subst r'. destruct Hv as [Ev F1 F2 Hd Hi].
  exists r, v1, (buf (cn v1)), (buf (cn v2)), (data_len (cn v1)). unfold store.
  split_and!; [| |done|apply Hi|apply Hi|by eapply read_request_found].
  - cbn [set_cn cn] in F1. rewrite <- F1. by destruct v1.
  - cbn [set_cn cn] in F2. rewrite <- F2. by rewrite <- Ev.
Qed.

(** After a bad request. *)
Lemma refused_conn_eq c1 c2 b1 b2 n r ri q :
  conn_eq Open c1 c2 -> same_data n b1 b2 ->
  let ri' := RequestInfo (request_method ri) (uri ri) (http_version ri) q (remote_user ri)
               (remote_ip ri) (remote_port ri) (ri_is_ssl ri) (http_headers ri) in
  conn_eq Open (set_request_info ri (start_conn c1 b1 n r)) (set_request_info ri' (start_conn c2 b2 n r)).
Proof. intros (q' & _ & -> & _) Hd ri'. by exists q. Qed.

Lemma twins_open_intro c1 c2 (v : world) :
  conn_eq Open c1 c2 -> buf_ok c1 -> twins Open (set_cn c1 v) (set_cn c2 v).
Proof. by constructor. Qed.

Lemma getreq_start (w1 w2 : world) :
  w2 = set_cn (cn w2) w1 -> same_start (cn w1) (cn w2) -> buf_ok (cn w1) ->
  option_Forall2 (getreq_alike w1 w2) (getreq w1) (getreq w2).
Proof.
  intros E Hs I. unfold getreq. rewrite !bind_modify. unfold mbind at 1 9, M_bind at 1 9.
  destruct (read_request_start w1 w2 E Hs I) as [[-> ->]|(r & v & b1 & b2 & n & -> & -> & Hd & Hn & Hg)]; [constructor|].
  rewrite !bind_modify, !bind_get. unfold buf_size.
  cbn [set_cn cn set_request_len set_data data_len buf request_info reset_per_request_attributes].
  rewrite (proj1 Hd). rewrite !bind_assert. destruct ((r <? 0) || (r <=? n)) eqn:Hr; [|constructor].
  destruct ((r =? 0) && _).
  { constructor. split; [done|]. split; [done|]. intros C. exact (twins_open_intro _ _ v (start_conn_eq _ _ _ _ _ _ C Hd) Hn). }
  destruct (Z.leb_spec r 0).
  { constructor. split; [done|]. split; [done|]. intros C. exact (twins_open_intro _ _ v (start_conn_eq _ _ _ _ _ _ C Hd) Hn). }
  assert (r <= n) by lia. specialize (Hg ltac:(lia)).
  destruct (parse_alike n b1 b2 (length b1) (request_info (cn w1)) (request_info (cn w2))) as (res & ri & -> & ->);
    [lia|lia|done|lia|by apply Hs..|].
  rewrite !bind_modify. unfold first_word. cbn [request_method http_headers].
  rewrite (same_prefix _ (Z.to_nat (r - 1)) _ _ (proj2 Hd)) by lia. destruct (res <=? 0).
  { constructor. split; [done|]. split; [done|]. intros C. exact (twins_open_intro _ _ v (refused_conn_eq _ _ _ _ _ _ _ _ C Hd) Hn). }
  constructor. split; [done|]. split.
  - intros _ Hlen. constructor; [done|exact (parsed_conn_eq _ _ _ _ n r ri _ _ _ Hs Hd)|].
    split; [exact Hn|]. intros _. split; [|exact Hlen]. split; [cbn; lia|exact (proj2 Hn)].
  - intros _. pose proof (fun len t => parsed_conn_eq _ _ _ _ n r ri (query_string (request_info (cn w2))) len t Hs Hd) as Hc.
    constructor; [done|edestruct Hc as (q & _ & Hq); exists q; split; [done|exact Hq]|]. split; [exact Hn|done].
Qed.

(** ** The rounds of a connection *)

Lemma discard_twins n (w1 w2 : world) :
  0 <= n <= data_len (cn w1) -> twins Open w1 w2 ->
  twins Open (set_cn (discard n (cn w1)) w1) (set_cn (discard n (cn w2)) w2).
Proof.
  intros Hn [E (q & _ & Ec & Hl & Ht) [[I1 I2] _]]. unfold buf_size in I2.
  assert (data_len (cn w2) = data_len (cn w1)) as Ed by (by rewrite Ec).
  remember (take (Z.to_nat (data_len (cn w1) - n)) (drop (Z.to_nat n) (buf (cn w1)))) as d eqn:D.
  assert (take (Z.to_nat (data_len (cn w1) - n)) (drop (Z.to_nat n) (buf (cn w2))) = d) as Eb.
  { rewrite D, !take_drop_commute. by rewrite (same_prefix _ (Z.to_nat n + Z.to_nat (data_len (cn w1) - n)) _ _ Ht) by lia. }
  assert (Z.of_nat (length d) = data_len (cn w1) - n) as El.
  { rewrite D, length_take, length_drop. lia. }
  constructor; cbn [set_cn cn].
  - by rewrite E at 2.
  - exists q. split; [done|]. unfold discard. rewrite Ed, Eb, <- D. split; [by rewrite Ec at 2|].
    cbn [set_data data_len buf]. rewrite <- El. apply (same_data_splice 0); [lia|lia|done].
  - split; [|done]. unfold buf_ok, buf_size, discard. cbn [set_data data_len buf]. rewrite <- D, splice_length; lia.
Qed.

Lemma finish_round_twins kae : respects Open (finish_round kae).
Proof.
  unfold finish_round. apply respects_bind; [auto with respects|intros _]. apply respects_bind; [auto with respects|].
  intros stop w1 w2 Hw. rewrite !bind_get. pose proof Hw as [E (q & _ & Ec & Hl & Ht) [I _]].
  set (n := discard_len (cn w1)). assert (discard_len (cn w2) = n) as -> by (by rewrite Ec).
  assert (should_keep_alive (cn w2) = should_keep_alive (cn w1)) as -> by (by rewrite Ec).
  assert (content_len (cn w2) = content_len (cn w1)) as -> by (by rewrite Ec).
  rewrite !bind_assert. destruct (Z.leb_spec 0 n); [|constructor]. rewrite !bind_modify, !bind_get, !bind_assert.
  cbn [set_cn cn].
  assert (data_len (discard n (cn w2)) = data_len (discard n (cn w1))) as -> by (by rewrite Ec).
  destruct (Z.leb_spec 0 (data_len (discard n (cn w1)))) as [Hp|]; [|constructor].
  cbn [discard set_data data_len] in Hp. pose proof (discard_twins n w1 w2 ltac:(lia) Hw) as Hd.
  destruct (tw_conn _ _ _ Hd) as (_ & _ & _ & Hs & _). cbn [set_cn cn] in Hs. unfold buf_size. rewrite Hs.
  destruct (_ <=? _); [|constructor]. by constructor.
Qed.

Lemma check_request_twins k ebuf : respects k (check_request ebuf).
Proof. unfold check_request. solve_respects. Qed.

Lemma check_request_refuses ebuf (w : world) e w' : ebuf <> [] -> check_request ebuf w = Some (e, w') -> e = ebuf.
Proof.
  intros He. unfold check_request. rewrite bool_decide_eq_true_2 by done.
  intros ([] & w1 & _ & E)%bind_inv. rewrite bind_modify in E. by injection E.
Qed.

Section rounds.
Context `{OS} `{IsolatedHandler}.

(** The lengths that requests announce: every negative one is a number of [int]. *)
Definition round_ok (w : world) : Prop :=
  match getreq w with Some ([], w') => - 2 ^ 31 <= content_len (cn w') | _ => True end.

Fixpoint rounds_ok (fuel : nat) (kae : bool) (w : world) : Prop :=
  match fuel with
  | O => True
  | S fuel' =>
      round_ok w /\ match process_round kae w with Some (true, w') => rounds_ok fuel' kae w' | _ => True end
  end.

Lemma process_round_twins kae (w1 w2 : world) :
  w2 = set_cn (cn w2) w1 -> same_start (cn w1) (cn w2) -> buf_ok (cn w1) -> round_ok w1 ->
  conn_eq Open (cn w1) (cn w2) \/ fst <$> getreq w1 = Some [] ->
  twin_results Open (process_round kae w1) (process_round kae w2).
Proof.
  intros E Hs I Hok Hfirst. unfold process_round. pose proof (getreq_start _ _ E Hs I) as Hg. unfold round_ok in Hok.
  unfold mbind at 1 5, M_bind at 1 5. destruct Hg as [[e v1] [e' v2] (He & Hread & Hopen)|]; [|constructor].
  cbn [fst snd fmap option_fmap option_map] in *. subst e'.
  destruct (decide (e = [])) as [->|He].
  - specialize (Hread eq_refl Hok). apply twins_bind with (k := Read); [by apply check_request_twins|].
    intros e u1 u2 _ Hu. case_bool_decide.
    + apply twins_bind with (k := Open); [|intros []; intros; by apply finish_round_twins].
      apply twins_bind with (k := Open); [by apply isolated_handler|]. intros [] x1 x2 _ Hx. by apply respects_log_access.
    + apply twins_open in Hu. by apply finish_round_twins.
  - destruct Hfirst as [C|[=]]; [|done]. specialize (Hopen C).
    apply twins_bind with (k := Open); [by apply check_request_twins|].
    intros e' u1 u2 ->%check_request_refuses Hu; [|done]. rewrite bool_decide_eq_false_2 by done. by apply finish_round_twins.
Qed.

Lemma twins_start (w1 w2 : world) : twins Open w1 w2 -> same_start (cn w1) (cn w2).
Proof. intros [_ (q & _ & Ec & Hd) _]. constructor; [by rewrite Ec..|done]. Qed.

Lemma process_loop_twins fuel kae (w1 w2 : world) :
  w2 = set_cn (cn w2) w1 -> same_start (cn w1) (cn w2) -> buf_ok (cn w1) -> rounds_ok fuel kae w1 ->
  conn_eq Open (cn w1) (cn w2) \/ fst <$> getreq w1 = Some [] ->
  fuel <> 0%nat -> twin_results Open (process_loop fuel kae w1) (process_loop fuel kae w2).
Proof.
  revert w1 w2. induction fuel as [|fuel IH]; intros w1 w2 E Hs I Hok Hfirst Hf; [done|].
  destruct Hok as [Hr Hok]. cbn [process_loop]. apply twins_bind with (k := Open); [by apply process_round_twins|].
  intros [] u1 u2 Eu Hu; [|by constructor]. rewrite Eu in Hok.
  destruct fuel; [by constructor|]. destruct Hu as [? C [? _]]. apply IH; [done|by eapply twins_start|done|done|by left|done].
Qed.
End rounds.

(** ** A worker *)

(** The connection of a worker when it starts to read. *)
Definition begun (so : socket) (w : world) : world :=
  World (set_remote so (set_birth_time (default 0 (head (clock w))) (set_client so (cn w))))
    (rx w) (tx w) (sent w) (tail (clock w)) (mallocs w) (stops w) (fx w).
Definition first_world (so : socket) (w : world) : world :=
  set_cn (set_data (buf (cn w)) 0 (cn (begun so w))) (begun so w).

Definition keep_alive_enabled (c : config) : bool := streq (default [] (cfg c ENABLE_KEEP_ALIVE)) (B "yes").

(** The same result, and worlds that differ in the connection at most. *)
Definition same_outcome {A} (r1 r2 : A * world) : Prop := fst r2 = fst r1 /\ only_conn (snd r1) (snd r2).
Definition same_outcomes {A} (r1 r2 : A * (proc * world)) : Prop :=
  fst r2 = fst r1 /\ fst (snd r2) = fst (snd r1) /\ only_conn (snd (snd r1)) (snd (snd r2)).

(** What two workers have in common. *)
Record same_worker (c1 c2 : conn) : Prop := {
  sw_config : config_of c2 = config_of c1;
  sw_size : buf_size c2 = buf_size c1;
  sw_time : last_throttle_time c2 = last_throttle_time c1;
  sw_bytes : last_throttle_bytes c2 = last_throttle_bytes c1
}.

Section worker.
Context `{OS} `{SslLib} `{IsolatedHandler}.

Lemma process_new_connection_alike fuel so (w1 w2 : world) :
  only_conn w1 w2 -> same_worker (cn w1) (cn w2) -> fst <$> getreq (first_world so w1) = Some [] ->
  rounds_ok fuel (keep_alive_enabled (config_of (cn w1))) (first_world so w1) ->
  option_Forall2 same_outcome (process_new_connection fuel (begun so w1)) (process_new_connection fuel (begun so w2)).
Proof.
  intros [c ->] [Hc Hb Ht1 Ht2] Hfirst Hok. cbn [set_cn cn] in *.
  change (option_Forall2 same_outcome (process_loop fuel (keep_alive_enabled (config_of (cn w1))) (first_world so w1))
    (process_loop fuel (keep_alive_enabled (config_of c)) (first_world so (set_cn c w1)))).
  rewrite Hc. destruct fuel as [|fuel]; [constructor; split; [done|by eexists]|].
  assert (same_start (cn (first_world so w1)) (cn (first_world so (set_cn c w1)))) as Hs by (by constructor).
  pose proof (process_loop_twins (S fuel) (keep_alive_enabled (config_of (cn w1))) _ _ eq_refl Hs) as Hp.
  specialize (Hp ltac:(split; cbn; lia) Hok (or_intror Hfirst) ltac:(done)).
  destruct Hp as [[a1 v1] [a2 v2] [Ha [Hv _ _]]|]; constructor. split; [done|by eexists].
Qed.

Lemma close_alike ssl fd (ended : bool) p (w1 w2 : world) :
  only_conn w1 w2 ->
  let close := _ ← on_world close_connection; _ ← on_proc (close_descriptor ssl fd); mret ended in
  option_Forall2 same_outcomes (close (p, w1)) (close (p, w2)).
Proof.
  intros [c ->] close. unfold close, mbind, W_bind, on_world, on_proc, close_connection.
  rewrite !bind_modify. unfold modify. destruct (close_descriptor ssl fd p) as [[[] p']|]; [|constructor].
  constructor. split_and!; [done|done|by eexists].
Qed.

End worker.

(** ** Two workers *)

Definition cgi_config : config :=
  <[DOCUMENT_ROOT:=Some (B "/w")]> (<[CGI_EXTENSIONS:=Some (B "**.cgi$")]> (replicate 40 None)).
Definition keep_alive_config : config := <[ENABLE_KEEP_ALIVE:=Some (B "yes")]> cgi_config.

(** The connection of a new worker, and of one that has served somebody. *)
Definition new_worker (c : config) : conn :=
  Conn no_request c (Socket 0 (0, 0) (0, 0) false false) 0 0 0 0 (replicate 200 0) None false 0 0 0 0 0 0.
Definition used_worker (c : config) (headers : list (bytes * bytes)) (content_len : Z) : conn :=
  Conn (RequestInfo (Some (B "PUT")) (Some (B "/x")) (Some (B "1.1")) (Some (B "q=1")) None 7 7 true headers)
    c (Socket 3 (1, 2) (3, 4) true true) 5 6 content_len 8 (replicate 200 c_slash) (Some (B "/p")) true 9 10 200 0 0 0.

Definition next_socket : socket := Socket 9 (0x7f000001, 80) (0x7f000002, 4000) false false.

(** A server with the program [/w/a.cgi] and the file [/w/a.txt]. *)
Definition cgi_os : OS :=
  with_cgi (small_os [(B "/w/a.cgi", B "#!"); (B "/w/a.txt", B "hello")] [])
    (fun _ _ _ => Running (fun input => [input])).

Definition dispatcher : RequestHandler := @handle_request cgi_os whole_numbers false [] [] (fun _ => []) 0 [].

(** A worker with connection [c] and the next client, which sends [input]. *)
Definition serve_next (c : conn) (input : bytes) : option (bool * (proc * world)) :=
  @serve_socket cgi_os simple_ssl dispatcher 3 plain_ctx next_socket (set_fds [9] new_proc, quiet c [RxData input]).

Definition sent_next (c : conn) (input : bytes) : option bytes :=
  (fun '(_, (_, w)) => sent w) <$> serve_next c input.
Definition written_next (c : conn) (input : bytes) : option (list bytes) :=
  (fun '(_, (_, w)) => flat_map (fun e => match e with FxWrite _ d => [d] | _ => [] end) (fx w)) <$> serve_next c input.


(** A length that is negative, and 10 as an [int]. *)
Definition wrapping_post : bytes :=
  B "POST /a.cgi HTTP/1.0" ++ crlf ++ B "Content-Length: -4294967286" ++ crlf ++ crlf ++ B "x".

(** The condition on the announced lengths is needed: with this one, [forward_body_data]
    takes bytes behind the data for the body, and the program is given what earlier
    clients have sent. *)
Example stale_bytes_forwarded :
  written_next (new_worker cgi_config) wrapping_post = Some [B "x" ++ replicate 9 0] /\
  written_next (used_worker cgi_config [] 0) wrapping_post = Some [B "x/////////"].
Proof. split; by_eval. Qed.

(** So is the one on the first request: the reply to a client that sends nothing has the
    Connection header that suits the request before. *)
Example stale_headers_in_error :
  let reply connection :=
    B "HTTP/1.1 500 Server Error" ++ crlf ++ B "Content-Length: 48" ++ crlf ++ B "Connection: " ++ connection
    ++ crlf ++ crlf ++ B "Error 500: Server Error" ++ [c_lf] ++ B "Client closed connection" in
  sent_next (new_worker keep_alive_config) [] = Some (reply (B "keep-alive")) /\
  sent_next (used_worker keep_alive_config [(B "Connection", B "close")] 0) [] = Some (reply (B "close")).
Proof. split; by_eval. Qed.
