(* ===== verification/Unused.v ===== *)
(** * Handlers that are not built

    [webservice_handler] of src/webservice.c, which stores the data of a form in a file,
    and the copy of [websocket_data] in src/echo.c.  No target of the build contains
    them.  A use of NULL or a write behind a buffer is [abort]. *)

From S2P Require Import Prelude CString Options UrlCodec SocketQueue HttpRequest Scanf Conn WebSocket Os.

Section webservice.
Context `{OS}.

Definition POST_SIZE : nat := Z.to_nat (4 * 1024 * 1024).

(** The C string that [mg_get_var] leaves in a buffer of [size] bytes. *)
Definition form_string (post_data name : bytes) (size : nat) : bytes :=
  until_nul (default [0] (snd (mg_get_var (Some post_data) (Some name) (Some size)))).

(** The [sprintf] into the 256 bytes of [fpath], [fopen], [fputs] and [fclose]. *)
Definition save_posted (outdir fname data : bytes) : M unit :=
  let fpath := outdir ++ B "/" ++ fname in
  _ ← assert_ (length fpath <? 256)%nat;
  _ ← assert_ (os_create fpath);
  _ ← emit (FxCreate fpath);
  emit (FxWrite fpath data).

(** [outdir] is [mg_get_option(ctx, "outdir")], a pointer that is not tested. *)
Definition save_file (outdir : option bytes) : M Z :=
  post_data ← malloc;
  _ ← assert_ post_data;
  '(post_data_len, post_data) ← mg_read POST_SIZE;
  data ← malloc;
  _ ← assert_ data;
  _ ← assert_ (0 <=? post_data_len);
  let fname := form_string post_data (B "filename") 256 in
  let data := form_string post_data (B "data") POST_SIZE in
  match outdir with
  | None => abort
  | Some ptr =>
      _ ← (if bool_decide (ptr <> []) then save_posted ptr fname data
           else emit (FxLog (B "data=" ++ data)));
      _ ← mg_printf (B "HTTP/1.0 200 OK" ++ crlf);
      mret 1
  end.

Definition webservice_handler : M Z :=
  c ← get_conn;
  if streq (default [] (uri (request_info c))) (B "/save_file")
  then save_file (mg_get_option (config_of c) (B "outdir"))
  else mret 0.

(** There is no option [outdir]: the handler dereferences NULL for every request to
    store a file, and leaves the others alone. *)
Theorem webservice_handler_crashes (w : world) :
  webservice_handler w =
  if streq (default [] (uri (request_info (cn w)))) (B "/save_file") then None else Some (0, w).
Proof.
  unfold webservice_handler, mbind at 1, M_bind at 1, get_conn. destruct (streq _ _); [|done].
  assert (mg_get_option (config_of (cn w)) (B "outdir") = None) as -> by (unfold mg_get_option; by_eval).
  unfold save_file, mbind, M_bind, malloc, assert_. destruct (default true _); [|done]. unfold mret at 1, M_ret at 1.
  destruct (mg_read _ _) as [[[n d] w1]|]; [|done]. cbv beta iota. destruct (default true _); [|done].
  unfold mret at 1, M_ret at 1. by destruct (_ <=? _).
Qed.
End webservice.

(** With such an option, the name in the form would lead out of the directory. *)
Example save_file_leaves_directory :
  let os := small_os [] [] in
  let c := Conn (RequestInfo (Some (B "POST")) (Some (B "/save_file")) (Some (B "1.1")) None None 0 0 false [])
    [] inhabitant 0 0 28 0 (B "filename=../../f&data=secret") None false 0 28 0 0 0 0 in
  (fun r => fx (snd r)) <$> @save_file os (Some (B "/o")) (quiet c [])
  = Some [FxCreate (B "/o/../../f"); FxWrite (B "/o/../../f") (B "secret")].
Proof. by_eval. Qed.

(** [websocket_data] of src/echo.c *)
Definition echo_websocket_data (flags : Z) (data : bytes) (data_len : Z) : M Z :=
  let data_len := if 65536 <? data_len then 65536 else data_len in
  _ ← emit (FxLog (B "data_len=" ++ dec data_len));
  let opcode := Z.land flags 0x0f in
  let '(reply, ret) :=
    if (opcode =? 8) || starts_with data (B ".close") then ([0x88; wrap8 data_len], 0)
    else if data_len <=? 125 then ([Z.lor 0x80 opcode; wrap8 data_len], 1)
    else ([Z.lor 0x80 opcode; 126; wrap8 (data_len / 256); wrap8 (data_len mod 256)], 1) in
  _ ← mg_write reply;
  _ ← (if 0 <? data_len then mg_write (take (Z.to_nat data_len) data) else mret 0);
  mret ret.

(** It does what the handler that is built does. *)
Lemma echo_websocket_data_same flags data n w : echo_websocket_data flags data n w = websocket_data flags data n w.
Proof.
  unfold echo_websocket_data, websocket_data. set (len := if 65536 <? n then 65536 else n).
  destruct ((Z.land flags 15 =? 8) || _); [done|]. by destruct (len <=? 125).
Qed.
