(* ===== verification/Client.v ===== *)
(** * The client side

    [conn2], [mg_connect], [mg_download] and [mg_close_connection] of src/mongoose.c:
    a request to another server on a connection of its own, with the same functions
    that serve requests.  The names, sockets and the SSL library are those of the
    system.  [ebuf] is an array of 100 bytes, as in [process_new_connection].  A file
    that this server sends is what this client downloads. *)

From S2P Require Import Prelude CString Options SocketQueue HttpRequest Scanf Conn Os Files Connection Process Ssl Start Worker.

(** What connecting uses of the system. *)
Class Dialer := {
  dl_ssl : bool;                          (* SSLv23_client_method is not NULL *)
  dl_ssl_ctx : bool;                      (* SSL_CTX_new works *)
  dl_host : bytes -> option Z;            (* gethostbyname: the first address *)
  dl_socket : option Z;
  dl_connect : Z -> Z * Z -> bool;        (* socket, address and port *)
  dl_name : Z -> Z * Z                    (* getsockname *)
}.

Section client.
Context `{OS} `{Dialer}.

(** The socket, or what [ebuf] holds. *)
Definition conn2 (host : option bytes) (port : Z) (use_ssl : bool) : bytes + Z :=
  match host with
  | None => inl (ebuf_print (B "NULL host"))
  | Some host =>
      if use_ssl && negb dl_ssl then inl (ebuf_print (B "SSL is not initialized"))
      else match dl_host host with
      | None => inl (ebuf_print (B "gethostbyname(" ++ host ++ B "): " ++ os_strerror))
      | Some sin_addr =>
          match dl_socket with
          | None => inl (ebuf_print (B "socket(): " ++ os_strerror))
          | Some sock =>
              if dl_connect sock (sin_addr, port mod 2 ^ 16) then inr sock
              else inl (ebuf_print (B "connect(" ++ host ++ B ":" ++ dec port ++ B "): " ++ os_strerror))
          end
      end
  end.

(** The connection from [calloc], with the configuration of [fake_ctx]. *)
Definition new_conn (sock : Z) (use_ssl : bool) : conn :=
  Conn no_request (replicate NUM_OPTIONS None) (Socket sock (0, 0) (dl_name sock) use_ssl false) 0 0 0 0
    (replicate MAX_REQUEST_SIZE 0) None false 0 0 0 0 0 0.

(** What [ebuf] holds if there is no connection, else [None]; the connection is then the
    one of the world. *)
Definition mg_connect (host : option bytes) (port : Z) (use_ssl : bool) : M (option bytes) :=
  match conn2 host port use_ssl with
  | inl e => mret (Some e)
  | inr sock =>
      ok ← malloc;
      if negb ok then mret (Some (ebuf_print (B "calloc(): " ++ os_strerror)))
      else if use_ssl && negb dl_ssl_ctx then mret (Some (ebuf_print (B "SSL_CTX_new error")))
      else
        _ ← modify (fun _ => new_conn sock use_ssl);
        mret None
  end.

Definition mg_close_connection : M unit := close_connection.

(** [request] is the formatted request. *)
Definition mg_download (host : option bytes) (port : Z) (use_ssl : bool) (request : bytes) : M (option bytes) :=
  e ← mg_connect host port use_ssl;
  match e with
  | Some e => mret (Some e)
  | None =>
      n ← mg_printf request;
      ebuf ← (if n <=? 0 then mret (ebuf_print (B "Error sending request")) else getreq);
      if bool_decide (ebuf = []) then mret None
      else
        _ ← mg_close_connection;
        mret (Some ebuf)
  end.

(** ** Downloads *)

(** A host that can be reached. *)
Definition reachable (host : bytes) (port : Z) : Prop :=
  exists sin_addr sock, dl_host host = Some sin_addr /\ dl_socket = Some sock /\
    dl_connect sock (sin_addr, port mod 2 ^ 16) = true.

(** The client's side of the world: nothing fails. *)
Definition client_ok (w : world) : Prop :=
  Forall (fun n => 0 < n) (tx w) /\ stops w = [] /\ mallocs w = [] /\ rx_clean (rx w).

Lemma mg_connect_ok host port w :
  reachable host port -> mallocs w = [] ->
  exists sock w', mg_connect (Some host) port false w = Some (None, w') /\ cn w' = new_conn sock false /\
    rx w' = rx w /\ tx w' = tx w /\ sent w' = sent w /\ stops w' = stops w.
Proof.
  intros (a & sock & Ha & Hs & Hc) Hm. unfold mg_connect, conn2. cbn [andb]. rewrite Ha, Hs, Hc.
  unfold malloc, mbind, M_bind, modify, mret, M_ret. rewrite Hm. cbn [head default negb]. by eexists sock, _.
Qed.

(** Any reply of this form is read. *)
Lemma mg_download_reply host port request version status reason hs body w :
  reachable host port -> client_ok w -> (0 < length request < MG_BUF_LEN)%nat ->
  line_ok (B "HTTP/" ++ version) status reason hs -> (length hs <= 64)%nat ->
  (length (response_text version status reason hs) <= MAX_REQUEST_SIZE)%nat ->
  stream (rx w) = response_text version status reason hs ++ body ->
  exists w', mg_download (Some host) port false request w = Some (None, w') /\ sent w' = sent w ++ request /\
    conn_ok (cn w') /\ body_stream w' = body /\ rx_clean (rx w') /\ stops w' = [] /\ consumed_content (cn w') = 0 /\
    uri (request_info (cn w')) = Some status /\ http_headers (request_info (cn w')) = hs /\
    content_len (cn w') = announced_len (B "HTTP/" ++ version) hs.
Proof.
  intros Hr (Htx & Hst & Hma & Hrx) Hl Hok Hhs Hlen Hin.
  destruct (mg_connect_ok host port w Hr Hma) as (sock & w1 & E1 & Hcn1 & Hrx1 & Htx1 & Hs1 & Hst1).
  unfold mg_download. unfold mbind at 1, M_bind at 1. rewrite E1.
  destruct (mg_printf_all request w1) as (w2 & E2 & Hs2 & (Htx2 & Hst2 & _) & Hw); [|done|].
  { unfold sends_ok. rewrite Htx1, Hst1, Hcn1. split_and!; [done|done|]. simpl. lia. }
  unfold mbind at 1, M_bind at 1. rewrite E2. destruct (Z.leb_spec (Z.of_nat (length request)) 0); [lia|].
  destruct (wr_cn _ _ _ Hw) as (t & b & Hcn2). pose proof (wr_rx _ _ _ Hw) as Hrx2. rewrite Hcn1 in Hcn2.
  pose proof (response_reads_as version status reason hs Hok) as Hreads. rewrite take_ge in Hreads by done.
  assert (conn_input w2 = response_text version status reason hs ++ body) as Hin2.
  { unfold conn_input. rewrite Hcn2, Hrx2, Hrx1. exact Hin. }
  assert (buf_size (cn w2) = MAX_REQUEST_SIZE) as Hbs by (rewrite Hcn2; apply length_replicate).
  destruct (getreq_message w2 (response_text version status reason hs) (B "HTTP/" ++ version) status reason hs body)
    as (w3 & E3 & H3); [by rewrite Hrx2, Hrx1|done| |done|done|by rewrite Hbs|].
  { unfold buf_ok. rewrite Hbs, Hcn2. cbn [set_throttled new_conn data_len]. lia. }
  unfold mbind, M_bind. rewrite E3. rewrite bool_decide_eq_true_2 by done. exists w3. split; [done|].
  rewrite <- (app_nil_r body) in Hin2. destruct (has_message_body _ _ _ _ _ _ _ _ _ H3 Hin2) as [Hco Hbo].
  rewrite app_nil_r in Hbo. destruct H3 as [_ _ _ Hi _ _ Hcl Hcons _ _ Hclean Hstops Hsent _].
  rewrite Hsent, Hs2, Hs1, Hi. by split_and!.
Qed.

(** The headers of the reply with a whole file. *)
Definition reply_headers (t : Z) (st : file_stat) (mime connection : bytes) : list (bytes * bytes) :=
  [(B "Date", os_http_date t); (B "Last-Modified", os_http_date (st_mtime st)); (B "Etag", construct_etag 64 st);
   (B "Content-Type", mime); (B "Content-Length", dec (st_size st)); (B "Connection", connection);
   (B "Accept-Ranges", B "bytes")].

Lemma file_header_response t st mime connection :
  file_header 200 (B "OK") t st mime (st_size st) connection []
  = response_text (B "1.1") (B "200") (B "OK") (reply_headers t st mime connection).
Proof.
  unfold file_header, response_text, line_text, headers_text, reply_headers, header_text. cbn [map concat fst snd].
  rewrite <- !app_assoc. done.
Qed.

Lemma strtoll_dec n : LONG_MIN <= n <= LONG_MAX -> strtoll (dec n) = n.
Proof.
  intros Hn. unfold strtoll. destruct (dec_head n) as (c & t & E & Hc).
  rewrite skip_ws_chr by (by rewrite E). rewrite <- (app_nil_r (dec n)), scan_number_dec; done.
Qed.

End client.

(** A host that answers. *)
Definition one_host : Dialer := {|
  dl_ssl := false; dl_ssl_ctx := false; dl_host _ := Some 0x7f000001; dl_socket := Some 5;
  dl_connect _ _ := true; dl_name _ := (0x7f000001, 40000)
|}.

Definition get_request : bytes := B "GET /a.txt HTTP/1.0" ++ crlf ++ crlf.

