(* ===== verification/WinThreads.v ===== *)
(** * Master and workers on Windows

    On Windows src/mongoose.c makes the mutexes and condition variables of its threads
    from mutex objects and events (lines 968-1012).  A condition variable is an event that
    is reset when one thread has been let through, and one that is pulsed.  A thread that
    waits releases the mutex first and then goes to sleep, in two steps.  The queue of
    sockets is the one of [SocketQueue]: with these primitives nothing is lost or
    reordered and the threads do not all sleep while there is something to do, but
    signals merge and a broadcast can be missed. *)

From S2P Require Import Prelude SocketQueue.

(** ** Events *)

(** The two events of a [pthread_cond_t] as far as they have a state: whether [signal] is
    set.  [broadcast] is set only for the moment of the pulse. *)
Record pthread_cond_t := Cond { signal : bool }.

(** [CreateEvent(NULL, FALSE, FALSE, NULL)] and [CreateEvent(NULL, TRUE, FALSE, NULL)] *)
Definition pthread_cond_init : pthread_cond_t := Cond false.

(** What a thread does in [pthread_cond_wait], once it has released the mutex. *)
Class Sleeper (A : Type) := {
  sleeping : A -> bool;              (* in WaitForMultipleObjects *)
  fall_asleep : A -> A;
  wake : A -> A                      (* about to wait for the mutex *)
}.

(** The second part of [pthread_cond_wait]: an event that is set lets the thread through
    and is reset, otherwise the thread sleeps. *)
Definition cond_wait `{Sleeper A} (cv : pthread_cond_t) (t : A) : pthread_cond_t * A :=
  if signal cv then (Cond false, wake t) else (cv, fall_asleep t).

(** [SetEvent(cv->signal)]: one of the sleeping threads goes on, or the event stays set. *)
Inductive pthread_cond_signal `{Sleeper A} : pthread_cond_t -> list A -> pthread_cond_t -> list A -> Prop :=
  | signal_sleeper cv ts i t :
      ts !! i = Some t -> sleeping t = true -> pthread_cond_signal cv ts cv (<[i := wake t]> ts)
  | signal_nobody cv ts :
      Forall (fun t => sleeping t = false) ts -> pthread_cond_signal cv ts (Cond true) ts.

(** [PulseEvent(cv->broadcast)]: the threads that sleep at this moment go on. *)
Definition pthread_cond_broadcast `{Sleeper A} (ts : list A) : list A :=
  map (fun t => if sleeping t then wake t else t) ts.

(** ** The threads *)

(** A worker. *)
Inductive worker :=
  | Idle                             (* about to lock the mutex in consume_socket *)
  | Testing                          (* holds the mutex, at the test of the wait loop *)
  | Released                         (* in pthread_cond_wait(&sq_full), mutex released *)
  | Sleeping
  | Woken                            (* about to take the mutex again *)
  | Returned (client : option socket)
  | Busy (client : option socket)    (* process_new_connection, close_connection *)
  | Exiting                          (* left the loop *)
  | Gone.                            (* num_threads decremented, returned *)

(** The master. *)
Inductive boss :=
  | Polling
  | Locking (sp : socket)            (* about to lock the mutex in produce_socket *)
  | Putting (sp : socket)            (* holds it, at the test of the wait loop *)
  | PutReleased (sp : socket)        (* in pthread_cond_wait(&sq_empty) *)
  | PutSleeping (sp : socket)
  | PutWoken (sp : socket)
  | Broadcasting                     (* left the loop *)
  | Joining                          (* about to lock the mutex *)
  | Counting                         (* holds it, about to test num_threads *)
  | JoinReleased                     (* in pthread_cond_wait(&cond) *)
  | JoinSleeping
  | JoinWoken
  | Finished.                        (* stop_flag set to 2 *)

#[export] Instance worker_eq_dec : EqDecision worker.
Proof. solve_decision. Defined.
#[export] Instance boss_eq_dec : EqDecision boss.
Proof. solve_decision. Defined.

#[export] Instance worker_sleeper : Sleeper worker := {|
  sleeping t := bool_decide (t = Sleeping);
  fall_asleep _ := Sleeping; wake _ := Woken
|}.
#[export] Instance boss_sleeper : Sleeper boss := {|
  sleeping t := match t with PutSleeping _ | JoinSleeping => true | _ => false end;
  fall_asleep t := match t with PutReleased sp => PutSleeping sp | JoinReleased => JoinSleeping | t => t end;
  wake t := match t with
            | PutReleased sp | PutSleeping sp => PutWoken sp
            | JoinReleased | JoinSleeping => JoinWoken
            | t => t
            end
|}.

Record win := Win {
  w_ring : sq;
  w_stop : Z;                        (* stop_flag *)
  w_owner : option tid;              (* of the mutex object *)
  w_workers : list worker;
  w_master : boss;
  w_threads : Z;                     (* num_threads *)
  w_full : pthread_cond_t;           (* sq_full *)
  w_empty : pthread_cond_t;          (* sq_empty *)
  w_cond : pthread_cond_t;           (* cond *)
  w_in : list socket;                (* the sockets put into the queue *)
  w_out : list socket                (* those taken out *)
}.

(** Only the master waits for [sq_empty] and for [cond]. *)
Definition waits_empty (m : boss) : bool := match m with PutSleeping _ => true | _ => false end.
Definition waits_cond (m : boss) : bool := bool_decide (m = JoinSleeping).
Definition signal_boss (waits : boss -> bool) (cv : pthread_cond_t) (m : boss) : pthread_cond_t * boss :=
  if waits m then (cv, wake m) else (Cond true, m).

Definition set_w (i : nat) (t : worker) (o : option tid) (s : win) : win :=
  Win (w_ring s) (w_stop s) o (<[i := t]> (w_workers s)) (w_master s) (w_threads s)
    (w_full s) (w_empty s) (w_cond s) (w_in s) (w_out s).
Definition set_m (t : boss) (o : option tid) (s : win) : win :=
  Win (w_ring s) (w_stop s) o (w_workers s) t (w_threads s) (w_full s) (w_empty s) (w_cond s) (w_in s) (w_out s).

Inductive win_step : win -> win -> Prop :=
  (* consume_socket *)
  | Worker_lock i t s :
      w_workers s !! i = Some t -> t = Idle \/ t = Woken -> w_owner s = None ->
      win_step s (set_w i Testing (Some (TWorker i)) s)
  | Worker_release i s :
      w_workers s !! i = Some Testing -> sq_is_empty (w_ring s) = true -> w_stop s = 0 ->
      win_step s (set_w i Released None s)
  | Worker_wait i s cv t :
      w_workers s !! i = Some Released -> cond_wait (w_full s) Released = (cv, t) ->
      win_step s (Win (w_ring s) (w_stop s) (w_owner s) (<[i := t]> (w_workers s)) (w_master s) (w_threads s)
                    cv (w_empty s) (w_cond s) (w_in s) (w_out s))
  | Worker_take i s sp q cv m :
      w_workers s !! i = Some Testing -> sq_is_empty (w_ring s) && (w_stop s =? 0) = false ->
      sq_get (w_ring s) = (sp, q) -> signal_boss waits_empty (w_empty s) (w_master s) = (cv, m) ->
      win_step s (Win q (w_stop s) None (<[i := Returned sp]> (w_workers s)) m (w_threads s)
                    (w_full s) cv (w_cond s) (w_in s) (w_out s ++ option_list sp))
  (* worker_thread *)
  | Worker_serve i s client :
      w_workers s !! i = Some (Returned client) -> w_stop s = 0 ->
      win_step s (set_w i (Busy client) (w_owner s) s)
  | Worker_served i s client :
      w_workers s !! i = Some (Busy client) -> win_step s (set_w i Idle (w_owner s) s)
  | Worker_leave i s client :
      w_workers s !! i = Some (Returned client) -> w_stop s <> 0 ->
      win_step s (set_w i Exiting (w_owner s) s)
  | Worker_exit i s cv m :
      w_workers s !! i = Some Exiting -> w_owner s = None ->
      signal_boss waits_cond (w_cond s) (w_master s) = (cv, m) ->
      win_step s (Win (w_ring s) (w_stop s) None (<[i := Gone]> (w_workers s)) m (w_threads s - 1)
                    (w_full s) (w_empty s) cv (w_in s) (w_out s))
  (* accept_new_connection, produce_socket *)
  | Master_accept s sp :
      w_master s = Polling -> w_stop s = 0 -> win_step s (set_m (Locking sp) (w_owner s) s)
  | Master_lock s sp :
      w_master s = Locking sp \/ w_master s = PutWoken sp -> w_owner s = None ->
      win_step s (set_m (Putting sp) (Some TMaster) s)
  | Master_release s sp :
      w_master s = Putting sp -> w_stop s = 0 -> sq_is_full (w_ring s) = true ->
      win_step s (set_m (PutReleased sp) None s)
  | Master_wait s sp cv m :
      w_master s = PutReleased sp -> cond_wait (w_empty s) (PutReleased sp) = (cv, m) ->
      win_step s (Win (w_ring s) (w_stop s) (w_owner s) (w_workers s) m (w_threads s)
                    (w_full s) cv (w_cond s) (w_in s) (w_out s))
  | Master_put s sp (ok : bool) q cv ws :
      w_master s = Putting sp -> (w_stop s =? 0) && sq_is_full (w_ring s) = false ->
      sq_put (w_ring s) sp = (ok, q) -> pthread_cond_signal (w_full s) (w_workers s) cv ws ->
      win_step s (Win q (w_stop s) None ws Polling (w_threads s) cv (w_empty s) (w_cond s)
                    (if ok then w_in s ++ [sp] else w_in s) (w_out s))
  (* the end of master_thread *)
  | Master_leave s :
      w_master s = Polling -> w_stop s <> 0 -> win_step s (set_m Broadcasting (w_owner s) s)
  | Master_broadcast s :
      w_master s = Broadcasting ->
      win_step s (Win (w_ring s) (w_stop s) (w_owner s) (pthread_cond_broadcast (w_workers s)) Joining (w_threads s)
                    (w_full s) (w_empty s) (w_cond s) (w_in s) (w_out s))
  | Master_join s :
      w_master s = Joining \/ w_master s = JoinWoken -> w_owner s = None ->
      win_step s (set_m Counting (Some TMaster) s)
  | Master_join_release s :
      w_master s = Counting -> 0 < w_threads s -> win_step s (set_m JoinReleased None s)
  | Master_join_wait s cv m :
      w_master s = JoinReleased -> cond_wait (w_cond s) JoinReleased = (cv, m) ->
      win_step s (Win (w_ring s) (w_stop s) (w_owner s) (w_workers s) m (w_threads s)
                    (w_full s) (w_empty s) cv (w_in s) (w_out s))
  | Master_finish s :
      w_master s = Counting -> w_threads s <= 0 ->
      win_step s (Win (w_ring s) 2 None (w_workers s) Finished (w_threads s)
                    (w_full s) (w_empty s) (w_cond s) (w_in s) (w_out s))
  (* mg_stop *)
  | Win_stop s :
      w_stop s = 0 ->
      win_step s (Win (w_ring s) 1 (w_owner s) (w_workers s) (w_master s) (w_threads s)
                    (w_full s) (w_empty s) (w_cond s) (w_in s) (w_out s)).

Definition win_init (n : nat) : win :=
  Win sq_init 0 None (replicate n Idle) Polling (Z.of_nat n) pthread_cond_init pthread_cond_init pthread_cond_init [] [].

Inductive win_reachable (n : nat) : win -> Prop :=
  | win_reach_init : win_reachable n (win_init n)
  | win_reach_step s s' : win_reachable n s -> win_step s s' -> win_reachable n s'.

(** ** The invariant *)

(** Busy, or on its way to look at the queue. *)
Definition up (t : worker) : bool :=
  match t with Idle | Testing | Woken | Returned _ | Busy _ => true | _ => false end.
Definition boss_holds (m : boss) : bool := match m with Putting _ | Counting => true | _ => false end.

Record win_inv (n : nat) (s : win) : Prop := {
  wi_wf : sq_wf (w_ring s);
  wi_hist : w_in s = w_out s ++ contents (w_ring s);
  wi_owner : forall i t, w_workers s !! i = Some t -> (t = Testing <-> w_owner s = Some (TWorker i));
  wi_boss : boss_holds (w_master s) = true <-> w_owner s = Some TMaster;
  wi_event : signal (w_full s) = true -> Sleeping ∉ w_workers s;
  wi_up : w_stop s = 0 -> contents (w_ring s) <> [] -> signal (w_full s) = true \/ Exists (fun t => up t = true) (w_workers s);
  wi_sleep : forall sp, w_master s = PutSleeping sp -> length (contents (w_ring s)) = 20%nat;
  wi_room : forall sp, w_master s = PutReleased sp ->
    length (contents (w_ring s)) = 20%nat \/ signal (w_empty s) = true;
  wi_running : w_stop s = 0 -> (Exiting ∉ w_workers s) /\ (Gone ∉ w_workers s);
  wi_count : length (w_workers s) = n
}.

(** The workers that are up, after one has moved. *)
Lemma up_insert ws i old new :
  ws !! i = Some old -> up new = true \/ up old = false ->
  Exists (fun t => up t = true) ws -> Exists (fun t => up t = true) (<[i := new]> ws).
Proof.
  intros Hi Hnew. rewrite !Exists_exists. intros (t & (j & Hj)%list_elem_of_lookup & Ht).
  assert (i < length ws)%nat by (by eapply lookup_lt_Some). destruct Hnew as [Hn|Ho].
  - exists new. split; [|done]. by apply list_elem_of_insert.
  - exists t. split; [|done]. apply (list_elem_of_lookup_2 _ j). rewrite list_lookup_insert_ne; [done|].
    intros <-. rewrite Hi in Hj. injection Hj as ->. congruence.
Qed.

(** A worker has moved, and left the queue alone. *)
Lemma win_inv_worker n s i old new o cv :
  win_inv n s -> w_workers s !! i = Some old ->
  (new = Testing <-> o = Some (TWorker i)) ->
  (o = w_owner s \/ w_owner s = None /\ o = Some (TWorker i) \/ w_owner s = Some (TWorker i) /\ o = None) ->
  (contents (w_ring s) = [] \/ w_stop s <> 0 \/ up new = true \/ up old = false /\ cv = w_full s) ->
  (signal cv = true -> new <> Sleeping /\ signal (w_full s) = true) ->
  (new = Exiting -> w_stop s <> 0) -> new <> Gone ->
  win_inv n (Win (w_ring s) (w_stop s) o (<[i := new]> (w_workers s)) (w_master s) (w_threads s)
               cv (w_empty s) (w_cond s) (w_in s) (w_out s)).
Proof.
  intros [Hwf Hh How Hom He Hu Hs Hr Hrun Hc] Hi Hnew Ho Hup Hev Hex Hg.
  constructor; cbn [w_ring w_stop w_owner w_workers w_master w_full w_empty w_in w_out]; try done.
  - intros j t Hj. apply lookup_insert_cases in Hj as [[<- ->]|[Hne Hj]]; [done|].
    rewrite (How j t Hj). split; destruct Ho as [->|[[? ->]|[? ->]]]; congruence.
  - rewrite Hom. split; destruct Ho as [->|[[? ->]|[? ->]]]; congruence.
  - intros Hcv. destruct (Hev Hcv) as [Hns Hf]. intros [?|?]%elem_of_insert_inv; [done|by apply He].
  - intros H0 Hne. destruct Hup as [?|[?|[Hup|[Hup ->]]]]; [done|done| |].
    + right. apply Exists_exists. exists new. split; [|done]. apply list_elem_of_insert. by eapply lookup_lt_Some.
    + destruct (Hu H0 Hne) as [Hf|Hx]; [by left|right]. eapply up_insert; eauto.
  - intros H0. destruct (Hrun H0) as [H1 H2]. split; intros [?|?]%elem_of_insert_inv; try done. by apply Hex.
  - by rewrite length_insert.
Qed.

(** The master has moved, and left the queue alone. *)
Lemma win_inv_master n s m o cv :
  win_inv n s -> (boss_holds m = true <-> o = Some TMaster) ->
  (o = w_owner s \/ w_owner s = None /\ o = Some TMaster \/ w_owner s = Some TMaster /\ o = None) ->
  (forall sp, m = PutSleeping sp -> length (contents (w_ring s)) = 20%nat) ->
  (forall sp, m = PutReleased sp -> length (contents (w_ring s)) = 20%nat) ->
  forall cond, win_inv n (Win (w_ring s) (w_stop s) o (w_workers s) m (w_threads s) (w_full s) cv cond (w_in s) (w_out s)).
Proof.
  intros [Hwf Hh How Hom He Hu Hs Hr Hrun Hc] Hm Ho Hsl Hre cond.
  constructor; cbn [w_ring w_stop w_owner w_workers w_master w_full w_empty w_in w_out]; try done.
  - intros j t Hj. rewrite (How j t Hj). split; destruct Ho as [->|[[? ->]|[? ->]]]; congruence.
  - intros sp Hsp. left. by eapply Hre.
Qed.

Lemma win_inv_take n s i sp q cv m :
  win_inv n s -> w_workers s !! i = Some Testing -> sq_get (w_ring s) = (sp, q) ->
  signal_boss waits_empty (w_empty s) (w_master s) = (cv, m) ->
  win_inv n (Win q (w_stop s) None (<[i := Returned sp]> (w_workers s)) m (w_threads s)
               (w_full s) cv (w_cond s) (w_in s) (w_out s ++ option_list sp)).
Proof.
  intros [Hwf Hh How Hom He Hu Hs Hr Hrun Hc] Hi Hg Hsig.
  pose proof (proj1 (How i _ Hi) eq_refl) as Ho. pose proof (sq_get_spec (w_ring s) Hwf) as Hspec.
  rewrite Hg in Hspec. destruct Hspec as [Hwf' Hspec].
  assert (boss_holds m = false /\ (forall sp, m <> PutSleeping sp) /\ (forall sp, m = PutReleased sp -> signal cv = true))
    as (Hm & Hns & Hcv).
  { unfold signal_boss in Hsig. assert (boss_holds (w_master s) = false)
      by (destruct (boss_holds (w_master s)); [rewrite (proj1 Hom eq_refl) in Ho; done|done]).
    destruct (w_master s); simplify_eq/=; by split_and!. }
  constructor; cbn [w_ring w_stop w_owner w_workers w_master w_full w_empty w_in w_out]; try done.
  - destruct (contents (w_ring s)) as [|c cs] eqn:E.
    + destruct Hspec as [-> ->]. rewrite E. simpl. by rewrite Hh, !app_nil_r.
    + destruct Hspec as [-> ->]. by rewrite Hh, <- app_assoc.
  - intros j t Hj. apply lookup_insert_cases in Hj as [[<- ->]|[Hne Hj]]; [done|].
    rewrite (How j t Hj), Ho. split; congruence.
  - rewrite Hm. done.
  - intros Hf [?|?]%elem_of_insert_inv; [done|by apply He].
  - intros _ _. right. apply Exists_exists. exists (Returned sp). split; [|done].
    apply list_elem_of_insert. by eapply lookup_lt_Some.
  - intros sp' E. by destruct (Hns sp').
  - intros sp' E. right. by eapply Hcv.
  - intros H0. destruct (Hrun H0). split; by intros [?|?]%elem_of_insert_inv.
  - by rewrite length_insert.
Qed.

(** A signal to the workers: nobody sleeps while the event is set, and somebody is up or
    the event is set. *)
Lemma signal_workers cv ws cv' ws' :
  pthread_cond_signal cv ws cv' ws' -> (signal cv = true -> Sleeping ∉ ws) ->
  length ws' = length ws /\ (signal cv' = true -> Sleeping ∉ ws') /\
  (signal cv' = true \/ Exists (fun t => up t = true) ws') /\
  (forall j t, ws' !! j = Some t -> t = Woken \/ ws !! j = Some t).
Proof.
  intros Hs Hev. destruct Hs as [cv ws i t Hi Hsl|cv ws Hn].
  - split_and!; [apply length_insert| | |].
    + intros Hcv [?|?]%elem_of_insert_inv; [done|by apply Hev].
    + right. apply Exists_exists. exists Woken. split; [|done]. apply (list_elem_of_insert ws i). by eapply lookup_lt_Some.
    + intros j t' Hj. apply lookup_insert_cases in Hj as [[_ ->]|[_ Hj]]; auto.
  - split_and!; [done| |by left|by auto]. intros _ Hin. rewrite Forall_forall in Hn. by specialize (Hn _ Hin).
Qed.

Lemma win_inv_put n s sp ok q cv ws :
  win_inv n s -> w_master s = Putting sp -> sq_put (w_ring s) sp = (ok, q) ->
  pthread_cond_signal (w_full s) (w_workers s) cv ws ->
  win_inv n (Win q (w_stop s) None ws Polling (w_threads s) cv (w_empty s) (w_cond s)
               (if ok then w_in s ++ [sp] else w_in s) (w_out s)).
Proof.
  intros [Hwf Hh How Hom He Hu Hs Hr Hrun Hc] Hm Hq Hsig.
  assert (w_owner s = Some TMaster) as Ho by (apply Hom; by rewrite Hm).
  pose proof (sq_put_spec (w_ring s) sp Hwf) as Hspec. rewrite Hq in Hspec. destruct Hspec as (Hwf' & _ & Hcont).
  destruct (signal_workers _ _ _ _ Hsig He) as (Hl & Hev & Hup & Hin).
  assert (forall t, t <> Woken -> t ∈ ws -> t ∈ w_workers s) as Hsub.
  { intros t Hne (j & Hj)%list_elem_of_lookup. apply Hin in Hj as [?|Hj]; [done|]. by eapply list_elem_of_lookup_2. }
  constructor; cbn [w_ring w_stop w_owner w_workers w_master w_full w_empty w_in w_out]; try done.
  - rewrite Hcont. destruct ok; [|done]. by rewrite Hh, app_assoc.
  - intros j t Hj. split; [|done]. intros ->. apply Hin in Hj as [?|Hj]; [done|].
    apply (How j) in Hj as [Hj _]. rewrite Ho in Hj. by specialize (Hj eq_refl).
  - intros H0. destruct (Hrun H0). split; intros Hx; by apply Hsub in Hx.
  - by rewrite Hl.
Qed.

Lemma win_inv_exit n s i cv m :
  win_inv n s -> w_workers s !! i = Some Exiting -> w_owner s = None ->
  signal_boss waits_cond (w_cond s) (w_master s) = (cv, m) ->
  win_inv n (Win (w_ring s) (w_stop s) None (<[i := Gone]> (w_workers s)) m (w_threads s - 1)
               (w_full s) (w_empty s) cv (w_in s) (w_out s)).
Proof.
  intros [Hwf Hh How Hom He Hu Hs Hr Hrun Hc] Hi Ho Hsig.
  assert (Exiting ∈ w_workers s) as Hx by (by eapply list_elem_of_lookup_2).
  assert (m = w_master s \/ m = JoinWoken) as Hm.
  { unfold signal_boss, waits_cond in Hsig. case_bool_decide as E; [rewrite E in Hsig|]; simplify_eq/=; auto. }
  constructor; cbn [w_ring w_stop w_owner w_workers w_master w_full w_empty w_in w_out]; try done.
  - intros j t Hj. apply lookup_insert_cases in Hj as [[<- ->]|[Hne Hj]]; [done|]. by rewrite (How j t Hj), Ho.
  - destruct Hm as [-> | ->]; [by rewrite Hom, Ho|done].
  - intros Hf [?|?]%elem_of_insert_inv; [done|by apply He].
  - intros H0. by destruct (Hrun H0).
  - intros sp E. destruct Hm as [-> | ->]; [by eapply Hs|done].
  - intros sp E. destruct Hm as [-> | ->]; [by eapply Hr|done].
  - intros H0. by destruct (Hrun H0).
  - by rewrite length_insert.
Qed.

Lemma broadcast_elem ws t : t ∈ pthread_cond_broadcast ws -> t = Woken \/ t ∈ ws.
Proof.
  unfold pthread_cond_broadcast. rewrite list_elem_of_In, in_map_iff. intros (u & <- & Hu).
  rewrite <- list_elem_of_In in Hu. destruct (sleeping u); auto.
Qed.

Lemma win_inv_broadcast n s :
  win_inv n s -> w_master s = Broadcasting ->
  win_inv n (Win (w_ring s) (w_stop s) (w_owner s) (pthread_cond_broadcast (w_workers s)) Joining (w_threads s)
               (w_full s) (w_empty s) (w_cond s) (w_in s) (w_out s)).
Proof.
  intros [Hwf Hh How Hom He Hu Hs Hr Hrun Hc] Hm. rewrite Hm in Hom.
  constructor; cbn [w_ring w_stop w_owner w_workers w_master w_full w_empty w_in w_out]; try done.
  - intros i t Hi. unfold pthread_cond_broadcast in Hi. rewrite list_lookup_fmap in Hi.
    apply fmap_Some in Hi as (u & Hi & ->). rewrite <- (How i u Hi).
    destruct (sleeping u) eqn:E; [|done]. apply bool_decide_eq_true in E as ->. done.
  - intros Hf [?|?]%broadcast_elem; [done|by apply He].
  - intros H0 Hne. destruct (Hu H0 Hne) as [|Hx]; [by left|right]. rewrite Exists_exists in *.
    destruct Hx as (t & Ht & Hup). exists t. split; [|done]. unfold pthread_cond_broadcast.
    rewrite list_elem_of_In, in_map_iff. exists t. rewrite list_elem_of_In in Ht. split; [|done]. by destruct t.
  - intros H0. destruct (Hrun H0). split; by intros [?|?]%broadcast_elem.
  - unfold pthread_cond_broadcast. by rewrite length_map.
Qed.

(** The conditions of the lemmas on threads that move on their own. *)
Ltac moves :=
  repeat match goal with H : _ \/ _ |- _ => destruct H end; subst;
  repeat match goal with H : w_master _ = _, Hom : boss_holds _ = true <-> _ |- _ => rewrite H in Hom end;
  try solve [done | intuition congruence | auto | right; left; done | right; right; intuition congruence
    | left; apply (bool_decide_eq_true _); rewrite <- sq_is_empty_spec; done
    | intros ? _; apply (bool_decide_eq_true _); rewrite <- sq_is_full_spec; done ].

Lemma win_step_inv n s s' : win_inv n s -> win_step s s' -> win_inv n s'.
Proof.
  intros Hinv Hstep. pose proof (wi_boss _ _ Hinv) as Hom. pose proof (wi_wf _ _ Hinv) as Hwf. destruct Hstep.
  all: try match goal with H : w_workers _ !! _ = Some _ |- _ => pose proof (wi_owner _ _ Hinv _ _ H) as How end.
  all: try solve [eauto using win_inv_take, win_inv_put, win_inv_exit, win_inv_broadcast].
  all: unfold set_w, set_m.
  all: try (eapply win_inv_worker; [done|done|..]; solve [moves]).
  all: try (apply win_inv_master; [done|..]; solve [moves]).
  - unfold cond_wait in H0. destruct (signal (w_full s)) eqn:Ef; injection H0 as <- <-;
      eapply win_inv_worker; try done; moves; rewrite Ef; done.
  - unfold cond_wait in H0. rewrite H in Hom. destruct (signal (w_empty s)) eqn:Ef; injection H0 as <- <-;
      apply win_inv_master; moves. intros sp' _. destruct (wi_room _ _ Hinv _ H) as [|?]; [done|congruence].
  - unfold cond_wait in H0. rewrite H in Hom. destruct (signal (w_cond s)); injection H0 as <- <-;
      apply win_inv_master; moves.
  - rewrite H in Hom. destruct Hinv as [_ Hh How _ He Hu Hs Hr Hrun Hc]. constructor; try done.
    intros i t Hi. rewrite (How i t Hi). cbn [w_owner]. intuition congruence.
  - destruct Hinv as [_ Hh How _ He Hu Hs Hr Hrun Hc]. by constructor.
Qed.

Lemma win_init_inv n : win_inv n (win_init n).
Proof.
  constructor; cbn [win_init w_ring w_stop w_owner w_workers w_master w_full w_empty w_in w_out]; try done.
  - intros i t Hi. by apply lookup_replicate in Hi as [-> _].
  - intros _. split; by intros [? _]%elem_of_replicate.
  - apply length_replicate.
Qed.

Lemma win_reachable_inv n s : win_reachable n s -> win_inv n s.
Proof. induction 1; eauto using win_init_inv, win_step_inv. Qed.

(** C11. The queue works on Windows: with the condition variables made of events the sockets
    put into the queue are, in order, those taken out followed by at most twenty in the
    ring; and while the server runs, whenever a socket is queued or the master sleeps
    because the ring is full, some worker is up, that is busy or on its way to look at the
    queue, or one is about to wait and finds the event set. *)
Theorem win_queue_served (n : nat) (s : win) :
  win_reachable n s ->
  w_in s = w_out s ++ contents (w_ring s) /\ (length (contents (w_ring s)) <= 20)%nat /\
  ((0 < n)%nat -> w_stop s = 0 -> contents (w_ring s) <> [] \/ (exists sp, w_master s = PutSleeping sp) ->
   exists t, t ∈ w_workers s /\ (up t = true \/ t = Released /\ signal (w_full s) = true)).
Proof.
  intros H%win_reachable_inv. pose proof (contents_length _ (wi_wf _ _ H)) as Hlen. split; [apply H|]. split.
  { destruct (wi_wf _ _ H) as (_ & _ & ?). lia. }
  intros Hn H0 Hc. assert (contents (w_ring s) <> []) as Hne.
  { destruct Hc as [|[sp Hm]]; [done|]. intros E. pose proof (wi_sleep _ _ H sp Hm) as Hl. by rewrite E in Hl. }
  destruct (wi_up _ _ H H0 Hne) as [Hf|Hx]; [|rewrite Exists_exists in Hx; destruct Hx as (t & Ht & Hup); eauto].
  destruct (w_workers s) as [|t ts] eqn:E; [pose proof (wi_count _ _ H) as Hl; rewrite E in Hl; simpl in Hl; lia|].
  exists t. split; [by left|]. destruct (wi_running _ _ H H0) as [H1 H2]. pose proof (wi_event _ _ H Hf) as H3.
  rewrite E in H1, H2, H3. rewrite !not_elem_of_cons in H1, H2, H3.
  destruct t; tauto.
Qed.

(** ** Runs *)

(** The next step of a run [R], by a rule. *)
Tactic Notation "step" hyp(R) "by" uconstr(c) :=
  eapply win_reach_step in R; [|eapply c; try reflexivity; try (by left); try (by right); try done];
  cbn [set_w set_m win_init w_ring w_stop w_owner w_workers w_master w_threads w_full w_empty w_cond w_in w_out] in R.

(** One worker is about to wait when a socket is put: the event stays set. *)
Definition one_queued (n : nat) (sp : socket) : win :=
  Win (snd (sq_put sq_init sp)) 0 None (Released :: replicate n Idle) Polling (Z.of_nat (S n))
    (Cond true) pthread_cond_init pthread_cond_init [sp] [].

Lemma one_queued_reachable n sp : win_reachable (S n) (one_queued n sp).
Proof.
  pose proof (win_reach_init (S n)) as R.
  step R by (Worker_lock 0 Idle). step R by (Worker_release 0).
  step R by (Master_accept _ sp). step R by (Master_lock _ sp).
  step R by (Master_put _ sp true _ (Cond true) (Released :: replicate n Idle)).
  - exact R.
  - apply signal_nobody. constructor; [done|]. by apply Forall_replicate.
Qed.

Lemma win_queue_served_witness :
  exists t, t ∈ w_workers (one_queued 1 inhabitant) /\
    (up t = true \/ t = Released /\ signal (w_full (one_queued 1 inhabitant)) = true).
Proof.
  destruct (win_queue_served 2 (one_queued 1 inhabitant)) as (_ & _ & H); [apply one_queued_reachable|].
  apply H; [lia|reflexivity|left; vm_compute; discriminate].
Defined.

(** Two signals can become one: with two workers about to wait, two sockets are put, and
    the second worker sleeps while the second socket waits in the queue for the first
    worker to be done. *)
Definition merged (sp : socket) : win :=
  let q := snd (sq_put (snd (sq_put sq_init sp)) sp) in
  Win (snd (sq_get q)) 0 None [Busy (Some sp); Sleeping] Polling 2
    (Cond false) (Cond true) pthread_cond_init [sp; sp] [sp].

Lemma win_signal_lost sp :
  win_reachable 2 (merged sp) /\ w_workers (merged sp) = [Busy (Some sp); Sleeping] /\
  contents (w_ring (merged sp)) = [sp].
Proof.
  split; [|done]. pose proof (win_reach_init 2) as R.
  step R by (Worker_lock 0 Idle). step R by (Worker_release 0).
  step R by (Worker_lock 1 Idle). step R by (Worker_release 1).
  do 2 (step R by (Master_accept _ sp); step R by (Master_lock _ sp);
    step R by (Master_put _ sp true _ (Cond true) [Released; Released]);
    [|apply signal_nobody; repeat constructor]).
  step R by (Worker_wait 0). step R by (Worker_wait 1). step R by (Worker_lock 0 Woken).
  step R by (Worker_take 0 _ (Some sp)). step R by (Worker_serve 0).
  exact R.
Qed.

(** The broadcast can be missed: it is sent without the mutex and wakes only the threads
    that sleep, so a worker that has released the mutex to wait goes to sleep after it.
    Then the master waits for ever for that worker to end and [mg_stop] never returns. *)
Definition missed : win :=
  Win sq_init 1 None [Sleeping] JoinSleeping 1 pthread_cond_init pthread_cond_init pthread_cond_init [] [].

Lemma win_stop_hangs : win_reachable 1 missed /\ forall s', ~ win_step missed s'.
Proof.
  split.
  - pose proof (win_reach_init 1) as R.
    step R by (Worker_lock 0 Idle). step R by (Worker_release 0).
    step R by Win_stop. step R by Master_leave. step R by Master_broadcast.
    step R by (Worker_wait 0). step R by Master_join. step R by Master_join_release.
    step R by Master_join_wait. exact R.
  - intros s'. inversion 1; simplify_eq/=; repeat match goal with
      | H : _ \/ _ |- _ => destruct H
      | H : [_] !! ?i = Some _ |- _ => apply list_lookup_singleton_Some in H as [-> H]
      end; simplify_eq/=.
Qed.
