(* ===== verification/MemFiles.v ===== *)
(** * Files in memory

    The callback [open_file] of src/mongoose.h lets an application serve files from
    memory: [struct file] holds either a stream or a pointer to the data.  tinyweb does not
    set it, and [Os], [Files], [Auth] and [Ssi] model what then remains of these functions;
    here they are whole.  Without the callback they are the functions of those files
    ([no_callback_stat] and its neighbours).  With it file replies are the same, but the
    reader of lines and the reader of characters do not advance. *)

From S2P Require Import Prelude CString Options SocketQueue HttpRequest Scanf Conn Pattern Os Md5 Files Auth Ssi.

(** ** struct file *)

(** [fp] is what can still be read from the stream; [membuf] are the [size] bytes that the
    callback has promised. *)
Record file := File {
  is_directory : bool;
  modification_time : Z;
  size : Z;
  fp : option bytes;
  membuf : option bytes
}.

Definition STRUCT_FILE_INITIALIZER : file := File false 0 0 None None.

Definition is_file_opened (filep : file) : bool :=
  match membuf filep, fp filep with None, None => false | _, _ => true end.

Section memory.
Context `{OS}.
Variable open_file : option (bytes -> option bytes).

Definition is_file_in_memory (path : bytes) (filep : file) : bool * file :=
  match open_file ≫= (fun f => f path) with
  | Some m => (true, File (is_directory filep) (modification_time filep) (Z.of_nat (length m)) (fp filep) (Some m))
  | None => (false, File (is_directory filep) (modification_time filep) (size filep) (fp filep) None)
  end.

Definition mg_stat (path : bytes) (filep : file) : bool * file :=
  let '(mem, filep) := is_file_in_memory path filep in
  let filep :=
    match (if mem then None else os_stat path) with
    | Some st => File (st_isdir st) (st_mtime st) (st_size st) (fp filep) (membuf filep)
    | None => File (is_directory filep) 0 (size filep) (fp filep) (membuf filep)
    end in
  (match membuf filep with Some _ => true | None => negb (modification_time filep =? 0) end, filep).

(** With the mode ["r"]. *)
Definition mg_fopen (path : bytes) (filep : file) : bool * file :=
  let '(mem, filep) := is_file_in_memory path filep in
  let filep :=
    if (mem : bool) then filep
    else File (is_directory filep) (modification_time filep) (size filep) (os_read path) (membuf filep) in
  (is_file_opened filep, filep).
End memory.

(** The number of streams that are open, after [mg_fclose]. *)
Definition mg_fclose (filep : file) (streams : nat) : nat :=
  match fp filep with Some _ => pred streams | None => streams end.

(** ** Reading *)

(** [fgets(buf, size, fp)]: the line and the rest. *)
Fixpoint fgets_split (room : nat) (content : bytes) : bytes * bytes :=
  match content with
  | [] => ([], [])
  | c :: content' =>
      if (c =? c_lf) || (room <=? 1)%nat then ([c], content')
      else let '(l, rest) := fgets_split (pred room) content' in (c :: l, rest)
  end.
Definition fgets (sz : nat) (content : bytes) : option (bytes * bytes) :=
  match content with [] => None | _ => Some (fgets_split (sz - 1) content) end.

(** Whether the result is not [NULL], what has been stored in [buf], the file and [*p] (an
    offset in the memory).  Without a newline [memchr] gives [NULL], the difference to [*p]
    is a huge number and [size - 1] bytes are copied; [None] if these are not all in the
    memory. *)
Definition mg_fgets (sz : nat) (filep : file) (p : option nat) : option (bool * option bytes * file * option nat) :=
  match membuf filep, p with
  | Some m, Some i =>
      match find_byte c_lf (drop i m) with
      | Some k => Some (true, Some (take (Nat.min k (sz - 1)) (drop i m)), filep, Some (i + k)%nat)
      | None =>
          if (i + (sz - 1) <=? length m)%nat then Some (false, Some (take (sz - 1) (drop i m)), filep, None) else None
      end
  | _, _ =>
      match fp filep with
      | Some content =>
          match fgets sz content with
          | Some (l, rest) =>
              Some (true, Some l,
                    File (is_directory filep) (modification_time filep) (size filep) (Some rest) (membuf filep), p)
          | None => Some (false, None, filep, p)
          end
      | None => Some (false, None, filep, p)
      end
  end.

(** The character, [None] for [EOF]. *)
Definition mg_fgetc (filep : file) (offset : Z) : option Z * file :=
  match membuf filep with
  | Some m =>
      if (0 <=? offset) && (offset <? size filep) then (Some (m !!! Z.to_nat offset), filep)
      else match fp filep with
           | Some (c :: rest) =>
               (Some c, File (is_directory filep) (modification_time filep) (size filep) (Some rest) (membuf filep))
           | _ => (None, filep)
           end
  | None =>
      match fp filep with
      | Some (c :: rest) =>
          (Some c, File (is_directory filep) (modification_time filep) (size filep) (Some rest) (membuf filep))
      | _ => (None, filep)
      end
  end.

(** ** Functions that read a file *)

(** The branch for a stream: [fseeko] and the loop. *)
Definition send_stream (content : bytes) (offset len : Z) : M unit :=
  if 0 <? len then
    let rest := drop (Z.to_nat offset) content in
    send_file_loop (S (length rest)) rest len
  else mret tt.

Definition send_file_data (filep : file) (offset len : Z) : M unit :=
  let offset := if offset <? 0 then 0 else if size filep <? offset then size filep else offset in
  match membuf filep, fp filep with
  | Some m, stream =>
      if (0 <? len) && (0 <? size filep) then
        let len := if size filep - offset <? len then size filep - offset else len in
        _ ← mg_write (take (Z.to_nat len) (drop (Z.to_nat offset) m));
        mret tt
      else match stream with Some content => send_stream content offset len | None => mret tt end
  | None, Some content => send_stream content offset len
  | None, None => mret tt
  end.

Definition stat_of (filep : file) : file_stat := FileStat (size filep) (modification_time filep) (is_directory filep).

(** The callback gives the same data each time, so that the size does not change when the
    file is opened. *)
Definition handle_file_request `{OS} (open_file : option (bytes -> option bytes)) (path : bytes) (filep : file)
    : M unit :=
  curtime ← time;
  mime ← get_mime_type path;
  _ ← modify (set_status 200);
  let cl := size filep in
  let '(opened, filep) := mg_fopen open_file path filep in
  if negb opened then send_http_error 500 http_500_error (B "fopen(" ++ path ++ B "): " ++ os_strerror)
  else
    c ← get_conn;
    let '(status, msg, r1, cl, range) := file_range (header_of c (B "Range")) cl in
    _ ← modify (set_status status);
    c ← get_conn;
    _ ← mg_printf (file_header status msg curtime (stat_of filep) mime cl (suggest_connection_header c) range);
    if negb (streq (default [] (request_method (request_info c))) (B "HEAD")) then
      send_file_data filep r1 cl
    else mret tt.

Definition mg_send_file `{OS} (open_file : option (bytes -> option bytes)) (path : bytes) : M unit :=
  let '(found, filep) := mg_stat open_file path STRUCT_FILE_INITIALIZER in
  if found then handle_file_request open_file path filep
  else send_http_error 404 (B "Not Found") (B "File not found").

(** The loop over the password file: its result, a read outside of the memory, or still
    running after [fuel] rounds. *)
Inductive verdict := Answer (b : bool) | Overread | Running.

Fixpoint authorize_file (fuel : nat) (big : bool) (method : option bytes) (a : ah) (user domain : bytes)
    (filep : file) (p : option nat) : verdict :=
  match fuel with
  | O => Running
  | S fuel' =>
      match mg_fgets 256 filep p with
      | None => Overread
      | Some (false, _, _, _) => Answer false
      | Some (true, line, filep, p) =>
          match password_line (default [] line) with
          | None => authorize_file fuel' big method a user domain filep p
          | Some (f_user, f_domain, ha1) =>
              if streq user f_user && streq domain f_domain then
                Answer (check_password big method ha1 (ah_uri a) (ah_nonce a) (ah_nc a) (ah_cnonce a)
                          (ah_qop a) (ah_response a))
              else authorize_file fuel' big method a user domain filep p
          end
      end
  end.

(** The loop of [send_ssi_file], whose [offset] stays 0: whether it has ended after [fuel]
    characters. *)
Fixpoint ssi_file_loop `{OS} (fuel : nat) (rec : bytes -> bytes -> M unit) (path : bytes) (in_ssi_tag : bool)
    (buf : bytes) (filep : file) : M bool :=
  match fuel with
  | O => mret false
  | S fuel' =>
      match mg_fgetc filep 0 with
      | (Some ch, filep) =>
          '(in_ssi_tag, buf) ← ssi_char rec path in_ssi_tag buf ch;
          ssi_file_loop fuel' rec path in_ssi_tag buf filep
      | (None, _) =>
          _ ← (if (0 <? length buf)%nat then _ ← mg_write buf; mret tt else mret tt);
          mret true
      end
  end.

(** ** Without the callback *)

Section no_callback.
Context `{OS}.

Lemma no_callback_stat path filep :
  membuf filep = None -> size filep = 0 -> is_directory filep = false ->
  let '(found, filep') := mg_stat None path filep in
  (found, stat_of filep') = Os.mg_stat path /\ membuf filep' = None /\ fp filep' = fp filep.
Proof.
  intros Hm Hs Hd. unfold mg_stat, is_file_in_memory, Os.mg_stat, stat_of. cbn [mbind option_bind].
  destruct (os_stat path) as [[sz mt d]|]; [done|]. cbn. by rewrite Hs, Hd.
Qed.

Lemma no_callback_fopen path filep :
  let '(opened, filep') := mg_fopen None path filep in
  opened = bool_decide (is_Some (Os.mg_fopen path)) /\ fp filep' = Os.mg_fopen path /\ membuf filep' = None /\
  stat_of filep' = stat_of filep.
Proof. unfold mg_fopen, is_file_in_memory, Os.mg_fopen, is_file_opened. cbn. by destruct (os_read path). Qed.

(** Two replies with the same status and header that differ in how the file is sent. *)
Lemma handle_related open_file path f f' content (R : option (unit * world) -> option (unit * world) -> Prop) w :
  mg_fopen open_file path f = (true, f') -> stat_of f' = stat_of f -> Os.mg_fopen path = Some content ->
  (forall x, R x x) ->
  (forall r1 cl w0 w1 text r, (sends_ok w -> sends_ok w0) -> mg_printf text w0 = Some (r, w1) ->
    R (send_file_data f' r1 cl w1) (Files.send_file_data content (size f) r1 cl w1)) ->
  R (handle_file_request open_file path f w) (Files.handle_file_request path (stat_of f) w).
Proof.
  intros Ho Hst Hos Hrefl Hsend. unfold handle_file_request, Files.handle_file_request. rewrite Ho, Hos, Hst.
  unfold mbind, M_bind, time. set (w1 := World _ _ _ _ _ _ _ _).
  destruct (get_mime_type path w1) as [[mime w2]|] eqn:Em; [|done].
  assert (sends_ok w -> sends_ok w2) as Hok.
  { enough (w2 = w1) as -> by done. unfold get_mime_type, mbind, M_bind, get_conn in Em.
    destruct (extra_mime_loop _ _ _) as [[r w3]|] eqn:Ex; [|done]. apply extra_mime_same in Ex as ->.
    unfold mret, M_ret in Em. congruence. }
  unfold modify at 1 3. cbn [negb]. unfold get_conn at 1 3. cbv beta iota. cbn [stat_of st_size].
  destruct (file_range _ _) as [[[[status msg] r1] cl] range]. unfold modify, get_conn. cbv beta iota.
  set (w3 := set_cn (set_status status _) _).
  destruct (mg_printf _ w3) as [[r w4]|] eqn:Ep; [|done].
  destruct (negb _); [|done]. eapply (Hsend r1 cl w3); [exact Hok|exact Ep].
Qed.

(** Streams are sent as in [Files]. *)
Lemma no_callback_send path w : mg_send_file None path w = Files.mg_send_file path w.
Proof.
  unfold mg_send_file, Files.mg_send_file.
  pose proof (no_callback_stat path STRUCT_FILE_INITIALIZER eq_refl eq_refl eq_refl) as Hs.
  destruct (mg_stat None path STRUCT_FILE_INITIALIZER) as [found f]. destruct Hs as (<- & Hm & Hf).
  destruct found; [|done]. pose proof (no_callback_fopen path f) as Ho.
  destruct (mg_fopen None path f) as [opened f'] eqn:E. destruct Ho as (-> & Hc & Hm' & Hst).
  destruct (Os.mg_fopen path) as [content|] eqn:Eo.
  - apply (handle_related None path f f' content eq); try done. intros r1 cl w0 w1 text r _ _.
    unfold send_file_data, send_stream. rewrite Hm', Hc. by injection Hst as -> _ _.
  - unfold handle_file_request, Files.handle_file_request. by rewrite E, Eo.
Qed.
End no_callback.

(** ** Replies with files in memory *)

Lemma mg_printf_keeps text w r w' : mg_printf text w = Some (r, w') -> sends_ok w -> sends_ok w'.
Proof.
  unfold mg_printf, mbind, M_bind. intros E Hok.
  assert (exists m v, alloc_vprintf text w = Some (m, v) /\ sends_ok v) as (m & v & Em & Hv).
  { unfold alloc_vprintf. destruct (_ <? _)%nat; by eexists _, _. }
  rewrite Em in E. destruct m as [d|]; [|by injection E as _ <-].
  destruct (0 <? length d)%nat; [|by injection E as _ <-].
  unfold mg_write, mbind, M_bind in E. destruct (mg_write64_spec d v) as (q & k & v' & Ev & _ & Hw & _).
  rewrite Ev in E. injection E as _ <-. by eapply wrote_sends_ok.
Qed.

Definition same_sent (x y : option (unit * world)) : Prop :=
  exists w1 w2, x = Some (tt, w1) /\ y = Some (tt, w2) /\ sent w1 = sent w2.

(** The branch for memory sends what the loop over a stream sends. *)
Lemma send_memory_same f m offset len w :
  membuf f = Some m -> fp f = None -> size f = Z.of_nat (length m) -> sends_ok w ->
  same_sent (send_file_data f offset len w) (Files.send_file_data m (size f) offset len w).
Proof.
  intros Hm Hf Hs Hok. unfold send_file_data, Files.send_file_data. rewrite Hm, Hf.
  set (o := if offset <? 0 then 0 else _).
  assert (0 <= o <= size f) by (unfold o; repeat case_match; lia).
  destruct (Z.ltb_spec 0 len) as [Hl|Hl]; [|by exists w, w].
  destruct (send_file_loop_spec (S (length (drop (Z.to_nat o) m))) (drop (Z.to_nat o) m) len w)
    as (w2 & E2 & Hs2 & _); [done|lia|].
  destruct (Z.ltb_spec 0 (size f)) as [Hp|Hp]; cbn [andb].
  - destruct (mg_write64_spec (take (Z.to_nat (if size f - o <? len then size f - o else len)) (drop (Z.to_nat o) m)) w)
      as (r & k & w1 & E1 & Hk & Hw & Hall).
    unfold mg_write, mbind, M_bind, mret, M_ret. rewrite E1. exists w1, w2. split_and!; [done|done|].
    destruct Hok as (Htx & Hst & Hth). rewrite Hs2, (wr_sent _ _ _ Hw). f_equal.
    rewrite (take_ge _ k) by (rewrite <- Hall; [lia|done|done|by left]).
    destruct (Z.ltb_spec (size f - o) len); [|done]. rewrite !take_ge; [done|..]; rewrite length_drop; lia.
  - exists w, w2. split_and!; [done|done|]. assert (m = []) as -> by (destruct m; [done|simpl in Hs; lia]).
    by rewrite Hs2, drop_nil, take_nil, app_nil_r.
Qed.

Lemma handle_file_request_returns `{OS} path st mime w :
  get_mime_type path w = Some (mime, w) -> exists w', Files.handle_file_request path st w = Some (tt, w').
Proof.
  intros Hm. unfold Files.handle_file_request.
  unfold mbind at 1, M_bind at 1, time. set (w1 := World _ _ _ _ _ _ _ _).
  unfold mbind at 1, M_bind at 1. rewrite (get_mime_type_world path w w1 mime) by done.
  match goal with |- exists w', ?m w1 = _ => assert (total m) as Ht end; [|destruct (Ht w1) as ([] & w' & E); eauto].
  solve_total.
Qed.



(** The branch for memory does not count what it sends: [num_bytes_sent] stays 0 for the
    access log. *)
Lemma memory_not_counted f m offset len w r w' :
  membuf f = Some m -> fp f = None -> send_file_data f offset len w = Some (r, w') ->
  num_bytes_sent (cn w') = num_bytes_sent (cn w).
Proof.
  intros Hm Hf E. unfold send_file_data in E. rewrite Hm, Hf in E. destruct (_ && _); [|by injection E as _ <-].
  unfold mg_write, mbind, M_bind in E.
  match type of E with context [mg_write64 ?d w] => destruct (mg_write64_spec d w) as (q & k & v & Ev & _ & Hw & _) end.
  rewrite Ev in E. injection E as _ <-. by destruct (wr_cn _ _ _ Hw) as (t & b & ->).
Qed.

(** ** Lines *)

Lemma fgets_from_split size room acc content :
  content <> [] ->
  fgets_from size room acc content
  = (acc ++ fst (fgets_split room content)) :: fgets_from size size [] (snd (fgets_split room content)).
Proof.
  revert room acc. induction content as [|c content IH]; intros room acc Hne; [done|].
  cbn [fgets_from fgets_split]. destruct (Z.eqb_spec c c_lf); cbn [orb]; [done|].
  destruct room as [|[|room]]; try done. cbn [Nat.leb pred].
  destruct content as [|c' content]; [by destruct acc|]. rewrite IH by done.
  destruct (fgets_split (S room) (c' :: content)). by rewrite <- app_assoc.
Qed.

(** The successive results of [fgets] are the lines of [Os]. *)
Lemma fgets_step sz content :
  fgets_lines sz content
  = match fgets sz content with Some (l, rest) => l :: fgets_lines sz rest | None => [] end.
Proof.
  unfold fgets_lines, fgets. destruct content as [|c content]; [done|].
  rewrite fgets_from_split by done. by destruct (fgets_split _ _).
Qed.

Lemma fgets_split_shorter room content :
  content <> [] -> (length (snd (fgets_split room content)) < length content)%nat.
Proof.
  revert room. induction content as [|c content IH]; intros room Hne; [done|]. cbn [fgets_split].
  destruct (_ || _); [simpl; lia|]. destruct content as [|c' content]; [simpl; lia|].
  specialize (IH (pred room) ltac:(done)). destruct (fgets_split _ _). simpl in *. lia.
Qed.

Section authorize.
Context (big : bool) (method : option bytes) (a : ah) (user domain : bytes).

(** Password files that are streams: the loop ends and gives the result of [Auth]. *)
Lemma authorize_stream fuel filep p content :
  membuf filep = None -> fp filep = Some content -> (length content < fuel)%nat ->
  authorize_file fuel big method a user domain filep p
  = Answer (authorize_lines big method a user domain (fgets_lines 256 content)).
Proof.
  revert filep content. induction fuel as [|fuel IH]; intros filep content Hm Hf Hl; [lia|].
  cbn [authorize_file]. unfold mg_fgets. rewrite Hm, Hf, fgets_step. unfold fgets.
  destruct content as [|c content]; [done|]. pose proof (fgets_split_shorter (256 - 1) (c :: content)) as Hs.
  destruct (fgets_split (256 - 1) (c :: content)) as [l rest]. cbn [snd] in Hs. specialize (Hs ltac:(done)).
  cbn [authorize_lines from_option id]. destruct (password_line l) as [[[u d] h]|]; [destruct (_ && _); [done|]|];
    (apply IH; [done|done|lia]).
Qed.

(** Password files in memory: the first line is looked at. *)
Lemma authorize_memory_first fuel filep line rest u d h :
  membuf filep = Some (line ++ c_lf :: rest) -> c_lf ∉ line -> (length line < 256)%nat ->
  password_line line = Some (u, d, h) -> user = u -> domain = d ->
  authorize_file (S fuel) big method a user domain filep (Some 0%nat)
  = Answer (check_password big method h (ah_uri a) (ah_nonce a) (ah_nc a) (ah_cnonce a) (ah_qop a) (ah_response a)).
Proof.
  intros Hm Hl Hn Hp -> ->. cbn [authorize_file]. unfold mg_fgets. rewrite Hm, drop_0, find_byte_app by done.
  rewrite Nat.min_l, take_app_length by lia. cbn [from_option id]. by rewrite Hp, !streq_refl.
Qed.

(** Once [*p] is at a newline it stays there: each call gives an empty line. *)
Lemma authorize_memory_stuck fuel filep before rest :
  membuf filep = Some (before ++ c_lf :: rest) ->
  authorize_file fuel big method a user domain filep (Some (length before)) = Running.
Proof.
  intros Hm. induction fuel as [|fuel IH]; [done|]. cbn [authorize_file]. unfold mg_fgets.
  rewrite Hm, drop_app_length. cbn [find_byte]. rewrite Z.eqb_refl. cbn [Nat.min take].
  rewrite Nat.add_0_r. exact IH.
Qed.

(** If it is not the line of the user, the loop does not end, even if a later line is. *)
Lemma authorize_memory_endless fuel filep line rest :
  membuf filep = Some (line ++ c_lf :: rest) -> c_lf ∉ line -> (length line < 256)%nat ->
  match password_line line with Some (u, d, _) => streq user u && streq domain d = false | None => True end ->
  authorize_file fuel big method a user domain filep (Some 0%nat) = Running.
Proof.
  intros Hm Hl Hn Hp. destruct fuel as [|fuel]; [done|]. cbn [authorize_file]. unfold mg_fgets.
  rewrite Hm, drop_0, find_byte_app, Nat.add_0_l by done. rewrite Nat.min_l, take_app_length by lia.
  cbn [from_option id]. destruct (password_line line) as [[[u d] h]|]; [rewrite Hp|]; by eapply authorize_memory_stuck.
Qed.

(** A short file without a newline is read beyond its end. *)
Lemma authorize_memory_overread fuel filep m :
  membuf filep = Some m -> c_lf ∉ m -> (length m < 255)%nat ->
  authorize_file (S fuel) big method a user domain filep (Some 0%nat) = Overread.
Proof.
  intros Hm Hl Hn. cbn [authorize_file]. unfold mg_fgets. rewrite Hm, drop_0.
  rewrite (proj2 (find_byte_None _ _)) by done. by rewrite (proj2 (Nat.leb_gt _ _)) by lia.
Qed.
End authorize.

(** ** Characters *)

Section ssi.
Context `{OS} (rec : bytes -> bytes -> M unit) (path : bytes).

(** Pages that are streams: the loop ends and does what [Ssi] says. *)
Lemma ssi_stream fuel in_tag buf filep content w :
  membuf filep = None -> fp filep = Some content -> (length content < fuel)%nat ->
  ssi_file_loop fuel rec path in_tag buf filep w
  = match ssi_loop rec path in_tag buf content w with Some (_, w') => Some (true, w') | None => None end.
Proof.
  revert in_tag buf filep content w. induction fuel as [|fuel IH]; intros in_tag buf filep content w Hm Hf Hl; [lia|].
  cbn [ssi_file_loop]. unfold mg_fgetc. rewrite Hm, Hf. destruct content as [|c content].
  - cbn [ssi_loop]. unfold mbind at 1, M_bind at 1. destruct (_ <? _)%nat; [|done].
    unfold mbind, M_bind. by destruct (mg_write buf w) as [[? ?]|].
  - cbn [ssi_loop]. unfold mbind, M_bind. destruct (ssi_char rec path in_tag buf c w) as [[[t b] w1]|]; [|done].
    simpl in Hl. apply IH; [done|done|lia].
Qed.

(** Pages in memory: the first character is read again and again. *)
Lemma ssi_memory_endless fuel in_tag buf filep m w r w' :
  membuf filep = Some m -> 0 < size filep ->
  ssi_file_loop fuel rec path in_tag buf filep w = Some (r, w') -> r = false.
Proof.
  intros Hm Hs. revert in_tag buf w. induction fuel as [|fuel IH]; intros in_tag buf w; [by intros [= <- _]|].
  cbn [ssi_file_loop]. unfold mg_fgetc. rewrite Hm, (proj2 (Z.ltb_lt _ _)) by done. cbn [Z.leb andb Z.compare].
  unfold mbind, M_bind. destruct (ssi_char rec path in_tag buf _ w) as [[[t b] w1]|]; [apply IH|done].
Qed.
End ssi.
