(* ===== verification/WinFiles.v ===== *)
(** * Files and directories on Windows

    The functions of src/mongoose.c (lines 1014-1250) that give names and times to
    Windows and make [opendir], [readdir] and [closedir] from its search handles.  The
    functions of Windows are a class; of the conversions between UTF-8 and UTF-16 only
    what its documentation says of ASCII is assumed, where it is needed. *)

From S2P Require Import Prelude CString Options SocketQueue HttpRequest Scanf Conn Os Process Ssl Start MemFiles.

(** [MAX_PATH] *)
Definition PATH_MAX : nat := 260.

(** ** Windows *)

(** [WIN32_FILE_ATTRIBUTE_DATA] *)
Record attribute_data := AttributeData {
  dwFileAttributes : Z;
  dwLowDateTime : Z;                 (* of ftLastWriteTime *)
  dwHighDateTime : Z;
  nFileSizeHigh : Z;
  nFileSizeLow : Z
}.

Definition FILE_ATTRIBUTE_DIRECTORY : Z := 16.
Definition INVALID_HANDLE_VALUE : Z := -1.

(** A wide string is a list of numbers. *)
Class Windows := {
  (* what the buffer of the given size holds after the call *)
  MultiByteToWideChar : bytes -> nat -> list Z;
  (* the second argument is the number of characters, [None] for those up to the NUL *)
  WideCharToMultiByte : list Z -> option nat -> nat -> bytes;
  GetFileAttributesExW : list Z -> option attribute_data;
  GetFileAttributesW : list Z -> option Z;
  DeleteFileW : list Z -> bool;
  CreateDirectoryW : list Z -> bool;
  (* the names that FindFirstFileW and FindNextFileW deliver for a pattern *)
  FindFiles : list Z -> list (list Z);
  FindClose : bool
}.

(** ASCII is the same in UTF-8 and UTF-16, if it fits with its NUL. *)
Definition ascii (s : bytes) : Prop := Forall (fun c => 0 < c < 128) s.
Class AsciiLaws `{Windows} : Prop := {
  wide_ascii s n : ascii s -> (length s < n)%nat -> MultiByteToWideChar s n = s;
  narrow_ascii s k n : ascii s -> (length s < n)%nat -> (default n k <= n)%nat -> WideCharToMultiByte s k n = s
}.

(** ** Names *)

(** The inner loop: [memmove(path + i + 1, path + i + 2, strlen(path + i + 1))] while
    another separator follows. *)
Fixpoint squeeze_loop (n : nat) (path : bytes) (i : nat) : bytes :=
  match n with
  | O => path
  | S n' =>
      if (at_ path (S i) =? c_bslash) || (at_ path (S i) =? c_slash)
      then squeeze_loop n' (take (S i) path ++ drop (S (S i)) path) i
      else path
  end.

Fixpoint slashes_loop (n : nat) (path : bytes) (i : nat) : bytes :=
  match n with
  | O => path
  | S n' =>
      if at_ path i =? 0 then path
      else
        let path := if at_ path i =? c_slash then <[i := c_bslash]> path else path in
        let path := if (at_ path i =? c_bslash) && (0 <? i)%nat then squeeze_loop (length path) path i else path in
        slashes_loop n' path (S i)
  end.

(** Each round of a loop removes a byte or passes one. *)
Definition change_slashes_to_backslashes (path : bytes) : bytes := slashes_loop (length path) path 0.

Section names.
Context `{Windows}.

Definition to_unicode (path : bytes) (wbuf_len : nat) : list Z :=
  let buf := change_slashes_to_backslashes (until_nul (mg_strlcpy path PATH_MAX)) in
  let wbuf := MultiByteToWideChar buf wbuf_len in
  let buf2 := WideCharToMultiByte wbuf (Some wbuf_len) PATH_MAX in
  if streq buf buf2 then wbuf else [].
End names.

(** ** Times *)

Definition MAKEUQUAD (lo hi : Z) : Z := Z.lor (wrap32 lo) (wrap64 (Z.shiftl (wrap32 hi) 32)).
Definition RATE_DIFF : Z := 10000000.
Definition EPOCH_DIFF : Z := MAKEUQUAD 3577643008 27111902.
Definition SYS2UNIX_TIME (lo hi : Z) : Z := int64 (wrap64 (MAKEUQUAD lo hi - EPOCH_DIFF) / RATE_DIFF).

(** *** Windows CE, which has no <time.h> *)

Record SYSTEMTIME := SystemTime { wYear : Z; wMonth : Z; wDayOfWeek : Z; wDay : Z; wHour : Z; wMinute : Z; wSecond : Z }.
Record tm := Tm {
  tm_year : Z; tm_mon : Z; tm_wday : Z; tm_mday : Z; tm_hour : Z; tm_min : Z; tm_sec : Z; tm_yday : Z; tm_isdst : Z
}.

(** A [FILETIME] is its 64 bits. *)
Class WinCE := {
  system_file_time : Z;                      (* GetSystemTime and SystemTimeToFileTime *)
  FileTimeToLocalFileTime : Z -> Z;
  FileTimeToSystemTime : Z -> SYSTEMTIME;
  daylight : bool                            (* GetTimeZoneInformation() == TIME_ZONE_ID_DAYLIGHT *)
}.

Section wince.
Context `{WinCE}.

Definition ce_time : Z := SYS2UNIX_TIME (system_file_time mod 2 ^ 32) (system_file_time / 2 ^ 32).

Definition ce_file_time (ptime : Z) : Z := wrap64 (ptime * RATE_DIFF + EPOCH_DIFF).

Definition ce_localtime (ptime : Z) : tm :=
  let st := FileTimeToSystemTime (FileTimeToLocalFileTime (ce_file_time ptime)) in
  Tm (wYear st - 1900) (wMonth st - 1) (wDayOfWeek st) (wDay st) (wHour st) (wMinute st) (wSecond st) 0
    (if daylight then 1 else 0).

Definition ce_gmtime (ptime : Z) : tm := ce_localtime ptime.
End wince.

(** The result and the string in [dst], which is not ended if it does not fit. *)
Definition ce_strftime (dst_size : nat) : Z * option bytes :=
  let text := B "implement strftime() for WinCE" in
  (0, if (length text <? dst_size)%nat then Some text else None).

(** ** Status of a file *)

(** [None]: the call reads outside of the string, or gives a negative number to
    [isalnum]. *)
Definition path_cannot_disclose_cgi (path : bytes) : option bool :=
  match last path with
  | None => None
  | Some c => if c <? 128 then Some (isalnum c || mem c (B "_-")) else None
  end.

Section files.
Context `{Windows}.
Variable open_file : option (bytes -> option bytes).

Definition mg_stat (path : bytes) (filep : file) : option (bool * file) :=
  let '(mem, filep) := is_file_in_memory open_file path filep in
  let result filep :=
    Some (match membuf filep with Some _ => true | None => negb (modification_time filep =? 0) end, filep) in
  if (mem : bool) then result filep
  else
    match GetFileAttributesExW (to_unicode path PATH_MAX) with
    | None => result filep
    | Some info =>
        let is_dir := negb (Z.land (dwFileAttributes info) FILE_ATTRIBUTE_DIRECTORY =? 0) in
        let filep := File is_dir (SYS2UNIX_TIME (dwLowDateTime info) (dwHighDateTime info))
                       (int64 (MAKEUQUAD (nFileSizeLow info) (nFileSizeHigh info))) (fp filep) (membuf filep) in
        if is_dir then result filep
        else match path_cannot_disclose_cgi path with
             | None => None
             | Some true => result filep
             | Some false => result STRUCT_FILE_INITIALIZER
             end
    end.

Definition mg_remove (path : bytes) : Z := if DeleteFileW (to_unicode path PATH_MAX) then 0 else -1.

Definition mg_mkdir (path : bytes) : Z :=
  let buf := change_slashes_to_backslashes (until_nul (mg_strlcpy path PATH_MAX)) in
  if CreateDirectoryW (MultiByteToWideChar buf PATH_MAX) then 0 else -1.
End files.

(** ** Directories *)

(** [DIR]: the block, the handle, the entry in [info] and those the handle has still to
    deliver. *)
Record DIR := Dir { dir_block : nat; handle : Z; info : list Z; to_come : list (list Z) }.

Section directories.
Context `{Windows} `{Net}.

(** [FindFirstFileW]: a handle and the first entry. *)
Definition FindFirstFileW (b : nat) (pattern : list Z) : P DIR :=
  match FindFiles pattern with
  | [] => mret (Dir b INVALID_HANDLE_VALUE [] [])
  | name :: names => h ← open_fd; mret (Dir b h name names)
  end.

(** The name is not NULL.  The two characters that are appended must fit. *)
Definition opendir (name : bytes) : P (option DIR) :=
  block ← alloc;
  match block with
  | None => mret None
  | Some b =>
      let wpath := to_unicode name PATH_MAX in
      match GetFileAttributesW wpath with
      | Some attrs =>
          if Z.land attrs FILE_ATTRIBUTE_DIRECTORY =? FILE_ATTRIBUTE_DIRECTORY then
            if (length wpath + 2 <? PATH_MAX)%nat then
              dir ← FindFirstFileW b (wpath ++ [c_bslash; c_star]);
              mret (Some dir)
            else misuse
          else _ ← free_ b; mret None
      | None => _ ← free_ b; mret None
      end
  end.

Definition readdir (dir : DIR) : P (option bytes * DIR) :=
  if negb (handle dir =? INVALID_HANDLE_VALUE) then
    let d_name := WideCharToMultiByte (info dir) None PATH_MAX in
    match to_come dir with
    | name :: names => mret (Some d_name, Dir (dir_block dir) (handle dir) name names)
    | [] =>
        _ ← close_fd (handle dir);
        mret (Some d_name, Dir (dir_block dir) INVALID_HANDLE_VALUE (info dir) [])
    end
  else mret (None, dir).

Definition closedir (dir : DIR) : P Z :=
  result ← (if negb (handle dir =? INVALID_HANDLE_VALUE)
            then _ ← close_fd (handle dir); mret (if FindClose then 0 else -1)
            else mret 0);
  _ ← free_ (dir_block dir);
  mret result.

(** The first [n] results of [readdir], or those before [NULL]. *)
Fixpoint read_entries (n : nat) (dir : DIR) : P (list bytes * DIR) :=
  match n with
  | O => mret ([], dir)
  | S n' =>
      '(entry, dir) ← readdir dir;
      match entry with
      | None => mret ([], dir)
      | Some name => '(names, dir) ← read_entries n' dir; mret (name :: names, dir)
      end
  end.

Definition scan_dir (n : nat) (name : bytes) : P (option (list bytes)) :=
  dir ← opendir name;
  match dir with
  | None => mret None
  | Some dir => '(names, dir) ← read_entries n dir; _ ← closedir dir; mret (Some names)
  end.
End directories.

(** ** Separators *)

Definition is_slash (c : Z) : bool := (c =? c_bslash) || (c =? c_slash).
Fixpoint drop_seps (s : bytes) : bytes :=
  match s with c :: s' => if is_slash c then drop_seps s' else s | [] => [] end.

(** Runs of separators become one backslash; [run]: the byte before was one. *)
Fixpoint squash (run : bool) (s : bytes) : bytes :=
  match s with
  | [] => []
  | c :: s' =>
      if is_slash c then if run then squash true s' else c_bslash :: squash true s'
      else c :: squash false s'
  end.

(** The first byte is not part of a run. *)
Definition backslashes (s : bytes) : bytes :=
  match s with [] => [] | c :: s' => (if is_slash c then c_bslash else c) :: squash false s' end.

Lemma at_app_length pre (s : bytes) k : at_ (pre ++ s) (length pre + k) = at_ s k.
Proof. unfold at_. rewrite lookup_app_r by lia. do 2 f_equal. lia. Qed.

Lemma squeeze_loop_spec n pre c rest :
  cstr rest -> (length rest <= n)%nat ->
  squeeze_loop n (pre ++ c :: rest) (length pre) = pre ++ c :: drop_seps rest.
Proof.
  revert rest. induction n as [|n IH]; intros rest Hc Hn; [by destruct rest; simpl in Hn; [|lia]|].
  cbn [squeeze_loop]. rewrite <- Nat.add_1_r, at_app_length.
  destruct rest as [|d rest]; [done|]. cbn [drop_seps]. unfold is_slash. change (at_ (c :: d :: rest) 1) with d.
  destruct (_ || _); [|done]. rewrite take_app_add, drop_app_ge by lia.
  replace (S (length pre + 1) - length pre)%nat with 2%nat by lia. cbn [take drop].
  rewrite <- app_assoc. apply IH; [by inversion Hc|simpl in Hn; lia].
Qed.

Lemma squash_drop_seps s : squash true s = squash false (drop_seps s).
Proof. induction s as [|c s IH]; [done|]. cbn [squash drop_seps]. destruct (is_slash c) eqn:E; [done|]. cbn [squash]. by rewrite E. Qed.

Lemma drop_seps_suffix s : exists k, drop_seps s = drop k s.
Proof.
  induction s as [|c s [k IH]]; [by exists 0%nat|]. cbn [drop_seps]. destruct (is_slash c); [by exists (S k)|by exists 0%nat].
Qed.

Lemma drop_seps_cstr s : cstr s -> cstr (drop_seps s) /\ (length (drop_seps s) <= length s)%nat.
Proof.
  intros Hs. destruct (drop_seps_suffix s) as [k ->]. split; [by apply Forall_drop|rewrite length_drop; lia].
Qed.

(** From the second byte on. *)
Lemma slashes_loop_spec n pre rest :
  pre <> [] -> cstr rest -> (length rest <= n)%nat ->
  slashes_loop n (pre ++ rest) (length pre) = pre ++ squash false rest.
Proof.
  revert pre rest. induction n as [|n IH]; intros pre rest Hp Hc Hn; [by destruct rest; simpl in Hn; [|lia]|].
  cbn [slashes_loop]. destruct rest as [|c rest].
  { replace (at_ (pre ++ []) (length pre)) with 0; [done|]. unfold at_. rewrite app_nil_r.
    by rewrite lookup_ge_None_2 by lia. }
  inversion Hc as [|? ? Hch Hc']. assert ((0 <? length pre)%nat = true) as Hpos
    by (apply Nat.ltb_lt; destruct pre; [done|simpl; lia]).
  assert (forall s, at_ (pre ++ s) (length pre) = at_ s 0) as Hat
    by (intros s; by rewrite <- (at_app_length pre s 0), Nat.add_0_r).
  rewrite (Hat (c :: rest)). change (at_ (c :: rest) 0) with c. cbn [squash]. simpl in Hn.
  destruct (Z.eqb_spec c 0) as [->|_]; [unfold is_char in Hch; lia|].
  destruct (is_slash c) eqn:Es.
  - replace (if c =? c_slash then <[length pre:=c_bslash]> (pre ++ c :: rest) else pre ++ c :: rest)
      with (pre ++ c_bslash :: rest).
    2: { destruct (Z.eqb_spec c c_slash) as [->|Hne]; [by rewrite <- (Nat.add_0_r (length pre)), insert_app_r|].
         unfold is_slash in Es. rewrite (proj2 (Z.eqb_neq _ _) Hne), orb_false_r in Es. by apply Z.eqb_eq in Es as ->. }
    rewrite (Hat (c_bslash :: rest)), Hpos. change (at_ (c_bslash :: rest) 0) with c_bslash. cbn [Z.eqb Pos.eqb andb].
    destruct (drop_seps_cstr rest Hc') as [Hd Hl].
    rewrite squeeze_loop_spec by (try done; rewrite length_app; simpl; lia).
    replace (S (length pre)) with (length (pre ++ [c_bslash])) by (rewrite length_app; simpl; lia).
    rewrite (cons_middle c_bslash), app_assoc, IH, squash_drop_seps, <- app_assoc by (try done; try lia; by destruct pre). done.
  - unfold is_slash in Es. apply orb_false_iff in Es as [Eb Eslash]. rewrite Eslash, (Hat (c :: rest)).
    change (at_ (c :: rest) 0) with c. rewrite Eb. cbn [andb].
    replace (S (length pre)) with (length (pre ++ [c])) by (rewrite length_app; simpl; lia).
    rewrite (cons_middle c), app_assoc, IH, <- app_assoc by (try done; try lia; by destruct pre). done.
Qed.

Lemma change_slashes_eq path : cstr path -> change_slashes_to_backslashes path = backslashes path.
Proof.
  intros Hc. unfold change_slashes_to_backslashes. destruct path as [|c s]; [done|].
  inversion Hc as [|? ? Hch Hs]. cbn [length slashes_loop backslashes]. change (at_ (c :: s) 0) with c.
  destruct (Z.eqb_spec c 0) as [->|_]; [unfold is_char in Hch; lia|].
  replace (if c =? c_slash then <[0%nat:=c_bslash]> (c :: s) else c :: s)
    with ((if is_slash c then c_bslash else c) :: s).
  2: { unfold is_slash. destruct (Z.eqb_spec c c_slash) as [->|]; [done|]. rewrite orb_false_r.
       by destruct (Z.eqb_spec c c_bslash) as [->|]. }
  cbn [Nat.ltb Nat.leb]. rewrite andb_false_r. apply (slashes_loop_spec (length s) [_] s); done.
Qed.

(** No separator but single backslashes. *)
Definition single (run : bool) (s : bytes) : Prop :=
  (c_slash ∉ s) /\ (run = true -> head s <> Some c_bslash) /\
  forall i, s !! i = Some c_bslash -> s !! S i <> Some c_bslash.

Lemma squash_single run s : single run (squash run s).
Proof.
  revert run. induction s as [|c s IH]; intros run.
  { split_and!; [by apply not_elem_of_nil|done|done]. }
  cbn [squash]. destruct (is_slash c) eqn:E; [destruct run|].
  - apply IH.
  - destruct (IH true) as (H1 & H2 & H3). split_and!; [|done|].
    + intros [?|?]%elem_of_cons; done.
    + intros [|i]; [intros _|apply H3]. specialize (H2 eq_refl). by destruct (squash true s).
  - apply orb_false_iff in E as [Eb%Z.eqb_neq Es%Z.eqb_neq].
    destruct (IH false) as (H1 & H2 & H3). split_and!.
    + intros [?|?]%elem_of_cons; [congruence|done].
    + intros _ [= ?]. congruence.
    + intros [|i]; [intros [= ?]; congruence|apply H3].
Qed.

Lemma squash_id run s : single run s -> squash run s = s.
Proof.
  revert run. induction s as [|c s IH]; intros run (H1 & H2 & H3); [done|]. cbn [squash].
  rewrite not_elem_of_cons in H1. destruct H1 as [Hc H1]. unfold is_slash.
  destruct (Z.eqb_spec c c_slash); [congruence|]. rewrite orb_false_r.
  destruct (Z.eqb_spec c c_bslash) as [->|Hb].
  - destruct run; [by destruct (H2 eq_refl)|]. f_equal. apply IH. split_and!; [done| |].
    + intros _. specialize (H3 0%nat eq_refl). by destruct s.
    + intros i. apply (H3 (S i)).
  - f_equal. apply IH. split_and!; [done|done|]. intros i. apply (H3 (S i)).
Qed.

Lemma squash_letters run s :
  List.filter (fun c => negb (is_slash c)) (squash run s) = List.filter (fun c => negb (is_slash c)) s.
Proof.
  revert run. induction s as [|c s IH]; intros run; [done|]. cbn [squash List.filter].
  destruct (is_slash c) eqn:E; [destruct run|]; cbn [List.filter negb]; rewrite ?E; cbn [negb]; by rewrite ?IH.
Qed.

Lemma squash_cstr run s : cstr s -> cstr (squash run s).
Proof.
  revert run. induction s as [|c s IH]; intros run Hs; [done|]. inversion Hs as [|? ? Hc Hs']. cbn [squash].
  destruct (is_slash c); [destruct run|]; try constructor; auto. unfold is_char. lia.
Qed.

(** On Windows the separators of a name are made uniform: for every name,
    [change_slashes_to_backslashes] ends and leaves no slash; after the first byte, which
    is left alone for names like \\server\file, no two backslashes follow each other; the
    other bytes stay as they are and in order; and a name that has been changed is not
    changed again. *)
Theorem change_slashes_normal (path : bytes) :
  cstr path ->
  let r := change_slashes_to_backslashes path in
  (c_slash ∉ r) /\ (forall i, r !! S i = Some c_bslash -> r !! S (S i) <> Some c_bslash) /\
  List.filter (fun c => negb (is_slash c)) r = List.filter (fun c => negb (is_slash c)) path /\
  change_slashes_to_backslashes r = r.
Proof.
  intros Hc r. unfold r. rewrite (change_slashes_eq path) by done. destruct path as [|c s]; [split_and!; [by apply not_elem_of_nil|done..]|].
  inversion Hc as [|? ? Hch Hs]. cbn [backslashes]. set (d := if is_slash c then c_bslash else c).
  destruct (squash_single false s) as (H1 & H2 & H3).
  assert (d <> c_slash /\ is_char d /\ is_slash d = is_slash c /\ (if is_slash d then c_bslash else d) = d) as (Hd & Hdc & Hds & Hdd).
  { unfold d. destruct (is_slash c) eqn:E; [done|]. split_and!; [|done|done|by rewrite E].
    intros ->. done. }
  split_and!.
  - intros [?|?]%elem_of_cons; congruence.
  - intros i. apply H3.
  - cbn [List.filter]. rewrite Hds, squash_letters. unfold d. by destruct (is_slash c).
  - rewrite change_slashes_eq by (constructor; [done|by apply squash_cstr]). cbn [backslashes].
    by rewrite Hdd, squash_id by apply squash_single.
Qed.

Lemma change_slashes_normal_witness :
  change_slashes_to_backslashes (change_slashes_to_backslashes (B "//srv//a/\b"))
  = change_slashes_to_backslashes (B "//srv//a/\b").
Proof. apply (change_slashes_normal (B "//srv//a/\b")). repeat constructor. Defined.

Example change_slashes_1 : change_slashes_to_backslashes (B "//srv//a/\b") = B "\\srv\a\b".
Proof. by_eval. Qed.

(** ** Names for Windows *)

(** A name that is not rejected stands for one name in bytes: what it is converted back
    to.  So no second spelling in UTF-8, of a dot or a backslash, passes. *)
Lemma to_unicode_sound `{Windows} path n :
  to_unicode path n <> [] ->
  WideCharToMultiByte (to_unicode path n) (Some n) PATH_MAX
  = change_slashes_to_backslashes (until_nul (mg_strlcpy path PATH_MAX)).
Proof. unfold to_unicode. destruct (streq _ _) eqn:E; [intros _|done]. by apply streq_true in E. Qed.

Lemma until_nul_strlcpy path n : cstr path -> (length path < n)%nat -> until_nul (mg_strlcpy path n) = path.
Proof. intros Hc Hl. rewrite mg_strlcpy_fits by done. by apply until_nul_cstr. Qed.

Lemma squash_length run s : (length (squash run s) <= length s)%nat.
Proof.
  revert run. induction s as [|c s IH]; intros run; [done|]. cbn [squash length].
  pose proof (IH true). pose proof (IH false). destruct (is_slash c); [destruct run|]; simpl; lia.
Qed.

Lemma backslashes_ascii s : ascii s -> ascii (backslashes s) /\ (length (backslashes s) <= length s)%nat.
Proof.
  intros Hs. destruct Hs as [|c s Hc Hs]; [by repeat constructor|]. cbn [backslashes].
  split; [|pose proof (squash_length false s); simpl; lia]. constructor; [destruct (is_slash c); lia|].
  generalize false. induction Hs as [|d s Hd Hs IH]; intros run; cbn [squash]; [constructor|].
  destruct (is_slash d); [destruct run|]; try constructor; try done; lia.
Qed.

(** Names in ASCII that fit are passed on. *)
Lemma to_unicode_ascii `{Windows, !AsciiLaws} path :
  ascii path -> (length path < PATH_MAX)%nat -> to_unicode path PATH_MAX = backslashes path.
Proof.
  intros Ha Hl. assert (cstr path) as Hc by (eapply Forall_impl; [exact Ha|]; unfold is_char; simpl; lia).
  destruct (backslashes_ascii path Ha) as [Hb Hbl].
  unfold to_unicode. rewrite until_nul_strlcpy, change_slashes_eq by done.
  rewrite wide_ascii, narrow_ascii by (done || simpl; lia). by rewrite streq_refl.
Qed.

(** ** Times *)

Lemma MAKEUQUAD_split n : 0 <= n < 2 ^ 64 -> MAKEUQUAD (n mod 2 ^ 32) (n / 2 ^ 32) = n.
Proof.
  intros Hn. unfold MAKEUQUAD, wrap64. change (2 ^ 64) with 18446744073709551616 in *.
  assert (0 <= n / 2 ^ 32 < 2 ^ 32 /\ 0 <= n mod 2 ^ 32 < 2 ^ 32 /\ n = n / 2 ^ 32 * 2 ^ 32 + n mod 2 ^ 32) as (Hq & Hr & E)
    by (change (2 ^ 32) with 4294967296; Z.to_euclidean_division_equations; lia).
  rewrite !wrap32_small by done.
  rewrite (Z.mod_small (Z.shiftl _ _)) by (rewrite Z.shiftl_mul_pow2; lia). by rewrite Z.lor_comm, lor_shiftl by lia.
Qed.

Lemma EPOCH_DIFF_eq : EPOCH_DIFF = 116444736000000000.
Proof. by_eval. Qed.

(** A time of Windows, in units of 100 ns since 1601, as the seconds since 1970; a time
    before 1970 becomes a huge one. *)
Lemma sys2unix_time ft :
  0 <= ft < 2 ^ 64 ->
  SYS2UNIX_TIME (ft mod 2 ^ 32) (ft / 2 ^ 32)
  = if EPOCH_DIFF <=? ft then (ft - EPOCH_DIFF) / 10000000 else (2 ^ 64 + ft - EPOCH_DIFF) / 10000000.
Proof.
  intros Hft. unfold SYS2UNIX_TIME, RATE_DIFF. rewrite MAKEUQUAD_split by done. rewrite EPOCH_DIFF_eq.
  unfold wrap64. destruct (Z.leb_spec 116444736000000000 ft).
  - rewrite Z.mod_small by lia. apply int64_small. Z.to_euclidean_division_equations. lia.
  - rewrite <- (Z.mod_unique (ft - 116444736000000000) (2 ^ 64) (-1) (2 ^ 64 + ft - 116444736000000000)) by lia.
    apply int64_small. Z.to_euclidean_division_equations. lia.
Qed.

(** The two conversions are inverse to each other. *)
Lemma ce_time_roundtrip t :
  0 <= t < 10 ^ 12 -> SYS2UNIX_TIME (ce_file_time t mod 2 ^ 32) (ce_file_time t / 2 ^ 32) = t.
Proof.
  intros Ht. unfold ce_file_time, wrap64, RATE_DIFF. rewrite EPOCH_DIFF_eq.
  rewrite (Z.mod_small (t * 10000000 + 116444736000000000)) by lia.
  rewrite sys2unix_time, EPOCH_DIFF_eq by lia. rewrite (proj2 (Z.leb_le _ _)) by lia.
  replace (t * 10000000 + 116444736000000000 - 116444736000000000) with (t * 10000000) by lia. by apply Z.div_mul.
Qed.

(** [gmtime] gives the local time: in a zone an hour east of Greenwich, 0 is one o'clock. *)
Lemma ce_gmtime_local :
  let ce := {| system_file_time := 0; FileTimeToLocalFileTime ft := ft + 3600 * RATE_DIFF;
               FileTimeToSystemTime ft := SystemTime 1970 1 4 1 ((ft - EPOCH_DIFF) / RATE_DIFF / 3600) 0 0;
               daylight := false |} in
  tm_hour (@ce_gmtime ce 0) = 1.
Proof. by_eval. Qed.

(** ** What is served *)

(** C21. On Windows a file is found only under a name that ends in a letter, a digit, an
    underscore or a dash: names like "a.cgi " and "a.cgi.", which Windows opens
    as "a.cgi", are not found and leave no trace in the [struct file].  For every other
    name of an existing file the size and the time are those of Windows. *)
Theorem win_stat_names `{Windows} (open_file : option (bytes -> option bytes)) (path : bytes) (a : attribute_data) (c size mtime : Z) :
  open_file ≫= (fun f => f path) = None -> last path = Some c -> c < 128 ->
  GetFileAttributesExW (to_unicode path PATH_MAX) = Some a ->
  Z.land (dwFileAttributes a) FILE_ATTRIBUTE_DIRECTORY = 0 ->
  0 <= size < 2 ^ 63 -> nFileSizeLow a = size mod 2 ^ 32 -> nFileSizeHigh a = size / 2 ^ 32 ->
  EPOCH_DIFF <= mtime < 2 ^ 64 -> dwLowDateTime a = mtime mod 2 ^ 32 -> dwHighDateTime a = mtime / 2 ^ 32 ->
  mg_stat open_file path STRUCT_FILE_INITIALIZER
  = if isalnum c || (c =? 95) || (c =? c_minus)
    then Some (negb ((mtime - EPOCH_DIFF) / 10000000 =? 0), File false ((mtime - EPOCH_DIFF) / 10000000) size None None)
    else Some (false, STRUCT_FILE_INITIALIZER).
Proof.
  intros Ho Hl Hc Ha Hd Hs Hlo Hhi Ht Htl Hth. pose proof EPOCH_DIFF_eq. unfold mg_stat, is_file_in_memory, path_cannot_disclose_cgi.
  rewrite Ho, Ha, Hd, Hl, (proj2 (Z.ltb_lt _ _)) by done. cbn [Z.eqb negb].
  rewrite Hlo, Hhi, Htl, Hth, MAKEUQUAD_split, sys2unix_time, int64_small by lia.
  rewrite (proj2 (Z.leb_le _ _)) by lia.
  replace (mem c (B "_-")) with ((c =? 95) || (c =? c_minus)) by (unfold mem; simpl; by rewrite orb_false_r).
  rewrite orb_assoc. by destruct (isalnum c || _ || _).
Qed.

(** A Windows with one file and one directory, where only ASCII is converted. *)
Definition small_windows (file : bytes) (a : attribute_data) (dir : bytes) (names : list bytes) : Windows := {|
  MultiByteToWideChar s n := take (n - 1) s;
  WideCharToMultiByte s _ n := take (n - 1) s;
  GetFileAttributesExW s := if streq s file then Some a else None;
  GetFileAttributesW s := if streq s dir then Some 16 else if streq s file then Some 0 else None;
  DeleteFileW s := streq s file;
  CreateDirectoryW s := negb (streq s dir);
  FindFiles s := if streq s (dir ++ B "\*") then names else [];
  FindClose := true
|}.

Lemma small_windows_laws file a dir names : @AsciiLaws (small_windows file a dir names).
Proof. constructor; intros; by apply take_ge; lia. Qed.

Definition some_data : attribute_data :=
  AttributeData 32 ((EPOCH_DIFF + 10 ^ 16) mod 2 ^ 32) ((EPOCH_DIFF + 10 ^ 16) / 2 ^ 32) 0 7.

Lemma win_stat_names_witness :
  @mg_stat (small_windows (B "w\a.txt") some_data [] []) None (B "w/a.txt") STRUCT_FILE_INITIALIZER
    = Some (true, File false (10 ^ 9) 7 None None) /\
  @mg_stat (small_windows (B "w\a.cgi.") some_data [] []) None (B "w/a.cgi.") STRUCT_FILE_INITIALIZER
    = Some (false, STRUCT_FILE_INITIALIZER).
Proof.
  split.
  - exact (@win_stat_names (small_windows (B "w\a.txt") some_data [] []) None (B "w/a.txt") some_data 116 7
      (EPOCH_DIFF + 10 ^ 16) eq_refl eq_refl eq_refl eq_refl eq_refl ltac:(by vm_compute) eq_refl eq_refl
      ltac:(by vm_compute) eq_refl eq_refl).
  - exact (@win_stat_names (small_windows (B "w\a.cgi.") some_data [] []) None (B "w/a.cgi.") some_data 46 7
      (EPOCH_DIFF + 10 ^ 16) eq_refl eq_refl eq_refl eq_refl eq_refl ltac:(by vm_compute) eq_refl eq_refl
      ltac:(by vm_compute) eq_refl eq_refl).
Defined.

(** The name of the default stream of a file passes: it ends in a letter, and Windows opens
    the file. *)
Lemma default_stream_passes : path_cannot_disclose_cgi (B "w/a.cgi::$DATA") = Some true.
Proof. by_eval. Qed.

(** The test reads in front of an empty string, and gives a negative number to [isalnum]
    for a name that ends in a letter outside of ASCII. *)
Lemma disclose_undefined path c : 128 <= c -> path_cannot_disclose_cgi [] = None /\ path_cannot_disclose_cgi (path ++ [c]) = None.
Proof.
  intros Hc. split; [done|]. unfold path_cannot_disclose_cgi. rewrite last_snoc. by destruct (Z.ltb_spec c 128); [lia|].
Qed.

(** Unlike on Unix, a [struct file] that was used before keeps its time when the file is
    not there, and the file counts as found. *)
Lemma win_stat_stale `{Windows} path filep :
  GetFileAttributesExW (to_unicode path PATH_MAX) = None -> modification_time filep <> 0 ->
  exists filep', mg_stat None path filep = Some (true, filep').
Proof.
  intros Ha Ht. unfold mg_stat, is_file_in_memory. cbn [mbind option_bind]. rewrite Ha.
  cbn [membuf modification_time]. rewrite (proj2 (Z.eqb_neq _ _)) by done. by eexists.
Qed.

(** ** Directories *)

Section scan.
Context `{Windows} `{Net} (p0 : proc).

Definition entry_name (w : list Z) : bytes := WideCharToMultiByte w None PATH_MAX.

(** What [readdir] has still to deliver, and the process with the handle that is open. *)
Definition dir_entries (dir : DIR) : list (list Z) :=
  if handle dir =? INVALID_HANDLE_VALUE then [] else info dir :: to_come dir.
Definition dir_handles (dir : DIR) : list Z := if handle dir =? INVALID_HANDLE_VALUE then [] else [handle dir].
Definition dir_ok (dir : DIR) : Prop := handle dir = INVALID_HANDLE_VALUE \/ 0 <= handle dir.
Definition owns_dir v (dir : DIR) : proc -> Prop := owns p0 [dir_block dir] (dir_handles dir) v.

Lemma readdir_rule v dir :
  dir_ok dir ->
  triple (owns_dir v dir) (readdir dir)
    (fun '(entry, dir') p => dir_ok dir' /\ owns_dir v dir' p /\ entry = entry_name <$> head (dir_entries dir) /\
       dir_entries dir' = tail (dir_entries dir)).
Proof.
  intros Hok. unfold readdir, owns_dir, dir_handles, dir_entries, INVALID_HANDLE_VALUE in *.
  destruct (Z.eqb_spec (handle dir) (-1)) as [E|E]; cbn [negb].
  { intros p Hp. eexists _, _. split; [done|]. cbn [head tail]. rewrite E. by split_and!. }
  assert (0 <= handle dir) as Hh by (destruct Hok; [done|done]).
  destruct (to_come dir) as [|n ns] eqn:En.
  - eapply triple_bind; [by apply close_rule|]. intros [] p Hp. eexists _, _. split; [done|].
    unfold dir_ok. cbn. split_and!; [by left|done|done|done].
  - intros p Hp. eexists _, _. split; [done|]. unfold dir_ok. cbn [handle dir_block info to_come].
    rewrite (proj2 (Z.eqb_neq _ _)) by done. cbn. by split_and!; [right| | |].
Qed.

Lemma read_entries_rule v n dir :
  dir_ok dir ->
  triple (owns_dir v dir) (read_entries n dir)
    (fun '(names, dir') p => dir_ok dir' /\ owns_dir v dir' p /\ names = map entry_name (take n (dir_entries dir))).
Proof.
  revert dir. induction n as [|n IH]; intros dir Hok; cbn [read_entries].
  { intros p Hp. eexists _, _. split; [done|]. by split_and!. }
  eapply triple_bind; [by apply readdir_rule|]. intros [entry dir'].
  apply triple_and. intros Hok' p (Hp & -> & Hd).
  destruct (dir_entries dir) as [|w ws] eqn:E; cbn [head fmap option_fmap option_map].
  { eexists _, _. split; [done|]. by split_and!. }
  simpl in Hd.
  destruct (IH dir' Hok' p Hp) as ([names dir''] & p' & Er & Hok'' & Hp' & ->). cbn [fmap option_fmap option_map].
  unfold mbind, P_bind. rewrite Er. eexists _, _. split; [done|]. rewrite Hd. by split_and!.
Qed.

Lemma closedir_rule v dir :
  dir_ok dir -> triple (owns_dir v dir) (closedir dir) (fun _ => owns p0 [] [] v).
Proof.
  intros Hok. unfold closedir, owns_dir, dir_handles, INVALID_HANDLE_VALUE in *.
  eapply (triple_bind _ _ _ (fun _ => owns p0 [dir_block dir] [] v)).
  - destruct (Z.eqb_spec (handle dir) (-1)) as [E|E]; cbn [negb].
    + intros p Hp. by eexists _, _.
    + eapply triple_bind; [apply close_rule; [destruct Hok; done|done]|]. intros [] p Hp. by eexists _, _.
  - intros r. eapply triple_bind; [by apply free_rule|]. intros [] p Hp. by eexists _, _.
Qed.

Lemma opendir_rule v name attrs :
  grants p0 = [] -> GetFileAttributesW (to_unicode name PATH_MAX) = Some attrs ->
  Z.land attrs FILE_ATTRIBUTE_DIRECTORY = FILE_ATTRIBUTE_DIRECTORY ->
  (length (to_unicode name PATH_MAX) + 2 < PATH_MAX)%nat ->
  triple (owns p0 [] [] v) (opendir name)
    (fun r p => exists dir, r = Some dir /\ dir_ok dir /\ owns_dir v dir p /\
       dir_entries dir = FindFiles (to_unicode name PATH_MAX ++ [c_bslash; c_star])).
Proof.
  intros Hg Ha Hd Hl. unfold opendir. rewrite Ha, Hd, Z.eqb_refl, (proj2 (Nat.ltb_lt _ _) Hl).
  eapply triple_bind; [apply alloc_rule|]. intros [b|]; [|intros p [_ ?]; done].
  unfold FindFirstFileW. destruct (FindFiles _) as [|w ws].
  - intros p Hp. eexists _, _. split; [done|]. eexists. split; [done|]. split_and!; [by left|done|done].
  - intros p Hp. destruct (open_fd_rule p0 [b] [] v p Hp) as (h & p' & E & Hh & Hp').
    unfold mbind, P_bind. rewrite E. eexists _, _. split; [done|]. eexists. split; [done|].
    unfold owns_dir, dir_handles, dir_entries, INVALID_HANDLE_VALUE, dir_ok. cbn [handle dir_block info to_come].
    rewrite (proj2 (Z.eqb_neq _ _)) by lia. by split_and!; [right| |].
Qed.
End scan.

(** C17. A directory can be read on Windows as on Unix: for a name that Windows knows as a
    directory and that leaves room for the pattern, [opendir], any number of calls of
    [readdir] and [closedir] deliver the entries that Windows finds, in order and each
    once, up to that number; and whether the scan is cut short or runs to the end, the
    search handle is closed once and the memory is freed. *)
Theorem win_directory_scan `{Windows} `{Net} (p0 : proc) (name : bytes) (attrs : Z) (n : nat) (v : ssl_state) :
  grants p0 = [] -> GetFileAttributesW (to_unicode name PATH_MAX) = Some attrs ->
  Z.land attrs FILE_ATTRIBUTE_DIRECTORY = FILE_ATTRIBUTE_DIRECTORY ->
  (length (to_unicode name PATH_MAX) + 2 < PATH_MAX)%nat ->
  triple (owns p0 [] [] v) (scan_dir n name)
    (fun r p => owns p0 [] [] v p /\
       r = Some (map entry_name (take n (FindFiles (to_unicode name PATH_MAX ++ [c_bslash; c_star]))))).
Proof.
  intros Hg Ha Hd Hl. unfold scan_dir. eapply triple_bind; [by eapply opendir_rule|]. intros r.
  apply triple_ex. intros dir. apply triple_and. intros ->. apply triple_and. intros Hok p (Hp & <-).
  revert p Hp. eapply triple_bind; [by apply read_entries_rule|]. intros [names dir'].
  apply triple_and. intros Hok'. intros p [Hp ->].
  destruct (closedir_rule p0 v dir' Hok' p Hp) as (z & p' & E & Hp'). unfold mbind, P_bind. rewrite E. by eexists _, _.
Qed.

Lemma win_directory_scan_witness :
  let win := small_windows [] some_data (B "w\d") [B "."; B ".."; B "a.txt"] in
  triple (owns new_proc [] [] (p_ssl new_proc)) (@scan_dir win simple_net 2 (B "w/d"))
    (fun r p => owns new_proc [] [] (p_ssl new_proc) p /\ r = Some [B "."; B ".."]).
Proof.
  intros win. exact (@win_directory_scan win simple_net new_proc (B "w/d") 16 2 (p_ssl new_proc)
    eq_refl eq_refl eq_refl ltac:(apply Nat.ltb_lt; reflexivity)).
Defined.

(** Other names give NULL, and nothing stays allocated. *)
Lemma opendir_missing `{Windows} `{Net} (p0 : proc) name v :
  match GetFileAttributesW (to_unicode name PATH_MAX) with
  | Some attrs => Z.land attrs FILE_ATTRIBUTE_DIRECTORY <> FILE_ATTRIBUTE_DIRECTORY
  | None => True
  end ->
  triple (owns p0 [] [] v) (opendir name) (fun r p => r = None /\ owns p0 [] [] v p).
Proof.
  intros Ha. unfold opendir. eapply triple_bind; [apply alloc_rule|].
  intros [b|]; [|intros p [Hp _]; by eexists _, _].
  destruct (GetFileAttributesW _) as [attrs|]; [rewrite (proj2 (Z.eqb_neq _ _)) by done|];
    (eapply triple_bind; [by apply free_rule|]; intros [] p Hp; by eexists _, _).
Qed.

(** The pattern is appended to a buffer of [PATH_MAX] characters without a test. *)
Lemma opendir_overflow `{Windows} `{Net} name attrs p :
  grants p = [] -> GetFileAttributesW (to_unicode name PATH_MAX) = Some attrs ->
  Z.land attrs FILE_ATTRIBUTE_DIRECTORY = FILE_ATTRIBUTE_DIRECTORY ->
  (PATH_MAX <= length (to_unicode name PATH_MAX) + 2)%nat -> opendir name p = None.
Proof.
  intros Hg Ha Hd Hl. unfold opendir, mbind, P_bind, alloc. rewrite Hg. cbn [head default].
  by rewrite Ha, Hd, Z.eqb_refl, (proj2 (Nat.ltb_ge _ _) Hl).
Qed.
