(* ===== verification/WinProcess.v ===== *)
(** * Processes, handles and [poll] on Windows

    The rest of the Windows half of src/mongoose.c: the handles behind mutexes and
    condition variables, [poll] made from [select], [spawn_process] with the interpreter
    line of a script, and [kill].  Handles are counted like descriptors. *)

From S2P Require Import Prelude CString Options SocketQueue HttpRequest Scanf Conn Os Process Ssl Start Worker MemFiles WinFiles.

(** ** Windows *)

Class WinProc := {
  CreateMutex_works : bool;
  CreateEvent_works : bool -> bool;             (* the argument tells the two apart *)
  beginthread : Z;                              (* the result of _beginthread *)
  wfopen : list Z -> option bytes;              (* for reading, and the contents *)
  LoadLibraryW : list Z -> option Z;
  DuplicateHandle : Z -> bool;
  GetFullPathNameA : bytes -> bytes;
  CreateProcessA : bytes -> list bytes -> bool; (* command line and environment *)
  GetLastError : Z
}.

(** NULL is [None]; closing it fails without harm. *)
Definition CloseHandle (h : option Z) : P bool :=
  match h with Some h => _ ← close_fd h; mret true | None => mret false end.

Section handles.
Context `{WinProc} `{Net}.

Definition new_handle (works : bool) : P (option Z) := if works then h ← open_fd; mret (Some h) else mret None.

(** ** Mutexes and condition variables *)

Definition pthread_mutex_init : P (Z * option Z) :=
  mutex ← new_handle CreateMutex_works;
  mret (match mutex with None => -1 | Some _ => 0 end, mutex).

Definition pthread_mutex_destroy (mutex : option Z) : P Z :=
  ok ← CloseHandle mutex;
  mret (if (ok : bool) then 0 else -1).

(** The handles [signal] and [broadcast]. *)
Definition cond_init : P (Z * (option Z * option Z)) :=
  signal ← new_handle (CreateEvent_works false);
  broadcast ← new_handle (CreateEvent_works true);
  mret (match signal, broadcast with Some _, Some _ => 0 | _, _ => -1 end, (signal, broadcast)).

(** The second handle is closed if closing the first has worked. *)
Definition pthread_cond_destroy (cv : option Z * option Z) : P Z :=
  ok ← CloseHandle (fst cv);
  if (ok : bool) then
    ok ← CloseHandle (snd cv);
    mret (if (ok : bool) then 0 else -1)
  else mret (-1).

(** ** Threads and libraries *)

(** [long] has 32 bits. *)
Definition mg_start_thread : Z := if int32 beginthread =? -1 then -1 else 0.

Definition dlopen `{Windows} (dll_name : bytes) : option Z := LoadLibraryW (to_unicode dll_name PATH_MAX).

(** ** poll *)

(** [fd_set] of Winsock: a list of at most [FD_SETSIZE] sockets. *)
Definition FD_SETSIZE : nat := 64.
Definition FD_SET (fd : Z) (set : list Z) : list Z :=
  if mem fd set then set else if (length set <? FD_SETSIZE)%nat then set ++ [fd] else set.

Record pollfd := PollFd { pfd_fd : Z; revents : Z }.
Definition POLLIN : Z := 1.

Fixpoint poll_fill (pfd : list pollfd) (set : list Z) (maxfd : Z) : list pollfd * list Z * Z :=
  match pfd with
  | [] => ([], set, maxfd)
  | f :: pfd' =>
      let '(fs, set, maxfd) :=
        poll_fill pfd' (FD_SET (pfd_fd f) set) (if maxfd <? pfd_fd f then pfd_fd f else maxfd) in
      (PollFd (pfd_fd f) 0 :: fs, set, maxfd)
  end.

(** [select] gives its result and the set of sockets that are ready. *)
Definition poll (select : Z -> list Z -> Z -> Z -> Z * list Z) (pfd : list pollfd) (milliseconds : Z) : Z * list pollfd :=
  let tv_sec := Z.quot milliseconds 1000 in
  let tv_usec := Z.rem milliseconds 1000 * 1000 in
  let '(pfd, set, maxfd) := poll_fill pfd [] 0 in
  let '(result, ready) := select (maxfd + 1) set tv_sec tv_usec in
  (result,
   if 0 <? result then map (fun f => if mem (pfd_fd f) ready then PollFd (pfd_fd f) POLLIN else f) pfd else pfd).

(** ** CGI programs *)

(** [TerminateProcess] and [CloseHandle] *)
Definition kill (pid : Z) : P Z :=
  _ ← p_emit (FxKill pid);
  _ ← close_fd pid;
  mret 0.
End handles.

Fixpoint trim_loop (n : nat) (s : bytes) (e : nat) : bytes :=
  match n with
  | O => s
  | S n' => if (0 <? e)%nat && isspace (at_ s e) then trim_loop n' (take e s) (pred e) else s
  end.
Definition trim_trailing_whitespaces (s : bytes) : bytes := trim_loop (length s) s (length s - 1).

Section spawn.
Context `{OS} `{Windows} `{WinProc} `{Net}.
Variable open_file : option (bytes -> option bytes).

(** [mg_fopen] with the mode ["r"] *)
Definition mg_fopen (path : bytes) (filep : file) : bool * file :=
  let '(mem, filep) := is_file_in_memory open_file path filep in
  let filep :=
    if (mem : bool) then filep
    else File (is_directory filep) (modification_time filep) (size filep) (wfopen (to_unicode path PATH_MAX))
           (membuf filep) in
  (is_file_opened filep, filep).

(** What is in [buf] when the first line of the script has been read; the stream is closed
    again.  [_snprintf] does not end a string that does not fit. *)
Definition first_line (dir prog : bytes) : option bytes :=
  let cmdline := dir ++ B "/" ++ prog in
  if (PATH_MAX <=? length cmdline)%nat then None
  else
    let '(opened, filep) := mg_fopen cmdline STRUCT_FILE_INITIALIZER in
    if (opened : bool) then
      match mg_fgets PATH_MAX filep (match membuf filep with Some _ => Some 0%nat | None => None end) with
      | None => None
      | Some (_, stored, _, _) => Some (until_nul (default [] stored))
      end
    else Some [].

Definition interpreter (config : option bytes) (dir prog : bytes) : option bytes :=
  match config with
  | Some interp => Some interp
  | None =>
      match first_line dir prog with
      | None => None
      | Some buf => Some (if starts_with buf (B "#!") then trim_trailing_whitespaces (drop 2 buf) else [])
      end
  end.

Definition command_line (interp dir prog : bytes) : bytes :=
  let interp := match interp with [] => [] | _ => GetFullPathNameA interp end in
  mg_snprintf PATH_MAX
    (interp ++ (match interp with [] => [] | _ => B " " end) ++ GetFullPathNameA dir ++ B "\" ++ prog).

(** The handles that are closed in every case. *)
Definition spawn_close (fd_stdin fd_stdout : Z) (hStdOutput hStdInput hThread : option Z) : P unit :=
  _ ← close_fd fd_stdin;
  _ ← close_fd fd_stdout;
  _ ← CloseHandle hStdOutput;
  _ ← CloseHandle hStdInput;
  _ ← CloseHandle hThread;
  mret tt.

(** The handle of the process, [None] for -1.  The program is started in the directory of
    the server. *)
Definition spawn_process (prog : bytes) (envblk : list bytes) (fd_stdin fd_stdout : Z) (dir : bytes) : W (option Z) :=
  hStdInput ← on_proc (new_handle (DuplicateHandle fd_stdin));
  hStdOutput ← on_proc (new_handle (DuplicateHandle fd_stdout));
  c ← on_world get_conn;
  match interpreter (cfg (config_of c) CGI_INTERPRETER) dir prog with
  | None => on_world abort
  | Some interp =>
      let cmdline := command_line interp dir prog in
      let created := CreateProcessA cmdline envblk in
      hProcess ← on_proc (new_handle created);
      hThread ← on_proc (new_handle created);
      _ ← on_world (if created then emit (FxExec [cmdline] envblk [])
                    else cry (B "spawn_process: CreateProcess(" ++ cmdline ++ B "): " ++ dec GetLastError));
      _ ← on_proc (spawn_close fd_stdin fd_stdout hStdOutput hStdInput hThread);
      mret hProcess
  end.
End spawn.

(** ** poll reports what is ready *)

Lemma poll_fill_set pfd set maxfd :
  (length set + length pfd <= FD_SETSIZE)%nat ->
  let '(fs, set', _) := poll_fill pfd set maxfd in
  fs = map (fun f => PollFd (pfd_fd f) 0) pfd /\ (forall fd, fd ∈ set' <-> fd ∈ set \/ fd ∈ map pfd_fd pfd).
Proof.
  revert set maxfd. induction pfd as [|f pfd IH]; intros set maxfd Hl; cbn [poll_fill map].
  { split; [done|]. intros fd. rewrite elem_of_nil. tauto. }
  simpl in Hl. assert (forall fd, fd ∈ FD_SET (pfd_fd f) set <-> fd ∈ set \/ fd = pfd_fd f) as Hset.
  { intros fd. unfold FD_SET. destruct (mem (pfd_fd f) set) eqn:Em.
    - apply mem_true in Em. split; [by left|]. by intros [| ->].
    - rewrite (proj2 (Nat.ltb_lt _ _)) by lia. by rewrite elem_of_app, list_elem_of_singleton. }
  assert (length (FD_SET (pfd_fd f) set) + length pfd <= FD_SETSIZE)%nat as Hl'.
  { unfold FD_SET. repeat case_match; rewrite ?length_app; simpl; lia. }
  specialize (IH (FD_SET (pfd_fd f) set) (if maxfd <? pfd_fd f then pfd_fd f else maxfd) Hl').
  destruct (poll_fill _ _ _) as [[fs set'] m]. destruct IH as [-> IH]. split; [done|].
  intros fd. rewrite IH, Hset, elem_of_cons. tauto.
Qed.

(** Up to 64 sockets: those are marked that can be read. *)
Lemma poll_reports (readable : Z -> bool) select pfd ms :
  (forall n set sec usec, select n set sec usec
    = (Z.of_nat (length (List.filter readable set)), List.filter readable set)) ->
  (length pfd <= FD_SETSIZE)%nat ->
  snd (poll select pfd ms) = map (fun f => PollFd (pfd_fd f) (if readable (pfd_fd f) then POLLIN else 0)) pfd.
Proof.
  intros Hsel Hl. unfold poll. pose proof (poll_fill_set pfd [] 0 Hl) as Hf.
  destruct (poll_fill pfd [] 0) as [[fs set] m]. destruct Hf as [-> Hset]. rewrite Hsel. cbn [snd].
  assert (forall f, f ∈ pfd -> mem (pfd_fd f) (List.filter readable set) = readable (pfd_fd f)) as Hmem.
  { intros f Hin. assert (pfd_fd f ∈ set) as Hs
      by (apply Hset; right; by apply list_elem_of_In, in_map, list_elem_of_In).
    destruct (readable (pfd_fd f)) eqn:E; [apply mem_true|apply mem_false];
      rewrite list_elem_of_In, filter_In, <- list_elem_of_In; [done|]. intros [_ ?]. congruence. }
  destruct (Z.ltb_spec 0 (Z.of_nat (length (List.filter readable set)))) as [Hp|Hp].
  - rewrite map_map. apply map_ext_in. intros f Hin. rewrite <- list_elem_of_In in Hin. cbn [pfd_fd].
    rewrite (Hmem f Hin). by destruct (readable (pfd_fd f)).
  - apply map_ext_in. intros f Hin. rewrite <- list_elem_of_In in Hin. rewrite <- (Hmem f Hin).
    destruct (List.filter readable set); [done|simpl in Hp; lia].
Qed.

(** The 65th socket is not watched. *)
Lemma poll_65 :
  let pfd := map (fun k => PollFd (Z.of_nat k) 0) (seq 3 65) in
  let select _ set (_ _ : Z) := (Z.of_nat (length (List.filter (Z.eqb 67) set)), List.filter (Z.eqb 67) set) in
  revents <$> last (snd (poll select pfd 200)) = Some 0.
Proof. by_eval. Qed.

(** ** Trailing white space *)

Lemma trim_loop_spec n c s :
  (length s <= n)%nat ->
  exists t ws, trim_loop n (c :: s) (length s) = c :: t /\ s = t ++ ws /\ Forall (fun c => isspace c = true) ws /\
    match last t with Some d => isspace d = false | None => True end.
Proof.
  revert s. induction n as [|n IH] using nat_ind; intros s Hn.
  { destruct s; [|simpl in Hn; lia]. exists [], []. by repeat constructor. }
  cbn [trim_loop]. destruct s as [|d s _] using rev_ind.
  { exists [], []. by repeat constructor. }
  rewrite length_app in *. simpl in Hn. cbn [length]. rewrite Nat.add_1_r. cbn [Nat.ltb Nat.leb andb pred].
  assert (at_ (c :: s ++ [d]) (S (length s)) = d) as Hat.
  { change (at_ (s ++ [d]) (length s) = d). unfold at_. by rewrite lookup_app_r, Nat.sub_diag by lia. }
  rewrite Hat. destruct (isspace d) eqn:Ed.
  - cbn [take]. rewrite take_app_length. destruct (IH s) as (t & ws & E & -> & Hws & Hl); [lia|].
    exists t, (ws ++ [d]). split_and!; [done|by rewrite app_assoc|by apply Forall_app; split; [|constructor]|done].
  - exists (s ++ [d]), []. split_and!; [done|by rewrite app_nil_r|done|]. by rewrite last_snoc.
Qed.

(** The first byte stays, whatever it is. *)
Lemma trim_spec c s :
  exists t ws, trim_trailing_whitespaces (c :: s) = c :: t /\ s = t ++ ws /\
    Forall (fun c => isspace c = true) ws /\ match last t with Some d => isspace d = false | None => True end.
Proof.
  unfold trim_trailing_whitespaces. cbn [length]. rewrite Nat.sub_succ, Nat.sub_0_r.
  apply (trim_loop_spec (S (length s)) c s). lia.
Qed.

(** What comes before the white space is determined. *)
Lemma trailing_unique (a b ws vs : bytes) :
  a ++ ws = b ++ vs -> Forall (fun c => isspace c = true) ws -> Forall (fun c => isspace c = true) vs ->
  match last a with Some d => isspace d = false | None => True end ->
  match last b with Some d => isspace d = false | None => True end -> a = b.
Proof.
  assert (forall (b l : bytes) vs ws, vs = l ++ ws -> Forall (fun c => isspace c = true) vs ->
    match last (b ++ l) with Some d => isspace d = false | None => True end -> l = []) as Haux.
  { intros b0 l vs0 ws0 -> [Hl _]%Forall_app Hlast. destruct l as [|d l _] using rev_ind; [done|].
    rewrite app_assoc, last_snoc in Hlast. apply Forall_app in Hl as [_ Hd]. inversion Hd; congruence. }
  intros E Hw Hv Ha Hb. apply app_eq_app in E as (l & [[-> ->]|[-> ->]]).
  - by rewrite (Haux b l _ ws eq_refl Hv Ha), app_nil_r.
  - by rewrite (Haux a l _ vs eq_refl Hw Hb), app_nil_r.
Qed.

(** ** Interpreters *)

Lemma fgets_split_line room l rest :
  c_lf ∉ l -> (length l < room)%nat -> fgets_split room (l ++ c_lf :: rest) = (l ++ [c_lf], rest).
Proof.
  revert room. induction l as [|c l IH]; intros room Hl Hr; [done|].
  rewrite not_elem_of_cons in Hl. destruct Hl as [Hc Hl]. simpl in Hr. cbn [app fgets_split].
  rewrite (proj2 (Z.eqb_neq c c_lf)) by congruence. rewrite (proj2 (Nat.leb_gt _ _)) by lia. cbn [orb].
  by rewrite IH by (done || lia).
Qed.

Lemma fgets_line sz l rest :
  c_lf ∉ l -> (length l < sz - 1)%nat -> fgets sz (l ++ c_lf :: rest) = Some (l ++ [c_lf], rest).
Proof.
  intros Hl Hs. unfold fgets. rewrite fgets_split_line by done. by destruct l.
Qed.

Lemma first_line_stream `{Windows} `{WinProc} dir prog content :
  (length (dir ++ B "/" ++ prog) < PATH_MAX)%nat ->
  wfopen (to_unicode (dir ++ B "/" ++ prog) PATH_MAX) = Some content ->
  first_line None dir prog
  = Some (until_nul (match fgets PATH_MAX content with Some (l, _) => l | None => [] end)).
Proof.
  intros Hd Hf. unfold first_line, mg_fopen, is_file_in_memory. rewrite (proj2 (Nat.leb_gt _ _)) by done.
  cbn [mbind option_bind]. rewrite Hf. unfold is_file_opened, mg_fgets. cbn [membuf fp].
  by destruct (fgets PATH_MAX content) as [[l r]|].
Qed.

(** A script on disk that starts with a line #!... is run by what the line names, without
    the white space at its end. *)
Lemma interpreter_script `{Windows} `{WinProc} dir prog c i ws rest :
  (length (dir ++ B "/" ++ prog) < PATH_MAX)%nat ->
  wfopen (to_unicode (dir ++ B "/" ++ prog) PATH_MAX) = Some ((B "#!" ++ (c :: i) ++ ws) ++ c_lf :: rest) ->
  cstr ((c :: i) ++ ws) -> c_lf ∉ (c :: i) ++ ws -> Forall (fun c => isspace c = true) ws ->
  match last i with Some d => isspace d = false | None => True end ->
  (length ((c :: i) ++ ws) + 2 < PATH_MAX - 1)%nat ->
  interpreter None None dir prog = Some (c :: i).
Proof.
  intros Hd Hf Hc Hlf Hws Hi Hl. unfold interpreter. erewrite first_line_stream by done.
  rewrite fgets_line.
  2: { rewrite elem_of_app. intros [Hin|?]; [|done]. by apply (proj1 (mem_false c_lf (B "#!")) eq_refl). }
  2: { rewrite length_app. simpl in *. lia. }
  rewrite until_nul_id.
  2: { rewrite <- app_assoc. apply Forall_app. split; [by repeat constructor|]. apply Forall_app. split; [done|by repeat constructor]. }
  rewrite <- app_assoc, (proj2 (starts_with_true _ (B "#!"))) by (by eexists).
  change (drop 2 _) with (c :: (i ++ ws) ++ [c_lf]). rewrite <- app_assoc.
  destruct (trim_spec c (i ++ ws ++ [c_lf])) as (t & vs & -> & E & Hvs & Ht). do 2 f_equal. symmetry.
  eapply trailing_unique; [exact E| |done|done|done]. apply Forall_app. split; [done|by repeat constructor].
Qed.

(** ** Handles *)

Section balance.
Context `{OS} `{Windows} `{WinProc} `{Net} (p0 : proc).

Definition handle_list (h : option Z) : list Z := match h with Some h => [h] | None => [] end.
Definition handle_ok (h : option Z) : Prop := match h with Some h => 0 <= h | None => True end.

Lemma new_handle_rule works bs ds v :
  triple (owns p0 bs ds v) (new_handle works)
    (fun h p => (handle_ok h /\ (if works then h <> None else h = None)) /\ owns p0 bs (handle_list h ++ ds) v p).
Proof.
  unfold new_handle. destruct works; [|intros p Hp; by eexists _, _].
  eapply triple_bind; [apply open_fd_rule|]. intros h. apply triple_and. intros Hh p Hp. by eexists _, _.
Qed.

Lemma CloseHandle_rule h bs ds ds' v :
  handle_ok h -> ds ≡ₚ handle_list h ++ ds' ->
  triple (owns p0 bs ds v) (CloseHandle h) (fun ok p => ok = bool_decide (is_Some h) /\ owns p0 bs ds' v p).
Proof.
  intros Hh Hd. unfold CloseHandle. destruct h as [h|].
  - eapply triple_bind; [by apply (close_rule p0 h bs ds ds')|]. intros [] p Hp. by eexists _, _.
  - intros p Hp. eexists _, _. split; [done|]. split; [done|].
    by apply (owns_perm p0 bs bs ds ds').
Qed.

Lemma cond_init_rule v :
  triple (owns p0 [] [] v) cond_init
    (fun '(r, cv) p => (handle_ok (fst cv) /\ handle_ok (snd cv) /\ (r = 0 -> fst cv <> None /\ snd cv <> None)) /\
       owns p0 [] (handle_list (snd cv) ++ handle_list (fst cv)) v p).
Proof.
  unfold cond_init. eapply triple_bind; [apply new_handle_rule|]. intros s. apply triple_and. intros [Hs _].
  eapply triple_bind; [apply new_handle_rule|]. intros b. apply triple_and. intros [Hb _] p Hp.
  eexists _, _. split; [done|]. rewrite app_nil_r in Hp. split_and!; [done|done| |done]. by destruct s, b.
Qed.

(** A condition variable that could be made leaves nothing behind. *)
Lemma cond_lifetime v :
  triple (owns p0 [] [] v) ('(r, cv) ← cond_init; if r =? 0 then pthread_cond_destroy cv else mret r)
    (fun r p => r = 0 -> owns p0 [] [] v p).
Proof.
  eapply triple_bind; [apply cond_init_rule|]. intros [r [s b]]. apply triple_and. intros (Hs & Hb & Hr0).
  cbn [fst snd] in *. destruct (Z.eqb_spec r 0) as [->|Hr]; [|intros p Hp; by eexists _, _].
  destruct (Hr0 eq_refl) as [Hs' Hb']. unfold pthread_cond_destroy. cbn [fst snd].
  eapply triple_bind; [apply (CloseHandle_rule s _ _ (handle_list b)); [done|apply Permutation_app_comm]|].
  intros ok. apply triple_and. intros ->. destruct s as [s|]; [|done]. rewrite bool_decide_eq_true_2 by done.
  eapply triple_bind; [apply (CloseHandle_rule b _ _ []); [done|by rewrite app_nil_r]|].
  intros ok. apply triple_and. intros -> p Hp. by eexists _, _.
Qed.

(** *** spawn_process *)

(** What the world looks like when the program has been started or not. *)
Definition after_spawn (w : world) (cmdline : bytes) (env : list bytes) (w' : world) : Prop :=
  if CreateProcessA cmdline env then fx w' = fx w ++ [FxExec [cmdline] env []] /\ sent w' = sent w
  else logged w w'.

Lemma spawn_effect w cmdline env text :
  exists w', (if CreateProcessA cmdline env then emit (FxExec [cmdline] env []) else cry text) w = Some (tt, w') /\
    after_spawn w cmdline env w'.
Proof.
  unfold after_spawn. destruct (CreateProcessA cmdline env); [by eexists|]. apply cry_spec.
Qed.

Lemma kill_rule h v : 0 <= h -> triple (owns p0 [] [h] v) (kill h) (fun r p => r = 0 /\ owns p0 [] [] v p).
Proof.
  intros Hh. unfold kill. p_step. eapply triple_bind; [by apply close_rule|]. intros [] p Hp. by eexists _, _.
Qed.

Lemma spawn_close_rule fd_stdin fd_stdout hout hin ht hp v :
  0 <= fd_stdin -> 0 <= fd_stdout -> handle_ok hout -> handle_ok hin -> handle_ok ht ->
  triple (owns p0 [] (handle_list ht ++ handle_list hp ++ handle_list hout ++ handle_list hin ++ [fd_stdin; fd_stdout]) v)
    (spawn_close fd_stdin fd_stdout hout hin ht) (fun _ => owns p0 [] (handle_list hp) v).
Proof.
  intros Hsi Hso Ho Hi Ht. unfold spawn_close.
  eapply triple_bind; [apply (close_rule p0 fd_stdin _ _
    (handle_list ht ++ handle_list hp ++ handle_list hout ++ handle_list hin ++ [fd_stdout])); [done|solve_Permutation]|].
  intros [].
  eapply triple_bind; [apply (close_rule p0 fd_stdout _ _
    (handle_list ht ++ handle_list hp ++ handle_list hout ++ handle_list hin)); [done|solve_Permutation]|].
  intros [].
  eapply triple_bind; [apply (CloseHandle_rule hout _ _ (handle_list ht ++ handle_list hp ++ handle_list hin)); [done|solve_Permutation]|].
  intros o. apply triple_and. intros _.
  eapply triple_bind; [apply (CloseHandle_rule hin _ _ (handle_list ht ++ handle_list hp)); [done|solve_Permutation]|].
  intros i. apply triple_and. intros _.
  eapply triple_bind; [by apply (CloseHandle_rule ht _ _ (handle_list hp))|].
  intros t. apply triple_and. intros _ p Hp. by eexists _, _.
Qed.

(** Up to the attempt to start the program. *)
Lemma spawn_process_rule open_file prog env fd_stdin fd_stdout dir interp v p w :
  0 <= fd_stdin -> 0 <= fd_stdout -> owns p0 [] [fd_stdin; fd_stdout] v p ->
  interpreter open_file (cfg (config_of (cn w)) CGI_INTERPRETER) dir prog = Some interp ->
  let cmdline := command_line interp dir prog in
  exists r p' w', spawn_process open_file prog env fd_stdin fd_stdout dir (p, w) = Some (r, (p', w')) /\
    owns p0 [] (handle_list r) v p' /\ handle_ok r /\
    (if CreateProcessA cmdline env then r <> None else r = None) /\ after_spawn w cmdline env w'.
Proof.
  intros Hi Ho Hp Hint cmdline. unfold spawn_process, mbind, W_bind, on_proc at 1.
  destruct (new_handle_rule (DuplicateHandle fd_stdin) _ _ _ p Hp) as (hin & p1 & -> & [Hin _] & Ho1).
  unfold on_proc at 1. destruct (new_handle_rule (DuplicateHandle fd_stdout) _ _ _ p1 Ho1) as (hout & p2 & -> & [Hout _] & Ho2).
  unfold on_world at 1, get_conn at 1. rewrite Hint. fold cmdline.
  unfold on_proc at 1. destruct (new_handle_rule (CreateProcessA cmdline env) _ _ _ p2 Ho2) as (hp & p3 & -> & [Hhp Hcr] & Ho3).
  unfold on_proc at 1. destruct (new_handle_rule (CreateProcessA cmdline env) _ _ _ p3 Ho3) as (ht & p4 & -> & [Hht _] & Ho4).
  unfold on_world at 1.
  destruct (spawn_effect w cmdline env (B "spawn_process: CreateProcess(" ++ cmdline ++ B "): " ++ dec GetLastError))
    as (w1 & -> & Hw1).
  unfold on_proc. destruct (spawn_close_rule fd_stdin fd_stdout hout hin ht hp v Hi Ho Hout Hin Hht p4 Ho4) as ([] & p5 & -> & Ho5).
  by exists hp, p5, w1.
Qed.
End balance.

(** C16. A CGI program is started on Windows without losing a handle: [spawn_process] runs
    the interpreter of the script on it, or the program itself, with the environment it is
    given; it closes the two ends of the pipes it is given, their duplicates and the handle
    of the thread, whether the handles could be duplicated and the program started or not;
    what is left is the handle of the process, and [kill] closes that.  When the program
    cannot be started, the connection has only seen messages. *)
Theorem win_spawn_balanced `{OS} `{Windows} `{WinProc} `{Net} (open_file : option (bytes -> option bytes))
    (prog : bytes) (env : list bytes) (fd_stdin fd_stdout : Z) (dir interp : bytes) (v : ssl_state) (p0 p : proc) (w : world) :
  0 <= fd_stdin -> 0 <= fd_stdout -> owns p0 [] [fd_stdin; fd_stdout] v p ->
  interpreter open_file (cfg (config_of (cn w)) CGI_INTERPRETER) dir prog = Some interp ->
  let cmdline := command_line interp dir prog in
  exists r p' w', spawn_process open_file prog env fd_stdin fd_stdout dir (p, w) = Some (r, (p', w')) /\
    if CreateProcessA cmdline env then
      fx w' = fx w ++ [FxExec [cmdline] env []] /\ sent w' = sent w /\
      exists h p'', r = Some h /\ kill h p' = Some (0, p'') /\ owns p0 [] [] v p''
    else r = None /\ logged w w' /\ owns p0 [] [] v p'.
Proof.
  intros Hi Ho Hp Hint cmdline.
  destruct (spawn_process_rule p0 open_file prog env fd_stdin fd_stdout dir interp v p w Hi Ho Hp Hint)
    as (r & p' & w' & E & Hown & Hok & Hr & Hw).
  exists r, p', w'. split; [done|]. unfold after_spawn in Hw. fold cmdline in Hr, Hw.
  destruct (CreateProcessA cmdline env).
  - destruct Hw as [Hfx Hs]. destruct r as [h|]; [|done]. split_and!; [done|done|]. exists h.
    destruct (kill_rule p0 h v Hok p' Hown) as (z & p'' & Ek & -> & Hf). by exists p''.
  - subst r. by split_and!.
Qed.

Definition small_proc (content : bytes) : WinProc := {|
  CreateMutex_works := true; CreateEvent_works _ := true; beginthread := 5;
  wfopen _ := Some content; LoadLibraryW _ := None; DuplicateHandle _ := true;
  GetFullPathNameA s := B "C:\" ++ s; CreateProcessA _ _ := true; GetLastError := 2
|}.

Lemma win_spawn_balanced_witness :
  let os := small_os [] [] in
  let win := small_windows [] some_data [] [] in
  let wp := small_proc (B "#!perl " ++ [13; 10] ++ B "print") in
  let w := quiet idle_conn [] in
  exists r p' w',
    @spawn_process os win wp simple_net None (B "a.pl") [B "A=1"] 3 4 (B "cgi") (set_fds [3; 4] new_proc, w)
      = Some (r, (p', w')) /\
    fx w' = fx w ++ [FxExec [B "C:\perl C:\cgi\a.pl"] [B "A=1"] []] /\ sent w' = sent w /\
    exists h p'', r = Some h /\ kill h p' = Some (0, p'') /\ owns new_proc [] [] (p_ssl new_proc) p''.
Proof.
  intros os win wp w.
  exact (@win_spawn_balanced os win wp simple_net None (B "a.pl") [B "A=1"] 3 4 (B "cgi") (B "perl") (p_ssl new_proc)
    new_proc (set_fds [3; 4] new_proc) w ltac:(done) ltac:(done) ltac:(by constructor) eq_refl).
Defined.
